(* ===== verification/_CoqProject ===== *)
-Q . S2P
Prelude.v
Effects.v
GoStrings.v
Api.v
ConcurrentMap.v
BlockingLatch.v
BlockingPool.v
ClientIds.v
Provider.v
RateLimiter.v
Compression.v
Stream.v
Amqp.v
Shim.v
Notify.v
BrokerState.v
BrokerDeclare.v
BrokerTopology.v
BrokerAck.v
Settling.v
BrokerRetry.v
BrokerConnect.v
BrokerPublish.v
BrokerSubscribe.v
Custody.v
StreamWindow.v
Server.v
Sessions.v
Consume.v
Publish.v
Health.v
DeliveryPath.v
BrokerStats.v
BrokerTypes.v
PublishPath.v
AmqpProvider.v
Requests.v
Flags.v
Tracing.v
ArkeServer.v
Limits.v
Announce.v
ProcessMonitor.v
LoadClient.v
LoadPublisher.v
LoadConsumer.v
LoadConnections.v
LoadTui.v
LoadMain.v
LoadView.v
Translations.v
Messages.v
Logging.v
