(* ===== verification/Prelude.v ===== *)
(** * Arke: a verification development for the message broker proxy

    Arke is a gRPC server between clients and message brokers. A client
    connects, and its requests to publish, to consume and to acknowledge are
    handed to a provider, which speaks the broker's protocol; the provider in
    this repository speaks AMQP 0.9.1 and the RabbitMQ stream protocol. Beside
    the server the repository has a client that puts it under load, with a user
    interface for a terminal. All file names below are relative to [internal/],
    unless they say otherwise.

    ** How the code is modelled

    A function of the source that touches shared state is a program
    ([Prelude.prog]): a function of a state to an outcome and a state, where the
    outcome is a value, a panic with its message, or a wait that nobody ends.
    [defer] and [recover] are combinators of programs. Pointers are addresses
    into a map of objects, so that aliasing is what it is in Go. Integers are
    [Z], with the wrap-around of their width written out ([int32], [int64],
    [uint]); strings are sequences of bytes; floating point is [spec_float] of
    the Standard Library, at the widths of the source. A map of Go is a [gmap],
    and the order in which [range] walks one is a parameter ([MapRange]).

    Code that is not in the repository is asked through an interface
    ([Effects]): the inductive type of the calls, the type of the reply to each,
    and an oracle that answers them, any function of a state of its own. What is
    called is logged, and what the program sends is what its log says.
    Theorems hold for every oracle, or for every oracle with a documented
    property, which is then a class with an instance ([Returns]: calls return;
    [Steady]: the same call is always answered alike; [Lists]: the management
    API lists the bindings of a queue; [Opens]: the broker opens the channels it
    is asked for; [Receiving]: a client takes its responses;
    [Answering]: a server answers the load client;
    [Clock]: time does not go back; [GzipLaws]: reading undoes writing;
    [TokenBucket]: the limiter of golang.org/x/time/rate).

    Concurrency is interleaving: components whose steps matter are machines
    ([BlockingLatch], [BlockingPool], [Notify], [Provider], [Consume], [Publish],
    [Health], [Settling]), with one step per atomic action of the source, and
    theorems over all schedules. The handlers of the provider run as a whole,
    but for those that settle deliveries, of which the server runs several at
    a time: in [Settling] they interleave, in three steps each. Where a handler
    sleeps, what the others do meanwhile is the class [Others]. On a pool of
    [BlockingPool], to receive an item, to validate it and to count it out is one
    step. A publisher of
    the load client is the sequence of the turns of its loop and of the moments
    at which it is stopped; its user interface is the sequence of the messages
    it handles, and an operation on its connections runs as a whole.

    ** The parts

    - [Prelude], [Effects], [GoStrings]: programs, calls, Go's string functions.
    - [Api] ([api/arke.pb.go]): the messages and their getters.
    - [ConcurrentMap], [BlockingLatch], [BlockingPool], [ClientIds]
      ([util/concurrentMap.go], [blocking_latch.go], [blocking_pool.go],
      [util.go]): the locked map; the latch behind the prefetch window; the pool
      of channels; client identifiers (with SHA-256) and the configuration.
    - [Provider] ([provider/provider.go], [constants.go]): the registry of
      providers. [RateLimiter] ([server/ratelimiter/ratelimiter.go]).
    - The AMQP provider ([provider/connectors/amqp091/]): [Compression]
      ([compression.go]); [Stream] ([streamshim.go], [streamhelpers.go]); [Amqp]
      and [Shim] ([amqp091shim.go], [amqp091helpers.go]): the interface [Shim]
      the provider calls, and the shim that implements it for AMQP; [Notify]: the
      goroutine that hands on the news of a closed connection; and
      [amqp091.go] with [cleaner.go] by concern: [BrokerState] (the shared
      objects), [BrokerDeclare], [BrokerAck], [BrokerConnect], [BrokerPublish],
      [BrokerSubscribe], [BrokerStats]. [BrokerTopology] says which queues and
      bindings a source gets, and [BrokerRetry] what a retry sends. [Settling]
      lets the handlers of acknowledgements interleave, and [Custody] deliveries
      with them; [StreamWindow] puts handlers and latch together; [BrokerTypes]
      all handlers.
    - The server ([server/server.go]): [Server] (connections and unary calls),
      [Sessions] (their specification, and the class [Roster] of what the server
      relies on), [Consume] and [Publish] (the two streams), [Health] (with
      [util/safe_buffer.go] and [util/metrics.go]).
    - [AmqpProvider]: the provider of the [Broker] files as an implementation of
      the interface the server calls, with the laws of [Roster]. [PublishPath]
      and [DeliveryPath] put a stream of the server and the provider's handler
      together, for a message on its way to the broker and on its way back.
    - Around the server: [Requests] ([server/prometheus/interceptors.go],
      [metrics/]): what is measured of a request, and the endpoint of the
      metrics; [Tracing] ([util/tracing/tracing.go]), with the interface [Os] of
      what starting the server asks of its host; [ArkeServer]
      ([pkg/arke/arke.go], [cmd/serve.go]), with [Flags], the parser of a command
      line: how a server is put together from its settings, listens, serves and
      ends; [Limits] ([util/cgroups.go],
      [util/k8s.go]): the limits of the host and the monitor of the replicas;
      [Announce]: how the news of that monitor reaches the clients;
      [ProcessMonitor] ([util/processMonitor_linux.go], [_darwin.go]): the
      measurements that [Health] reports.
    - The load client ([tools/anarkey/]): [LoadClient] ([types.go]): its data,
      its files and counters, its objects and what it calls; [LoadPublisher] and
      [LoadConsumer] ([publisher.go], [consumer.go]): one stream of each kind;
      [LoadConnections] ([connection.go], and the functions of the two other
      files on connections): how many there are; [LoadTui] and [LoadView]
      ([tui.go]): what the user interface does and what it shows; [LoadMain]
      ([main.go], [logger.go]): the program.
    - [Translations] ([i18n/message_loader.go], [oslocale.go],
      [oslocale_unix.go]): the language of the log and its texts; [Messages]
      ([i18n/messages.go] and the English properties file); [Logging]
      ([util/logger.go], [zerolog.go], [file_logger.go]): the logger.

    ** How the parts interact

    The server's handlers call a provider through [Srv] (the Go interface
    [provider.Provider], the gRPC streams, the operating system); the provider
    calls the broker through [Shim], and is given the events its long-running
    handlers receive. [AmqpProvider.amqp_srv] answers a call of [Srv] by running
    the provider's handler on its world, so that a theorem proved against
    [Roster] holds for server and provider together. [ProcessMonitor] fills the
    buffers of [Health.Metrics] under the limits of [Limits.Cgroups]. The load
    client runs on a heap of its own ([LoadClient.load]), which the user
    interface holds as a part of its model; the server it talks to is the
    oracle of [LoadClient.Arke].

    ** What the theorems show

    Messages: however requests to settle deliveries interleave, a delivery is
    settled with the broker at most once, and leaves the table exactly then, as
    long as no two requests for one identifier overlap ([Settling], which shows
    that two that do can settle it twice); every delivery is either settled or
    held ([Custody], with what the code drops named); what is delivered is sent
    to the client in the order of the broker, without a gap, and completely if
    the client takes it ([DeliveryPath]); messages reach the broker in the order
    in which the client sends them, with one true answer each ([PublishPath]);
    what a retry declares, sends and settles, call by call, and where its copy
    waits ([BrokerRetry], and [BrokerTopology.refused_queue_known] for how a copy
    is lost all the same); a reconnect forgets the deliveries of the old
    connection ([BrokerConnect]); a success of a confirmed message means that the
    broker has confirmed ([Shim]), or that the stream's publisher has reported
    some confirmation ([BrokerPublish]); what comes back of a message for a
    stream, for every message ([Stream], a round trip); what a client is told of
    an acknowledgement, whatever the broker's library does with it
    ([AmqpProvider]); and a message that was redelivered too often is dropped at
    the threshold ([Shim]).
    Topology: the arguments a queue is declared with and the bindings that are
    made and deleted are those its source asks for ([BrokerTopology]).
    Answers: every acknowledgement and every message of a client is answered
    exactly once, in any interleaving ([Consume], [Publish]), with the cases in
    which answers go astray. Clients: the server's operations implement the
    specification of sessions, and no connection to a broker is left over for a
    client the server has forgotten ([Sessions], [AmqpProvider]); what
    connecting, disconnecting, cleaning and reconnecting do exactly
    ([BrokerConnect], [Server]). Bounds: the latch, the pool, the prefetch
    window, the rate. Termination: a wait for a connection ends. Types: all
    handlers keep the provider well formed ([BrokerTypes]). Health: the ring
    buffer is the window of the last measurements, the report is a function of
    the last minute, a client is notified on its newest stream, and the monitor
    waits for no stream for ever, but panics on a closed channel ([Health],
    [ProcessMonitor]). Around the server: which settings turn the rate limiter
    and TLS on and how the program ends ([ArkeServer]), how requests are counted
    ([Requests]), when clients are told to go elsewhere and that each of them is
    told once for every rise ([Limits], [Announce]), and that the
    end of a connection is told once ([Notify]). The load client: a publisher
    sends exactly the messages it was given and never more ([LoadPublisher]), a
    consumer acknowledges what it receives, once and in order ([LoadConsumer]),
    scaling leaves as many connections as were asked for and closes the others
    ([LoadConnections]), the user interface can always be shown ([LoadTui],
    [LoadMain]), and does not show the password ([LoadView]). Texts: filling in
    arguments one by one is filling them in at once ([Translations]), and the
    keys without a text ([Messages]). Where the code does not do what it means
    to, a lemma proves it, and its comment says so.

    ** Bounds and fuel

    [BrokerConnect.waitWhileConnecting] runs 301 turns of 100 ms, which covers
    its 30 s, and [WaitForConnect] 151 turns of at least 100 ms, which covers its
    15 s: with a clock neither runs out, which is part of their theorems.
    [BlockingPool.Get] as a program takes at most seven steps of its machine
    before it returns or waits, with fuel for eight. Loops that only an event
    ends ([connectionWatcher], the loops of the streams, [ConnectionWatcher])
    are programs over the list of the events they receive, of any length;
    [reconnect] has the number of tries it may take as an argument. The loop of
    a publisher is run for the turns it is given; one more than it has messages
    to send is enough for it to end, which is part of its theorem. Parsers of
    strings have the length of their text as fuel.

    ** Not modelled

    Generated gRPC stubs; the registration of the standard health service, the
    gRPC server, the multiplexer and the HTTP server, which are calls; the
    logging, tracing and metrics libraries themselves; the memory limit of the
    runtime that [pkg/arke/arke.go] sets; [i18n/oslocale_windows.go], which asks
    the Windows API; the flags and the terminal library of the load client, and
    its log messages; test drivers and examples. JSON decoding, gzip, the HTTP client, the AMQP and stream
    libraries, the token bucket and the tags of languages are parameters. The
    data races of Go's memory model are not modelled: a step of a machine reads
    and writes as if nobody else did. *)

From stdpp Require Import base gmap strings list fin_maps option.
From Stdlib Require Import ZArith Lia.

(** ** Go values the model shares *)

(** A Go [error]: [None] is [nil], [Some s] an error whose [Error()] is [s]. *)
Abbreviation error := (option string).

(** A byte slice. *)
Abbreviation bytes := (list Byte.byte).

(** Dynamic values stored in an [interface{}] slot of a header table.
    [VOther ty txt] is a value of any other dynamic type, with its [%T] and
    its [%v] rendering. *)
Inductive gval :=
  | VString (s : string)
  | VBool (b : bool)
  | VInt (z : Z)
  | VInt32 (z : Z)
  | VInt64 (z : Z)
  | VOther (ty txt : string).

#[export] Instance gval_eq_dec : EqDecision gval.
Proof. solve_decision. Defined.

(** Two's complement wrap-around of Go's fixed-width signed integers. *)
Definition wrap (w z : Z) : Z := (z + 2 ^ (w - 1)) mod 2 ^ w - 2 ^ (w - 1).
Definition int32 (z : Z) : Z := wrap 32 z.
Definition int64 (z : Z) : Z := wrap 64 z.
(** Conversion to the unsigned integers of width 8, 32 and 64. *)
Definition uint (w z : Z) : Z := z mod 2 ^ w.

Definition in_int32 (z : Z) : Prop := (- 2 ^ 31 <= z < 2 ^ 31)%Z.
Definition in_int64 (z : Z) : Prop := (- 2 ^ 63 <= z < 2 ^ 63)%Z.

(** ** Computations that may panic and that run on a shared state *)

(** What a Go call does: it returns, it panics with a value that prints as
    [why], or it waits for ever for something that nobody will do. *)
Inductive outcome (A : Type) :=
  | Ret (a : A)
  | Panic (why : string)
  | Block.
Arguments Ret {A} a.
Arguments Panic {A} why.
Arguments Block {A}.

Definition is_ret {A} (o : outcome A) : bool := match o with Ret _ => true | _ => false end.

#[export] Instance outcome_eq_dec `{EqDecision A} : EqDecision (outcome A).
Proof. solve_decision. Defined.

Definition prog (S A : Type) : Type := S → outcome A * S.

#[export] Instance prog_ret S : MRet (prog S) := λ A a s, (Ret a, s).
#[export] Instance prog_bind S : MBind (prog S) := λ A B f m s,
  match m s with
  | (Ret a, s') => f a s'
  | (Panic why, s') => (Panic why, s')
  | (Block, s') => (Block, s')
  end.

Definition get {S} : prog S S := λ s, (Ret s, s).
Definition put {S} (s : S) : prog S () := λ _, (Ret (), s).
Definition modify {S} (f : S → S) : prog S () := λ s, (Ret (), f s).
Definition gets {S A} (f : S → A) : prog S A := λ s, (Ret (f s), s).
Definition panic {S A} (why : string) : prog S A := λ s, (Panic why, s).
Definition block {S A} : prog S A := λ s, (Block, s).
Definition of_outcome {S A} (o : outcome A) : prog S A := λ s, (o, s).

(** [recover m h]: run [m]; when it panics, [h] decides the result from the
    recovered value (a deferred function that calls [recover()]). *)
Definition recover {S A} (m : prog S A) (h : string → prog S A) : prog S A :=
  λ s, match m s with
       | (Ret a, s') => (Ret a, s')
       | (Panic why, s') => h why s'
       | (Block, s') => (Block, s')
       end.

(** [defer m d]: run [m] and then the deferred [d], on a return and on a
    panic. *)
Definition defer {S A} (m : prog S A) (d : prog S ()) : prog S A :=
  λ s, match m s with
       | (Block, s1) => (Block, s1)
       | (r, s1) =>
           match d s1 with
           | (Ret _, s2) => (r, s2)
           | (Panic why, s2) => (Panic why, s2)
           | (Block, s2) => (Block, s2)
           end
       end.

(** A [for ... range] loop over a slice; the body can stop the enclosing
    function early by returning [Some r]. *)
Fixpoint for_range {S A R} (l : list A) (body : A → prog S (option R)) : prog S (option R) :=
  match l with
  | [] => mret None
  | x :: l' =>
      r ← body x;
      match r with
      | Some v => mret (Some v)
      | None => for_range l' body
      end
  end.

(** A loop whose body never leaves the enclosing function. *)
Fixpoint for_each {S A} (l : list A) (body : A → prog S ()) : prog S () :=
  match l with
  | [] => mret ()
  | x :: l' => body x;; for_each l' body
  end.

(** What a loop has established for each element when it returns: the body
    establishes it for its element and keeps it for the others. *)
Lemma for_each_post {S A} (P : A → S → Prop) (l : list A) (body : A → prog S ()) s s' :
  (∀ x s s', body x s = (Ret (), s') → P x s') → (∀ x y s s', P x s → body y s = (Ret (), s') → P x s') →
  for_each l body s = (Ret (), s') → Forall (λ x, P x s') l.
Proof.
  intros Hnew Hold. revert s. induction l as [|x l IH]; intros s; [done|]. cbn [for_each].
  unfold mbind, prog_bind. destruct (body x s) as [[[]|why|] s1] eqn:Hb; [|done..]. intros Hl.
  constructor; [|by eapply IH]. specialize (Hnew x s s1 Hb). clear Hb IH s. revert s1 Hl Hnew.
  induction l as [|y l IH]; intros s1; cbn [for_each]; [by intros [= <-]|].
  unfold mbind, prog_bind. destruct (body y s1) as [[[]|why|] s2] eqn:Hb; [|done..]. intros Hl Hx.
  by eapply IH, Hold.
Qed.

(** The final state and the result of a run. *)
Definition run_state {S A} (m : prog S A) (s : S) : S := snd (m s).
Definition run_result {S A} (m : prog S A) (s : S) : outcome A := fst (m s).

(** ** Iteration over a Go map *)

(** [range] over a Go map visits every entry once, in an order the language
    leaves open. Programs that iterate take the order from this interface, so
    their theorems hold for every order. *)
Class MapRange := {
  map_range : ∀ {V : Type}, gmap string V → list (string * V);
  map_range_perm : ∀ V (m : gmap string V), map_range m ≡ₚ map_to_list m
}.

(** The order of stdpp's own enumeration, used to run the model. *)
Definition default_range : MapRange := {|
  map_range V m := map_to_list m;
  map_range_perm V m := Permutation_refl _
|}.

(** The opposite order: with [default_range] it shows that the laws leave
    the order open. *)
Definition reverse_range : MapRange := {|
  map_range V m := reverse (map_to_list m);
  map_range_perm V m := reverse_Permutation (map_to_list m)
|}.

Create HintDb arke.

(** ** Lemmas *)

Section map_range.
Context `{MR : MapRange}.

Lemma elem_of_map_range {V} (m : gmap string V) k v :
  (k, v) ∈ map_range m ↔ m !! k = Some v.
Proof. by rewrite map_range_perm, elem_of_map_to_list. Qed.

Lemma map_range_NoDup {V} (m : gmap string V) : NoDup (map_range m).*1.
Proof. rewrite map_range_perm. apply NoDup_fst_map_to_list. Qed.

Lemma map_range_nil {V} (m : gmap string V) : map_range m = [] ↔ m = ∅.
Proof.
  split; intros H.
  - apply map_to_list_empty_iff, Permutation_nil_r. by rewrite <- map_range_perm, H.
  - apply Permutation_nil_r. by rewrite map_range_perm, H, map_to_list_empty.
Qed.

Lemma list_to_map_range {V} (m : gmap string V) : list_to_map (map_range m) = m.
Proof.
  rewrite <- (list_to_map_to_list m) at 2.
  apply list_to_map_proper; [apply map_range_NoDup | apply map_range_perm].
Qed.
End map_range.

Lemma alter_at {V} (f : V → V) l v (m : gmap nat V) : m !! l = Some v → alter f l m = <[l := f v]> m.
Proof.
  intros Hl. apply map_eq. intros k. destruct (decide (k = l)) as [->|Hk].
  - by rewrite lookup_alter_eq, lookup_insert_eq, Hl.
  - by rewrite lookup_alter_ne, lookup_insert_ne by done.
Qed.

(** *** Counting the elements of a pool of threads *)

Definition count_if {A} (f : A → bool) (l : list A) : Z :=
  Z.of_nat (length (filter (λ x, f x = true) l)).

Definition b2z (b : bool) : Z := if b then 1 else 0.

Section count_if.
Context {A : Type} (f : A → bool).

Lemma count_if_nil : count_if f [] = 0%Z.
Proof. done. Qed.

Lemma count_if_cons x l : count_if f (x :: l) = (b2z (f x) + count_if f l)%Z.
Proof. unfold count_if. rewrite filter_cons. case_decide as H; rewrite ?H; cbn [length];
  [cbn [b2z]; lia|]. destruct (f x); [done|]. cbn [b2z]. lia. Qed.

Lemma count_if_nonneg l : (0 <= count_if f l)%Z.
Proof. unfold count_if. lia. Qed.

(** Replacing the state of thread [i] changes the count by what the thread
    itself contributes. *)
Lemma count_if_insert l i x y :
  l !! i = Some x → count_if f (<[i:=y]> l) = (count_if f l - b2z (f x) + b2z (f y))%Z.
Proof.
  revert i. induction l as [|z l IH]; intros [|i] Hi; simplify_eq/=.
  - rewrite !count_if_cons. lia.
  - rewrite !count_if_cons, (IH i) by done. lia.
Qed.

Lemma count_if_pos l i x : l !! i = Some x → f x = true → (1 <= count_if f l)%Z.
Proof.
  revert i. induction l as [|z l IH]; intros [|i] Hi Hf; simplify_eq/=; rewrite count_if_cons.
  - rewrite Hf. pose proof (count_if_nonneg l). cbn. lia.
  - specialize (IH i Hi Hf). destruct (f z); cbn; lia.
Qed.

Lemma count_if_zero l : count_if f l = 0%Z ↔ Forall (λ x, f x = false) l.
Proof.
  induction l as [|x l IH]; [by split|].
  rewrite count_if_cons, Forall_cons_iff. pose proof (count_if_nonneg l).
  destruct (f x); cbn; split.
  - lia.
  - by intros [? _].
  - intros ?. split; [done|]. apply IH. lia.
  - intros [_ ?%IH]. lia.
Qed.
End count_if.

Lemma count_if_alter {A} (f : A → bool) (g : A → A) l i :
  (∀ x, f (g x) = f x) → count_if f (alter g i l) = count_if f l.
Proof.
  intros Hf. revert i. induction l as [|x l IH]; intros [|i]; cbn; rewrite ?count_if_cons;
    [done..|by rewrite Hf|by rewrite IH].
Qed.

Lemma count_if_le {A} (f g : A → bool) l :
  (∀ x, f x = true → g x = true) → (count_if f l <= count_if g l)%Z.
Proof.
  intros H. induction l as [|x l IH]; [done|]. rewrite !count_if_cons.
  destruct (f x) eqn:Hf; [rewrite (H x Hf); cbn; lia|]. destruct (g x); cbn; lia.
Qed.

Lemma count_if_le_length {A} (f : A → bool) l : (count_if f l <= Z.of_nat (length l))%Z.
Proof. unfold count_if. pose proof (length_filter (λ x, f x = true) l). lia. Qed.

(** The last of a nonempty list does not depend on the default. *)
Lemma last_cons_default {A} (n c : A) l : List.last (n :: l) c = List.last l n.
Proof. revert n c. induction l as [|m l IH]; intros n c; [done|]. exact (eq_trans (IH m c) (eq_sym (IH m n))). Qed.

Lemma count_if_app {A} (f : A → bool) l1 l2 :
  count_if f (l1 ++ l2) = (count_if f l1 + count_if f l2)%Z.
Proof. unfold count_if. rewrite list.filter_app, length_app. lia. Qed.

Lemma count_if_delete {A} (f : A → bool) l i x :
  l !! i = Some x → count_if f (delete i l) = (count_if f l - b2z (f x))%Z.
Proof.
  revert i. induction l as [|y l IH]; intros [|i] Hi; simplify_eq/=; rewrite ?count_if_cons.
  - lia.
  - rewrite (IH i Hi). lia.
Qed.

(** *** Machine integers *)

Lemma wrap_small w z : (0 < w)%Z → (- 2 ^ (w - 1) <= z < 2 ^ (w - 1))%Z → wrap w z = z.
Proof.
  intros Hw Hz. unfold wrap.
  assert (2 ^ w = 2 * 2 ^ (w - 1))%Z as Hp by (rewrite <- Z.pow_succ_r by lia; f_equal; lia).
  rewrite Z.mod_small; lia.
Qed.

Lemma wrap_range w z : (0 < w)%Z → (- 2 ^ (w - 1) <= wrap w z < 2 ^ (w - 1))%Z.
Proof.
  intros Hw. unfold wrap.
  assert (2 ^ w = 2 * 2 ^ (w - 1))%Z as Hp by (rewrite <- Z.pow_succ_r by lia; f_equal; lia).
  pose proof (Z.mod_pos_bound (z + 2 ^ (w - 1)) (2 ^ w)). lia.
Qed.

(** Wrapping early changes nothing. *)
Lemma wrap_add w a b : wrap w (wrap w a + b) = wrap w (a + b).
Proof.
  unfold wrap. f_equal.
  replace ((a + 2 ^ (w - 1)) mod 2 ^ w - 2 ^ (w - 1) + b + 2 ^ (w - 1))%Z
    with ((a + 2 ^ (w - 1)) mod 2 ^ w + b)%Z by lia.
  rewrite Zplus_mod_idemp_l. f_equal. lia.
Qed.

Lemma int32_small z : in_int32 z → int32 z = z.
Proof. intros H. apply wrap_small; [lia|exact H]. Qed.

Lemma int64_small z : in_int64 z → int64 z = z.
Proof. intros H. apply wrap_small; [lia|exact H]. Qed.

Lemma int32_add_l x y : int32 (int32 x + y) = int32 (x + y).
Proof.
  unfold int32, wrap. f_equal. set (m := (2 ^ 32)%Z). set (h := (2 ^ (32 - 1))%Z).
  replace ((x + h) mod m - h + y + h)%Z with ((x + h) mod m + y)%Z by lia.
  rewrite Z.add_mod_idemp_l by (unfold m; lia). f_equal. lia.
Qed.

Lemma int32_range z : in_int32 (int32 z).
Proof. apply (wrap_range 32). lia. Qed.

Lemma int64_range z : in_int64 (int64 z).
Proof. apply (wrap_range 64). lia. Qed.

Lemma uint_small w z : (0 <= z < 2 ^ w)%Z → uint w z = z.
Proof. apply Z.mod_small. Qed.

#[export] Hint Resolve int32_range int64_range : arke.

(** *** Runs *)

(** Unfold the state-passing layer of a program. *)
Ltac prog_unfold :=
  unfold mbind, prog_bind, mret, prog_ret, get, put, modify, gets, panic,
    block, of_outcome, run_state, run_result in *.

Lemma bind_ret_l {S A B} (a : A) (f : A → prog S B) (s : S) : (mret a ≫= f) s = f a s.
Proof. done. Qed.

Lemma bind_run {S A B} (m : prog S A) (f : A → prog S B) s a s' :
  m s = (Ret a, s') → (m ≫= f) s = f a s'.
Proof. intros Hm. unfold mbind, prog_bind. by rewrite Hm. Qed.

Lemma bind_stuck {S A B} (m : prog S A) (f : A → prog S B) s why s' :
  m s = (Panic why, s') → (m ≫= f) s = (Panic why, s').
Proof. intros Hm. unfold mbind, prog_bind. by rewrite Hm. Qed.

Lemma run_intro {S A} (m : prog S A) s o : run_result m s = o → m s = (o, run_state m s).
Proof. intros <-. unfold run_result, run_state. by destruct (m s). Qed.

Lemma bind_ret_inv {S A B} (m : prog S A) (f : A → prog S B) s b s' :
  (m ≫= f) s = (Ret b, s') → ∃ a s1, m s = (Ret a, s1) ∧ f a s1 = (Ret b, s').
Proof. unfold mbind, prog_bind. destruct (m s) as [[a|why|] s1]; [|done..]. intros Hf. by exists a, s1. Qed.

Lemma bind_assoc {S A B C} (m : prog S A) (f : A → prog S B) (g : B → prog S C) (s : S) :
  ((m ≫= f) ≫= g) s = (m ≫= (λ a, f a ≫= g)) s.
Proof. prog_unfold. by destruct (m s) as [[]]. Qed.

(** An invariant of every body is an invariant of the loop. *)
Lemma for_each_inv {S A} (P : S → Prop) (body : A → prog S ()) l s :
  (∀ x s, x ∈ l → P s → P (run_state (body x) s)) → P s → P (run_state (for_each l body) s).
Proof.
  revert s. induction l as [|x l IH]; intros s Hb HP; cbn; [done|].
  prog_unfold. pose proof (Hb x s) as Hx. prog_unfold.
  destruct (body x s) as [[[]|why|] s1]; cbn in *; [|apply Hx; set_solver..].
  apply IH; [|apply Hx; set_solver]. intros y s' Hy. apply Hb. set_solver.
Qed.
