(* ===== verification/Effects.v ===== *)
(** * Programs that call code outside the development

    An [Interface] lists the calls a component can make and the type of the
    reply to each. What answers them is an [Oracle]: any deterministic
    function of a state [E] of its own, so a theorem that holds for every
    oracle holds for every behaviour of the other side. A [world] is the
    component's state, the oracle's state, and the log of all calls with their
    outcomes, oldest first: properties about what a component sends are
    properties of its log. *)

From stdpp Require Import base gmap strings list fin_maps option.
From Stdlib Require Import ZArith Lia.
From S2P Require Import Prelude.

Record Interface := { icall : Type; ireply : icall → Type }.

(** A logged call with its outcome. *)
Definition event (I : Interface) : Type := {c : icall I & outcome (ireply I c)}.

Class Oracle (I : Interface) (E : Type) :=
  answer : ∀ c : icall I, E → outcome (ireply I c) * E.

(** An outside none of whose calls panics or hangs. *)
Class Returns (I : Interface) (E : Type) `{Oracle I E} :=
  returns : ∀ (c : icall I) e, ∃ r e', answer c e = (Ret r, e').

Section world.
Context {I : Interface} {E S : Type}.

Record world := { st : S; env : E; log : list (event I) }.

Definition set_st (s : S) (w : world) : world := {| st := s; env := env w; log := log w |}.

(** Reading and updating the component's own state. *)
Definition reads {A} (f : S → A) : prog world A := gets (λ w, f (st w)).
Definition writes (f : S → S) : prog world () := modify (λ w, set_st (f (st w)) w).

(** Running a computation on the component's state alone. *)
Definition local {A} (m : prog S A) : prog world A := λ w,
  let '(o, s) := m (st w) in (o, set_st s w).

(** A call to the other side. *)
Definition ext `{Oracle I E} (c : icall I) : prog world (ireply I c) := λ w,
  let '(o, e) := answer c (env w) in
  (o, {| st := st w; env := e; log := log w ++ [existT c o] |}).

Lemma reads_bind {A B} (f : S → A) (k : A → prog world B) w : (reads f ≫= k) w = k (f (st w)) w.
Proof. done. Qed.

Lemma writes_bind {B} (f : S → S) (k : () → prog world B) w :
  (writes f ≫= k) w = k () (set_st (f (st w)) w).
Proof. done. Qed.

(** ** Which calls a program makes *)

(** [emits P m]: whatever the world, [m] adds to the log only calls that
    satisfy [P]. *)
Definition emits {A} (P : icall I → Prop) (m : prog world A) : Prop :=
  ∀ w, ∃ l, log (snd (m w)) = log w ++ l ∧ Forall (λ e, P (projT1 e)) l.

Lemma emits_ret {A} P (a : A) : emits P (mret a).
Proof. intros w. exists []. by rewrite app_nil_r. Qed.

Lemma emits_panic {A} P why : emits P (panic (A := A) why).
Proof. intros w. exists []. by rewrite app_nil_r. Qed.

Lemma emits_block {A} P : emits P (block (A := A)).
Proof. intros w. exists []. by rewrite app_nil_r. Qed.

Lemma emits_reads {A} P (f : S → A) : emits P (reads f).
Proof. intros w. exists []. by rewrite app_nil_r. Qed.

Lemma emits_writes P f : emits P (writes f).
Proof. intros w. exists []. by rewrite app_nil_r. Qed.

Lemma emits_local {A} P (m : prog S A) : emits P (local m).
Proof.
  intros w. exists []. rewrite app_nil_r. unfold local. by destruct (m (st w)).
Qed.

Lemma emits_ext `{Oracle I E} (P : icall I → Prop) c : P c → emits P (ext c).
Proof.
  intros HP w. unfold ext. destruct (answer c (env w)) as [o e]. exists [existT c o]. split; [done|].
  by constructor.
Qed.

Lemma emits_bind {A B} P (m : prog world A) (f : A → prog world B) :
  emits P m → (∀ a, emits P (f a)) → emits P (m ≫= f).
Proof.
  intros Hm Hf w. destruct (Hm w) as (l & Hl & HP). unfold mbind, prog_bind.
  destruct (m w) as [[a|why|] w1]; [|by exists l..].
  destruct (Hf a w1) as (l' & Hl' & HP'). cbn in Hl.
  exists (l ++ l'). split; [by rewrite Hl', Hl, app_assoc|]. by apply Forall_app.
Qed.

Lemma emits_recover {A} P (m : prog world A) h :
  emits P m → (∀ why, emits P (h why)) → emits P (recover m h).
Proof.
  intros Hm Hh w. destruct (Hm w) as (l & Hl & HP). unfold recover.
  destruct (m w) as [[a|why|] w1]; [by exists l| |by exists l].
  destruct (Hh why w1) as (l' & Hl' & HP'). cbn in Hl.
  exists (l ++ l'). split; [by rewrite Hl', Hl, app_assoc|]. by apply Forall_app.
Qed.

Lemma emits_defer {A} P (m : prog world A) d : emits P m → emits P d → emits P (defer m d).
Proof.
  intros Hm Hd w. destruct (Hm w) as (l & Hl & HP). unfold defer.
  destruct (m w) as [[a|why|] w1]; [| |by exists l];
    (destruct (Hd w1) as (l' & Hl' & HP'); cbn in Hl; exists (l ++ l');
     split; [|by apply Forall_app]; rewrite app_assoc, <- Hl, <- Hl';
     by destruct (d w1) as [[[]|?|] ?]).
Qed.

Lemma emits_for_each {A} P (l : list A) body :
  (∀ x, x ∈ l → emits P (body x)) → emits P (for_each l body).
Proof.
  induction l as [|x l IH]; intros Hb; cbn; [apply emits_ret|].
  apply emits_bind; [apply Hb; set_solver|]. intros []. apply IH. intros y Hy. apply Hb. set_solver.
Qed.

Lemma emits_for_range {A R} P (l : list A) (body : A → prog world (option R)) :
  (∀ x, x ∈ l → emits P (body x)) → emits P (for_range l body).
Proof.
  induction l as [|x l IH]; intros Hb; cbn; [apply emits_ret|].
  apply emits_bind; [apply Hb; set_solver|]. intros [r|]; [apply emits_ret|].
  apply IH. intros y Hy. apply Hb. set_solver.
Qed.

Lemma emits_weaken {A} (P Q : icall I → Prop) (m : prog world A) :
  (∀ c, P c → Q c) → emits P m → emits Q m.
Proof.
  intros HPQ Hm w. destruct (Hm w) as (l & Hl & HP). exists l. split; [done|].
  revert HP. apply Forall_impl. intros e. apply HPQ.
Qed.

(** ** What a program does to the component's state *)

(** [keeps R m]: the state after [m], however it ends, is related by [R] to
    the state before. *)
Definition keeps {A} (R : S → S → Prop) (m : prog world A) : Prop :=
  ∀ w, R (st w) (st (snd (m w))).

Section keeps.
Context (R : S → S → Prop) `{!Reflexive R} `{!Transitive R}.

Lemma keeps_ret {A} (a : A) : keeps R (mret a).
Proof. by intros w. Qed.
Lemma keeps_panic {A} why : keeps R (panic (A := A) why).
Proof. by intros w. Qed.
Lemma keeps_block {A} : keeps R (block (A := A)).
Proof. by intros w. Qed.
Lemma keeps_reads {A} (f : S → A) : keeps R (reads f).
Proof. by intros w. Qed.
Lemma keeps_ext `{Oracle I E} c : keeps R (ext c).
Proof. intros w. unfold ext. by destruct (answer c (env w)). Qed.

Lemma keeps_writes f : (∀ s, R s (f s)) → keeps R (writes f).
Proof. intros Hf w. apply Hf. Qed.

Lemma keeps_bind {A B} (m : prog world A) (f : A → prog world B) :
  keeps R m → (∀ a, keeps R (f a)) → keeps R (m ≫= f).
Proof.
  intros Hm Hf w. pose proof (Hm w) as H1. unfold mbind, prog_bind.
  destruct (m w) as [[a|why|] w1]; cbn in *; [|done..].
  etrans; [exact H1|apply Hf].
Qed.

Lemma keeps_recover {A} (m : prog world A) h :
  keeps R m → (∀ why, keeps R (h why)) → keeps R (recover m h).
Proof.
  intros Hm Hh w. pose proof (Hm w) as H1. unfold recover.
  destruct (m w) as [[a|why|] w1]; cbn in *; [done| |done].
  etrans; [exact H1|apply Hh].
Qed.

Lemma keeps_defer {A} (m : prog world A) d : keeps R m → keeps R d → keeps R (defer m d).
Proof.
  intros Hm Hd w. pose proof (Hm w) as H1. unfold defer.
  destruct (m w) as [[a|why|] w1]; cbn in *; [| |done];
    (pose proof (Hd w1) as H2; etrans; [exact H1|]; by destruct (d w1) as [[[]|?|] ?]).
Qed.

Lemma keeps_for_each {A} (l : list A) body :
  (∀ x, keeps R (body x)) → keeps R (for_each l body).
Proof.
  intros Hb. induction l as [|x l IH]; cbn; [apply keeps_ret|]. by apply keeps_bind.
Qed.

Lemma keeps_for_range {A X} (l : list A) (body : A → prog world (option X)) :
  (∀ x, keeps R (body x)) → keeps R (for_range l body).
Proof.
  intros Hb. induction l as [|x l IH]; cbn; [apply keeps_ret|].
  apply keeps_bind; [done|]. intros [r|]; [apply keeps_ret|done].
Qed.
End keeps.

(** ** Programs that never wait for ever *)

Definition ends {A} (m : prog world A) : Prop := ∀ w, fst (m w) ≠ Block.

Lemma ends_ret {A} (a : A) : ends (mret a).
Proof. by intros w. Qed.
Lemma ends_panic {A} why : ends (panic (A := A) why).
Proof. by intros w. Qed.
Lemma ends_reads {A} (f : S → A) : ends (reads f).
Proof. by intros w. Qed.
Lemma ends_writes f : ends (writes f).
Proof. by intros w. Qed.
Lemma ends_bind {A B} (m : prog world A) (f : A → prog world B) :
  ends m → (∀ a, ends (f a)) → ends (m ≫= f).
Proof.
  intros Hm Hf w. specialize (Hm w). unfold mbind, prog_bind.
  destruct (m w) as [[a|why|] w1]; [apply Hf|done|done].
Qed.
Lemma ends_for_range {A R} (l : list A) (body : A → prog world (option R)) :
  (∀ x, ends (body x)) → ends (for_range l body).
Proof.
  intros Hb. induction l as [|x l IH]; cbn; [apply ends_ret|].
  apply ends_bind; [done|]. intros [r|]; [apply ends_ret|done].
Qed.
Lemma ends_for_each {A} (l : list A) (body : A → prog world ()) :
  (∀ x, ends (body x)) → ends (for_each l body).
Proof. intros Hb. induction l as [|x l IH]; cbn; [apply ends_ret|]. by apply ends_bind. Qed.

(** ** What a program can return *)

Definition yields {A} (Q : A → Prop) (m : prog world A) : Prop :=
  ∀ w a w', m w = (Ret a, w') → Q a.

Lemma yields_ret {A} (Q : A → Prop) a : Q a → yields Q (mret a).
Proof. by intros Ha w ? ? [= <- _]. Qed.
Lemma yields_panic {A} (Q : A → Prop) why : yields Q (panic why).
Proof. by intros w ? ?. Qed.
Lemma yields_bind {A B} (Q : B → Prop) (m : prog world A) (f : A → prog world B) :
  (∀ a, yields Q (f a)) → yields Q (m ≫= f).
Proof.
  intros Hf w b w'. unfold mbind, prog_bind. destruct (m w) as [[a|why|] w1]; [apply Hf|done|done].
Qed.
Lemma yields_recover {A} (Q : A → Prop) (m : prog world A) h :
  yields Q m → (∀ why, yields Q (h why)) → yields Q (recover m h).
Proof.
  intros Hm Hh w a w'. unfold recover. destruct (m w) as [[b|why|] w1] eqn:Hw; [|apply Hh|done].
  intros [= <- _]. by eapply Hm.
Qed.

End world.
Arguments world : clear implicits.

(** A property that survives: as a relation for [keeps]. *)
Definition stable {S} (P : S → Prop) (s s' : S) : Prop := P s → P s'.
#[export] Instance stable_refl {S} (P : S → Prop) : Reflexive (stable P).
Proof. intros s Hs. exact Hs. Qed.
#[export] Instance stable_trans {S} (P : S → Prop) : Transitive (stable P).
Proof. intros s1 s2 s3 H1 H2 H. by apply H2, H1. Qed.

#[export] Hint Resolve emits_ret emits_panic emits_block emits_reads emits_writes emits_local
  : arke.

(** Structural proofs of [emits]: one step per construct, the calls left over
    are the obligations. *)
Ltac emits_step :=
  match goal with
  | |- emits _ (mret _) => apply emits_ret
  | |- emits _ (panic _) => apply emits_panic
  | |- emits _ block => apply emits_block
  | |- emits _ (reads _) => apply emits_reads
  | |- emits _ (writes _) => apply emits_writes
  | |- emits _ (local _) => apply emits_local
  | |- emits ?P ?m => match m with ext ?c => apply (emits_ext P c) end
  | |- emits _ (_ ≫= _) => apply emits_bind; [|intros ?]
  | |- emits _ (recover _ _) => apply emits_recover; [|intros ?]
  | |- emits _ (defer _ _) => apply emits_defer
  | |- emits _ (for_each _ _) => apply emits_for_each; intros ? ?
  | |- emits _ (for_range _ _) => apply emits_for_range; intros ? ?
  | |- emits _ (match ?x with _ => _ end) => destruct x
  | |- emits _ (let '(_, _) := ?x in _) => destruct x
  end.
Ltac emits_solve := repeat (first [emits_step | progress cbv zeta]).

(** The same for [keeps]: the updates of the state are left over. *)
Ltac keeps_step :=
  match goal with
  | |- keeps _ (mret _) => apply keeps_ret; exact _
  | |- keeps _ (panic _) => apply keeps_panic; exact _
  | |- keeps _ block => apply keeps_block; exact _
  | |- keeps _ (reads _) => apply keeps_reads; exact _
  | |- keeps _ (writes _) => apply keeps_writes; intros ?
  | |- keeps ?R ?m => match m with ext ?c => exact (keeps_ext R c) end
  | |- keeps _ (_ ≫= _) => apply keeps_bind; [exact _| |intros ?]
  | |- keeps _ (recover _ _) => apply keeps_recover; [exact _| |intros ?]
  | |- keeps _ (defer _ _) => apply keeps_defer; [exact _| |]
  | |- keeps _ (for_each _ _) => apply keeps_for_each; [exact _..|intros ?]
  | |- keeps _ (for_range _ _) => apply keeps_for_range; [exact _..|intros ?]
  | |- keeps _ (match ?x with _ => _ end) => destruct x
  | |- keeps _ (let '(_, _) := ?x in _) => destruct x
  end.
Ltac keeps_solve := repeat (first [keeps_step | progress cbv zeta]).

(** The same for [ends]: the calls are left over. *)
Ltac ends_step :=
  match goal with
  | |- ends (mret _) => apply ends_ret
  | |- ends (panic _) => apply ends_panic
  | |- ends (reads _) => apply ends_reads
  | |- ends (writes _) => apply ends_writes
  | |- ends (_ ≫= _) => apply ends_bind; [|intros ?]
  | |- ends (for_each _ _) => apply ends_for_each; intros ?
  | |- ends (for_range _ _) => apply ends_for_range; intros ?
  | |- ends (match ?x with _ => _ end) => destruct x
  end.
Ltac ends_solve := repeat (first [ends_step | progress cbv zeta]).

(** The same for [yields]: the returned values are left over. *)
Ltac yields_step :=
  match goal with
  | |- yields _ (mret _) => apply yields_ret
  | |- yields _ (panic _) => apply yields_panic
  | |- yields _ (_ ≫= _) => apply yields_bind; intros ?
  | |- yields _ (recover _ _) => apply yields_recover; [|intros ?]
  | |- yields _ (match ?x with _ => _ end) => destruct x eqn:?
  | |- yields _ (let '(_, _) := ?x in _) => destruct x
  end.
Ltac yields_solve := repeat (first [yields_step | progress cbv zeta]).

(** Unfold the layer of programs over a world. *)
Ltac world_unfold := unfold reads, writes, local, ext in *; prog_unfold.
