(* ===== verification/GoStrings.v ===== *)
(** * The string functions of Go's standard library the program calls

    A Go string is a sequence of bytes, here a [string] (one [ascii] per
    byte). Each definition follows the documented behaviour of the library
    function it is named after: [strings.HasPrefix], [HasSuffix], [Contains],
    [TrimPrefix], [TrimSpace], [ReplaceAll], [Replace], [Split], [SplitN],
    [Join], [ToLower], [Fields]; [strconv.Itoa], [Atoi], [ParseInt],
    [ParseBool]; [url.QueryEscape]; and the [%v] and [%d] verbs of [fmt]. *)

From Stdlib Require Import Ascii String.
From stdpp Require Import base gmap strings list fin_maps option.
From Stdlib Require Import ZArith Lia.
From S2P Require Import Prelude.

Open Scope string_scope.
#[global] Arguments String.append !_ _ : simpl nomatch.

(** ** Prefixes, suffixes, substrings *)

Fixpoint has_prefix (p s : string) : bool :=
  match p, s with
  | EmptyString, _ => true
  | String a p', String b s' => Ascii.eqb a b && has_prefix p' s'
  | String _ _, EmptyString => false
  end.

Fixpoint drop_str (n : nat) (s : string) : string :=
  match n, s with
  | O, _ => s
  | S n', String _ s' => drop_str n' s'
  | S _, EmptyString => EmptyString
  end.

Definition has_suffix (suf s : string) : bool :=
  (String.length suf <=? String.length s)%nat &&
  String.eqb (drop_str (String.length s - String.length suf) s) suf.

Fixpoint contains (sub s : string) : bool :=
  has_prefix sub s ||
  match s with
  | EmptyString => false
  | String _ s' => contains sub s'
  end.

Definition trim_prefix (p s : string) : string :=
  if has_prefix p s then drop_str (String.length p) s else s.

(** [strings.ReplaceAll] and [strings.Replace _ _ _ 1] for a non-empty [old].
    [fuel] bounds the scan; the length of the string is enough. *)
Fixpoint replace_fuel (fuel : nat) (old new s : string) (limit : option nat) : string :=
  match fuel with
  | O => s
  | S fuel' =>
      match limit with
      | Some O => s
      | _ =>
          if has_prefix old s then
            new +:+ replace_fuel fuel' old new (drop_str (String.length old) s)
                      (match limit with Some (S n) => Some n | l => l end)
          else
            match s with
            | EmptyString => EmptyString
            | String a s' => String a (replace_fuel fuel' old new s' limit)
            end
      end
  end.

Definition replace_all (s old new : string) : string :=
  replace_fuel (S (String.length s)) old new s None.
Definition replace_first (s old new : string) : string :=
  replace_fuel (S (String.length s)) old new s (Some 1%nat).

(** ** Splitting on one byte, joining *)

Fixpoint split_byte (sep : ascii) (s : string) : list string :=
  match s with
  | EmptyString => [EmptyString]
  | String a s' =>
      if Ascii.eqb a sep then EmptyString :: split_byte sep s'
      else match split_byte sep s' with
           | [] => [String a EmptyString]
           | h :: t => String a h :: t
           end
  end.

(** [strings.SplitN(s, sep, 2)] for a one-byte separator: [None] when the
    separator does not occur (one part), else the two parts. *)
Fixpoint cut_byte (sep : ascii) (s : string) : option (string * string) :=
  match s with
  | EmptyString => None
  | String a s' =>
      if Ascii.eqb a sep then Some (EmptyString, s')
      else match cut_byte sep s' with
           | Some (h, t) => Some (String a h, t)
           | None => None
           end
  end.

(** [strings.Split] for a non-empty separator; the length of the string is
    enough fuel. *)
Fixpoint split_fuel (fuel : nat) (sep s : string) : list string :=
  match fuel with
  | O => [s]
  | S fuel' =>
      if has_prefix sep s then EmptyString :: split_fuel fuel' sep (drop_str (String.length sep) s)
      else
        match s with
        | EmptyString => [EmptyString]
        | String a s' =>
            match split_fuel fuel' sep s' with
            | [] => [String a EmptyString]
            | h :: t => String a h :: t
            end
        end
  end.

Definition split (sep s : string) : list string := split_fuel (S (String.length s)) sep s.

Fixpoint join (sep : string) (l : list string) : string :=
  match l with
  | [] => EmptyString
  | [x] => x
  | x :: l' => x +:+ sep +:+ join sep l'
  end.

Fixpoint any_byte (f : ascii → bool) (s : string) : bool :=
  match s with
  | EmptyString => false
  | String a s' => f a || any_byte f s'
  end.

Fixpoint all_bytes (f : ascii → bool) (s : string) : bool :=
  match s with
  | EmptyString => true
  | String a s' => f a && all_bytes f s'
  end.

(** ** Character classes *)

Definition code (a : ascii) : Z := Z.of_nat (nat_of_ascii a).
Definition of_code (z : Z) : ascii := ascii_of_nat (Z.to_nat z).
Definition is_digit (a : ascii) : bool := (48 <=? code a)%Z && (code a <=? 57)%Z.
Definition is_upper (a : ascii) : bool := (65 <=? code a)%Z && (code a <=? 90)%Z.
Definition is_lower (a : ascii) : bool := (97 <=? code a)%Z && (code a <=? 122)%Z.
(** White space: the ASCII blanks [unicode.IsSpace] accepts. *)
Definition is_space (a : ascii) : bool :=
  ((9 <=? code a)%Z && (code a <=? 13)%Z) || (code a =? 32)%Z.

Fixpoint trim_left (s : string) : string :=
  match s with
  | String a s' => if is_space a then trim_left s' else s
  | EmptyString => EmptyString
  end.

Fixpoint trim_right (s : string) : string :=
  match s with
  | String a s' =>
      match trim_right s' with
      | EmptyString => if is_space a then EmptyString else String a EmptyString
      | r => String a r
      end
  | EmptyString => EmptyString
  end.

Definition trim_space (s : string) : string := trim_right (trim_left s).

(** [strings.ToLower]. Beside the ASCII letters, only the two code points
    whose lower case is an ASCII letter are mapped (U+0130 to "i", U+212A to
    "k"): every caller compares the result with an ASCII literal, which no
    other non-ASCII letter can affect. *)
Definition lower_byte (a : ascii) : ascii :=
  if is_upper a then of_code (code a + 32) else a.

Fixpoint to_lower (s : string) : string :=
  match s with
  | EmptyString => EmptyString
  | String a s1 =>
      match s1 with
      | String b s2 =>
          if (code a =? 196)%Z && (code b =? 176)%Z then String "i" (to_lower s2)
          else
            match s2 with
            | String c s3 =>
                if (code a =? 226)%Z && (code b =? 132)%Z && (code c =? 170)%Z
                then String "k" (to_lower s3)
                else String (lower_byte a) (to_lower s1)
            | EmptyString => String (lower_byte a) (to_lower s1)
            end
      | EmptyString => String (lower_byte a) (to_lower s1)
      end
  end.

(** ** Integers *)

(** The decimal digits of [n >= 0], most significant first; [fuel] bounds the
    number of digits and [S (Z.to_nat (Z.log2 n))] is enough. *)
Fixpoint digits_fuel (fuel : nat) (n : Z) (acc : string) : string :=
  match fuel with
  | O => acc
  | S fuel' =>
      let acc' := String (of_code (48 + n mod 10)) acc in
      if (n <? 10)%Z then acc' else digits_fuel fuel' (n / 10) acc'
  end.

Definition itoa_nonneg (n : Z) : string := digits_fuel (S (Z.to_nat (Z.log2 n))) n "".

Definition itoa (z : Z) : string :=
  if (z <? 0)%Z then "-" +:+ itoa_nonneg (- z) else itoa_nonneg z.

Fixpoint parse_digits (s : string) (acc : Z) : option Z :=
  match s with
  | EmptyString => Some acc
  | String a s' => if is_digit a then parse_digits s' (acc * 10 + (code a - 48)) else None
  end.

(** [strconv.ParseInt(s, 10, w)]: an optional sign, at least one digit, and
    a value that fits [w] bits. *)
Definition parse_unsigned (s : string) : option Z :=
  match s with
  | EmptyString => None
  | _ => parse_digits s 0
  end.

Definition parse_int (w : Z) (s : string) : option Z :=
  let signed z := if (- 2 ^ (w - 1) <=? z)%Z && (z <? 2 ^ (w - 1))%Z then Some z else None in
  match s with
  | String "+" s' => z ← parse_unsigned s'; signed z
  | String "-" s' => z ← parse_unsigned s'; signed (- z)%Z
  | _ => z ← parse_unsigned s; signed z
  end.

(** [strconv.Atoi] on a 64-bit platform. *)
Definition atoi (s : string) : option Z := parse_int 64 s.

Definition parse_bool (s : string) : option bool :=
  if existsb (String.eqb s) ["1"; "t"; "T"; "TRUE"; "true"; "True"] then Some true
  else if existsb (String.eqb s) ["0"; "f"; "F"; "FALSE"; "false"; "False"] then Some false
  else None.

(** ** Rendering with [%v] *)

Definition show_bool (b : bool) : string := if b then "true" else "false".

Definition show_gval (v : gval) : string :=
  match v with
  | VString s => s
  | VBool b => show_bool b
  | VInt z | VInt32 z | VInt64 z => itoa z
  | VOther _ txt => txt
  end.

(** [%s] (or [%v]) of a [[]string]. *)
Definition show_strings (l : list string) : string := "[" +:+ join " " l +:+ "]".

(** ** URL encoding *)

Definition unreserved (a : ascii) : bool :=
  is_digit a || is_upper a || is_lower a ||
  existsb (Ascii.eqb a) ["-"; "_"; "."; "~"]%char.

Definition hex_digit (n : Z) : ascii :=
  if (n <? 10)%Z then of_code (48 + n) else of_code (55 + n).

(** [url.QueryEscape]. *)
Fixpoint query_escape (s : string) : string :=
  match s with
  | EmptyString => EmptyString
  | String a s' =>
      if unreserved a then String a (query_escape s')
      else if Ascii.eqb a " " then String "+" (query_escape s')
      else String "%" (String (hex_digit (code a / 16))
                         (String (hex_digit (code a mod 16)) (query_escape s')))
  end.

(** ** Lemmas *)

Lemma str_app_nil_r s : s +:+ "" = s.
Proof. induction s as [|a s IH]; [done|]. cbn. by rewrite IH. Qed.

Lemma str_app_assoc s t u : (s +:+ t) +:+ u = s +:+ (t +:+ u).
Proof. induction s as [|a s IH]; [done|]. cbn. by rewrite IH. Qed.

Lemma str_length_app s t : String.length (s +:+ t) = (String.length s + String.length t)%nat.
Proof. induction s as [|a s IH]; [done|]. cbn. by rewrite IH. Qed.

Lemma str_app_inj_l s t u : s +:+ t = s +:+ u → t = u.
Proof. induction s as [|a s IH]; [done|]. cbn. intros [= H]. auto. Qed.

Lemma str_app_inj_r s t u : t +:+ s = u +:+ s → t = u.
Proof.
  revert u. induction t as [|a t IH]; intros [|b u] H; [done| | |].
  - exfalso. apply (f_equal String.length) in H. cbn in H. rewrite str_length_app in H. lia.
  - exfalso. apply (f_equal String.length) in H. cbn in H. rewrite str_length_app in H. lia.
  - cbn in H. injection H as -> H. f_equal. auto.
Qed.

Lemma drop_str_app p s : drop_str (String.length p) (p +:+ s) = s.
Proof. induction p as [|a p IH]; [done|]. exact IH. Qed.

Lemma has_prefix_spec p s : has_prefix p s = true ↔ ∃ t, s = p +:+ t.
Proof.
  revert s. induction p as [|a p IH]; intros s; cbn.
  { split; [by exists s | done]. }
  destruct s as [|b s]; [split; [done | intros [t ?]; done]|].
  rewrite andb_true_iff, Ascii.eqb_eq, IH. split.
  - intros [-> [t ->]]. by exists t.
  - intros [t [= -> ->]]. split; [done | by exists t].
Qed.

Lemma has_prefix_app p s : has_prefix p (p +:+ s) = true.
Proof. apply has_prefix_spec. by exists s. Qed.

Lemma drop_str_split n s :
  (n <= String.length s)%nat → ∃ p, s = p +:+ drop_str n s ∧ String.length p = n.
Proof.
  revert s. induction n as [|n IH]; intros s Hn; cbn.
  - by exists "".
  - destruct s as [|a s]; cbn in *; [lia|].
    destruct (IH s) as (p & Hp & Hl); [lia|].
    exists (String a p). cbn. by rewrite <- Hp, Hl.
Qed.

Lemma has_suffix_spec suf s : has_suffix suf s = true ↔ ∃ p, s = p +:+ suf.
Proof.
  unfold has_suffix. rewrite andb_true_iff, Nat.leb_le, String.eqb_eq. split.
  - intros [Hl He].
    destruct (drop_str_split (String.length s - String.length suf) s) as (p & Hp & _); [lia|].
    exists p. rewrite Hp at 1. by rewrite He.
  - intros [p ->]. rewrite str_length_app. split; [lia|].
    replace (String.length p + String.length suf - String.length suf)%nat
      with (String.length p) by lia.
    apply drop_str_app.
Qed.

Lemma has_suffix_app suf s : has_suffix suf (s +:+ suf) = true.
Proof. apply has_suffix_spec. by exists s. Qed.

Lemma trim_prefix_app p s : trim_prefix p (p +:+ s) = s.
Proof. unfold trim_prefix. by rewrite has_prefix_app, drop_str_app. Qed.

Lemma all_bytes_app f s t : all_bytes f (s +:+ t) = all_bytes f s && all_bytes f t.
Proof. induction s as [|a s IH]; [done|]. cbn. by rewrite IH, andb_assoc. Qed.

Lemma any_byte_app f s t : any_byte f (s +:+ t) = any_byte f s || any_byte f t.
Proof. induction s as [|a s IH]; [done|]. cbn. by rewrite IH, orb_assoc. Qed.

Lemma any_byte_all f s : any_byte f s = negb (all_bytes (λ a, negb (f a)) s).
Proof. induction s as [|a s IH]; [done|]. cbn. by rewrite IH, negb_andb, negb_involutive. Qed.

(** Two strings that agree up to a separator that neither head contains
    agree in both parts. *)
Lemma str_split_unique sep s1 s2 t1 t2 :
  any_byte (Ascii.eqb sep) s1 = false → any_byte (Ascii.eqb sep) s2 = false →
  s1 +:+ String sep t1 = s2 +:+ String sep t2 → s1 = s2 ∧ t1 = t2.
Proof.
  revert s2. induction s1 as [|a s1 IH]; intros [|b s2] H1 H2 H; cbn in *.
  - injection H as ->. done.
  - injection H as -> _. by rewrite Ascii.eqb_refl in H2.
  - injection H as -> _. by rewrite Ascii.eqb_refl in H1.
  - injection H as -> H. apply orb_false_iff in H1 as [_ H1]. apply orb_false_iff in H2 as [_ H2].
    destruct (IH s2 H1 H2 H) as [-> ->]. done.
Qed.

Lemma join_split_byte sep s : join (String sep "") (split_byte sep s) = s.
Proof.
  induction s as [|a s IH]; [done|]. cbn [split_byte].
  destruct (split_byte sep s) as [|h t] eqn:Hs.
  { exfalso. destruct s as [|b s]; [done|]. cbn in Hs.
    destruct (Ascii.eqb b sep); [done|]. by destruct (split_byte sep s). }
  destruct (Ascii.eqb_spec a sep) as [->|Hne].
  - transitivity (String sep (join (String sep "") (h :: t))); [done|]. by rewrite IH.
  - rewrite <- IH. by destruct t.
Qed.

(** *** Decimal rendering and parsing *)

Lemma join_split_fuel fuel sep new s :
  join new (split_fuel fuel sep s) = replace_fuel fuel sep new s None.
Proof.
  revert s. induction fuel as [|fuel IH]; intros s; [done|]. cbn [split_fuel replace_fuel].
  assert (∀ u, split_fuel fuel sep u ≠ []) as Hne.
  { clear. intros u. destruct fuel as [|fuel]; [done|]. cbn. destruct (has_prefix sep u); [done|].
    destruct u; [done|]. by destruct (split_fuel fuel sep u). }
  destruct (has_prefix sep s).
  - rewrite <- IH. specialize (Hne (drop_str (String.length sep) s)).
    by destruct (split_fuel fuel sep (drop_str (String.length sep) s)).
  - destruct s as [|a s]; [done|]. rewrite <- IH. specialize (Hne s).
    destruct (split_fuel fuel sep s) as [|h [|h' t]]; done.
Qed.

(** Splitting and joining around another string is [strings.ReplaceAll]. *)
Lemma join_split sep new s : join new (split sep s) = replace_all s sep new.
Proof. apply join_split_fuel. Qed.

Lemma replace_all_absent old new s : contains old s = false → replace_all s old new = s.
Proof.
  unfold replace_all. generalize (S (String.length s)) as fuel. intros fuel. revert s.
  induction fuel as [|fuel IH]; intros s Hc; [done|]. cbn [replace_fuel].
  destruct s as [|a s]; cbn [contains] in Hc.
  - destruct (has_prefix old "") eqn:Hp; [|done]. by rewrite ?Hp in Hc.
  - apply orb_false_iff in Hc as [-> Hc]. by rewrite IH.
Qed.

Lemma code_of_code z : (0 <= z < 256)%Z → code (of_code z) = z.
Proof. intros Hz. unfold code, of_code. rewrite nat_ascii_embedding; lia. Qed.

Lemma of_code_code a : of_code (code a) = a.
Proof. unfold code, of_code. rewrite Nat2Z.id. apply ascii_nat_embedding. Qed.

Lemma code_range a : (0 <= code a < 256)%Z.
Proof. unfold code. pose proof (nat_ascii_bounded a). lia. Qed.

Lemma code_inj a b : code a = code b → a = b.
Proof. intros H. rewrite <- (of_code_code a), H. apply of_code_code. Qed.

Lemma is_digit_code a : is_digit a = true ↔ (48 <= code a <= 57)%Z.
Proof. unfold is_digit. rewrite andb_true_iff, !Z.leb_le. lia. Qed.

Lemma digit_byte n : (0 <= n < 10)%Z → is_digit (of_code (48 + n)) = true.
Proof. intros Hn. apply is_digit_code. rewrite code_of_code; lia. Qed.

Lemma digits_fuel_app fuel n acc : digits_fuel fuel n acc = digits_fuel fuel n "" +:+ acc.
Proof.
  revert n acc. induction fuel as [|fuel IH]; intros n acc; [done|].
  cbn. destruct (n <? 10)%Z; [done|].
  rewrite IH, (IH _ (String _ "")), str_app_assoc. done.
Qed.

Lemma parse_digits_app s t acc :
  parse_digits (s +:+ t) acc = (z ← parse_digits s acc; parse_digits t z).
Proof.
  revert acc. induction s as [|a s IH]; intros acc; [done|].
  cbn. destruct (is_digit a); [apply IH | done].
Qed.

Lemma parse_digits_fuel fuel n :
  (0 <= n < 10 ^ Z.of_nat fuel)%Z → (0 < fuel)%nat →
  parse_digits (digits_fuel fuel n "") 0 = Some n.
Proof.
  revert n. induction fuel as [|fuel IH]; intros n Hn Hf; [lia|].
  cbn [digits_fuel]. destruct (n <? 10)%Z eqn:Hlt.
  - apply Z.ltb_lt in Hlt. cbn. rewrite Z.mod_small by lia.
    rewrite digit_byte by lia. rewrite code_of_code by lia. f_equal. lia.
  - apply Z.ltb_ge in Hlt.
    rewrite Nat2Z.inj_succ, Z.pow_succ_r in Hn by lia.
    assert (0 < fuel)%nat.
    { destruct fuel; [|lia]. cbn in Hn. lia. }
    rewrite digits_fuel_app, parse_digits_app, IH; [| |done].
    + cbn. pose proof (Z.mod_pos_bound n 10).
      rewrite digit_byte by lia. rewrite code_of_code by lia.
      f_equal. pose proof (Z.div_mod n 10). lia.
    + split; [apply Z.div_pos; lia | apply Z.div_lt_upper_bound; lia].
Qed.

Lemma parse_itoa_nonneg n : (0 <= n)%Z → parse_digits (itoa_nonneg n) 0 = Some n.
Proof.
  intros Hn. apply parse_digits_fuel; [|lia]. split; [done|].
  rewrite Nat2Z.inj_succ, Z2Nat.id by apply Z.log2_nonneg.
  destruct (decide (n = 0)%Z) as [->|Hnz]; [cbn; lia|].
  apply Z.lt_le_trans with (2 ^ Z.succ (Z.log2 n))%Z; [apply Z.log2_spec; lia|].
  apply Z.pow_le_mono_l. lia.
Qed.

Lemma digits_fuel_head fuel n :
  (0 <= n)%Z → (0 < fuel)%nat → ∃ a s, digits_fuel fuel n "" = String a s ∧ is_digit a = true.
Proof.
  revert n. induction fuel as [|fuel IH]; intros n Hn Hf; [lia|].
  cbn [digits_fuel]. pose proof (Z.mod_pos_bound n 10).
  destruct (n <? 10)%Z; [eexists _, _; split; [done|apply digit_byte; lia]|].
  rewrite digits_fuel_app. destruct fuel as [|fuel].
  - eexists _, _; split; [done|apply digit_byte; lia].
  - destruct (IH (n / 10)%Z) as (a & s & -> & Ha); [apply Z.div_pos; lia | lia |].
    eexists _, _; split; [done | exact Ha].
Qed.

Lemma parse_unsigned_itoa n : (0 <= n)%Z → parse_unsigned (itoa_nonneg n) = Some n.
Proof.
  intros Hn. destruct (digits_fuel_head (S (Z.to_nat (Z.log2 n))) n) as (a & s & Hs & _); [lia..|].
  pose proof (parse_itoa_nonneg n Hn) as Hp. unfold itoa_nonneg in *. by rewrite Hs in *.
Qed.

(** A 64-bit integer printed by [strconv.Itoa] is read back by
    [strconv.Atoi]. *)
Lemma parse_digits_all s acc z : parse_digits s acc = Some z → all_bytes is_digit s = true.
Proof.
  revert acc. induction s as [|a s IH]; intros acc; [done|]. cbn. destruct (is_digit a); [apply IH|done].
Qed.

Lemma itoa_nonneg_digits n : (0 <= n)%Z → all_bytes is_digit (itoa_nonneg n) = true.
Proof.
  intros Hn. pose proof (parse_unsigned_itoa n Hn) as Hp.
  destruct (digits_fuel_head (S (Z.to_nat (Z.log2 n))) n) as (a & s & Hs & _); [lia..|].
  unfold itoa_nonneg in *. rewrite Hs in *. by eapply parse_digits_all.
Qed.

Lemma itoa_nonneg_inj m n : (0 <= m)%Z → (0 <= n)%Z → itoa_nonneg m = itoa_nonneg n → m = n.
Proof.
  intros Hm Hn Heq. pose proof (parse_unsigned_itoa m Hm) as Hp. rewrite Heq, parse_unsigned_itoa in Hp by done.
  by injection Hp.
Qed.

Lemma atoi_itoa z : in_int64 z → atoi (itoa z) = Some z.
Proof.
  intros [Hlo Hhi]. unfold atoi, parse_int, itoa.
  destruct (z <? 0)%Z eqn:Hz.
  - apply Z.ltb_lt in Hz. cbn [String.append].
    rewrite parse_unsigned_itoa by lia. cbn -[Z.pow].
    rewrite Z.opp_involutive.
    destruct (_ && _) eqn:Hb; [done|]. exfalso.
    apply andb_false_iff in Hb as [Hb|Hb]; [apply Z.leb_gt in Hb|apply Z.ltb_ge in Hb]; lia.
  - apply Z.ltb_ge in Hz.
    destruct (digits_fuel_head (S (Z.to_nat (Z.log2 z))) z) as (a & s & Hs & Ha); [lia..|].
    pose proof (parse_unsigned_itoa z Hz) as Hp.
    unfold itoa_nonneg in *. rewrite Hs in *. apply is_digit_code in Ha.
    assert (a ≠ "+"%char ∧ a ≠ "-"%char) as [Hplus Hminus].
    { split; intros ->; vm_compute in Ha; destruct Ha as [Ha _]; exact (Ha eq_refl). }
    transitivity (z0 ← parse_unsigned (String a s);
      if (- 2 ^ (64 - 1) <=? z0)%Z && (z0 <? 2 ^ (64 - 1))%Z then Some z0 else None).
    { destruct a as [[] [] [] [] [] [] [] []]; try reflexivity; congruence. }
    rewrite Hp. cbn -[Z.pow]. destruct (_ && _) eqn:Hb; [done|]. exfalso.
    apply andb_false_iff in Hb as [Hb|Hb]; [apply Z.leb_gt in Hb|apply Z.ltb_ge in Hb]; lia.
Qed.

Lemma bool_by_ascii (P : ascii → bool) :
  forallb P (map ascii_of_nat (seq 0 256)) = true → ∀ a, P a = true.
Proof.
  intros H a. rewrite forallb_forall in H. apply H.
  apply in_map_iff. exists (nat_of_ascii a). split; [apply ascii_nat_embedding|].
  apply in_seq. pose proof (nat_ascii_bounded a). lia.
Qed.

(** A numeral starts with a digit or a sign. *)
Definition numeral_head (a : ascii) : bool := is_digit a || Ascii.eqb a "+" || Ascii.eqb a "-".

Lemma atoi_head a s : numeral_head a = false → atoi (String a s) = None.
Proof.
  unfold numeral_head. rewrite !orb_false_iff. intros [[Hd Hp] Hm].
  apply Ascii.eqb_neq in Hp, Hm. unfold atoi, parse_int.
  transitivity (z0 ← parse_unsigned (String a s);
    if (- 2 ^ (64 - 1) <=? z0)%Z && (z0 <? 2 ^ (64 - 1))%Z then Some z0 else None).
  { destruct a as [[] [] [] [] [] [] [] []]; try reflexivity; congruence. }
  cbn [parse_unsigned parse_digits]. by rewrite Hd.
Qed.

Lemma to_lower_head a s :
  ∃ c t, to_lower (String a s) = String c t ∧ (c = lower_byte a ∨ c = "i"%char ∨ c = "k"%char).
Proof. cbn [to_lower]. repeat case_match; eauto 6. Qed.

(** No numeral is a word: a word is a string whose lower case starts with a
    letter other than the two that multi-byte letters fold to. *)
Lemma atoi_not_word s z c t :
  atoi s = Some z → to_lower s = String c t → c ≠ "i"%char → c ≠ "k"%char → is_lower c = false.
Proof.
  intros Ha Hl Hi Hk. destruct s as [|a s]; [done|].
  destruct (to_lower_head a s) as (c' & t' & Hl' & Hc). rewrite Hl in Hl'. simplify_eq.
  destruct Hc as [->|[->| ->]]; [|done..].
  destruct (is_lower (lower_byte a)) eqn:Hlow; [|done].
  pose proof (bool_by_ascii (λ a, negb (is_lower (lower_byte a)) || negb (numeral_head a))
    ltac:(by vm_compute) a) as Hn. cbn beta in Hn. rewrite Hlow in Hn. apply negb_true_iff in Hn.
  by rewrite atoi_head in Ha.
Qed.

(** *** URL encoding *)

Definition escape_safe (a : ascii) : bool :=
  unreserved a || Ascii.eqb a "+" || Ascii.eqb a "%".

Lemma query_escape_safe s : all_bytes escape_safe (query_escape s) = true.
Proof.
  induction s as [|a s IH]; [done|]. cbn [query_escape].
  destruct (unreserved a) eqn:Hu; [cbn; unfold escape_safe at 1; by rewrite Hu, IH|].
  destruct (Ascii.eqb a " "); [cbn; by rewrite IH|].
  cbn [all_bytes]. rewrite IH, andb_true_r.
  apply (bool_by_ascii (λ a, escape_safe "%" && (escape_safe (hex_digit (code a / 16)) &&
    (escape_safe (hex_digit (code a mod 16)))))). vm_compute. done.
Qed.

Lemma hex_digit_inj a b :
  hex_digit (code a / 16) = hex_digit (code b / 16) →
  hex_digit (code a mod 16) = hex_digit (code b mod 16) → a = b.
Proof.
  intros H1 H2. apply code_inj.
  pose proof (code_range a). pose proof (code_range b).
  assert (∀ m n, (0 <= m < 16)%Z → (0 <= n < 16)%Z → hex_digit m = hex_digit n → m = n) as Hinj.
  { intros m n Hm Hn H'. apply (f_equal code) in H'. unfold hex_digit in H'.
    destruct (m <? 10)%Z eqn:Em, (n <? 10)%Z eqn:En;
      rewrite ?Z.ltb_lt, ?Z.ltb_ge in *; rewrite !code_of_code in H' by lia; lia. }
  apply Hinj in H1; [|split; [apply Z.div_pos|apply Z.div_lt_upper_bound]; lia..].
  apply Hinj in H2; [|apply Z.mod_pos_bound; lia..].
  rewrite (Z.div_mod (code a) 16), (Z.div_mod (code b) 16) by lia. by rewrite H1, H2.
Qed.

Lemma query_escape_inj s t : query_escape s = query_escape t → s = t.
Proof.
  revert t. induction s as [|a s IH]; intros [|b t] H; cbn in H; [done| | |].
  - destruct (unreserved b); [done|]. by destruct (Ascii.eqb b " ").
  - destruct (unreserved a); [done|]. by destruct (Ascii.eqb a " ").
  - assert (unreserved "+" = false ∧ unreserved "%" = false) as [Hp Hq] by done.
    destruct (unreserved a) eqn:Ha, (unreserved b) eqn:Hb.
    + injection H as -> H. f_equal. auto.
    + destruct (Ascii.eqb b " "); injection H as -> _; congruence.
    + destruct (Ascii.eqb a " "); injection H as <- _; congruence.
    + destruct (Ascii.eqb_spec a " ") as [->|_], (Ascii.eqb_spec b " ") as [->|_].
      * injection H as H. f_equal. auto.
      * done.
      * done.
      * injection H as H1 H2 H. rewrite (hex_digit_inj a b H1 H2). f_equal. auto.
Qed.

(** A byte outside the escape alphabet does not occur in an escaped string. *)
Lemma query_escape_free c s : escape_safe c = false → any_byte (Ascii.eqb c) (query_escape s) = false.
Proof.
  intros Hc. rewrite any_byte_all, negb_false_iff.
  pose proof (query_escape_safe s) as Hs. revert Hs. generalize (query_escape s) as u.
  induction u as [|a u IH]; [done|]. cbn. rewrite !andb_true_iff. intros [Ha Hu].
  split; [|auto]. destruct (Ascii.eqb_spec c a) as [->|]; [congruence|done].
Qed.

#[export] Hint Rewrite str_app_nil_r str_app_assoc : arke.
#[export] Hint Resolve has_prefix_app has_suffix_app : arke.
