(* ===== verification/Api.v ===== *)
(** * The messages of the gRPC interface ([api/arke.pb.go])

    A message pointer is an [option] of a record: [None] is a nil pointer, and
    the generated getters, which accept one, are the [Get*] functions below.
    An enumeration is open, as proto3 makes it: a value outside the declared
    ones is carried by the last constructor. *)

From Stdlib Require Import Ascii String.
From stdpp Require Import base gmap strings list fin_maps option.
From Stdlib Require Import ZArith Lia SpecFloat.
From S2P Require Import Prelude GoStrings.

(** ** Enumerations *)

Inductive Address_TargetType :=
  | Address_TOPIC | Address_QUEUE | Address_FILTER | Address_STREAM
  | Address_other (n : Z).

Inductive Source_TargetType :=
  | Source_QUEUE | Source_TEMPORARY | Source_STREAM
  | Source_other (n : Z).

Inductive Filter_MatchType := Filter_ALL | Filter_ANY | Filter_other (n : Z).

Inductive HealthStatus_Code :=
  | HealthStatus_OK | HealthStatus_UNHEALTHY | HealthStatus_GOAWAY
  | HealthStatus_other (n : Z).

#[export] Instance Address_TargetType_eq_dec : EqDecision Address_TargetType.
Proof. solve_decision. Defined.
#[export] Instance Source_TargetType_eq_dec : EqDecision Source_TargetType.
Proof. solve_decision. Defined.
#[export] Instance Filter_MatchType_eq_dec : EqDecision Filter_MatchType.
Proof. solve_decision. Defined.
#[export] Instance HealthStatus_Code_eq_dec : EqDecision HealthStatus_Code.
Proof. solve_decision. Defined.

(** The [String()] method of the enumerations: the declared name, or the
    number for a value the schema does not name. *)
Definition Address_TargetType_String (t : Address_TargetType) : string :=
  match t with
  | Address_TOPIC => "TOPIC" | Address_QUEUE => "QUEUE"
  | Address_FILTER => "FILTER" | Address_STREAM => "STREAM"
  | Address_other n => itoa n
  end.

Definition Source_TargetType_String (t : Source_TargetType) : string :=
  match t with
  | Source_QUEUE => "QUEUE" | Source_TEMPORARY => "TEMPORARY" | Source_STREAM => "STREAM"
  | Source_other n => itoa n
  end.

(** ** Messages *)

Record Credentials := { Username : string; Password : string }.

Record ConnectionConfiguration := {
  Host : string;
  Port : Z;
  ProviderName : string;
  Tenant : string;
  Creds : option Credentials;
  Tls : bool;
  ClientName : string;
  AdminPort : Z
}.

Record Error := { Message_ : string; Code : Z; IsFatal : bool }.

#[export] Instance Error_eq_dec : EqDecision Error.
Proof. solve_decision. Defined.

(** [&pb.Error{Message: m}] and [&pb.Error{Message: m, IsFatal: true}]. *)
Definition mkError (m : string) : Error := {| Message_ := m; Code := 0; IsFatal := false |}.
Definition mkFatal (m : string) : Error := {| Message_ := m; Code := 0; IsFatal := true |}.

Record ConnectResponse := { ConnectSuccess : bool; ConnectError : option Error }.

Inductive Address := mkAddress {
  AddressName : string;
  Subjects : list string;
  AddressType : Address_TargetType;
  AddressAutoDelete : bool;
  ParentAddress : option Address
}.

Record Match := { MatchName : string; MatchValue : string }.
Record Filter := { Matches : list Match; FilterType : Filter_MatchType }.

Record Source := {
  SourceName : string;
  SourceAddress : option Address;
  AutoDelete : bool;
  Options : gmap string string;
  Exclusive : bool;
  PrefetchCount : Z;
  Filters : list Filter;
  SourceType : Source_TargetType;
  DeclareOnly : bool;
  SingleActiveConsumer : bool
}.

Record Message := {
  Uuid : string;
  Headers : gmap string string;
  Body : bytes;
  MessageAddress : option Address;
  Persistent : bool;
  MessageError : option Error;
  Confirm : bool;
  PublishId : Z;
  PublisherName : string
}.

Record MessageResponse := { ResponseSuccess : bool; ResponseError : option Error }.

Record MessageConsumed := { AckUuid : string; AckNack : bool; RequeueDelay : Z }.

Record MessageConsumedResponse := {
  ConsumedUuid : string; ConsumedSuccess : bool; ConsumedError : option Error }.

Record DeclareOnlyResponse := { DeclareSuccess : bool; DeclareError : option Error }.

(** The [oneof] of a [Consume] request; [Consume_None] is a request with no
    member set. *)
Inductive Consume :=
  | Consume_Src (s : Source)
  | Consume_Ack (a : MessageConsumed)
  | Consume_None.

Inductive ConsumeResponse :=
  | ConsumeResponse_Msg (m : Message)
  | ConsumeResponse_ConsumedResponse (r : MessageConsumedResponse)
  | ConsumeResponse_Error (e : Error)
  | ConsumeResponse_DeclareOnlyResponse (r : DeclareOnlyResponse).

(** A [float32] or [float64] is a [spec_float] of the Standard Library. *)
Record SourceStats := {
  StatsError : option Error;
  MessageCount : Z;
  ConsumerCount : Z;
  LastOffset : Z;
  CurrentOffset : Z;
  StatsName : string;
  PublishRate : spec_float;
  DeliverRate : spec_float
}.

Record SourceStatsCollection := { CollectionError : option Error; CollectionStats : list SourceStats }.

Record HealthStatus := {
  HealthUuid : string;
  HealthTime : option Z;
  HealthCode : HealthStatus_Code;
  CpuAvailability : spec_float;
  MemoryAvailability : spec_float
}.

(** The [oneof] of a [Health] message. *)
Inductive Health :=
  | Health_Check (uuid : string)
  | Health_Status (s : HealthStatus)
  | Health_None.

(** ** Getters *)

Definition from_ptr {A B} (d : B) (f : A → B) (p : option A) : B :=
  match p with Some a => f a | None => d end.

Definition GetAddressName := from_ptr "" AddressName.
Definition GetSubjects := from_ptr [] Subjects.
Definition GetAddressType := from_ptr Address_TOPIC AddressType.
Definition GetAddressAutoDelete := from_ptr false AddressAutoDelete.
Definition GetParentAddress (a : option Address) : option Address := a ≫= ParentAddress.

Definition GetSourceName := from_ptr "" SourceName.
Definition GetSourceAddress (s : option Source) : option Address := s ≫= SourceAddress.
Definition GetAutoDelete := from_ptr false AutoDelete.
Definition GetOptions := from_ptr (∅ : gmap string string) Options.
Definition GetSourceType := from_ptr Source_QUEUE SourceType.
Definition GetDeclareOnly := from_ptr false DeclareOnly.

Definition GetErrorMessage := from_ptr "" Message_.

Definition GetUsername := from_ptr "" Username.
Definition GetPassword := from_ptr "" Password.

(** ** Zero values *)

Definition zero_Source : Source := {|
  SourceName := ""; SourceAddress := None; AutoDelete := false; Options := ∅;
  Exclusive := false; PrefetchCount := 0; Filters := []; SourceType := Source_QUEUE;
  DeclareOnly := false; SingleActiveConsumer := false |}.

Definition zero_Message : Message := {|
  Uuid := ""; Headers := ∅; Body := []; MessageAddress := None; Persistent := false;
  MessageError := None; Confirm := false; PublishId := 0; PublisherName := "" |}.

Definition zero_SourceStats : SourceStats := {|
  StatsError := None; MessageCount := 0; ConsumerCount := 0; LastOffset := 0; CurrentOffset := 0;
  StatsName := ""; PublishRate := S754_zero false; DeliverRate := S754_zero false |}.

(** ** Field updates *)

Definition set_SourceName (n : string) (s : Source) : Source := {|
  SourceName := n; SourceAddress := SourceAddress s; AutoDelete := AutoDelete s;
  Options := Options s; Exclusive := Exclusive s; PrefetchCount := PrefetchCount s;
  Filters := Filters s; SourceType := SourceType s; DeclareOnly := DeclareOnly s;
  SingleActiveConsumer := SingleActiveConsumer s |}.

Definition set_SourceType (t : Source_TargetType) (s : Source) : Source := {|
  SourceName := SourceName s; SourceAddress := SourceAddress s; AutoDelete := AutoDelete s;
  Options := Options s; Exclusive := Exclusive s; PrefetchCount := PrefetchCount s;
  Filters := Filters s; SourceType := t; DeclareOnly := DeclareOnly s;
  SingleActiveConsumer := SingleActiveConsumer s |}.

Definition set_PrefetchCount (n : Z) (s : Source) : Source := {|
  SourceName := SourceName s; SourceAddress := SourceAddress s; AutoDelete := AutoDelete s;
  Options := Options s; Exclusive := Exclusive s; PrefetchCount := n;
  Filters := Filters s; SourceType := SourceType s; DeclareOnly := DeclareOnly s;
  SingleActiveConsumer := SingleActiveConsumer s |}.

Definition set_Options (o : gmap string string) (s : Source) : Source := {|
  SourceName := SourceName s; SourceAddress := SourceAddress s; AutoDelete := AutoDelete s;
  Options := o; Exclusive := Exclusive s; PrefetchCount := PrefetchCount s;
  Filters := Filters s; SourceType := SourceType s; DeclareOnly := DeclareOnly s;
  SingleActiveConsumer := SingleActiveConsumer s |}.
