(* ===== verification/ConcurrentMap.v ===== *)
(** * [internal/util/concurrentMap.go]: the locked string-keyed map

    Every method holds the map's mutex from its first to its last statement,
    so concurrent callers see a sequence of whole operations: an operation is
    a function on the contents, and an interleaving is a list of operations
    ([cm_run]). *)

From Stdlib Require Import Ascii String.
From stdpp Require Import base gmap strings list fin_maps option.
From Stdlib Require Import ZArith Lia.
From S2P Require Import Prelude GoStrings.

Module ConcurrentMap.

Section ops.
Context {V : Type}.

Definition NewConcurrentMap : gmap string V := ∅.

Definition Add (key : string) (item : V) (items : gmap string V) : gmap string V :=
  <[key := item]> items.

Definition Delete (key : string) (items : gmap string V) : gmap string V :=
  delete key items.

Definition DeleteIfEqual `{EqDecision V} (key : string) (expected : V)
    (items : gmap string V) : bool * gmap string V :=
  match items !! key with
  | Some item => if decide (item = expected) then (true, delete key items) else (false, items)
  | None => (false, items)
  end.

Definition Get (key : string) (items : gmap string V) : option V := items !! key.

Definition GetList `{MapRange} (items : gmap string V) : list string :=
  (map_range items).*1.

Definition Length (items : gmap string V) : Z := Z.of_nat (size items).

(** One call by some thread, and a history of calls. *)
Inductive cm_op :=
  | OpAdd (key : string) (item : V)
  | OpDelete (key : string)
  | OpDeleteIfEqual (key : string) (expected : V).

Definition cm_apply `{EqDecision V} (o : cm_op) (items : gmap string V) : gmap string V :=
  match o with
  | OpAdd k v => Add k v items
  | OpDelete k => Delete k items
  | OpDeleteIfEqual k v => snd (DeleteIfEqual k v items)
  end.

Definition cm_run `{EqDecision V} (os : list cm_op) (items : gmap string V) : gmap string V :=
  foldl (λ m o, cm_apply o m) items os.

(** *** Lemmas *)

Lemma Get_Add key key' item items :
  Get key (Add key' item items) = if decide (key = key') then Some item else Get key items.
Proof.
  unfold Get, Add. destruct (decide (key = key')) as [->|]; by simplify_map_eq.
Qed.

Lemma Get_Delete key key' items :
  Get key (Delete key' items) = if decide (key = key') then None else Get key items.
Proof.
  unfold Get, Delete. destruct (decide (key = key')) as [->|]; by simplify_map_eq.
Qed.

Lemma elem_of_GetList `{MapRange} key items : key ∈ GetList items ↔ is_Some (Get key items).
Proof.
  unfold GetList. rewrite list_elem_of_fmap. split.
  - intros ((k & v) & -> & Hin%elem_of_map_range). by exists v.
  - intros [v Hv]. exists (key, v). split; [done|]. by apply elem_of_map_range.
Qed.

Lemma GetList_NoDup `{MapRange} items : NoDup (GetList items).
Proof. apply map_range_NoDup. Qed.

Lemma GetList_length `{MapRange} items : Z.of_nat (length (GetList items)) = Length items.
Proof.
  unfold GetList, Length. rewrite length_fmap, map_range_perm, length_map_to_list. done.
Qed.

Lemma DeleteIfEqual_spec `{EqDecision V} key expected items :
  DeleteIfEqual key expected items =
    if decide (Get key items = Some expected) then (true, Delete key items) else (false, items).
Proof.
  unfold DeleteIfEqual, Get, Delete.
  destruct (items !! key) as [v|]; [|by rewrite decide_False].
  destruct (decide (v = expected)) as [->|Hne]; [by rewrite decide_True|].
  rewrite decide_False; [done|]. by intros [= ->].
Qed.

Lemma Get_DeleteIfEqual_ne `{EqDecision V} key key' expected items :
  key ≠ key' → Get key (snd (DeleteIfEqual key' expected items)) = Get key items.
Proof.
  intros Hne. rewrite DeleteIfEqual_spec. case_decide; [|done].
  cbn. rewrite Get_Delete. by rewrite decide_False.
Qed.

(** An entry survives every history that neither deletes its key nor stores
    under it, whatever values [DeleteIfEqual] is called with, as long as none
    of them is the entry itself. *)
Lemma cm_run_keeps `{EqDecision V} os key item items :
  Get key items = Some item →
  Forall (λ o, match o with
               | OpAdd k _ | OpDelete k => k ≠ key
               | OpDeleteIfEqual k v => (k, v) ≠ (key, item)
               end) os →
  Get key (cm_run os items) = Some item.
Proof.
  revert items. induction os as [|o os IH]; intros items Hget Hos; [done|].
  apply Forall_cons_iff in Hos as [Ho Hos]. cbn. apply IH; [|done].
  destruct o as [k v|k|k v]; cbn.
  - rewrite Get_Add, decide_False; done.
  - rewrite Get_Delete, decide_False; done.
  - rewrite DeleteIfEqual_spec. case_decide as Hk; [|done].
    cbn. rewrite Get_Delete. case_decide as Heq; [|done]. subst. congruence.
Qed.
End ops.

Arguments cm_op V : clear implicits.
#[global] Arguments Get : simpl never.
#[global] Arguments Add : simpl never.
#[global] Arguments Delete : simpl never.

#[export] Hint Rewrite @Get_Add @Get_Delete : arke.

End ConcurrentMap.
