(* ===== verification/BlockingLatch.v ===== *)
(** * [internal/util/blocking_latch.go]: the prefetch latch of stream consumers

    The latch counts the messages a stream consumer has delivered and not yet
    acknowledged. It is modelled at two levels: the fields and what each
    method does to them while it holds the mutex, and a machine of any number
    of threads, each inside one call, in which the steps of the mutex, of
    [sync.Cond] ([Wait] = join the notify list, unlock, sleep, lock again;
    [Signal] = wake the thread that waited longest; [Broadcast] = wake all)
    and of [context.AfterFunc] (the [Broadcast] runs in its own goroutine,
    without the mutex) are separate. *)

From Stdlib Require Import Ascii String.
From stdpp Require Import base gmap strings list fin_maps option relations.
From Stdlib Require Import ZArith Lia.
From S2P Require Import Prelude.

Module BlockingLatch.
Open Scope Z_scope.

(** ** The fields and the critical sections *)

Record BlockingLatch := { ctx_done : bool; count : Z; max : Z }.

Definition NewBlockingLatch (done : bool) (m : Z) : BlockingLatch :=
  {| ctx_done := done; count := 0; max := uint 64 m |}.

Definition Count (bl : BlockingLatch) : Z := count bl.
Definition GetMax (bl : BlockingLatch) : Z := max bl.
Definition SetMax (m : Z) (bl : BlockingLatch) : BlockingLatch :=
  {| ctx_done := ctx_done bl; count := count bl; max := uint 64 m |}.

(** [bl.count--] on a [uint] wraps below zero. *)
Definition Decrement (bl : BlockingLatch) : BlockingLatch :=
  {| ctx_done := ctx_done bl; count := uint 64 (count bl - 1); max := max bl |}.

Definition cancel (bl : BlockingLatch) : BlockingLatch :=
  {| ctx_done := true; count := count bl; max := max bl |}.

(** What one turn of a loop that holds the mutex decides: return, with the
    error of the context or without, or wait for a notification. *)
Inductive turn := TReturn (ok : bool) | TWait.

Definition increment_turn (bl : BlockingLatch) : turn * BlockingLatch :=
  if count bl <? max bl then
    (TReturn true, {| ctx_done := ctx_done bl; count := uint 64 (count bl + 1); max := max bl |})
  else if ctx_done bl then (TReturn false, bl)
  else (TWait, bl).

Definition wait_empty_turn (bl : BlockingLatch) : turn * BlockingLatch :=
  if count bl =? 0 then (TReturn true, bl)
  else if ctx_done bl then (TReturn false, bl)
  else (TWait, bl).

(** ** Threads *)

Inductive call := KIncrement | KWaitForEmpty | KDecrement.

(** Where a thread is: before its call, about to lock the mutex, holding it at
    the head of the loop, holding it between the test and [Wait] joining the
    notify list, asleep in the notify list, or returned. *)
Inductive pc :=
  | PInit (k : call)
  | PLock (k : call)
  | PHead (k : call)
  | PPreWait (k : call)
  | PSleep (k : call)
  | PDone (k : call) (ok : bool).

#[export] Instance call_eq_dec : EqDecision call.
Proof. solve_decision. Defined.
#[export] Instance pc_eq_dec : EqDecision pc.
Proof. solve_decision. Defined.

Record machine := {
  latch : BlockingLatch;
  lock : option nat;        (* the thread that holds the mutex *)
  notify : list nat;        (* the notify list of [notMax], longest first *)
  armed : list nat;         (* [AfterFunc] registrations not yet run or stopped *)
  threads : list pc
}.

Definition init_machine (done : bool) (m : Z) (ks : list call) : machine := {|
  latch := NewBlockingLatch done m; lock := None; notify := []; armed := [];
  threads := map PInit ks |}.

(** A thread that [Signal] or [Broadcast] takes off the notify list goes on to
    lock the mutex. *)
Definition wake (p : pc) : pc := match p with PSleep k => PLock k | _ => p end.

Definition wake_thread (ts : list pc) (i : nat) : list pc := alter wake i ts.

(** [Signal] *)
Definition signal (m : machine) : machine :=
  match notify m with
  | [] => m
  | i :: rest => {| latch := latch m; lock := lock m; notify := rest; armed := armed m;
                    threads := wake_thread (threads m) i |}
  end.

(** [Broadcast] *)
Definition broadcast (m : machine) : machine :=
  {| latch := latch m; lock := lock m; notify := []; armed := armed m;
     threads := foldl wake_thread (threads m) (notify m) |}.

Inductive action :=
  | ACall (i : nat)        (* enter the call: register the [AfterFunc] *)
  | ALock (i : nat)        (* obtain the mutex *)
  | ATurn (i : nat)        (* the loop head, or the body of [Decrement] *)
  | ASleep (i : nat)       (* [Wait] joins the notify list and unlocks *)
  | ACancel                (* the context is cancelled *)
  | AAfterFunc (i : nat).  (* the [AfterFunc] of thread [i] broadcasts *)

Definition set_thread (i : nat) (p : pc) (m : machine) : machine :=
  {| latch := latch m; lock := lock m; notify := notify m; armed := armed m;
     threads := <[i := p]> (threads m) |}.

Definition uses_after (k : call) : bool :=
  match k with KDecrement => false | _ => true end.

(** The return of thread [i]: the deferred [Unlock] and [stop()]. *)
Definition finish (i : nat) (k : call) (ok : bool) (bl : BlockingLatch) (m : machine) : machine :=
  {| latch := bl; lock := None; notify := notify m;
     armed := filter (λ j, j ≠ i) (armed m);
     threads := <[i := PDone k ok]> (threads m) |}.

Definition run_turn (k : call) (bl : BlockingLatch) : turn * BlockingLatch :=
  match k with
  | KIncrement => increment_turn bl
  | KWaitForEmpty => wait_empty_turn bl
  | KDecrement => (TReturn true, Decrement bl)
  end.

Definition act (a : action) (m : machine) : option machine :=
  match a with
  | ACall i =>
      match threads m !! i with
      | Some (PInit k) =>
          Some {| latch := latch m; lock := lock m; notify := notify m;
                  armed := if uses_after k then i :: armed m else armed m;
                  threads := <[i := PLock k]> (threads m) |}
      | _ => None
      end
  | ALock i =>
      match threads m !! i, lock m with
      | Some (PLock k), None =>
          Some {| latch := latch m; lock := Some i; notify := notify m; armed := armed m;
                  threads := <[i := PHead k]> (threads m) |}
      | _, _ => None
      end
  | ATurn i =>
      match threads m !! i with
      | Some (PHead k) =>
          match run_turn k (latch m) with
          | (TReturn ok, bl) =>
              let m' := match k with KDecrement => signal m | _ => m end in
              Some (finish i k ok bl m')
          | (TWait, bl) => Some (set_thread i (PPreWait k) m)
          end
      | _ => None
      end
  | ASleep i =>
      match threads m !! i with
      | Some (PPreWait k) =>
          Some {| latch := latch m; lock := None; notify := notify m ++ [i]; armed := armed m;
                  threads := <[i := PSleep k]> (threads m) |}
      | _ => None
      end
  | ACancel =>
      Some {| latch := cancel (latch m); lock := lock m; notify := notify m;
              armed := armed m; threads := threads m |}
  | AAfterFunc i =>
      if decide (i ∈ armed m) then
        if ctx_done (latch m) then
          Some (broadcast {| latch := latch m; lock := lock m; notify := notify m;
                             armed := filter (λ j, j ≠ i) (armed m); threads := threads m |})
        else None
      else None
  end.

Definition step (m m' : machine) : Prop := ∃ a, act a m = Some m'.

Fixpoint run (l : list action) (m : machine) : option machine :=
  match l with
  | [] => Some m
  | a :: l' => m' ← act a m; run l' m'
  end.

(** What the calls have done so far. *)
Definition is_incremented (p : pc) : bool :=
  match p with PDone KIncrement true => true | _ => false end.
Definition is_decremented (p : pc) : bool :=
  match p with PDone KDecrement _ => true | _ => false end.
Definition increments (m : machine) : Z := count_if is_incremented (threads m).
Definition decrements (m : machine) : Z := count_if is_decremented (threads m).

(** Threads inside [Increment] that will test the latch again without being
    notified. *)
Definition is_awake (p : pc) : bool :=
  match p with PLock KIncrement | PHead KIncrement => true | _ => false end.
Definition is_asleep (p : pc) : bool := match p with PSleep _ => true | _ => false end.
Definition awake (m : machine) : Z := count_if is_awake (threads m).

(** ** Invariants *)

Definition kind (p : pc) : call :=
  match p with PInit k | PLock k | PHead k | PPreWait k | PSleep k | PDone k _ => k end.
Definition holds_lock (p : pc) : bool :=
  match p with PHead _ | PPreWait _ => true | _ => false end.
Definition waits (p : pc) : bool :=
  match p with PPreWait _ | PSleep _ => true | _ => false end.

Record inv (m : machine) : Prop := {
  inv_count : 0 <= count (latch m) < 2 ^ 64;
  inv_max : 0 <= max (latch m) < 2 ^ 64;
  inv_holder : ∀ i p, threads m !! i = Some p → holds_lock p = true → lock m = Some i;
  inv_notify : ∀ i, i ∈ notify m ↔ ∃ k, threads m !! i = Some (PSleep k);
  inv_nodup : NoDup (notify m);
  inv_waits : ∀ i p, threads m !! i = Some p → waits p = true → kind p ≠ KDecrement;
  inv_prewait : ∀ i, threads m !! i = Some (PPreWait KIncrement) →
                max (latch m) <= count (latch m)
}.

(** *** Notifications *)

Lemma lookup_wake_thread ts i j :
  wake_thread ts i !! j = if decide (i = j) then wake <$> ts !! j else ts !! j.
Proof.
  unfold wake_thread. destruct (decide (i = j)) as [->|Hne].
  - by rewrite list_lookup_alter_eq.
  - by rewrite list_lookup_alter_ne.
Qed.

Lemma wake_idemp p : wake (wake p) = wake p.
Proof. by destruct p. Qed.

Lemma lookup_wake_threads l ts j :
  foldl wake_thread ts l !! j = if decide (j ∈ l) then wake <$> ts !! j else ts !! j.
Proof.
  revert ts. induction l as [|i l IH]; intros ts; cbn.
  { by rewrite decide_False by set_solver. }
  rewrite IH, lookup_wake_thread. destruct (decide (i = j)) as [->|Hne].
  - rewrite (decide_True (P := j ∈ j :: l)) by set_solver.
    case_decide; [|done]. destruct (ts !! j); [|done]. cbn. by rewrite wake_idemp.
  - destruct (decide (j ∈ l)).
    + by rewrite (decide_True (P := j ∈ i :: l)) by set_solver.
    + by rewrite (decide_False (P := j ∈ i :: l)) by set_solver.
Qed.

Lemma wake_thread_insert ts i k :
  ts !! i = Some (PSleep k) → wake_thread ts i = <[i := PLock k]> ts.
Proof.
  intros Hi. apply list_eq. intros j. rewrite lookup_wake_thread.
  destruct (decide (i = j)) as [->|Hne].
  - rewrite Hi, list_lookup_insert_eq; [done|]. by eapply lookup_lt_Some.
  - by rewrite list_lookup_insert_ne.
Qed.

(** Threads the map of program counters is read through. *)
Ltac threads_simpl :=
  repeat match goal with
  | H : <[?i := _]> ?l !! ?j = Some _ |- _ =>
      destruct (decide (i = j)) as [<-|?];
      [rewrite list_lookup_insert_eq in H by (eapply lookup_lt_Some; eassumption);
       first [discriminate H | injection H as <- | simplify_eq]
      |rewrite list_lookup_insert_ne in H by done]
  end.

Lemma latch_inv_init done_ n ks : inv (init_machine done_ n ks).
Proof.
  assert (∀ i p, map PInit ks !! i = Some p → ∃ k, p = PInit k) as Hk.
  { intros i p Hp. change (map PInit ks) with (PInit <$> ks) in Hp.
    rewrite list_lookup_fmap in Hp. destruct (ks !! i); simplify_eq/=. by eexists. }
  split; cbn.
  - lia.
  - unfold uint. apply Z.mod_pos_bound. lia.
  - intros i p [k ->]%Hk. done.
  - intros i. split; [by intros ?%not_elem_of_nil|]. by intros [k [? ?]%Hk].
  - constructor.
  - intros i p [k ->]%Hk. done.
  - by intros i [? ?]%Hk.
Qed.

Lemma increment_turn_inv bl r bl' :
  0 <= count bl < 2 ^ 64 → 0 <= max bl < 2 ^ 64 → increment_turn bl = (r, bl') →
  0 <= count bl' < 2 ^ 64 ∧ max bl' = max bl.
Proof.
  unfold increment_turn, uint. intros Hc Hm.
  destruct (count bl <? max bl) eqn:Hlt; [|destruct (ctx_done bl)]; intros [= <- <-];
    cbn -[Z.pow]; [|done..].
  apply Z.ltb_lt in Hlt. rewrite Z.mod_small; lia.
Qed.

Lemma run_turn_inv k bl r bl' :
  0 <= count bl < 2 ^ 64 → 0 <= max bl < 2 ^ 64 → run_turn k bl = (r, bl') →
  0 <= count bl' < 2 ^ 64 ∧ max bl' = max bl.
Proof.
  intros Hc Hm. destruct k; cbn -[Z.pow].
  - by apply increment_turn_inv.
  - unfold wait_empty_turn. repeat case_match; intros [= <- <-]; done.
  - intros [= <- <-]. cbn -[Z.pow]. split; [|done]. apply Z.mod_pos_bound. lia.
Qed.

Lemma run_turn_wait k bl bl' :
  run_turn k bl = (TWait, bl') → bl' = bl ∧ k ≠ KDecrement ∧ (k = KIncrement → max bl <= count bl).
Proof.
  destruct k; cbn; unfold increment_turn, wait_empty_turn.
  - destruct (count bl <? max bl) eqn:H; [done|]. apply Z.ltb_ge in H.
    destruct (ctx_done bl); [done|]. intros [= <-]. done.
  - repeat case_match; try done. intros [= <-]. done.
  - done.
Qed.

(** The returning thread leaves the mutex; nobody else held it. *)
Lemma inv_finish m i k ok bl r :
  inv m → threads m !! i = Some (PHead k) → run_turn k (latch m) = (r, bl) →
  inv (finish i k ok bl m).
Proof.
  intros [Hc Hx Hh Hn Hd Hw Hp] Hi Ht.
  destruct (run_turn_inv _ _ _ _ Hc Hx Ht) as [Hc' Hx'].
  pose proof (Hh _ _ Hi eq_refl) as Hlock.
  assert (∀ j p, threads m !! j = Some p → holds_lock p = true → i = j) as Honly.
  { intros j p Hj Hl. pose proof (Hh _ _ Hj Hl). congruence. }
  split; cbn -[Z.pow]; rewrite ?Hx'; try done.
  - intros j p Hj Hl. threads_simpl; [done|]. by destruct (Honly _ _ Hj Hl).
  - intros j. rewrite Hn. split; intros [k' Hj].
    + exists k'. destruct (decide (i = j)) as [<-|]; [congruence|].
      by rewrite list_lookup_insert_ne.
    + threads_simpl. by exists k'.
  - intros j p Hj Hl. threads_simpl; [done|]. by eapply Hw.
  - intros j Hj. threads_simpl. by destruct (Honly _ _ Hj eq_refl).
Qed.

Lemma inv_signal m : inv m → inv (signal m).
Proof.
  intros [Hc Hx Hh Hn Hd Hw Hp]. unfold signal.
  destruct (notify m) as [|i rest] eqn:Hl; [by split; rewrite ?Hl|].
  apply NoDup_cons in Hd as [Hi Hd].
  destruct (proj1 (Hn i)) as [k Hk]; [set_solver|].
  rewrite (wake_thread_insert _ _ _ Hk).
  split; cbn -[Z.pow]; try done.
  - intros j p Hj ?. threads_simpl; [done|]. by eapply Hh.
  - intros j. split.
    + intros Hj. destruct (proj1 (Hn j)) as [k' Hk']; [set_solver|].
      exists k'. rewrite list_lookup_insert_ne; [done|]. by intros ->.
    + intros [k' Hj]. threads_simpl. assert (j ∈ i :: rest) by (apply Hn; eauto). set_solver.
  - intros j p Hj ?. threads_simpl; [done|]. by eapply Hw.
  - intros j Hj. threads_simpl. by eapply Hp.
Qed.

Lemma inv_broadcast m a : inv m →
  inv (broadcast {| latch := latch m; lock := lock m; notify := notify m; armed := a;
                    threads := threads m |}).
Proof.
  intros [Hc Hx Hh Hn Hd Hw Hp]. unfold broadcast; split; cbn -[Z.pow]; try done.
  - intros j p. rewrite lookup_wake_threads. case_decide as Hj; [|apply Hh].
    apply Hn in Hj as [k Hk]. rewrite Hk. by intros [= <-].
  - intros j. split; [by intros ?%not_elem_of_nil|]. intros [k Hk].
    rewrite lookup_wake_threads in Hk. case_decide as Hj.
    + apply Hn in Hj as [k' Hk']. rewrite Hk' in Hk. done.
    + destruct Hj. apply Hn. eauto.
  - constructor.
  - intros j p. rewrite lookup_wake_threads. case_decide as Hj; [|apply Hw].
    apply Hn in Hj as [k Hk]. rewrite Hk. by intros [= <-].
  - intros j. rewrite lookup_wake_threads. case_decide as Hj; [|apply Hp].
    apply Hn in Hj as [k Hk]. by rewrite Hk.
Qed.

Lemma signal_lookup_head m i k : inv m → threads m !! i = Some (PHead k) →
  threads (signal m) !! i = Some (PHead k).
Proof.
  intros Hinv Hi. unfold signal. destruct (notify m) as [|j rest] eqn:Hl; [done|]. cbn.
  rewrite lookup_wake_thread. case_decide as Hj; [|done]. subst j. by rewrite Hi.
Qed.

Lemma signal_latch m : latch (signal m) = latch m.
Proof. unfold signal. by destruct (notify m). Qed.

(** Who is waiting to be notified has not changed. *)
Ltac notify_kept Hn :=
  intros j; rewrite Hn; split; intros [k' Hj];
  [exists k'; rewrite list_lookup_insert_ne; [done|]; intros ->; congruence | threads_simpl; by exists k'].

Lemma inv_call i m m' : inv m → act (ACall i) m = Some m' → inv m'.
Proof.
  intros [Hc Hx Hh Hn Hd Hw Hp] Hact. cbn in Hact.
  destruct (threads m !! i) as [[k|k|k|k|k|k ?]|] eqn:Hi; simplify_eq. split; cbn -[Z.pow]; try done.
  - intros j p Hj ?. threads_simpl; [done|]. by eapply Hh.
  - notify_kept Hn.
  - intros j p Hj ?. threads_simpl; [done|]. by eapply Hw.
  - intros j Hj. threads_simpl. by eapply Hp.
Qed.

Lemma inv_lock i m m' : inv m → act (ALock i) m = Some m' → inv m'.
Proof.
  intros [Hc Hx Hh Hn Hd Hw Hp] Hact. cbn in Hact.
  destruct (threads m !! i) as [[k|k|k|k|k|k ?]|] eqn:Hi; simplify_eq.
  destruct (lock m) as [?|] eqn:Hlock; simplify_eq. split; cbn -[Z.pow]; try done.
  - intros j p Hj Hl. threads_simpl; [done|]. by pose proof (Hh _ _ Hj Hl).
  - notify_kept Hn.
  - intros j p Hj ?. threads_simpl; [done|]. by eapply Hw.
  - intros j Hj. threads_simpl. by eapply Hp.
Qed.

Lemma inv_turn i m m' : inv m → act (ATurn i) m = Some m' → inv m'.
Proof.
  intros Hinv Hact. pose proof Hinv as [Hc Hx Hh Hn Hd Hw Hp]. cbn in Hact.
  destruct (threads m !! i) as [[k|k|k|k|k|k ?]|] eqn:Hi; simplify_eq.
  destruct (run_turn k (latch m)) as [[ok|] bl] eqn:Ht.
  - injection Hact as <-. destruct k.
    + by eapply inv_finish.
    + by eapply inv_finish.
    + apply (inv_finish _ _ _ _ _ (TReturn ok)); [by apply inv_signal| |].
      * by apply signal_lookup_head.
      * by rewrite signal_latch.
  - injection Hact as <-. apply run_turn_wait in Ht as (-> & Hk & Hfull). split; cbn -[Z.pow]; try done.
    + intros j p Hj Hl. threads_simpl; [by eapply Hh|]. by eapply Hh.
    + notify_kept Hn.
    + intros j p Hj ?. threads_simpl; [done|]. by eapply Hw.
    + intros j Hj. destruct (decide (i = j)) as [<-|].
      * rewrite list_lookup_insert_eq in Hj by by eapply lookup_lt_Some.
        injection Hj as ->. by apply Hfull.
      * rewrite list_lookup_insert_ne in Hj by done. by eapply Hp.
Qed.

Lemma inv_sleep i m m' : inv m → act (ASleep i) m = Some m' → inv m'.
Proof.
  intros [Hc Hx Hh Hn Hd Hw Hp] Hact. cbn in Hact.
  destruct (threads m !! i) as [[k|k|k|k|k|k ?]|] eqn:Hi; simplify_eq.
  pose proof (Hh _ _ Hi eq_refl) as Hlock. split; cbn -[Z.pow]; try done.
  - intros j p Hj Hl. threads_simpl; [done|]. pose proof (Hh _ _ Hj Hl). congruence.
  - intros j. rewrite elem_of_app, Hn, list_elem_of_singleton. split.
    + intros [[k' Hj] | ->].
      * exists k'. rewrite list_lookup_insert_ne; [done|]. intros ->. congruence.
      * exists k. rewrite list_lookup_insert_eq; [done|]. by eapply lookup_lt_Some.
    + intros [k' Hj]. threads_simpl; [by right|]. left. by exists k'.
  - apply NoDup_app. split; [done|]. split; [|apply NoDup_singleton].
    intros j [k' Hj]%Hn ->%list_elem_of_singleton. congruence.
  - intros j p Hj ?. threads_simpl; [by apply (Hw _ _ Hi)|]. by eapply Hw.
  - intros j Hj. threads_simpl. by eapply Hp.
Qed.

Lemma latch_inv_act a m m' : inv m → act a m = Some m' → inv m'.
Proof.
  intros Hinv Hact. destruct a as [i|i|i|i| |i].
  - by eapply inv_call.
  - by eapply inv_lock.
  - by eapply inv_turn.
  - by eapply inv_sleep.
  - destruct Hinv. injection Hact as <-. by split.
  - cbn in Hact. repeat case_decide; [|done]. destruct (ctx_done (latch m)); simplify_eq.
    by apply inv_broadcast.
Qed.

(** *** Reachable machines *)

Definition reachable (done_ : bool) (n : Z) (ks : list call) (m : machine) : Prop :=
  rtc step (init_machine done_ n ks) m.

Lemma reachable_ind (P : machine → Prop) done_ n ks m :
  P (init_machine done_ n ks) →
  (∀ a m m', inv m → P m → act a m = Some m' → P m') →
  reachable done_ n ks m → inv m ∧ P m.
Proof.
  intros H0 Hs Hr. unfold reachable in Hr.
  apply (rtc_ind_r (λ m, inv m ∧ P m)) with (z := m) in Hr; [done| |].
  - split; [apply latch_inv_init | done].
  - intros y z _ [a Ha] [Hi HP]. split; [by eapply latch_inv_act | by eapply Hs].
Qed.

Lemma latch_run_reachable l m m' : run l m = Some m' → rtc step m m'.
Proof.
  revert m. induction l as [|a l IH]; intros m H; simplify_eq/=; [done|].
  destruct (act a m) as [m1|] eqn:Ha; simplify_eq/=.
  eapply rtc_l; [by exists a | by apply IH].
Qed.

(** *** What the counters count *)

Lemma count_if_wake_threads f l ts :
  (∀ p, f (wake p) = f p) → count_if f (foldl wake_thread ts l) = count_if f ts.
Proof.
  intros Hf. revert ts. induction l as [|i l IH]; intros ts; cbn; [done|].
  rewrite IH. by apply count_if_alter.
Qed.

Lemma count_if_signal f m :
  (∀ p, f (wake p) = f p) → count_if f (threads (signal m)) = count_if f (threads m).
Proof.
  intros Hf. unfold signal. destruct (notify m) as [|i l]; [done|]. by apply count_if_alter.
Qed.

(** [Signal] brings the longest waiting [Increment] back to the latch. *)
Lemma awake_signal m i rest :
  notify m = i :: rest → threads m !! i = Some (PSleep KIncrement) →
  awake (signal m) = awake m + 1.
Proof.
  intros Hn Hi. unfold awake, signal. rewrite Hn. cbn.
  rewrite (wake_thread_insert _ _ _ Hi), (count_if_insert _ _ _ _ _ Hi). cbn. lia.
Qed.

Definition balanced (m : machine) : Prop :=
  count (latch m) = uint 64 (increments m - decrements m) ∧
  increments m - decrements m <= max (latch m).

Lemma balanced_same m m' :
  latch m' = latch m → increments m' = increments m → decrements m' = decrements m →
  balanced m → balanced m'.
Proof. unfold balanced. by intros -> -> ->. Qed.

Lemma balanced_cancel m m' :
  latch m' = cancel (latch m) → threads m' = threads m → balanced m → balanced m'.
Proof. unfold balanced, increments, decrements. by intros -> ->. Qed.

(** A thread that moves between two points of its call leaves both totals. *)
Lemma totals_insert m i p q :
  threads m !! i = Some p → is_incremented p = false → is_decremented p = false →
  count_if is_incremented (<[i := q]> (threads m)) = increments m + b2z (is_incremented q) ∧
  count_if is_decremented (<[i := q]> (threads m)) = decrements m + b2z (is_decremented q).
Proof.
  intros Hi H1 H2. unfold increments, decrements.
  rewrite !(count_if_insert _ _ _ _ _ Hi), H1, H2. cbn. lia.
Qed.

Lemma balanced_finish m i k ok bl :
  inv m → balanced m → threads m !! i = Some (PHead k) →
  run_turn k (latch m) = (TReturn ok, bl) → balanced (finish i k ok bl m).
Proof.
  intros Hinv [Hb Hle] Hi Ht. pose proof (inv_count _ Hinv) as Hc.
  pose proof (inv_max _ Hinv) as Hm.
  destruct (totals_insert m i _ (PDone k ok) Hi eq_refl eq_refl) as [H1 H2].
  unfold balanced, increments, decrements in *. cbn [finish threads latch].
  rewrite H1, H2. unfold increments, decrements in *.
  remember (count_if is_incremented (threads m)) as a.
  remember (count_if is_decremented (threads m)) as b.
  clear Heqa Heqb H1 H2. destruct k; cbn -[Z.pow] in Ht |- *.
  - unfold increment_turn in Ht. destruct (_ <? _) eqn:Hlt.
    + injection Ht as <- <-. apply Z.ltb_lt in Hlt. cbn -[Z.pow]. rewrite Hb.
      unfold uint in *. rewrite Zplus_mod_idemp_l. split; [f_equal; lia|].
      assert (a - b < max (latch m)); [|lia].
      destruct (decide (a - b < 0)); [lia|]. rewrite Z.mod_small in Hb; lia.
    + destruct (ctx_done _); simplify_eq. cbn. rewrite !Z.add_0_r. done.
  - unfold wait_empty_turn in Ht. repeat case_match; simplify_eq; cbn; rewrite !Z.add_0_r; done.
  - injection Ht as <- <-. cbn -[Z.pow]. rewrite Hb. unfold uint.
    rewrite Zminus_mod_idemp_l. split; [f_equal; lia | lia].
Qed.

Lemma balanced_act a m m' : inv m → balanced m → act a m = Some m' → balanced m'.
Proof.
  intros Hinv Hb Hact.
  assert (∀ p, is_incremented (wake p) = is_incremented p) as Hw1 by (by intros []).
  assert (∀ p, is_decremented (wake p) = is_decremented p) as Hw2 by (by intros []).
  destruct a as [i|i|i|i| |i]; cbn in Hact.
  - destruct (threads m !! i) as [[k|k|k|k|k|k ?]|] eqn:Hi; simplify_eq.
    destruct (totals_insert m i _ (PLock k) Hi eq_refl eq_refl) as [H1 H2].
    by apply (balanced_same m); [done|rewrite Z.add_0_r in *..|done].
  - destruct (threads m !! i) as [[k|k|k|k|k|k ?]|] eqn:Hi; simplify_eq.
    destruct (lock m) as [?|]; simplify_eq.
    destruct (totals_insert m i _ (PHead k) Hi eq_refl eq_refl) as [H1 H2].
    by apply (balanced_same m); [done|rewrite Z.add_0_r in *..|done].
  - destruct (threads m !! i) as [[k|k|k|k|k|k ?]|] eqn:Hi; simplify_eq.
    destruct (run_turn k (latch m)) as [[ok|] bl] eqn:Ht; simplify_eq.
    + destruct k; [by apply balanced_finish..|].
      apply balanced_finish; [by apply inv_signal| | |by rewrite signal_latch].
      * apply (balanced_same m); [by rewrite signal_latch|by apply count_if_signal..|done].
      * by apply signal_lookup_head.
    + apply run_turn_wait in Ht as (-> & _ & _).
      destruct (totals_insert m i _ (PPreWait k) Hi eq_refl eq_refl) as [H1 H2].
      by apply (balanced_same m); [done|rewrite Z.add_0_r in *..|done].
  - destruct (threads m !! i) as [[k|k|k|k|k|k ?]|] eqn:Hi; simplify_eq.
    destruct (totals_insert m i _ (PSleep k) Hi eq_refl eq_refl) as [H1 H2].
    by apply (balanced_same m); [done|rewrite Z.add_0_r in *..|done].
  - injection Hact as <-. by apply (balanced_cancel m).
  - repeat case_decide; [|done]. destruct (ctx_done (latch m)); simplify_eq.
    by apply (balanced_same m); [done|apply count_if_wake_threads..|done].
Qed.

Lemma count_if_init f ks :
  (∀ k, f (PInit k) = false) → count_if f (map PInit ks) = 0.
Proof.
  intros Hf. induction ks as [|k ks IH]; [done|]. cbn. rewrite count_if_cons, Hf, IH. done.
Qed.

(** *** Notifications are not lost between [Increment] and [Decrement] *)

Definition served (m : machine) : Prop :=
  Forall (λ p, kind p ≠ KWaitForEmpty) (threads m) ∧
  (ctx_done (latch m) = false → notify m ≠ [] → max (latch m) <= count (latch m) + awake m).

Lemma awake_nonneg m : 0 <= awake m.
Proof. apply count_if_nonneg. Qed.

Lemma kind_wake p : kind (wake p) = kind p.
Proof. by destruct p. Qed.

Lemma Forall_kind_insert ts i p q :
  ts !! i = Some p → kind q = kind p →
  Forall (λ p, kind p ≠ KWaitForEmpty) ts → Forall (λ p, kind p ≠ KWaitForEmpty) (<[i := q]> ts).
Proof.
  intros Hi Hk H. apply Forall_insert; [done|]. rewrite Hk.
  by apply (Forall_lookup_1 _ _ _ _ H Hi).
Qed.

Lemma Forall_kind_wake l ts :
  Forall (λ p, kind p ≠ KWaitForEmpty) ts →
  Forall (λ p, kind p ≠ KWaitForEmpty) (foldl wake_thread ts l).
Proof.
  rewrite !Forall_lookup. intros H i p. rewrite lookup_wake_threads. case_decide; [|apply H].
  destruct (ts !! i) as [q|] eqn:Hi; [|done]. intros [= <-]. rewrite kind_wake. by eapply H.
Qed.

Lemma awake_insert m i p q :
  threads m !! i = Some p →
  count_if is_awake (<[i := q]> (threads m)) = awake m - b2z (is_awake p) + b2z (is_awake q).
Proof. apply count_if_insert. Qed.

(** The thread woken by [Decrement] makes up for the slot it frees. *)
Lemma served_decrement m i :
  inv m → served m → threads m !! i = Some (PHead KDecrement) →
  served (finish i KDecrement true (Decrement (latch m)) (signal m)).
Proof.
  intros Hinv [Hk Hs] Hi. pose proof (signal_lookup_head _ _ _ Hinv Hi) as Hi'.
  split; cbn -[Z.pow].
  - eapply Forall_kind_insert; [exact Hi'|done|]. unfold signal.
    destruct (notify m) as [|j l]; [done|]. cbn. by apply (Forall_kind_wake [j]).
  - intros Hd Hn. unfold awake. cbn -[Z.pow]. rewrite (awake_insert _ _ _ _ Hi'). cbn -[Z.pow].
    assert (∃ j rest, notify m = j :: rest) as (j & rest & Hj).
    { unfold signal in Hn. destruct (notify m) as [|j rest] eqn:Hj; [congruence|by eexists _, _]. }
    destruct (proj1 (inv_notify _ Hinv j)) as [k Hsl]; [rewrite Hj; apply list_elem_of_here|].
    assert (k = KIncrement) as ->.
    { pose proof (inv_waits _ Hinv _ _ Hsl eq_refl) as Hnd.
      pose proof (Forall_lookup_1 _ _ _ _ Hk Hsl) as Hnw. by destruct k. }
    rewrite (awake_signal _ _ _ Hj Hsl).
    assert (max (latch m) <= count (latch m) + awake m) as Hle by (apply Hs; [done|congruence]).
    pose proof (inv_count _ Hinv). pose proof (inv_max _ Hinv). pose proof (awake_nonneg m).
    unfold uint. destruct (decide (count (latch m) = 0)) as [Hz|Hz].
    + rewrite Hz. change ((0 - 1) mod 2 ^ 64) with (2 ^ 64 - 1). lia.
    + rewrite Z.mod_small; lia.
Qed.

Lemma served_turn m m' i :
  inv m → served m → act (ATurn i) m = Some m' → served m'.
Proof.
  intros Hinv Hsv Hact. pose proof Hsv as [Hk Hs]. cbn in Hact.
  pose proof (awake_nonneg m) as Haw.
  destruct (threads m !! i) as [[k|k|k|k|k|k ?]|] eqn:Hi; simplify_eq.
  pose proof (Forall_lookup_1 _ _ _ _ Hk Hi) as Hnw.
  destruct k; [|done|].
  - cbn in Hact. unfold increment_turn in Hact. destruct (_ <? _) eqn:Hlt.
    + apply Z.ltb_lt in Hlt. injection Hact as <-. split; cbn -[Z.pow].
      * by eapply Forall_kind_insert.
      * intros Hd Hn. unfold awake; cbn -[Z.pow]. rewrite (awake_insert _ _ _ _ Hi).
        cbn -[Z.pow]. specialize (Hs Hd Hn). pose proof (inv_count _ Hinv).
        pose proof (inv_max _ Hinv). rewrite uint_small; lia.
    + apply Z.ltb_ge in Hlt. destruct (ctx_done (latch m)) eqn:Hd; injection Hact as <-;
        (split; cbn -[Z.pow]; [by eapply Forall_kind_insert|]); intros Hd' Hn;
        [congruence|]. unfold awake; cbn -[Z.pow]. rewrite (awake_insert _ _ _ _ Hi).
      cbn -[Z.pow]. pose proof (count_if_pos is_awake _ _ _ Hi eq_refl). unfold awake in *. lia.
  - injection Hact as <-. by apply served_decrement.
Qed.

Lemma served_act a m m' : inv m → served m → act a m = Some m' → served m'.
Proof.
  intros Hinv Hsv Hact. pose proof Hsv as [Hk Hs]. pose proof (awake_nonneg m) as Haw.
  destruct a as [i|i|i|i| |i]; [|  |by eapply served_turn| | |]; cbn in Hact.
  - destruct (threads m !! i) as [[k|k|k|k|k|k ?]|] eqn:Hi; simplify_eq.
    split; cbn; [by eapply Forall_kind_insert|]. intros Hd Hn. specialize (Hs Hd Hn).
    unfold awake; cbn. rewrite (awake_insert _ _ _ _ Hi). destruct k; cbn; lia.
  - destruct (threads m !! i) as [[k|k|k|k|k|k ?]|] eqn:Hi; simplify_eq.
    destruct (lock m) as [?|]; simplify_eq.
    split; cbn; [by eapply Forall_kind_insert|]. intros Hd Hn. specialize (Hs Hd Hn).
    unfold awake; cbn. rewrite (awake_insert _ _ _ _ Hi). destruct k; cbn; lia.
  - destruct (threads m !! i) as [[k|k|k|k|k|k ?]|] eqn:Hi; simplify_eq.
    pose proof (Forall_lookup_1 _ _ _ _ Hk Hi) as Hnw.
    pose proof (inv_waits _ Hinv _ _ Hi eq_refl) as Hnd.
    destruct k; [|done..]. pose proof (inv_prewait _ Hinv _ Hi).
    split; cbn; [by eapply Forall_kind_insert|]. intros Hd Hn.
    unfold awake; cbn. rewrite (awake_insert _ _ _ _ Hi). cbn. lia.
  - injection Hact as <-. by split.
  - repeat case_decide; [|done]. destruct (ctx_done (latch m)) eqn:Hd; simplify_eq.
    split; cbn; [by apply Forall_kind_wake | congruence].
Qed.

Lemma act_max a m m' : inv m → act a m = Some m' → max (latch m') = max (latch m).
Proof.
  intros Hinv Hact. destruct a as [i|i|i|i| |i]; cbn in Hact; repeat case_match; simplify_eq; try done;
    match goal with
    | H : run_turn _ _ = _ |- _ =>
        apply run_turn_inv in H as [_ ?]; [done | apply (inv_count _ Hinv) | apply (inv_max _ Hinv)]
    end.
Qed.

Lemma reachable_max done_ n ks m : reachable done_ n ks m → max (latch m) = uint 64 n.
Proof.
  intros H. apply (reachable_ind (λ m, max (latch m) = uint 64 n)) in H as [_ H]; [done|done|].
  intros a m1 m2 Hi <- Ha. by eapply act_max.
Qed.

(** ** Properties *)

(** C10: The latch never admits more deliveries than the prefetch count: as long
    as every [Decrement] answers an [Increment], the counter is the number of
    unanswered increments, and it is at most the maximum the latch was made
    with, in every state every interleaving of the calls can reach. *)
Theorem latch_bounded done_ n ks m :
  reachable done_ n ks m → decrements m <= increments m →
  count (latch m) = increments m - decrements m ∧ count (latch m) <= uint 64 n.
Proof.
  intros Hr Hle. pose proof (reachable_max _ _ _ _ Hr) as Hmax.
  apply (reachable_ind balanced) in Hr as [Hinv [Hc Hb]].
  - pose proof (inv_max _ Hinv). rewrite uint_small in Hc; lia.
  - unfold balanced, increments, decrements. cbn -[Z.pow].
    rewrite !count_if_init by (by intros []). split; [done|].
    unfold uint. pose proof (Z.mod_pos_bound n (2 ^ 64)). lia.
  - intros a m1 m2 ? ? ?. by eapply balanced_act.
Qed.

Lemma latch_bounded_witness : ∃ m,
  run [ACall 0; ALock 0; ATurn 0; ACall 1; ALock 1; ATurn 1; ASleep 1]
    (init_machine false 1 [KIncrement; KIncrement]) = Some m ∧
  count (latch m) = 1 ∧ count (latch m) <= uint 64 1.
Proof.
  eexists. split; [vm_compute; reflexivity|].
  apply (latch_bounded false 1 [KIncrement; KIncrement]); [|vm_compute; discriminate].
  eapply latch_run_reachable with
    (l := [ACall 0; ALock 0; ATurn 0; ACall 1; ALock 1; ATurn 1; ASleep 1]).
  vm_compute. reflexivity.
Defined.

(** C24: No wake-up is lost between deliveries and acknowledgements: while the
    context lives and only [Increment] and [Decrement] run, if some [Increment]
    sleeps and none is on its way to the latch, then the latch is full. *)
Theorem latch_no_lost_wakeup done_ n ks m :
  reachable done_ n ks m → Forall (λ k, k ≠ KWaitForEmpty) ks →
  ctx_done (latch m) = false → notify m ≠ [] → awake m = 0 →
  max (latch m) <= count (latch m).
Proof.
  intros Hr Hks Hd Hn Ha.
  apply (reachable_ind served) in Hr as [_ [_ Hs]].
  - specialize (Hs Hd Hn). lia.
  - split; [|done]. cbn. by apply List.Forall_map.
  - intros a m1 m2 ? ? ?. by eapply served_act.
Qed.

Lemma latch_no_lost_wakeup_witness : ∃ m,
  run [ACall 0; ALock 0; ATurn 0; ACall 1; ALock 1; ATurn 1; ASleep 1]
    (init_machine false 1 [KIncrement; KIncrement; KDecrement]) = Some m ∧
  max (latch m) <= count (latch m).
Proof.
  eexists. split; [vm_compute; reflexivity|].
  apply (latch_no_lost_wakeup false 1 [KIncrement; KIncrement; KDecrement]);
    [|by repeat constructor|reflexivity|discriminate|reflexivity].
  eapply latch_run_reachable with
    (l := [ACall 0; ALock 0; ATurn 0; ACall 1; ALock 1; ATurn 1; ASleep 1]).
  vm_compute. reflexivity.
Defined.

(** Cancelling the context does not always release a waiting [Increment]:
    the [AfterFunc] broadcasts without the mutex, so it can run after the
    thread has read [ctx.Err()] and before [Wait] has joined the notify list.
    From two calls on a latch of one slot the machine reaches a state whose
    context is cancelled, whose [AfterFunc]s have all run, in which the second
    call sleeps, and from which no step leads anywhere. *)
Theorem latch_cancel_stuck : ∃ m,
  reachable false 1 [KIncrement; KIncrement] m ∧
  ctx_done (latch m) = true ∧ armed m = [] ∧
  threads m = [PDone KIncrement true; PSleep KIncrement] ∧
  ∀ a m', act a m = Some m' → m' = m.
Proof.
  eexists. split.
  { eapply latch_run_reachable with (l := [ACall 0; ALock 0; ATurn 0; ACall 1; ALock 1; ATurn 1;
      ACancel; AAfterFunc 1; ASleep 1]). vm_compute. reflexivity. }
  split; [done|]. split; [done|]. split; [done|].
  intros [i|i|i|i| |i] m' Hact; cbn in Hact;
    [destruct i as [|[|i]]; simplify_eq/=..|by simplify_eq|done]; done.
Qed.

(** A surplus [Decrement] closes the latch for good: the counter is an
    unsigned integer, so below zero it wraps to the largest value, and every
    later [Increment] waits whatever the maximum is. *)
Theorem latch_decrement_underflow bl :
  count bl = 0 → 0 <= max bl < 2 ^ 64 → ctx_done bl = false →
  count (Decrement bl) = 2 ^ 64 - 1 ∧
  increment_turn (Decrement bl) = (TWait, Decrement bl).
Proof.
  intros Hz Hm Hd. unfold increment_turn, Decrement. cbn -[Z.pow]. rewrite Hz, Hd.
  change (uint 64 (0 - 1)) with (2 ^ 64 - 1).
  destruct (Z.ltb_spec (2 ^ 64 - 1) (max bl)); [lia|done].
Qed.

Lemma latch_decrement_underflow_witness :
  count (Decrement (NewBlockingLatch false 5)) = 2 ^ 64 - 1.
Proof. apply (latch_decrement_underflow (NewBlockingLatch false 5)); [reflexivity|split; [discriminate|reflexivity]|reflexivity]. Defined.

End BlockingLatch.
