(* ===== verification/BlockingPool.v ===== *)
(** * [internal/util/blocking_pool.go]: the bounded pool of channels and publishers

    A pool is a buffered Go channel of idle items and an atomic counter of the
    items that exist, which never exceeds [limit]. The machine below runs any
    number of threads, each of which calls [Get] and then returns what it got
    with [Put]; every atomic access (a channel operation, [Load],
    [CompareAndSwap], the call of [New]) is one step, and so is receiving an
    item with its validation and, when it is stale, its retirement, between which
    the counter is higher than it need be, but never lower. What [New] returns and whether [Validate] accepts an item are choices of
    the environment, carried by the action. *)

From Stdlib Require Import Ascii String.
From stdpp Require Import base gmap strings list fin_maps option relations.
From Stdlib Require Import ZArith Lia.
From S2P Require Import Prelude.

Module BlockingPool.
Open Scope Z_scope.

(** ** State *)

Record BlockingPool (A : Type) := {
  ctx_done : bool;          (* [ctx] is cancelled *)
  pool : list A;            (* the items buffered in the channel, oldest first *)
  count : Z;
  limit : Z                 (* also the capacity of the channel *)
}.
Arguments ctx_done {A} _.
Arguments pool {A} _.
Arguments count {A} _.
Arguments limit {A} _.

Definition NewBlockingPool {A} (done : bool) (lim : Z) : BlockingPool A :=
  {| ctx_done := done; pool := []; count := 0; limit := int32 lim |}.

Inductive put_result :=
  | PutOk          (* [nil] *)
  | PutInvalid     (* "item failed validation, retired from pool" *)
  | PutCancelled   (* [ctx.Err()] *)
  | PutFull.       (* "pool is full, cannot accept item" *)

#[export] Instance put_result_eq_dec : EqDecision put_result.
Proof. solve_decision. Defined.

Section machine.
Context {A : Type}.

Inductive pc :=
  | GStart                     (* [Get], before the first select *)
  | GLoop                      (* at the head of the allocation loop *)
  | GCas (current : Z)         (* [current < limit] was observed *)
  | GNew                       (* the counter was raised, [New] is called *)
  | GWait                      (* in the select of a full pool *)
  | GNil (created : bool)      (* [Get] returned [nil]; [created] when [New] did *)
  | Holding (x : A)            (* [Get] returned [x] *)
  | PStart (x : A)             (* [Put(x)], before [Validate] *)
  | PSelect (x : A)            (* [Put(x)], at the select *)
  | PutDone (r : put_result).

Record machine := { state : BlockingPool A; threads : list pc }.

Definition with_count (f : Z → Z) (s : BlockingPool A) : BlockingPool A :=
  {| ctx_done := ctx_done s; pool := pool s; count := int32 (f (count s)); limit := limit s |}.
Definition with_pool (q : list A) (s : BlockingPool A) : BlockingPool A :=
  {| ctx_done := ctx_done s; pool := q; count := count s; limit := limit s |}.
Definition cancelled (s : BlockingPool A) : BlockingPool A :=
  {| ctx_done := true; pool := pool s; count := count s; limit := limit s |}.

(** A received item is handed out when it is valid; a stale one is retired. *)
Definition receive (valid : bool) (x : A) (rest : list A) (s : BlockingPool A) :
    pc * BlockingPool A :=
  if valid then (Holding x, with_pool rest s)
  else (GLoop, with_count (λ c, c - 1) (with_pool rest s)).

Definition get_start (valid : bool) (s : BlockingPool A) : pc * BlockingPool A :=
  match pool s with
  | x :: rest => receive valid x rest s
  | [] => (GLoop, s)
  end.

Definition get_load (s : BlockingPool A) : pc * BlockingPool A :=
  if count s <? limit s then (GCas (count s), s) else (GWait, s).

Definition get_cas (current : Z) (s : BlockingPool A) : pc * BlockingPool A :=
  if count s =? current then (GNew, with_count (λ c, c + 1) s) else (GLoop, s).

Definition get_new (made : option A) (s : BlockingPool A) : pc * BlockingPool A :=
  match made with
  | Some x => (Holding x, s)
  | None => (GNil true, s)
  end.

Definition get_wait (valid : bool) (s : BlockingPool A) : option (pc * BlockingPool A) :=
  match pool s with
  | x :: rest => Some (receive valid x rest s)
  | [] => None
  end.

Definition put_start (valid : bool) (x : A) (s : BlockingPool A) : pc * BlockingPool A :=
  if valid then (PSelect x, s) else (PutDone PutInvalid, with_count (λ c, c - 1) s).

(** The select of [Put]: the cases that are ready, and [default] only when
    none is. *)
Inductive put_case := CSend | CDone | CDefault.

Definition has_room (s : BlockingPool A) : bool := Z.of_nat (length (pool s)) <? limit s.

Definition put_select (c : put_case) (x : A) (s : BlockingPool A) :
    option (pc * BlockingPool A) :=
  match c with
  | CSend => if has_room s then Some (PutDone PutOk, with_pool (pool s ++ [x]) s) else None
  | CDone => if ctx_done s then Some (PutDone PutCancelled, s) else None
  | CDefault => if has_room s || ctx_done s then None else Some (PutDone PutFull, s)
  end.

Inductive action :=
  | AStart (i : nat) (valid : bool)
  | ALoad (i : nat)
  | ACas (i : nat)
  | ANew (i : nat) (made : option A)
  | ARecv (i : nat) (valid : bool)
  | AGiveUp (i : nat)
  | APut (i : nat)
  | AValidate (i : nat) (valid : bool)
  | ASelect (i : nat) (c : put_case)
  | ACancel.

Definition upd (i : nat) (r : pc * BlockingPool A) (m : machine) : machine :=
  {| state := snd r; threads := <[i := fst r]> (threads m) |}.

Definition act (a : action) (m : machine) : option machine :=
  let s := state m in
  match a with
  | AStart i v =>
      match threads m !! i with Some GStart => Some (upd i (get_start v s) m) | _ => None end
  | ALoad i =>
      match threads m !! i with Some GLoop => Some (upd i (get_load s) m) | _ => None end
  | ACas i =>
      match threads m !! i with Some (GCas c) => Some (upd i (get_cas c s) m) | _ => None end
  | ANew i o =>
      match threads m !! i with Some GNew => Some (upd i (get_new o s) m) | _ => None end
  | ARecv i v =>
      match threads m !! i with
      | Some GWait => r ← get_wait v s; Some (upd i r m)
      | _ => None
      end
  | AGiveUp i =>
      match threads m !! i with
      | Some GWait => if ctx_done s then Some (upd i (GNil false, s) m) else None
      | _ => None
      end
  | APut i =>
      match threads m !! i with
      | Some (Holding x) => Some (upd i (PStart x, s) m)
      | _ => None
      end
  | AValidate i v =>
      match threads m !! i with
      | Some (PStart x) => Some (upd i (put_start v x s) m)
      | _ => None
      end
  | ASelect i c =>
      match threads m !! i with
      | Some (PSelect x) => r ← put_select c x s; Some (upd i r m)
      | _ => None
      end
  | ACancel => Some {| state := cancelled s; threads := threads m |}
  end.

Definition step (m m' : machine) : Prop := ∃ a, act a m = Some m'.

Fixpoint run (l : list action) (m : machine) : option machine :=
  match l with
  | [] => Some m
  | a :: l' => m' ← act a m; run l' m'
  end.

Definition init_machine (lim : Z) (n : nat) : machine :=
  {| state := NewBlockingPool false lim; threads := replicate n GStart |}.

(** Who is charged for a unit of the counter beside the buffered items: a
    thread with an item, or one whose call lost the unit for good. *)
Definition owns (p : pc) : bool :=
  match p with GNew | Holding _ | PStart _ | PSelect _ => true | _ => false end.
Definition leaks (p : pc) : bool :=
  match p with
  | GNil true | PutDone PutCancelled | PutDone PutFull => true
  | _ => false
  end.
Definition in_use (m : machine) : Z := count_if owns (threads m).
Definition leaked (m : machine) : Z := count_if leaks (threads m).
Definition idle (m : machine) : Z := Z.of_nat (length (pool (state m))).

Record inv (m : machine) : Prop := {
  inv_count : count (state m) = idle m + in_use m + leaked m;
  inv_limit : count (state m) <= limit (state m);
  inv_int32 : limit (state m) < 2 ^ 31;
  inv_cas : ∀ i c, threads m !! i = Some (GCas c) → c < limit (state m)
}.

(** ** Lemmas *)

Lemma in_use_nonneg m : 0 <= in_use m.
Proof. apply count_if_nonneg. Qed.
Lemma leaked_nonneg m : 0 <= leaked m.
Proof. apply count_if_nonneg. Qed.
Lemma idle_nonneg m : 0 <= idle m.
Proof. unfold idle. lia. Qed.

Lemma inv_count_range m : inv m → 0 <= count (state m) < 2 ^ 31.
Proof.
  intros [Hc Hl Hi _]. pose proof (in_use_nonneg m). pose proof (leaked_nonneg m).
  pose proof (idle_nonneg m). lia.
Qed.

(** A step of one thread preserves the invariant when it changes the counter
    by what the thread and the channel are charged for. *)
Lemma inv_upd m i p r :
  inv m → threads m !! i = Some p →
  limit (snd r) = limit (state m) → count (snd r) <= limit (snd r) →
  count (snd r) - Z.of_nat (length (pool (snd r))) - b2z (owns (fst r)) - b2z (leaks (fst r)) =
    count (state m) - idle m - b2z (owns p) - b2z (leaks p) →
  (∀ c, fst r = GCas c → c < limit (state m)) →
  inv (upd i r m).
Proof.
  intros [Hc Hl Hi Hg] Hp Hlim Hle Heq Hcas. destruct r as [q s]. cbn in *.
  split; cbn; unfold idle, in_use, leaked in *; cbn.
  - rewrite !(count_if_insert _ _ _ _ _ Hp). lia.
  - done.
  - lia.
  - intros j c Hj. rewrite Hlim. destruct (decide (i = j)) as [<-|].
    + rewrite list_lookup_insert_eq in Hj by by eapply lookup_lt_Some.
      injection Hj as ->. by apply Hcas.
    + rewrite list_lookup_insert_ne in Hj by done. by eapply Hg.
Qed.

Lemma inv_receive m i p v x rest :
  inv m → threads m !! i = Some p → owns p = false → leaks p = false →
  pool (state m) = x :: rest → inv (upd i (receive v x rest (state m)) m).
Proof.
  intros Hinv Hp Ho Hl Hpool. pose proof (inv_count_range _ Hinv).
  pose proof (inv_count _ Hinv). pose proof (inv_limit _ Hinv).
  pose proof (in_use_nonneg m). pose proof (leaked_nonneg m).
  assert (idle m = 1 + Z.of_nat (length rest)) as Hidle.
  { unfold idle. rewrite Hpool. cbn [length]. lia. }
  assert (in_int32 (count (state m) - 1)) by (unfold in_int32; lia).
  apply (inv_upd _ _ p); try done; unfold receive; destruct v; try done;
    cbn -[Z.add Z.sub]; rewrite ?Ho, ?Hl, ?int32_small; cbn [b2z]; try done; lia.
Qed.

Lemma pool_inv_act a m m' : inv m → act a m = Some m' → inv m'.
Proof.
  intros Hinv Hact. pose proof (inv_count_range _ Hinv) as Hr.
  pose proof (inv_limit _ Hinv) as Hlim. pose proof (inv_int32 _ Hinv) as H32.
  pose proof (in_use_nonneg m) as Hu. pose proof (leaked_nonneg m) as Hk.
  destruct a as [i v|i|i|i o|i v|i|i|i v|i c|]; cbn in Hact;
    [destruct (threads m !! i) as [[| |cur| | |cr|x|x|x|pr]|] eqn:Hi; simplify_eq..|].
  - unfold get_start. destruct (pool (state m)) as [|x rest] eqn:Hpool.
    + apply (inv_upd _ _ GStart); cbn; rewrite ?Hpool; unfold idle; rewrite ?Hpool; done || lia.
    + by eapply inv_receive.
  - unfold get_load. destruct (_ <? _) eqn:Hlt;
      apply (inv_upd _ _ GLoop); cbn; unfold idle; try done; try lia.
    intros c [= <-]. by apply Z.ltb_lt.
  - pose proof (inv_cas _ Hinv _ _ Hi) as Hcur. unfold get_cas.
    destruct (Z.eqb_spec (count (state m)) cur) as [Heq|];
      apply (inv_upd _ _ (GCas cur)); try done; unfold with_count; cbn -[Z.add Z.sub];
      rewrite ?int32_small by (unfold in_int32; lia); unfold idle; cbn [b2z]; lia.
  - destruct o; apply (inv_upd _ _ GNew); cbn; unfold idle; done || lia.
  - unfold get_wait in Hact. destruct (pool (state m)) as [|x rest] eqn:Hpool; simplify_eq/=.
    by eapply inv_receive.
  - destruct (ctx_done _); simplify_eq. apply (inv_upd _ _ GWait); cbn; unfold idle; done || lia.
  - apply (inv_upd _ _ (Holding x)); cbn; unfold idle; done || lia.
  - pose proof (inv_count _ Hinv). pose proof (count_if_pos owns _ _ _ Hi eq_refl) as Hpos.
    change (1 <= in_use m) in Hpos. pose proof (idle_nonneg m).
    unfold put_start. destruct v; apply (inv_upd _ _ (PStart x)); try done;
      unfold with_count; cbn -[Z.add Z.sub];
      rewrite ?int32_small by (unfold in_int32; lia); unfold idle; cbn [b2z]; lia.
  - unfold put_select in Hact. destruct c; repeat case_match; simplify_eq/=;
      apply (inv_upd _ _ (PSelect x)); cbn; unfold idle; rewrite ?length_app; done || cbn; lia.
  - injection Hact as <-. destruct Hinv. by split.
Qed.

Lemma pool_inv_init lim n : 0 <= lim < 2 ^ 31 → inv (init_machine lim n).
Proof.
  intros Hlim. assert (in_int32 lim) by (unfold in_int32; lia).
  assert (∀ f : pc → bool, f GStart = false → count_if f (replicate n GStart) = 0) as H0.
  { intros f Hf. apply count_if_zero, Forall_replicate. done. }
  split; cbn; unfold in_use, leaked, idle; cbn; rewrite ?int32_small by done; try lia.
  - rewrite !H0 by done. done.
  - intros i c [? _]%lookup_replicate_1. done.
Qed.

Definition reachable (lim : Z) (n : nat) (m : machine) : Prop :=
  rtc step (init_machine lim n) m.

Lemma reachable_inv lim n m : 0 <= lim < 2 ^ 31 → reachable lim n m → inv m.
Proof.
  intros Hlim Hr. unfold reachable in Hr. apply (rtc_ind_r inv) with (z := m) in Hr; [done| |].
  - by apply pool_inv_init.
  - intros y z _ [a Ha] Hy. by eapply pool_inv_act.
Qed.

Lemma pool_run_reachable l m m' : run l m = Some m' → rtc step m m'.
Proof.
  revert m. induction l as [|a l IH]; intros m H; simplify_eq/=; [done|].
  destruct (act a m) as [m1|] eqn:Ha; simplify_eq/=.
  eapply rtc_l; [by exists a | by apply IH].
Qed.

Lemma act_limit a m m' : act a m = Some m' → limit (state m') = limit (state m).
Proof.
  intros Hact. destruct a; cbn in Hact; repeat case_match; simplify_eq/=; try done;
    unfold get_start, get_load, get_cas, get_new, get_wait, put_start, put_select, receive in *;
    repeat case_match; simplify_eq/=; repeat case_match; simplify_eq/=; done.
Qed.

Lemma reachable_limit lim n m : reachable lim n m → limit (state m) = int32 lim.
Proof.
  intros Hr. unfold reachable in Hr.
  apply (rtc_ind_r (λ m, limit (state m) = int32 lim)) with (z := m) in Hr; [done|done|].
  intros y z _ [a Ha] Hy. by rewrite (act_limit _ _ _ Ha).
Qed.

(** A step taken while nobody cancels the pool's context. *)
Definition live_step (m m' : machine) : Prop := ∃ a, a ≠ ACancel ∧ act a m = Some m'.

Definition never_full (m : machine) : Prop :=
  Forall (λ p, p ≠ PutDone PutFull) (threads m).

Lemma has_room_put m i x :
  inv m → threads m !! i = Some (PSelect x) → has_room (state m) = true.
Proof.
  intros Hinv Hi. pose proof (count_if_pos owns _ _ _ Hi eq_refl) as Hpos.
  change (1 <= in_use m) in Hpos. pose proof (inv_count _ Hinv). pose proof (inv_limit _ Hinv).
  pose proof (leaked_nonneg m). unfold has_room, idle in *. apply Z.ltb_lt. lia.
Qed.

Lemma never_full_act a m m' : inv m → never_full m → act a m = Some m' → never_full m'.
Proof.
  intros Hinv Hn Hact. unfold never_full in *.
  destruct a as [i v|i|i|i o|i v|i|i|i v|i c|]; cbn in Hact;
    [destruct (threads m !! i) as [[| |cur| | |cr|x|x|x|pr]|] eqn:Hi; simplify_eq..|].
  1-4, 6-8: try (apply Forall_insert; [done|]).
  - unfold get_start, receive. by repeat case_match.
  - unfold get_load. by case_match.
  - unfold get_cas. by case_match.
  - by destruct o.
  - destruct (ctx_done _); simplify_eq. cbn. by apply Forall_insert.
  - done.
  - unfold put_start. by destruct v.
  - unfold get_wait, receive in Hact. repeat case_match; simplify_eq/=; by apply Forall_insert.
  - pose proof (has_room_put _ _ _ Hinv Hi) as Hroom. unfold put_select in Hact.
    rewrite Hroom in Hact. destruct c; repeat case_match; simplify_eq/=; by apply Forall_insert.
  - by injection Hact as <-.
Qed.

(** What stays true once every unit of the counter is lost: the losses, and
    the state of a thread that waits for an item. *)
Lemma act_leaks m m' a i :
  act a m = Some m' → (leaked m <= leaked m') ∧
  (threads m !! i = Some GWait → pool (state m) = [] → ctx_done (state m) = false →
   threads m' !! i = Some GWait).
Proof.
  intros Hact.
  assert (∀ j p r, threads m !! j = Some p → leaks p = false → p ≠ GWait →
    m' = upd j r m → leaked m <= leaked m' ∧
    (threads m !! i = Some GWait → pool (state m) = [] → ctx_done (state m) = false →
     threads m' !! i = Some GWait)) as Hupd.
  { intros j p r Hj Hl Hp ->. unfold leaked, upd. cbn.
    rewrite (count_if_insert _ _ _ _ _ Hj), Hl. cbn [b2z].
    split; [destruct (leaks (fst r)); cbn [b2z]; lia|].
    intros Hi _ _. rewrite list_lookup_insert_ne; [done|]. intros ->. congruence. }
  destruct a as [j v|j|j|j o|j v|j|j|j v|j c|]; cbn in Hact;
    [destruct (threads m !! j) as [[| |cur| | |cr|x|x|x|pr]|] eqn:Hj; simplify_eq..|].
  1-4, 7-8: by eapply Hupd.
  - destruct (get_wait v (state m)) as [r|] eqn:Hg; simplify_eq/=. split.
    + unfold leaked, upd. cbn. rewrite (count_if_insert _ _ _ _ _ Hj). cbn [leaks b2z].
      destruct (leaks (fst r)); cbn [b2z]; lia.
    + intros _ Hpool _. unfold get_wait in Hg. by rewrite Hpool in Hg.
  - destruct (ctx_done (state m)) eqn:Hd; simplify_eq. split; [|done].
    unfold leaked, upd. cbn. rewrite (count_if_insert _ _ _ _ _ Hj). cbn [leaks fst b2z]. lia.
  - destruct (put_select c x (state m)) as [r|]; simplify_eq/=. by eapply Hupd.
  - injection Hact as <-. done.
Qed.

Lemma act_not_cancelled a m m' :
  a ≠ ACancel → act a m = Some m' → ctx_done (state m') = ctx_done (state m).
Proof.
  intros Ha Hact. destruct a; cbn in Hact; repeat case_match; simplify_eq/=; try done;
    unfold get_start, get_load, get_cas, get_new, get_wait, put_start, put_select, receive in *;
    repeat case_match; simplify_eq/=; repeat case_match; simplify_eq/=; done.
Qed.

(** ** Properties *)

(** C6: The pool never has more live items than its limit: in every state that
    any interleaving of [Get] and [Put] calls can reach, the buffered items,
    the items being created and those in the hands of callers are together at
    most [limit], and the counter is exactly their number plus the units lost
    to failed calls. *)
Theorem pool_bounded lim n m :
  0 <= lim < 2 ^ 31 → reachable lim n m →
  idle m + in_use m <= lim ∧ count (state m) = idle m + in_use m + leaked m.
Proof.
  intros Hlim Hr. pose proof (reachable_inv _ _ _ Hlim Hr) as Hinv.
  pose proof (reachable_limit _ _ _ Hr) as Hl.
  rewrite int32_small in Hl by (unfold in_int32; lia).
  pose proof (inv_count _ Hinv). pose proof (inv_limit _ Hinv). pose proof (leaked_nonneg m). lia.
Qed.

(** A caller that returns an item it got from the pool is never told that
    the pool is full: the [default] case of [Put] is unreachable. *)
Theorem pool_put_never_full lim n m i :
  0 <= lim < 2 ^ 31 → reachable lim n m → threads m !! i ≠ Some (PutDone PutFull).
Proof.
  intros Hlim Hr Hi.
  assert (inv m ∧ never_full m) as [_ Hn].
  { unfold reachable in Hr. apply (rtc_ind_r (λ m, inv m ∧ never_full m)) with (z := m) in Hr;
      [done| |].
    - split; [by apply pool_inv_init|]. by apply Forall_replicate.
    - intros y z _ [a Ha] [Hy Hf]. split; [by eapply pool_inv_act | by eapply never_full_act]. }
  by apply (Forall_lookup_1 _ _ _ _ Hn Hi).
Qed.

(** A failed creation is never given back: when [New] has returned [nil]
    (or a return failed) once for every unit of the limit, each caller waiting
    in [Get] waits for ever: whatever the other threads do, it stays in the
    select until the pool's context is cancelled. *)
Theorem pool_starves lim n m m' i :
  0 <= lim < 2 ^ 31 → reachable lim n m →
  leaked m = lim → ctx_done (state m) = false → threads m !! i = Some GWait →
  rtc live_step m m' → threads m' !! i = Some GWait.
Proof.
  intros Hlim Hr Hlk Hd Hi Hsteps.
  assert (inv m) as Hinv by (by eapply reachable_inv).
  assert (limit (state m) = lim) as Hl.
  { rewrite (reachable_limit _ _ _ Hr). apply int32_small. unfold in_int32. lia. }
  clear Hr. revert Hlk Hd Hi Hinv Hl. induction Hsteps as [m|m m1 m' [a [Hna Ha]] _ IH]; [done|].
  intros Hlk Hd Hi Hinv Hl.
  assert (pool (state m) = []) as Hpool.
  { pose proof (inv_count _ Hinv). pose proof (inv_limit _ Hinv). pose proof (in_use_nonneg m).
    unfold idle in *. destruct (pool (state m)); [done|cbn [length] in *; lia]. }
  destruct (act_leaks _ _ _ i Ha) as [Hle Hw].
  pose proof (pool_inv_act _ _ _ Hinv Ha) as Hinv1.
  pose proof (act_limit _ _ _ Ha) as Hl1.
  apply IH.
  - pose proof (inv_count _ Hinv1). pose proof (inv_limit _ Hinv1).
    pose proof (in_use_nonneg m1). pose proof (idle_nonneg m1). lia.
  - by rewrite (act_not_cancelled _ _ _ Hna Ha).
  - by apply Hw.
  - done.
  - congruence.
Qed.

End machine.
Arguments pc : clear implicits.
Arguments machine : clear implicits.
Arguments action : clear implicits.

(** ** The pool of a single caller

    A client that runs alone goes through the same steps one after the other.
    [New] and [Validate] are programs on the client's world [W], in which
    [pool_of] and [set_pool] locate the pool. [pick] says which ready case a
    select takes when the context is done as well. A call that would wait for
    another thread blocks. *)
Section sequential.
Context {W A : Type} (pool_of : W → BlockingPool A) (set_pool : BlockingPool A → W → W).
Context (New : prog W (option A)) (Validate : A → prog W bool) (pick : bool).

Definition head_valid (s : BlockingPool A) : prog W bool :=
  match pool s with x :: _ => Validate x | [] => mret true end.

Fixpoint get_run (fuel : nat) (p : pc A) : prog W (option A) :=
  match fuel with
  | O => block
  | S fuel' =>
      let continue (r : pc A * BlockingPool A) : prog W (option A) :=
        modify (set_pool (snd r));; get_run fuel' (fst r) in
      s ← gets pool_of;
      match p with
      | GStart => v ← head_valid s; continue (get_start v s)
      | GLoop => continue (get_load s)
      | GCas current => continue (get_cas current s)
      | GNew => New
      | GWait =>
          if ctx_done s && (pick || bool_decide (pool s = [])) then mret None
          else v ← head_valid s;
               match get_wait v s with Some r => continue r | None => block end
      | Holding x => mret (Some x)
      | _ => mret None
      end
  end.

(** [fuel]: a call passes at most one stale item of the buffer before there is
    room for a new one, seven steps in all ([get_run_fuel]). *)
Definition Get : prog W (option A) := get_run 8 GStart.

Definition put_error (r : put_result) : error :=
  match r with
  | PutOk => None
  | PutInvalid => Some "item failed validation, retired from pool"
  | PutCancelled => Some "context canceled"
  | PutFull => Some "pool is full, cannot accept item"
  end.

Definition put_choice (s : BlockingPool A) : put_case :=
  if has_room s && (negb (ctx_done s) || pick) then CSend
  else if ctx_done s then CDone else CDefault.

Definition Put (x : option A) : prog W error :=
  match x with
  | None => mret (Some "cannot put nil value into pool")
  | Some x =>
      v ← Validate x;
      s ← gets pool_of;
      match put_start v x s with
      | (PSelect y, s1) =>
          match put_select (put_choice s1) y s1 with
          | Some (PutDone r, s2) => modify (set_pool s2);; mret (put_error r)
          | _ => block
          end
      | (PutDone r, s1) => modify (set_pool s1);; mret (put_error r)
      | (_, s1) => block
      end
  end.

(** Setting the pool is seen by reading it. *)
Hypothesis pool_set : ∀ s w, pool_of (set_pool s w) = s.
#[global] Arguments get_run : simpl never.

Lemma get_run_start fuel w :
  get_run (S fuel) GStart w =
    (v ← head_valid (pool_of w);
     let r := get_start v (pool_of w) in modify (set_pool (snd r));; get_run fuel (fst r)) w.
Proof. done. Qed.
Lemma get_run_loop fuel w :
  get_run (S fuel) GLoop w =
    get_run fuel (fst (get_load (pool_of w))) (set_pool (snd (get_load (pool_of w))) w).
Proof. done. Qed.
Lemma get_run_cas fuel c w :
  get_run (S fuel) (GCas c) w =
    get_run fuel (fst (get_cas c (pool_of w))) (set_pool (snd (get_cas c (pool_of w))) w).
Proof. done. Qed.
Lemma get_run_wait fuel w :
  get_run (S fuel) GWait w =
    (if ctx_done (pool_of w) && (pick || bool_decide (pool (pool_of w) = [])) then mret None
     else v ← head_valid (pool_of w);
          match get_wait v (pool_of w) with
          | Some r => modify (set_pool (snd r));; get_run fuel (fst r)
          | None => block
          end) w.
Proof. done. Qed.

(** With room for a new item the remaining steps are the allocation. *)
Lemma get_run_alloc fuel w :
  count (pool_of w) < limit (pool_of w) →
  get_run (S (S (S fuel))) GLoop w =
    New (set_pool (with_count (λ c, c + 1) (pool_of w)) (set_pool (pool_of w) w)).
Proof.
  intros Hc. rewrite get_run_loop. unfold get_load. rewrite (proj2 (Z.ltb_lt _ _) Hc).
  cbn [fst snd]. rewrite get_run_cas, pool_set. unfold get_cas. by rewrite Z.eqb_refl.
Qed.

Lemma receive_stale (x : A) rest s :
  in_int32 (limit s) → count s <= limit s → 0 < count s →
  let r := receive false x rest s in
  fst r = GLoop ∧ count (snd r) < limit (snd r).
Proof.
  intros Hl Hc Hp. cbn. split; [done|].
  unfold in_int32 in Hl. rewrite int32_small by (unfold in_int32; lia). lia.
Qed.

(** More fuel than [Get] uses changes nothing. *)
Lemma get_run_fuel fuel w :
  in_int32 (limit (pool_of w)) → count (pool_of w) <= limit (pool_of w) →
  (pool (pool_of w) ≠ [] → 0 < count (pool_of w)) →
  (8 <= fuel)%nat → get_run fuel GStart w = Get w.
Proof.
  intros Hl Hc Hp Hf. unfold Get.
  do 8 (destruct fuel as [|fuel]; [lia|]). clear Hf.
  rewrite !get_run_start. unfold head_valid, get_start. prog_unfold.
  destruct (pool (pool_of w)) as [|x rest] eqn:Hpool; cbn [fst snd].
  - (* the buffer is empty: allocate, or wait *)
    destruct (Z.ltb_spec (count (pool_of w)) (limit (pool_of w))) as [Hlt|Hge].
    { by rewrite !get_run_alloc by (by rewrite pool_set). }
    rewrite !get_run_loop, !pool_set. unfold get_load. rewrite (proj2 (Z.ltb_ge _ _) Hge).
    cbn [fst snd]. rewrite !get_run_wait, !pool_set. unfold get_wait, head_valid. rewrite Hpool.
    by repeat case_match.
  - destruct (Validate x w) as [[[|]| |] w1] eqn:Hv; [done| |done..]; cbn [receive fst snd].
    destruct (receive_stale x rest (pool_of w)) as [_ Hlt]; [done..|by apply Hp|].
    by rewrite !get_run_alloc by (rewrite pool_set; exact Hlt).
Qed.

(** [Get] on an empty buffer: a new item when there is room, a wait that
    nobody ends when there is none. *)
Lemma Get_alloc w :
  pool (pool_of w) = [] → count (pool_of w) < limit (pool_of w) →
  Get w = New (set_pool (with_count (λ c, c + 1) (pool_of w))
                 (set_pool (pool_of w) (set_pool (pool_of w) w))).
Proof.
  intros Hp Hc. unfold Get. rewrite get_run_start. unfold head_valid, get_start. prog_unfold.
  rewrite Hp. cbn [fst snd]. by rewrite get_run_alloc, !pool_set by (by rewrite pool_set).
Qed.

Lemma Get_starved w :
  pool (pool_of w) = [] → limit (pool_of w) <= count (pool_of w) → ctx_done (pool_of w) = false →
  fst (Get w) = Block.
Proof.
  intros Hp Hc Hd. unfold Get. rewrite get_run_start. unfold head_valid, get_start. prog_unfold.
  rewrite Hp. cbn [fst snd]. rewrite get_run_loop, pool_set. unfold get_load.
  rewrite (proj2 (Z.ltb_ge _ _) Hc). cbn [fst snd]. rewrite get_run_wait, !pool_set.
  rewrite Hd. unfold head_valid, get_wait. prog_unfold. by rewrite Hp.
Qed.

(** What [Get] hands out was in the pool or was just made, and it puts nothing
    into the pool: any property [P] of items and invariant [J] of the world
    that survive taking items out are kept. *)
Section preservation.
Context (J : W → Prop) (P : A → Prop).
Hypothesis J_pool : ∀ w, J w → Forall P (pool (pool_of w)).
Hypothesis J_set : ∀ w s, J w → Forall P (pool s) → J (set_pool s w).
Hypothesis J_new : ∀ w, J w → J (snd (New w)) ∧ ∀ x, fst (New w) = Ret (Some x) → P x.
Hypothesis J_validate : ∀ w x, J w → J (snd (Validate x w)).

Definition pc_ok (p : pc A) : Prop := match p with Holding x => P x | _ => True end.

Lemma receive_ok v x rest s :
  Forall P (x :: rest) → pc_ok (fst (receive v x rest s)) ∧ Forall P (pool (snd (receive v x rest s))).
Proof. intros [Hx Hr]%Forall_cons_iff. by destruct v. Qed.

Lemma get_run_pres fuel p w :
  pc_ok p → J w →
  J (snd (get_run fuel p w)) ∧ ∀ x, fst (get_run fuel p w) = Ret (Some x) → P x.
Proof.
  revert p w. induction fuel as [|fuel IH]; intros p w Hp HJ; [by split|].
  assert (∀ r w', pc_ok (fst r) → Forall P (pool (snd r)) → J w' →
    J (snd ((modify (set_pool (snd r));; get_run fuel (fst r)) w')) ∧
    ∀ x, fst ((modify (set_pool (snd r));; get_run fuel (fst r)) w') = Ret (Some x) → P x) as Hcont.
  { intros r w' Hr Hs HJ'. prog_unfold. apply IH; [done|]. by apply J_set. }
  pose proof (J_pool w HJ) as Hpool.
  assert (∀ (s := pool_of w) w' v, J w' → pc_ok (fst (get_start v s)) ∧ Forall P (pool (snd (get_start v s)))) as Hstart.
  { intros s w' v HJ'. unfold get_start. subst s. destruct (pool (pool_of w)) as [|y rest] eqn:Hq.
    - cbn. by rewrite Hq.
    - by apply receive_ok. }
  destruct p.
  - rewrite get_run_start. unfold head_valid. prog_unfold.
    destruct (pool (pool_of w)) as [|y rest] eqn:Hq; [apply Hcont; try done; by eapply Hstart|].
    pose proof (J_validate w y HJ) as Hv. destruct (Validate y w) as [[v|why|] w1]; [|by split..].
    cbn in Hv. apply Hcont; [by eapply Hstart..|done].
  - rewrite get_run_loop. apply IH; unfold get_load; case_match; cbn; try done; by apply J_set.
  - rewrite get_run_cas. apply IH; unfold get_cas; case_match; cbn; try done; by apply J_set.
  - apply J_new, HJ.
  - rewrite get_run_wait. case_match; [by split|]. unfold head_valid, get_wait. prog_unfold.
    destruct (pool (pool_of w)) as [|y rest] eqn:Hq; [by split|].
    pose proof (J_validate w y HJ) as Hv. destruct (Validate y w) as [[v|why|] w1]; [|by split..].
    cbn in Hv. apply Hcont; [by apply receive_ok..|done].
  - by split.
  - split; [done|]. intros ? [= <-]. exact Hp.
  - by split.
  - by split.
  - by split.
Qed.

Lemma Put_pres x w : P x → J w → J (snd (Put (Some x) w)).
Proof.
  intros Hx HJ. unfold Put. prog_unfold.
  pose proof (J_validate w x HJ) as Hv. destruct (Validate x w) as [[v|why|] w1]; [|done..].
  cbn in Hv. pose proof (J_pool w1 Hv) as Hpool. unfold put_start.
  destruct v; cbn; [|by apply J_set].
  unfold put_select, put_choice. repeat case_match; simplify_eq; cbn; try done; apply J_set; cbn; try done;
    apply Forall_app; split; [done|by constructor].
Qed.
End preservation.

(** A pool in use: its context is not cancelled, and at most [limit] items are
    accounted for, those in the pool among them; [lent] are the others. *)
Definition lent (p : BlockingPool A) : Z := count p - Z.of_nat (length (pool p)).

Record pool_ok (p : BlockingPool A) : Prop := {
  use_live : ctx_done p = false;
  use_limit : in_int32 (limit p);
  use_count : count p <= limit p;
  use_lent : 0 <= lent p
}.

Section accounting.
Context (ok : W → Prop).
Hypothesis ok_set : ∀ s w, ok w → ok (set_pool s w) ∧ pool_of (set_pool s w) = s.
Hypothesis ok_new : ∀ w, ok w → ∃ r w', New w = (Ret r, w') ∧ ok w' ∧ pool_of w' = pool_of w.
Hypothesis ok_validate : ∀ x w, ok w →
  ∃ v w', Validate x w = (Ret v, w') ∧ ok w' ∧ pool_of w' = pool_of w.

(** One more item is out, and [New] has failed when there is none. *)
Definition lent_one (w : W) (r : option A) (w' : W) : Prop :=
  Get w = (Ret r, w') ∧ ok w' ∧ pool_ok (pool_of w') ∧ limit (pool_of w') = limit (pool_of w) ∧
  lent (pool_of w') = lent (pool_of w) + 1 ∧
  (r = None → ∃ w0 w1, ok w0 ∧ New w0 = (Ret None, w1)).

Lemma alloc_account fuel p w w0 :
  ok w → pool_ok p → count p < limit p → pool_of w = p →
  get_run (S (S (S fuel))) GLoop w = Get w0 →
  limit p = limit (pool_of w0) → lent p = lent (pool_of w0) →
  ∃ r w', lent_one w0 r w'.
Proof.
  intros Hok Hp Hc Hw Hrun Hlim Hlent.
  rewrite get_run_loop, Hw in Hrun. unfold get_load in Hrun. rewrite (proj2 (Z.ltb_lt _ _) Hc) in Hrun.
  cbn [fst snd] in Hrun. destruct (ok_set p w Hok) as [Hok1 Hp1].
  rewrite get_run_cas, Hp1 in Hrun. unfold get_cas in Hrun. rewrite Z.eqb_refl in Hrun.
  cbn [fst snd] in Hrun. destruct (ok_set (with_count (λ c, c + 1) p) _ Hok1) as [Hok2 Hp2].
  destruct (ok_new _ Hok2) as (r & w' & Hn & Hok' & Hp').
  exists r, w'. unfold lent_one.
  change (get_run (S fuel) GNew) with New in Hrun. rewrite <- Hrun, Hn, Hp', Hp2.
  destruct Hp as [Hl Hi Hcl H0]. unfold lent, in_int32 in *. cbn.
  rewrite int32_small by (unfold in_int32; lia).
  split_and!; [done|done| |done|lia|].
  - split; unfold lent, in_int32; cbn; try rewrite int32_small by (unfold in_int32; lia); try done; lia.
  - intros ->. eexists _, _. split; [exact Hok2|done].
Qed.

Lemma Get_account w :
  ok w → pool_ok (pool_of w) → lent (pool_of w) < limit (pool_of w) → ∃ r w', lent_one w r w'.
Proof.
  intros Hok Hp Hlt. pose proof Hp as [Hl Hi Hcl H0].
  assert (Get w = get_run 8 GStart w) as HG by done. rewrite get_run_start in HG. revert HG.
  unfold head_valid, get_start. prog_unfold.
  destruct (pool (pool_of w)) as [|x rest] eqn:Hq; cbn [fst snd]; intros HG.
  - destruct (ok_set (pool_of w) w Hok) as [Hok1 Hp1].
    unfold lent in Hlt. rewrite Hq in Hlt. cbn in Hlt.
    eapply (alloc_account 4 (pool_of w)); [exact Hok1|exact Hp|lia|exact Hp1|symmetry; exact HG|done..].
  - destruct (ok_validate x w Hok) as (v & w1 & Hv & Hok1 & Hp1). rewrite Hv in HG.
    destruct v; cbn [receive fst snd] in HG.
    + destruct (ok_set (with_pool rest (pool_of w)) w1 Hok1) as [Hok2 Hp2].
      exists (Some x). eexists. split; [exact HG|]. split; [exact Hok2|]. rewrite Hp2.
      unfold lent in *. rewrite Hq in *. cbn in *.
      split_and!; [split; unfold lent; cbn; try done; lia|done|lia|done].
    + destruct (ok_set (with_count (λ c, c - 1) (with_pool rest (pool_of w))) w1 Hok1) as [Hok2 Hp2].
      unfold lent, in_int32 in *. rewrite Hq in *. cbn [length] in *.
      assert (int32 (count (pool_of w) - 1) = count (pool_of w) - 1) as Hint
        by (apply int32_small; unfold in_int32; lia).
      eapply (alloc_account 4 (with_count (λ c, c - 1) (with_pool rest (pool_of w))));
        [exact Hok2| |cbn; rewrite Hint; lia|exact Hp2|symmetry; exact HG|done|].
      * split; unfold lent; cbn; rewrite ?Hint; try done; lia.
      * unfold lent. cbn. rewrite Hint, Hq. cbn [length]. lia.
Qed.

Lemma Get_account_starved w :
  ok w → pool_ok (pool_of w) → lent (pool_of w) = limit (pool_of w) → fst (Get w) = Block.
Proof.
  intros Hok [Hl Hi Hcl H0] Hlt. unfold lent in *.
  assert (pool (pool_of w) = []) as Hq by (apply length_zero_iff_nil; lia). rewrite Hq in *. cbn in *.
  destruct (ok_set (pool_of w) w Hok) as [Hok1 Hp1].
  unfold Get. rewrite get_run_start. unfold head_valid, get_start. prog_unfold. rewrite Hq. cbn [fst snd].
  rewrite get_run_loop, Hp1. unfold get_load. rewrite (proj2 (Z.ltb_ge _ _)) by lia. cbn [fst snd].
  destruct (ok_set (pool_of w) _ Hok1) as [_ Hp2].
  rewrite get_run_wait, Hp2, Hl. unfold head_valid, get_wait. prog_unfold. by rewrite Hq.
Qed.

Lemma Put_account x w :
  ok w → pool_ok (pool_of w) → 1 <= lent (pool_of w) →
  ∃ e w', Put (Some x) w = (Ret e, w') ∧ ok w' ∧ pool_ok (pool_of w') ∧
    limit (pool_of w') = limit (pool_of w) ∧ lent (pool_of w') = lent (pool_of w) - 1.
Proof.
  intros Hok [Hl Hi Hcl H0] H1. unfold Put. prog_unfold.
  destruct (ok_validate x w Hok) as (v & w1 & Hv & Hok1 & Hp1). rewrite Hv, Hp1.
  unfold put_start, lent, in_int32 in *. destruct v; cbn [fst snd].
  - unfold put_choice, put_select, has_room.
    rewrite (proj2 (Z.ltb_lt (Z.of_nat (length (pool (pool_of w)))) _)), Hl by lia. cbn.
    destruct (ok_set (with_pool (pool (pool_of w) ++ [x]) (pool_of w)) w1 Hok1) as [Hok2 Hp2].
    eexists _, _. split; [done|]. split; [exact Hok2|]. rewrite Hp2. unfold lent. cbn.
    rewrite length_app. cbn [length].
    split_and!; [split; unfold lent; cbn; rewrite ?length_app; cbn [length]; try done; lia|done|lia].
  - destruct (ok_set (with_count (λ c, c - 1) (pool_of w)) w1 Hok1) as [Hok2 Hp2].
    assert (int32 (count (pool_of w) - 1) = count (pool_of w) - 1) as Hint
      by (apply int32_small; unfold in_int32; lia).
    eexists _, _. split; [done|]. split; [exact Hok2|]. rewrite Hp2. unfold lent. cbn. rewrite Hint.
    split_and!; [split; unfold lent; cbn; rewrite ?Hint; try done; lia|done|lia].
Qed.
End accounting.
End sequential.

(** *** Witnesses *)

(** One thread takes an item and returns it; a second one takes it again. *)
Definition demo_run : list (action nat) :=
  [AStart 0 true; ALoad 0; ACas 0; ANew 0 (Some 7%nat); APut 0; AValidate 0 true;
   ASelect 0 CSend; AStart 1 true].

Lemma pool_bounded_witness : ∃ m,
  run demo_run (init_machine 1 2) = Some m ∧ idle m + in_use m <= 1 ∧ count (state m) = 1.
Proof.
  eexists. split; [vm_compute; reflexivity|].
  destruct (pool_bounded 1 2 {| state := {| ctx_done := false; pool := @nil nat; count := 1;
      limit := 1 |}; threads := [PutDone PutOk; Holding 7%nat] |}) as [H1 H2].
  - split; [discriminate | reflexivity].
  - apply (pool_run_reachable demo_run). vm_compute. reflexivity.
  - split; [exact H1 | exact H2].
Defined.

Lemma pool_put_never_full_witness : ∃ m,
  run demo_run (init_machine 1 2) = Some m ∧ threads m !! 0%nat ≠ Some (PutDone PutFull).
Proof.
  eexists. split; [vm_compute; reflexivity|].
  apply (pool_put_never_full 1 2); [split; [discriminate | reflexivity]|].
  apply (pool_run_reachable demo_run). vm_compute. reflexivity.
Defined.

(** A pool of one unit whose only creation failed: the next [Get] waits. *)
Definition starved : machine nat :=
  {| state := {| ctx_done := false; pool := []; count := 1; limit := 1 |};
     threads := [GNil true; GWait] |}.

Lemma pool_starves_witness : threads starved !! 1%nat = Some GWait.
Proof.
  apply (pool_starves 1 2 starved starved 1).
  - split; [discriminate | reflexivity].
  - apply (pool_run_reachable [AStart 0 true; ALoad 0; ACas 0; ANew 0 None; AStart 1 true; ALoad 1]).
    vm_compute. reflexivity.
  - reflexivity.
  - reflexivity.
  - reflexivity.
  - apply rtc_refl.
Defined.

End BlockingPool.
