(* ===== verification/ClientIds.v ===== *)
(** * [internal/util/util.go]: who the client is, and the configuration helpers

    A gRPC context carries the peer's address; the client identifier of a
    connection is stored in the process-wide [clientMap] under that address.
    [sha256.Sum256], of Go's standard library, is defined in [Sha256] and
    checked on its published test vectors. *)

From Stdlib Require Import Ascii String.
From stdpp Require Import base gmap strings list fin_maps option.
From Stdlib Require Import ZArith Lia.
From S2P Require Import Prelude GoStrings ConcurrentMap.

(** ** SHA-256 (FIPS 180-4), on lists of byte values *)

Module Sha256.
Open Scope Z_scope.

(** The constants are the first 32 bits of the fractional parts of the cube
    roots of the first 64 primes and of the square roots of the first eight. *)
Definition is_prime (n : nat) : bool :=
  forallb (λ d, negb (Nat.eqb (Nat.modulo n d) 0)) (seq 2 (n - 2)).
Definition primes (upto : nat) : list Z := map Z.of_nat (filter (λ n, is_prime n = true) (seq 2 upto)).

(** The largest [r] with [r ^ 3 <= x], its bits found from bit [n - 1] down. *)
Fixpoint cube_root (n : nat) (x r : Z) : Z :=
  match n with
  | O => r
  | S n' => let r' := r + 2 ^ Z.of_nat n' in
            cube_root n' x (if r' ^ 3 <=? x then r' else r)
  end.

Definition round_constants : list Z :=
  Eval vm_compute in map (λ p, cube_root 36 (p * 2 ^ 96) 0 mod 2 ^ 32) (primes 310).
Definition initial : list Z :=
  Eval vm_compute in map (λ p, Z.sqrt (p * 2 ^ 64) mod 2 ^ 32) (take 8 (primes 310)).

Definition add32 (a b : Z) : Z := (a + b) mod 2 ^ 32.
Definition rotr (x n : Z) : Z := Z.lor (Z.shiftr x n) (Z.shiftl x (32 - n) mod 2 ^ 32).
Definition not32 (x : Z) : Z := 2 ^ 32 - 1 - x.
Definition xor3 (a b c : Z) : Z := Z.lxor (Z.lxor a b) c.
Definition ch (x y z : Z) : Z := Z.lxor (Z.land x y) (Z.land (not32 x) z).
Definition maj (x y z : Z) : Z := xor3 (Z.land x y) (Z.land x z) (Z.land y z).
Definition big_sigma0 (x : Z) : Z := xor3 (rotr x 2) (rotr x 13) (rotr x 22).
Definition big_sigma1 (x : Z) : Z := xor3 (rotr x 6) (rotr x 11) (rotr x 25).
Definition small_sigma0 (x : Z) : Z := xor3 (rotr x 7) (rotr x 18) (Z.shiftr x 3).
Definition small_sigma1 (x : Z) : Z := xor3 (rotr x 17) (rotr x 19) (Z.shiftr x 10).

(** Big-endian bytes of [v], [n] of them. *)
Fixpoint be_bytes (n : nat) (v : Z) : list Z :=
  match n with
  | O => []
  | S n' => (v / 256 ^ Z.of_nat n') mod 256 :: be_bytes n' v
  end.

Definition pad (msg : list Z) : list Z :=
  let l := Z.of_nat (length msg) in
  msg ++ [128] ++ replicate (Z.to_nat ((55 - l) mod 64)) 0 ++ be_bytes 8 (l * 8).

Fixpoint words (fuel : nat) (bs : list Z) : list Z :=
  match fuel, bs with
  | S fuel', a :: b :: c :: d :: rest =>
      a * 2 ^ 24 + b * 2 ^ 16 + c * 2 ^ 8 + d :: words fuel' rest
  | _, _ => []
  end.

(** The message schedule, kept newest word first. *)
Fixpoint extend (n : nat) (rev_w : list Z) : list Z :=
  match n with
  | O => rev_w
  | S n' =>
      let w i := nth i rev_w 0 in
      extend n' (add32 (add32 (small_sigma1 (w 1%nat)) (w 6%nat))
                       (add32 (small_sigma0 (w 14%nat)) (w 15%nat)) :: rev_w)
  end.

Definition one_round (st : list Z) (kw : Z * Z) : list Z :=
  match st with
  | [a; b; c; d; e; f; g; h] =>
      let t1 := add32 (add32 h (big_sigma1 e)) (add32 (ch e f g) (add32 (fst kw) (snd kw))) in
      let t2 := add32 (big_sigma0 a) (maj a b c) in
      [add32 t1 t2; a; b; c; add32 d t1; e; f; g]
  | _ => st
  end.

Definition compress (h : list Z) (block : list Z) : list Z :=
  let schedule := reverse (extend 48 (reverse (words 16 block))) in
  zip_with add32 h (foldl one_round h (zip round_constants schedule)).

Fixpoint blocks (fuel : nat) (bs h : list Z) : list Z :=
  match fuel with
  | O => h
  | S fuel' =>
      match bs with
      | [] => h
      | _ => blocks fuel' (drop 64 bs) (compress h (take 64 bs))
      end
  end.

(** [fuel]: one turn per 64-byte block, and the padded message is no longer
    than 64 bytes more than twice the message. *)
Definition Sum256 (msg : list Z) : list Z :=
  let bs := pad msg in
  concat (map (be_bytes 4) (blocks (S (length bs)) bs initial)).

Fixpoint bytes_of (s : string) : list Z :=
  match s with
  | EmptyString => []
  | String a s' => code a :: bytes_of s'
  end.

(** [%x] of the digest. *)
Definition hex_lower (n : Z) : ascii := if n <? 10 then of_code (48 + n) else of_code (87 + n).
Definition hex_of (bs : list Z) : string :=
  fold_right (λ b s, String (hex_lower (b / 16)) (String (hex_lower (b mod 16)) s)) "" bs.

Example sum256_empty : hex_of (Sum256 []) =
  "e3b0c44298fc1c149afbf4c8996fb92427ae41e4649b934ca495991b7852b855".
Proof. vm_compute. reflexivity. Qed.

Example sum256_abc : hex_of (Sum256 (bytes_of "abc")) =
  "ba7816bf8f01cfea414140de5dae2223b00361a396177a9cb410ff61f20015ad".
Proof. vm_compute. reflexivity. Qed.
End Sha256.

(** ** Client identifiers *)

Module ClientIds.

(** What the context says about the peer: [None] when there is no peer
    information, [Some addr] otherwise. *)
Abbreviation peer := (option string).

Definition GetClientAddr (ctx : peer) : string * error :=
  match ctx with
  | Some addr =>
      if String.eqb addr "" then ("", Some "could not retrieve address info from peer")
      else (addr, None)
  | None => ("", Some "could not retrieve peer info")
  end.

Definition clientHash (addr : string) : string :=
  substring 0 8 (Sha256.hex_of (Sha256.Sum256 (Sha256.bytes_of addr))).

Definition SetClientIdentifier (ctx : peer) (name : string) (clientMap : gmap string string) :
    (string * error) * gmap string string :=
  match GetClientAddr ctx with
  | (_, Some err) => (("", Some err), clientMap)
  | (clientAddr, None) =>
      let clientIdentifier := name +:+ "-" +:+ clientHash clientAddr in
      ((clientIdentifier, None), ConcurrentMap.Add clientAddr clientIdentifier clientMap)
  end.

Definition RemoveClientIdentifier (ctx : peer) (clientMap : gmap string string) :
    gmap string string :=
  ConcurrentMap.Delete (fst (GetClientAddr ctx)) clientMap.

Definition GetClientIdentifier (ctx : peer) (clientMap : gmap string string) : string * error :=
  match GetClientAddr ctx with
  | (_, Some _) => ("", Some "could not retrieve client-id from context")
  | (clientAddr, None) =>
      match ConcurrentMap.Get clientAddr clientMap with
      | Some identifier => (identifier, None)
      | None => ("", Some "could not find client identifier")
      end
  end.

(** [strings.ContainsAny(token, "0123456789")]. *)
Definition has_digit (token : string) : bool := any_byte is_digit token.

Fixpoint take_tokens (tokens : list string) : list string :=
  match tokens with
  | [] => []
  | token :: rest => if has_digit token then [] else token :: take_tokens rest
  end.

Definition ServceNameFromClientAddr (clientAddr : string) : string :=
  join "-" (take_tokens (split_byte "-" clientAddr)).

(** ** Configuration *)

(** The default handed to [GetConfig], of a dynamic type. *)
Inductive config := CBool (b : bool) | CInt (z : Z) | CString (s : string) | COther.

#[export] Instance config_eq_dec : EqDecision config.
Proof. solve_decision. Defined.

Definition GetConfig (getenv : string → string) (key : string) (def : config) : config :=
  let val := getenv key in
  if String.eqb val "" then def
  else match def with
       | CBool _ => match parse_bool val with Some b => CBool b | None => def end
       | CInt _ => match atoi val with Some z => CInt z | None => def end
       | CString _ => CString val
       | COther => def
       end.

(** [SleepRandom]: the milliseconds it sleeps, [intn n] being what
    [rand.Intn(n)] returns. *)
Definition SleepRandom (intn : Z → Z) (sleepMin sleepMax : Z) : Z :=
  if (sleepMax <=? sleepMin)%Z then sleepMin
  else (intn (sleepMax - sleepMin) + sleepMin)%Z.

(** ** Lemmas *)

Lemma GetClientAddr_ok addr : addr ≠ "" → GetClientAddr (Some addr) = (addr, None).
Proof. intros H. unfold GetClientAddr. by rewrite (proj2 (String.eqb_neq _ _) H). Qed.

Lemma GetClientIdentifier_found ctx m id :
  GetClientIdentifier ctx m = (id, None) ↔
  ∃ addr, ctx = Some addr ∧ addr ≠ "" ∧ ConcurrentMap.Get addr m = Some id.
Proof.
  unfold GetClientIdentifier, GetClientAddr. destruct ctx as [addr|].
  - destruct (String.eqb_spec addr "") as [->|Hne].
    + split; [done|]. by intros (? & [= <-] & ? & ?).
    + destruct (ConcurrentMap.Get addr m) as [id'|] eqn:Hg; split.
      * intros [= ->]. by exists addr.
      * intros (? & [= <-] & _ & ?). congruence.
      * done.
      * intros (? & [= <-] & _ & ?). congruence.
  - split; [done|]. by intros (? & ? & ?).
Qed.

Lemma GetConfig_int getenv key d : ∃ z, GetConfig getenv key (CInt d) = CInt z.
Proof. unfold GetConfig. repeat case_match; by eexists. Qed.

Lemma split_byte_nonempty sep s : split_byte sep s ≠ [].
Proof. destruct s as [|a s]; [done|]. cbn. by repeat case_match. Qed.

Lemma split_byte_cons sep s t :
  any_byte (Ascii.eqb sep) s = false →
  split_byte sep (s +:+ String sep t) = s :: split_byte sep t.
Proof.
  induction s as [|a s IH]; intros H.
  - cbn. by rewrite Ascii.eqb_refl.
  - cbn in H. apply orb_false_iff in H as [Ha Hs]. cbn.
    rewrite Ascii.eqb_sym, Ha, (IH Hs). done.
Qed.

Definition dash_free (s : string) : bool := negb (any_byte (Ascii.eqb "-") s).

(** The tokens of a dash-separated name are taken back as they were. *)
Lemma split_join_tokens toks s :
  Forall (λ t, dash_free t = true) toks →
  split_byte "-" (fold_right (λ t r, t +:+ "-" +:+ r) s toks) = (toks ++ split_byte "-" s)%list.
Proof.
  induction 1 as [|t toks Ht _ IH]; [done|]. cbn [fold_right app].
  rewrite <- IH. apply split_byte_cons. by apply negb_true_iff.
Qed.

Lemma take_tokens_app toks rest :
  Forall (λ t, has_digit t = false) toks →
  take_tokens (toks ++ rest)%list = (toks ++ take_tokens rest)%list.
Proof. induction 1 as [|t toks Ht _ IH]; [done|]. cbn. by rewrite Ht, IH. Qed.

(** ** Properties *)

(** An identifier assigned to a connection is the one later calls on the
    same peer address read, it consists of the client's name and eight digits
    derived from the address, and no other peer's identifier changes. *)
Theorem set_get_client_identifier ctx name m id m' :
  SetClientIdentifier ctx name m = ((id, None), m') →
  GetClientIdentifier ctx m' = (id, None) ∧
  has_prefix (name +:+ "-") id = true ∧
  ∀ other, other ≠ ctx → GetClientIdentifier other m' = GetClientIdentifier other m.
Proof.
  unfold SetClientIdentifier, GetClientIdentifier.
  destruct (GetClientAddr ctx) as [addr [e|]] eqn:Ha; [done|].
  intros [= <- <-]. rewrite ConcurrentMap.Get_Add, decide_True by done.
  split; [done|]. split; [apply has_prefix_spec; exists (clientHash addr); by rewrite str_app_assoc|].
  intros other Hne. destruct (GetClientAddr other) as [addr' [e|]] eqn:Ho; [done|].
  rewrite ConcurrentMap.Get_Add, decide_False; [done|]. intros ->. apply Hne.
  unfold GetClientAddr in Ha, Ho. repeat case_match; by simplify_eq.
Qed.

Lemma set_get_client_identifier_witness :
  GetClientIdentifier (Some "10.0.0.7:4711")
    (snd (SetClientIdentifier (Some "10.0.0.7:4711") "svc" ∅)) =
  (fst (fst (SetClientIdentifier (Some "10.0.0.7:4711") "svc" ∅)), None).
Proof.
  apply (set_get_client_identifier (Some "10.0.0.7:4711") "svc" ∅). vm_compute. reflexivity.
Defined.

(** The service name read off a client identifier of the shape
    [<name>-<suffix>...] is the name, whenever the tokens of the name hold no
    digit and the suffix holds one. *)
Theorem service_name_of_identifier toks suffix rest :
  toks ≠ [] →
  Forall (λ t, dash_free t = true ∧ has_digit t = false) toks →
  has_digit suffix = true → dash_free suffix = true →
  ServceNameFromClientAddr (join "-" toks +:+ "-" +:+ suffix +:+ rest) = join "-" toks.
Proof.
  intros Hne Htoks Hdig Hdash. unfold ServceNameFromClientAddr.
  replace (join "-" toks +:+ "-" +:+ suffix +:+ rest)
    with (fold_right (λ t r, t +:+ "-" +:+ r) (suffix +:+ rest) toks).
  2:{ clear Htoks. induction toks as [|t toks IH]; [done|]. destruct toks as [|t2 toks]; [done|].
      cbn [fold_right] in *. rewrite IH by done. cbn [join]. by rewrite !str_app_assoc. }
  rewrite split_join_tokens by (revert Htoks; apply Forall_impl; by intros ? []).
  rewrite take_tokens_app by (revert Htoks; apply Forall_impl; by intros ? []).
  destruct (split_byte "-" (suffix +:+ rest)) as [|t ts] eqn:Hs; [by apply split_byte_nonempty in Hs|].
  assert (has_digit t = true) as Ht.
  { clear - Hs Hdig Hdash. apply negb_true_iff in Hdash. revert t ts Hs Hdig Hdash.
    induction suffix as [|a suffix IH]; intros t ts Hs Hdig Hdash; [done|].
    cbn [any_byte] in Hdash. apply orb_false_iff in Hdash as [Ha Hdash].
    change (Ascii.eqb "-" a = false) in Ha. rewrite Ascii.eqb_sym in Ha.
    cbn in Hs. rewrite Ha in Hs.
    destruct (split_byte "-" (suffix +:+ rest)) as [|h u] eqn:Hu;
      [by apply split_byte_nonempty in Hu|].
    injection Hs as <- <-. unfold has_digit in *. cbn.
    cbn in Hdig. destruct (is_digit a); [done|]. by apply (IH h u). }
  cbn. rewrite Ht. by rewrite app_nil_r.
Qed.

Lemma service_name_of_identifier_witness :
  ServceNameFromClientAddr "sas-files-58fdcc8b7-9xhs2" = "sas-files".
Proof.
  apply (service_name_of_identifier ["sas"; "files"] "58fdcc8b7" "-9xhs2");
    [discriminate | repeat constructor | reflexivity | reflexivity].
Defined.

End ClientIds.
