(* ===== verification/Provider.v ===== *)
(** * [internal/provider/provider.go]: the registry of broker providers

    The three process-wide maps of the package are the fields of [registry].
    A factory is code of another package: it is a function from the number of
    objects created so far to the object it makes, [None] being a nil
    interface. [Register] and [GetProvider] are modelled twice: as calls that
    run one after the other, and [GetProvider] as a machine of threads in which
    every access to a map is a step. *)

From Stdlib Require Import Ascii String.
From stdpp Require Import base gmap strings list fin_maps option relations.
From Stdlib Require Import ZArith Lia.
From S2P Require Import Prelude GoStrings ConcurrentMap.

Module Provider.
Import ConcurrentMap.

(** ** The connection states and time constants ([constants.go]) *)

Definition DISCONNECTED : Z := 0.
Definition CONNECTED : Z := 1.
Definition CONNECTING : Z := 2.
Definition CLOSED : Z := 3.
Definition CONNECTTIMEOUT : Z := 15.
Definition ReconnectDelay : Z := 500.

(** [ClientStats], without the mutex it embeds, and [Stats]. *)
Record ClientStats := {
  ID : string; ActiveMessages : Z; Streams : Z; Produced : Z; Consumed : Z }.
Record Stats := { Clients : list ClientStats }.

Section registry.
Context {P : Type} `{MR : MapRange}.

Definition Factory : Type := nat → option P.

(** A [providerOnce] is an address into [onces], the [done] flags. *)
Record registry := {
  registeredProviderTypes : gmap string Factory;
  registeredProviders : gmap string P;
  providerVault : gmap string nat;
  onces : list bool;
  created : nat
}.

Definition empty_registry : registry := {|
  registeredProviderTypes := NewConcurrentMap; registeredProviders := NewConcurrentMap;
  providerVault := NewConcurrentMap; onces := []; created := 0 |}.

Definition add_type (name : string) (f : Factory) (r : registry) : registry := {|
  registeredProviderTypes := Add name f (registeredProviderTypes r);
  registeredProviders := registeredProviders r; providerVault := providerVault r;
  onces := onces r; created := created r |}.

Definition add_provider (name : string) (p : P) (r : registry) : registry := {|
  registeredProviderTypes := registeredProviderTypes r;
  registeredProviders := Add name p (registeredProviders r);
  providerVault := providerVault r; onces := onces r; created := created r |}.

(** [var provOnce providerOnce; providerVault.Add(providerType, &provOnce)] *)
Definition new_once (name : string) : prog registry nat := λ r,
  let po := length (onces r) in
  (Ret po, {| registeredProviderTypes := registeredProviderTypes r;
              registeredProviders := registeredProviders r;
              providerVault := Add name po (providerVault r);
              onces := onces r ++ [false]; created := created r |}).

(** [providerFactory()] *)
Definition call_factory (f : Factory) : prog registry (option P) := λ r,
  (Ret (f (created r)),
   {| registeredProviderTypes := registeredProviderTypes r;
      registeredProviders := registeredProviders r; providerVault := providerVault r;
      onces := onces r; created := S (created r) |}).

Definition set_done (po : nat) : prog registry () := modify (λ r,
  {| registeredProviderTypes := registeredProviderTypes r;
     registeredProviders := registeredProviders r; providerVault := providerVault r;
     onces := <[po := true]> (onces r); created := created r |}).

Definition Do (po : nat) (f : prog registry (option P)) : prog registry (option P) :=
  r ← get;
  match onces r !! po with
  | Some false => defer f (set_done po)
  | _ => mret None
  end.

Definition NewProvider (providerType : string) : prog registry (option P * error) :=
  r ← get;
  match Get providerType (registeredProviderTypes r) with
  | None =>
      let providerList := GetList (registeredProviderTypes r) in
      mret (None, Some ("invalid provider name. Must be one of: " +:+ join "," providerList))
  | Some pf =>
      po ← new_once providerType;
      provider ← Do po (call_factory pf);
      mret (provider, None)
  end.

(** [prov.(Provider)] on a nil interface panics. *)
Definition read_provider (providerType : string) : prog registry (option P * error) :=
  r ← get;
  match Get providerType (registeredProviders r) with
  | Some p => mret (Some p, None)
  | None => panic "interface conversion: interface is nil, not provider.Provider"
  end.

Definition GetProvider (providerType : string) : prog registry (option P * error) :=
  r ← get;
  match Get providerType (registeredProviders r) with
  | Some _ => read_provider providerType
  | None =>
      np ← NewProvider providerType;
      let '(newProv, newProvErr) := np in
      match newProv with
      | Some p => modify (add_provider providerType p)
      | None => mret ()
      end;;
      match newProvErr with
      | Some e => mret (None, Some e)
      | None => read_provider providerType
      end
  end.

Definition Register (name : string) (factory : option Factory) : prog registry () :=
  match factory with
  | None => mret ()
  | Some f =>
      r ← get;
      match Get name (registeredProviderTypes r) with
      | Some _ => mret ()
      | None => modify (add_type name f)
      end
  end.

Definition RegisteredProviders (r : registry) : gmap string P := registeredProviders r.

(** A history of calls, one after the other. *)
Inductive reg_op := ORegister (name : string) (f : option Factory) | OGet (name : string).

Definition reg_apply (o : reg_op) (r : registry) : registry :=
  match o with
  | ORegister n f => run_state (Register n f) r
  | OGet n => run_state (GetProvider n) r
  end.

Definition reg_run (os : list reg_op) (r : registry) : registry :=
  foldl (λ r o, reg_apply o r) r os.

(** ** Threads inside [GetProvider] *)

Inductive gp_pc :=
  | GStart                       (* before the lookup of the cache *)
  | GMiss                        (* the cache had no entry *)
  | GFactory (f : Factory)       (* the factory was found *)
  | GOnce (po : nat) (f : Factory)
  | GNew (p : option P)          (* the factory returned *)
  | GRead                        (* about to read the cache again *)
  | GDone (o : outcome (option P * error)).

Definition gp_step (name : string) (p : gp_pc) (r : registry) : gp_pc * registry :=
  match p with
  | GStart => (match Get name (registeredProviders r) with
               | Some _ => GRead | None => GMiss end, r)
  | GMiss => (match Get name (registeredProviderTypes r) with
              | Some f => GFactory f
              | None => GDone (run_result (NewProvider name) r)
              end, r)
  | GFactory f => match new_once name r with
                  | (Ret po, r') => (GOnce po f, r')
                  | (Panic e, r') => (GDone (Panic e), r')
                  | (Block, r') => (GFactory f, r')
                  end
  | GOnce po f => match Do po (call_factory f) r with
                  | (Ret q, r') => (GNew q, r')
                  | (Panic e, r') => (GDone (Panic e), r')
                  | (Block, r') => (GOnce po f, r')
                  end
  | GNew (Some q) => (GRead, add_provider name q r)
  | GNew None => (GRead, r)
  | GRead => (GDone (run_result (read_provider name) r), r)
  | GDone o => (GDone o, r)
  end.

Record gp_machine := { reg : registry; threads : list (string * gp_pc) }.

Definition gp_act (i : nat) (m : gp_machine) : option gp_machine :=
  match threads m !! i with
  | Some (name, p) =>
      let '(p', r') := gp_step name p (reg m) in
      Some {| reg := r'; threads := <[i := (name, p')]> (threads m) |}
  | None => None
  end.

Fixpoint gp_run (l : list nat) (m : gp_machine) : option gp_machine :=
  match l with
  | [] => Some m
  | i :: l' => m' ← gp_act i m; gp_run l' m'
  end.

(** ** Lemmas *)

Lemma GetProvider_cached name p r :
  Get name (registeredProviders r) = Some p → GetProvider name r = (Ret (Some p, None), r).
Proof. intros H. unfold GetProvider, read_provider. prog_unfold. by rewrite !H. Qed.

Lemma Do_fresh (f : Factory) name r :
  (po ← new_once name; Do po (call_factory f)) r =
    (Ret (f (created r)),
     {| registeredProviderTypes := registeredProviderTypes r;
        registeredProviders := registeredProviders r;
        providerVault := Add name (length (onces r)) (providerVault r);
        onces := onces r ++ [true]; created := S (created r) |}).
Proof.
  unfold Do, new_once, call_factory, set_done, defer. prog_unfold. cbn.
  rewrite lookup_app_r, Nat.sub_diag by lia. cbn. do 2 f_equal.
  rewrite insert_app_r_alt, Nat.sub_diag by lia. done.
Qed.

(** What [GetProvider] does on a cache miss. *)
Lemma GetProvider_miss name r :
  Get name (registeredProviders r) = None →
  match Get name (registeredProviderTypes r) with
  | None => run_state (GetProvider name) r = r ∧
            ∃ e, run_result (GetProvider name) r = Ret (None, Some e)
  | Some f => match f (created r) with
              | Some p => run_result (GetProvider name) r = Ret (Some p, None) ∧
                          registeredProviders (run_state (GetProvider name) r) =
                            Add name p (registeredProviders r)
              | None => (∃ why, run_result (GetProvider name) r = Panic why) ∧
                        registeredProviders (run_state (GetProvider name) r) =
                          registeredProviders r
              end
  end.
Proof.
  intros Hm. unfold GetProvider, NewProvider, read_provider. prog_unfold. rewrite Hm.
  destruct (Get name (registeredProviderTypes r)) as [f|]; [|split; [done|by eexists]].
  pose proof (Do_fresh f name r) as Hd. prog_unfold.
  destruct (new_once name r) as [[po| |] r1]; [|done..]. rewrite Hd. cbn.
  destruct (f (created r)) as [p|]; cbn.
  - rewrite !Get_Add, decide_True by done. done.
  - rewrite Hm. split; [by eexists|done].
Qed.

Lemma Register_providers name f r :
  registeredProviders (run_state (Register name f) r) = registeredProviders r.
Proof. unfold Register. prog_unfold. by repeat case_match. Qed.

(** A cached provider is never replaced by later calls. *)
Lemma reg_apply_keeps o name p r :
  Get name (registeredProviders r) = Some p →
  Get name (registeredProviders (reg_apply o r)) = Some p.
Proof.
  intros Hp. destruct o as [n f|n]; cbn [reg_apply]; [by rewrite Register_providers|].
  destruct (Get n (registeredProviders r)) as [q|] eqn:Hn.
  { unfold run_state. by rewrite (GetProvider_cached _ _ _ Hn). }
  assert (n ≠ name) as Hne by congruence.
  pose proof (GetProvider_miss n r Hn) as Hmiss.
  destruct (Get n (registeredProviderTypes r)) as [f|]; [|destruct Hmiss as [-> _]; done].
  destruct (f (created r)) as [q|]; destruct Hmiss as [_ ->]; [|done].
  by rewrite Get_Add, decide_False.
Qed.

Lemma reg_run_keeps os name p r :
  Get name (registeredProviders r) = Some p →
  Get name (registeredProviders (reg_run os r)) = Some p.
Proof.
  revert r. induction os as [|o os IH]; intros r Hp; [done|].
  by apply IH, reg_apply_keeps.
Qed.

Lemma GetProvider_success name p r r1 :
  GetProvider name r = (Ret (Some p, None), r1) → Get name (registeredProviders r1) = Some p.
Proof.
  intros H. destruct (Get name (registeredProviders r)) as [q|] eqn:Hn.
  { rewrite (GetProvider_cached _ _ _ Hn) in H. by simplify_eq. }
  pose proof (GetProvider_miss name r Hn) as Hmiss. unfold run_result, run_state in Hmiss.
  rewrite H in Hmiss. cbn in Hmiss.
  destruct (Get name (registeredProviderTypes r)) as [f|]; [|by destruct Hmiss as [_ [? ?]]].
  destruct (f (created r)) as [q|]; [|by destruct Hmiss as [[? ?] _]].
  destruct Hmiss as [[= ->] ->]. by rewrite Get_Add, decide_True.
Qed.

(** A single thread that runs through the steps of the machine computes what
    the sequential definition does. *)
Lemma gp_steps_GetProvider name r :
  let run n := Nat.iter n (λ '(p, r), gp_step name p r) (GStart, r) in
  run 6%nat = (GDone (run_result (GetProvider name) r), run_state (GetProvider name) r).
Proof.
  assert ((onces r ++ [false])%list !! length (onces r) = Some false) as Hl by
    (by rewrite lookup_app_r, Nat.sub_diag).
  unfold GetProvider, NewProvider, read_provider. cbn. unfold read_provider. prog_unfold.
  destruct (Get name (registeredProviders r)) as [q|] eqn:Hn; cbn.
  { unfold read_provider. prog_unfold. by rewrite !Hn. }
  destruct (Get name (registeredProviderTypes r)) as [f|] eqn:Hf; cbn;
    [|unfold NewProvider; prog_unfold; by rewrite !Hf].
  unfold Do, defer, call_factory, set_done. prog_unfold. cbn. rewrite !Hl. cbn.
  destruct (f (created r)) as [p|]; cbn; unfold read_provider; prog_unfold; cbn; [|by rewrite !Hn].
  by rewrite !Get_Add, decide_True.
Qed.

(** ** Properties *)

(** C25: One provider per name: once [GetProvider] has returned a provider,
    every later call for the same name, after any sequence of registrations and
    of calls for any names, returns that very provider and creates nothing. *)
Theorem get_provider_singleton name p r r1 os :
  GetProvider name r = (Ret (Some p, None), r1) →
  GetProvider name (reg_run os r1) = (Ret (Some p, None), reg_run os r1).
Proof.
  intros H. by apply GetProvider_cached, reg_run_keeps, (GetProvider_success name p r).
Qed.

End registry.
Arguments registry : clear implicits.
Arguments gp_machine : clear implicits.
Arguments Factory : clear implicits.

(** A factory whose objects are numbered in the order of their creation. *)
Definition numbered : Factory nat := λ n, Some n.

Lemma get_provider_singleton_witness (MR := default_range) :
  GetProvider (P := nat) "amqp091"
    (reg_run [OGet "other"; ORegister "amqp091" None]
       (run_state (GetProvider "amqp091") (run_state (Register "amqp091" (Some numbered)) empty_registry))) =
  (Ret (Some 0%nat, None),
   reg_run [OGet "other"; ORegister "amqp091" None]
       (run_state (GetProvider "amqp091") (run_state (Register "amqp091" (Some numbered)) empty_registry))).
Proof.
  eapply (get_provider_singleton "amqp091" 0%nat
    (run_state (Register "amqp091" (Some numbered)) empty_registry)).
  vm_compute. reflexivity.
Defined.

(** Two first calls that overlap can each create a provider: both look the
    cache up before either has stored, so each calls the factory through a
    [providerOnce] of its own, and each returns the object it made itself. *)
Theorem get_provider_race `{MapRange} : ∃ sched m,
  gp_run sched {| reg := run_state (Register "amqp091" (Some numbered)) empty_registry;
                  threads := [("amqp091", GStart); ("amqp091", GStart)] |} = Some m ∧
  created (reg m) = 2%nat ∧
  threads m = [("amqp091", GDone (Ret (Some 0%nat, None)));
               ("amqp091", GDone (Ret (Some 1%nat, None)))] ∧
  Get "amqp091" (registeredProviders (reg m)) = Some 1%nat.
Proof.
  exists [0; 1; 0; 0; 0; 0; 0; 1; 1; 1; 1; 1]%nat.
  eexists. split; [vm_compute; reflexivity|]. by vm_compute.
Qed.

End Provider.
