(* ===== verification/RateLimiter.v ===== *)
(** * [internal/server/ratelimiter/ratelimiter.go]: the per-client rate limiter

    The token bucket is [golang.org/x/time/rate], third-party code: it is the
    class [TokenBucket], with its documented behaviour as [TokenBucketLaws],
    and [IntBucket] is a concrete bucket that satisfies the laws. Instants and
    durations are nanoseconds. [time.Duration.Seconds] is converted to [int],
    which is the truncated quotient as long as the duration is less than
    2{^22} seconds (a [float64] then holds it to the nanosecond). *)

From Stdlib Require Import Ascii String.
From stdpp Require Import base gmap strings list fin_maps option.
From Stdlib Require Import ZArith Lia.
From S2P Require Import Prelude GoStrings ConcurrentMap ClientIds.

(** ** The token bucket *)

Class TokenBucket := {
  Limiter : Type;
  (** [rate.NewLimiter(rate.Every(interval), burst)] *)
  NewLimiter : Z → Z → Limiter;
  (** [Allow()] at an instant. *)
  Allow : Z → Limiter → bool * Limiter
}.

(** The answers of one bucket to calls at the given instants, and the bucket
    afterwards. *)
Fixpoint bucket_answers `{TokenBucket} (times : list Z) (l : Limiter) : list bool :=
  match times with
  | [] => []
  | t :: ts => fst (Allow t l) :: bucket_answers ts (snd (Allow t l))
  end.
Fixpoint bucket_after `{TokenBucket} (times : list Z) (l : Limiter) : Limiter :=
  match times with
  | [] => l
  | t :: ts => bucket_after ts (snd (Allow t l))
  end.

(** A bucket starts full with [burst] tokens and gains one per interval. *)
Class TokenBucketLaws `(TokenBucket) := {
  bucket_burst every burst times now :
    (0 < every)%Z → (Z.of_nat (length times) < burst)%Z →
    fst (Allow now (bucket_after times (NewLimiter every burst))) = true;
  bucket_rate every burst first times :
    (0 < every)%Z → (0 <= burst)%Z →
    (∀ i t1 t2, (first :: times) !! i = Some t1 → (first :: times) !! S i = Some t2 → (t1 <= t2)%Z) →
    (count_if id (bucket_answers (first :: times) (NewLimiter every burst)) * every <=
     burst * every + (List.last times first - first))%Z
}.

(** *** A concrete bucket: credit counted in nanoseconds *)

Module IntBucket.
Open Scope Z_scope.

Record bucket := { every : Z; burst : Z; credit : Z; last : option Z }.

Definition refill (now : Z) (b : bucket) : Z :=
  match last b with
  | None => credit b
  | Some t => Z.min (burst b * every b) (credit b + Z.max 0 (now - t))
  end.

Definition allow (now : Z) (b : bucket) : bool * bucket :=
  let c := refill now b in
  if every b <=? c
  then (true, {| every := every b; burst := burst b; credit := c - every b; last := Some now |})
  else (false, {| every := every b; burst := burst b; credit := c; last := Some now |}).

#[export] Instance int_bucket : TokenBucket := {|
  Limiter := bucket;
  NewLimiter e b := {| every := e; burst := b; credit := b * e; last := None |};
  Allow := allow |}.

Lemma allow_params now b : every (snd (allow now b)) = every b ∧ burst (snd (allow now b)) = burst b.
Proof. unfold allow. by case_match. Qed.

(** A call costs at most one interval of credit. *)
Lemma allow_credit now b :
  0 < every b → credit b <= burst b * every b →
  credit b - every b <= credit (snd (allow now b)) <= burst b * every b.
Proof.
  intros He Hc. unfold allow, refill.
  destruct (last b); case_match; cbn [snd credit]; lia.
Qed.

Lemma after_credit times b :
  0 < every b → credit b <= burst b * every b →
  credit b - Z.of_nat (length times) * every b <= credit (bucket_after times b) <= burst b * every b
  ∧ every (bucket_after times b) = every b ∧ burst (bucket_after times b) = burst b.
Proof.
  revert b. induction times as [|t ts IH]; intros b He Hc; [cbn; lia|].
  pose proof (allow_credit t b He Hc). destruct (allow_params t b) as [H1 H2].
  destruct (IH (snd (allow t b))) as (Hi & Hi1 & Hi2); [rewrite H1; lia|rewrite H1, H2; lia|].
  cbn [bucket_after length Allow int_bucket]. rewrite H1, H2 in *.
  split; [|done]. destruct Hi as [Hi ?]. split; [|done]. etrans; [|exact Hi].
  rewrite Nat2Z.inj_succ, Z.mul_succ_l. lia.
Qed.

(** The allowed calls are paid from the credit at hand and what time adds. *)
Lemma answers_paid times b t0 :
  last b = Some t0 → 0 < every b → 0 <= credit b → 0 <= burst b * every b →
  (∀ i t1 t2, (t0 :: times) !! i = Some t1 → (t0 :: times) !! S i = Some t2 → t1 <= t2) →
  count_if id (bucket_answers times b) * every b <= credit b + (List.last times t0 - t0).
Proof.
  revert b t0. induction times as [|t ts IH]; intros b t0 Hl He Hc0 Hb Hs.
  { cbn [bucket_answers List.last]. rewrite count_if_nil. lia. }
  assert (t0 <= t) by (by apply (Hs 0%nat)).
  rewrite last_cons_default.
  cbn [bucket_answers Allow int_bucket]. rewrite count_if_cons.
  destruct (allow_params t b) as [Hp Hq].
  specialize (IH (snd (allow t b)) t). rewrite Hp, Hq in IH.
  assert (∀ i t1 t2, (t :: ts) !! i = Some t1 → (t :: ts) !! S i = Some t2 → t1 <= t2) as Hs'
    by (intros i t1 t2 H1 H2; by apply (Hs (S i))).
  revert IH. unfold allow, refill. rewrite Hl.
  case_match eqn:Hc; cbn [fst snd credit last b2z id]; intros IH;
    (specialize (IH eq_refl He ltac:(lia) ltac:(lia) Hs')); lia.
Qed.

#[export] Instance int_bucket_laws : TokenBucketLaws int_bucket.
Proof.
  split.
  - intros e b times now He Hn. cbn [Allow NewLimiter int_bucket].
    destruct (after_credit times {| every := e; burst := b; credit := b * e; last := None |})
      as ([Hc _] & H1 & H2); cbn [every burst credit] in *; [lia..|].
    set (l := bucket_after _ _) in *. unfold allow.
    enough (e <= refill now l) by (rewrite H1; case_match; [done|lia]).
    unfold refill. rewrite H1, H2. destruct (last l); nia.
  - intros e b t0 times He Hb Hs. cbn [bucket_answers Allow NewLimiter int_bucket].
    rewrite count_if_cons. unfold allow at 1 2. cbn [refill every burst credit last].
    unfold refill. cbn [last every credit burst].
    case_match eqn:Hc; cbn [fst snd b2z id].
    + pose proof (answers_paid times {| every := e; burst := b; credit := b * e - e; last := Some t0 |} t0
        eq_refl He) as H. cbn [every burst credit] in H. specialize (H ltac:(lia) ltac:(nia) Hs). lia.
    + pose proof (answers_paid times {| every := e; burst := b; credit := b * e; last := Some t0 |} t0
        eq_refl He) as H. cbn [every burst credit] in H. specialize (H ltac:(nia) ltac:(nia) Hs). lia.
Qed.
End IntBucket.

Module RateLimiter.
Import ConcurrentMap ClientIds.

(** ** [LimitMethods] *)

Definition Producer_Publish_FullMethodName := "/arke.Producer/Publish".
Definition Producer_Connect_FullMethodName := "/arke.Producer/Connect".
Definition Consumer_Consume_FullMethodName := "/arke.Consumer/Consume".
Definition Consumer_Connect_FullMethodName := "/arke.Consumer/Connect".

Definition LimitMethods (fullMethod : string) : bool :=
  let limitMethods := [Producer_Publish_FullMethodName; Producer_Connect_FullMethodName;
                       Consumer_Consume_FullMethodName; Consumer_Connect_FullMethodName] in
  existsb (String.eqb fullMethod) limitMethods.

(** ** The manager *)

Section limiter.
Context `{TB : TokenBucket}.

Record clientLimiter := { limiter : Limiter; lastConnectionTime : Z }.

Record ClientLimitManager := {
  clients : gmap string clientLimiter;
  bucketSize : Z;
  fillInterval : Z;
  maxAgeStaleClients : Z;
  enforced : bool
}.

Definition ErrTooManyRequests : string :=
  "client has made too many requests - rate limiting enforced".

Definition NewClientLimitManager (bucket refillInterval maxAge : Z) (enf : bool) :
    option ClientLimitManager * error :=
  if ((bucket <=? 0) || (refillInterval <=? 0) || (maxAge <=? 0))%Z
  then (None, Some "invalid rate limit parameters")
  else (Some {| clients := NewConcurrentMap; bucketSize := bucket;
                fillInterval := refillInterval; maxAgeStaleClients := maxAge;
                enforced := enf |}, None).

Definition with_clients (m : gmap string clientLimiter) (clm : ClientLimitManager) :
    ClientLimitManager :=
  {| clients := m; bucketSize := bucketSize clm; fillInterval := fillInterval clm;
     maxAgeStaleClients := maxAgeStaleClients clm; enforced := enforced clm |}.

(** The manager and the samples sent to the metrics sink, latest last. *)
Record world := { clm : ClientLimitManager; samples : list (string * string) }.

(** [int(d.Seconds())] *)
Definition seconds (d : Z) : Z := Z.quot d (10 ^ 9).

Definition cull_one (now : Z) (clientID : string) : prog world () :=
  w ← get;
  match Get clientID (clients (clm w)) with
  | Some cl =>
      let lastSeconds := seconds (now - lastConnectionTime cl)%Z in
      let maxSeconds := seconds (maxAgeStaleClients (clm w)) in
      if (maxSeconds <? lastSeconds)%Z then
        put {| clm := with_clients (Delete clientID (clients (clm w))) (clm w);
               samples := samples w |}
      else mret ()
  | None => mret ()
  end.

Definition cullStaleClients `{MapRange} (now : Z) : prog world () :=
  w ← get;
  for_each (GetList (clients (clm w))) (cull_one now).

(** [StartClientCull], the loop body: one firing of [time.After]. *)
Definition StartClientCull `{MapRange} (ticks : list Z) : prog world () :=
  for_each ticks cullStaleClients.

(** The limiter of a client, made when there is none. *)
Definition lookup_limiter (clientIdentifier : string) (clm : ClientLimitManager) : Limiter :=
  match Get clientIdentifier (clients clm) with
  | Some lim => limiter lim
  | None => NewLimiter (fillInterval clm) (bucketSize clm)
  end.

Definition Limit (clientMap : gmap string string) (ctx : peer) (now : Z) : prog world error :=
  w ← get;
  let '(clientIdentifier, err) := GetClientIdentifier ctx clientMap in
  if bool_decide (is_Some err) && enforced (clm w) then mret None
  else
    let '(ok, lim) := Allow now (lookup_limiter clientIdentifier (clm w)) in
    let c := {| limiter := lim; lastConnectionTime := now |} in
    let clm' := with_clients (Add clientIdentifier c (clients (clm w))) (clm w) in
    if ok then put {| clm := clm'; samples := samples w |};; mret None
    else
      put {| clm := clm';
             samples := samples w ++ [(ServceNameFromClientAddr clientIdentifier, clientIdentifier)] |};;
      if enforced (clm w) then mret (Some ErrTooManyRequests) else mret None.

(** A history of calls and of culls. *)
Inductive limit_op := LLimit (ctx : peer) (now : Z) | LCull (now : Z).

(** The answers to the calls, in order, and the final world. *)
Fixpoint limit_run `{MapRange} (clientMap : gmap string string) (os : list limit_op) (w : world) :
    list error * world :=
  match os with
  | [] => ([], w)
  | LCull now :: os' => limit_run clientMap os' (run_state (cullStaleClients now) w)
  | LLimit ctx now :: os' =>
      let '(r, w') := Limit clientMap ctx now w in
      let '(rs, w'') := limit_run clientMap os' w' in
      (match r with Ret e => e | Panic why => Some why | Block => None end :: rs, w'')
  end.

(** ** Keys *)

(** The entry a call uses; none when it is not limited at all. *)
Definition key_of (clientMap : gmap string string) (enf : bool) (ctx : peer) : option string :=
  let '(id, err) := GetClientIdentifier ctx clientMap in
  if bool_decide (is_Some err) && enf then None else Some id.

(** What the caller sees of a bucket's answer. *)
Definition verdict (enf ok : bool) : error :=
  if ok then None else if enf then Some ErrTooManyRequests else None.

Lemma Limit_spec cm ctx now w :
  match key_of cm (enforced (clm w)) ctx with
  | None => Limit cm ctx now w = (Ret None, w)
  | Some k =>
      let a := Allow now (lookup_limiter k (clm w)) in
      run_result (Limit cm ctx now) w = Ret (verdict (enforced (clm w)) (fst a)) ∧
      clm (run_state (Limit cm ctx now) w) =
        with_clients (Add k {| limiter := snd a; lastConnectionTime := now |} (clients (clm w))) (clm w)
  end.
Proof.
  unfold key_of, Limit. prog_unfold. destruct (GetClientIdentifier ctx cm) as [id err].
  destruct (bool_decide (is_Some err) && enforced (clm w)); [done|].
  destruct (Allow now (lookup_limiter id (clm w))) as [[|] l]; [done|]. cbn.
  by destruct (enforced (clm w)).
Qed.

Lemma Limit_params cm ctx now w :
  let c := clm (run_state (Limit cm ctx now) w) in
  enforced c = enforced (clm w) ∧ bucketSize c = bucketSize (clm w) ∧
  fillInterval c = fillInterval (clm w) ∧ maxAgeStaleClients c = maxAgeStaleClients (clm w).
Proof.
  pose proof (Limit_spec cm ctx now w) as H. cbv zeta in *. unfold run_state in *.
  destruct (key_of cm (enforced (clm w)) ctx) as [k|]; [destruct H as [_ ->]; done|].
  by rewrite H.
Qed.

(** ** Culling *)

Definition stale (now : Z) (clm : ClientLimitManager) (c : clientLimiter) : bool :=
  (seconds (maxAgeStaleClients clm) <? seconds (now - lastConnectionTime c))%Z.

Lemma cull_one_spec now k w :
  run_state (cull_one now k) w =
    match Get k (clients (clm w)) with
    | Some c => if stale now (clm w) c
                then {| clm := with_clients (Delete k (clients (clm w))) (clm w); samples := samples w |}
                else w
    | None => w
    end ∧ run_result (cull_one now k) w = Ret ().
Proof. unfold cull_one, stale. prog_unfold. by repeat case_match. Qed.

Lemma for_each_cull now l w :
  let w' := run_state (for_each l (cull_one now)) w in
  (∀ k, Get k (clients (clm w')) =
     if decide (k ∈ l) then c ← Get k (clients (clm w)); if stale now (clm w) c then None else Some c
     else Get k (clients (clm w))) ∧
  clm w' = with_clients (clients (clm w')) (clm w) ∧ samples w' = samples w.
Proof.
  revert w. induction l as [|k l IH]; intros w.
  { cbn. split; [intros k; by rewrite decide_False by set_solver|]. by destruct w as [[]]. }
  cbn [for_each]. destruct (cull_one_spec now k w) as [Hs Hr].
  prog_unfold. destruct (cull_one now k w) as [[[]| |] w1]; [|done..]. cbn in Hs. subst w1.
  cbv zeta. set (w1 := match Get k (clients (clm w)) with Some _ => _ | None => _ end).
  destruct (IH w1) as (H1 & H2 & H3). cbv zeta in H1, H2, H3.
  assert (clm w1 = with_clients (clients (clm w1)) (clm w) ∧ samples w1 = samples w) as [Hw1 Hw2].
  { subst w1. repeat case_match; by destruct w as [[]]. }
  assert (∀ j, Get j (clients (clm w1)) = if decide (j = k)
     then c ← Get j (clients (clm w)); if stale now (clm w) c then None else Some c
     else Get j (clients (clm w))) as Hj.
  { intros j. subst w1. case_decide as Hjk; [subst j|].
    - destruct (Get k (clients (clm w))) as [c|] eqn:Hk; cbn; [|done].
      destruct (stale now (clm w) c) eqn:Hst; cbn; [by rewrite Get_Delete, decide_True|done].
    - destruct (Get k (clients (clm w))) as [c|]; [|done].
      destruct (stale now (clm w) c); cbn; [by rewrite Get_Delete, decide_False|done]. }
  split_and!; [|by rewrite H2, Hw1|by rewrite H3].
  intros j. rewrite H1, Hj.
  assert (∀ c, stale now (clm w1) c = stale now (clm w) c) as Hst by (intros; by rewrite Hw1).
  destruct (decide (j = k)) as [->|Hne].
  - rewrite (decide_True _ _ (list_elem_of_here k l)).
    destruct (Get k (clients (clm w))) as [c|]; cbn; [|by case_decide].
    destruct (stale now (clm w) c) eqn:Hc; cbn; [by case_decide|].
    rewrite Hst, Hc. by case_decide.
  - destruct (decide (j ∈ l)) as [Hin|Hin].
    + rewrite decide_True by set_solver. destruct (Get j (clients (clm w))); cbn; by rewrite ?Hst.
    + rewrite decide_False by set_solver. done.
Qed.

Lemma cull_lookup `{MapRange} now w k :
  Get k (clients (clm (run_state (cullStaleClients now) w))) =
    (c ← Get k (clients (clm w)); if stale now (clm w) c then None else Some c).
Proof.
  unfold cullStaleClients. prog_unfold.
  destruct (for_each_cull now (GetList (clients (clm w))) w) as [H1 _]. cbv zeta in H1.
  unfold run_state in H1. rewrite H1. case_decide as Hd; [done|].
  destruct (Get k (clients (clm w))) eqn:Hk; [|done]. exfalso. apply Hd, elem_of_GetList. eauto.
Qed.

Lemma cull_params `{MapRange} now w :
  let w' := run_state (cullStaleClients now) w in
  clm w' = with_clients (clients (clm w')) (clm w) ∧ samples w' = samples w.
Proof. apply (for_each_cull now (GetList (clients (clm w))) w). Qed.

(** ** One client among the others *)

(** The instants of the calls of client [k] in a history, and the answers to
    them among all answers. *)
Fixpoint own_times (key : peer → option string) (k : string) (os : list limit_op) : list Z :=
  match os with
  | [] => []
  | LLimit ctx now :: os' =>
      if decide (key ctx = Some k) then now :: own_times key k os' else own_times key k os'
  | LCull _ :: os' => own_times key k os'
  end.

Fixpoint own_answers (key : peer → option string) (k : string) (os : list limit_op)
    (rs : list error) : list error :=
  match os, rs with
  | LCull _ :: os', _ => own_answers key k os' rs
  | LLimit ctx _ :: os', r :: rs' =>
      if decide (key ctx = Some k) then r :: own_answers key k os' rs' else own_answers key k os' rs'
  | _, _ => []
  end.

(** No cull of the history finds client [k] idle for more than the maximum
    age, [last] being its last call before the history. *)
Fixpoint attended (key : peer → option string) (k : string) (maxAge : Z) (last : option Z)
    (os : list limit_op) : Prop :=
  match os with
  | [] => True
  | LLimit ctx now :: os' =>
      attended key k maxAge (if decide (key ctx = Some k) then Some now else last) os'
  | LCull now :: os' =>
      match last with Some t => (seconds (now - t) <= seconds maxAge)%Z | None => True end ∧
      attended key k maxAge last os'
  end.

Lemma limit_run_bucket `{MapRange} cm os w k :
  attended (key_of cm (enforced (clm w))) k (maxAgeStaleClients (clm w))
    (lastConnectionTime <$> Get k (clients (clm w))) os →
  own_answers (key_of cm (enforced (clm w))) k os (fst (limit_run cm os w)) =
  map (verdict (enforced (clm w)))
    (bucket_answers (own_times (key_of cm (enforced (clm w))) k os) (lookup_limiter k (clm w))).
Proof.
  revert w. induction os as [|[ctx now|now] os IH]; intros w Hatt; [done| |].
  - cbn [limit_run own_times attended] in *.
    pose proof (Limit_spec cm ctx now w) as Hl. pose proof (Limit_params cm ctx now w) as Hp.
    unfold run_result, run_state in Hl, Hp.
    destruct (Limit cm ctx now w) as [r w1]; cbn [fst snd] in *.
    destruct Hp as (He & Hb & Hf & Hm).
    destruct (limit_run cm os w1) as [rs w2] eqn:Hrun. cbn [fst].
    specialize (IH w1). rewrite Hrun, He, Hm in IH. cbn [fst] in IH.
    cbn [own_answers].
    destruct (key_of cm (enforced (clm w)) ctx) as [k'|] eqn:Hk.
    + destruct Hl as [-> Hc]. rewrite Hc in IH. cbn [clients with_clients] in IH.
      unfold lookup_limiter in IH at 2. cbn [clients with_clients fillInterval bucketSize] in IH.
      rewrite Get_Add in IH.
      destruct (decide (Some k' = Some k)) as [[= ->]|Hne].
      * rewrite decide_True in IH by done. cbn [bucket_answers map]. f_equal. by apply IH.
      * rewrite decide_False in IH by congruence. apply IH, Hatt.
    + injection Hl as -> ->. rewrite decide_False in * by done. by apply IH.
  - cbn [limit_run own_times own_answers attended] in *. destruct Hatt as [Hnow Hatt].
    set (w1 := run_state (cullStaleClients now) w) in *.
    assert (Get k (clients (clm w1)) = Get k (clients (clm w))) as Hg.
    { subst w1. rewrite cull_lookup. destruct (Get k (clients (clm w))) as [c|]; [|done]. cbn.
      unfold stale. cbn in Hnow. destruct (Z.ltb_spec (seconds (maxAgeStaleClients (clm w)))
        (seconds (now - lastConnectionTime c))); [lia|done]. }
    destruct (cull_params now w) as [Hw1 _]. fold w1 in Hw1.
    specialize (IH w1). revert IH. unfold lookup_limiter. rewrite Hg, Hw1.
    cbn [enforced maxAgeStaleClients with_clients clients bucketSize fillInterval].
    intros IH. by apply IH.
Qed.

(** Every limiter in the map is one that was made full and has answered at
    most as many calls as the client has made. *)
Definition young (key : peer → option string) (os : list limit_op) (w : world) : Prop :=
  ∀ k c, Get k (clients (clm w)) = Some c →
  ∃ ts, limiter c = bucket_after ts (NewLimiter (fillInterval (clm w)) (bucketSize (clm w))) ∧
        (length ts <= length (own_times key k os))%nat.

Lemma bucket_after_app ts us (l : Limiter) :
  bucket_after (ts ++ us)%list l = bucket_after us (bucket_after ts l).
Proof. revert l. induction ts as [|t ts IH]; intros l; [done|]. apply IH. Qed.

Lemma own_times_app key k os1 os2 :
  own_times key k (os1 ++ os2)%list = (own_times key k os1 ++ own_times key k os2)%list.
Proof.
  induction os1 as [|[ctx now|now] os1 IH]; cbn; [done| |done].
  case_decide; cbn; by rewrite IH.
Qed.

Lemma young_run `{MapRange} cm done os w :
  young (key_of cm (enforced (clm w))) done w →
  let w' := snd (limit_run cm os w) in
  young (key_of cm (enforced (clm w))) (done ++ os)%list w' ∧
  enforced (clm w') = enforced (clm w) ∧ bucketSize (clm w') = bucketSize (clm w) ∧
  fillInterval (clm w') = fillInterval (clm w).
Proof.
  revert w done. induction os as [|[ctx now|now] os IH]; intros w done Hy.
  { by rewrite app_nil_r. }
  - cbn [limit_run]. pose proof (Limit_spec cm ctx now w) as Hl.
    pose proof (Limit_params cm ctx now w) as Hp. unfold run_result, run_state in Hl, Hp.
    destruct (Limit cm ctx now w) as [r w1]; cbn [fst snd] in *.
    destruct Hp as (He & Hb & Hf & _). specialize (IH w1 (done ++ [LLimit ctx now])%list).
    rewrite <- app_assoc in IH. rewrite He, Hb, Hf in IH.
    destruct (limit_run cm os w1) as [rs w2]. apply IH. clear IH.
    intros k c Hc. rewrite own_times_app. cbn [own_times].
    rewrite Hf, Hb. rewrite length_app.
    destruct (key_of cm (enforced (clm w)) ctx) as [k'|] eqn:Hk.
    2:{ injection Hl as _ ->. destruct (Hy _ _ Hc) as (ts & ? & ?). exists ts. split; [done|lia]. }
    destruct Hl as [_ Hl]. rewrite Hl in Hc. cbn [clients with_clients] in Hc.
    rewrite Get_Add in Hc. case_decide as Hkk.
    2:{ destruct (Hy _ _ Hc) as (ts & ? & ?). exists ts. split; [done|lia]. }
    injection Hc as <-. subst k'. rewrite decide_True by done. cbn [limiter length].
    unfold lookup_limiter. destruct (Get k (clients (clm w))) as [c|] eqn:Hg.
    + destruct (Hy _ _ Hg) as (ts & -> & ?). exists (ts ++ [now])%list.
      rewrite bucket_after_app, length_app. split; [done|]. cbn. lia.
    + exists [now]. split; [done|]. cbn. lia.
  - cbn [limit_run]. destruct (cull_params now w) as [Hp _].
    set (w1 := run_state (cullStaleClients now) w) in *.
    specialize (IH w1 (done ++ [LCull now])%list). rewrite <- app_assoc in IH.
    assert (enforced (clm w1) = enforced (clm w) ∧ bucketSize (clm w1) = bucketSize (clm w) ∧
            fillInterval (clm w1) = fillInterval (clm w)) as (He & Hb & Hf) by (by rewrite Hp).
    rewrite He, Hb, Hf in IH. apply IH. intros k c Hc. rewrite own_times_app, Hf, Hb. cbn [own_times].
    rewrite app_nil_r. subst w1. rewrite cull_lookup in Hc.
    destruct (Get k (clients (clm w))) as [c'|] eqn:Hg; [|done]. cbn in Hc.
    case_match; simplify_eq. by apply Hy.
Qed.

(** ** Properties *)

(** C13: Each client has a bucket of its own: in any history of calls by any
    clients and of culls, the answers to the calls of one client are those of
    one token bucket that sees the instants of its own calls and nothing else,
    as long as no cull finds the client idle for longer than the maximum age. *)
Theorem limit_refines_bucket `{MapRange} cm os w k :
  attended (key_of cm (enforced (clm w))) k (maxAgeStaleClients (clm w))
    (lastConnectionTime <$> Get k (clients (clm w))) os →
  own_answers (key_of cm (enforced (clm w))) k os (fst (limit_run cm os w)) =
  map (verdict (enforced (clm w)))
    (bucket_answers (own_times (key_of cm (enforced (clm w))) k os) (lookup_limiter k (clm w))).
Proof. apply limit_run_bucket. Qed.

(** C26: The enforced limit: over a history in which a client is new and is
    never culled, the number of its calls that are let through is at most the
    bucket size plus one for every interval between its first and its last
    call, whatever the other clients do. *)
Theorem limit_rate_enforced `{MapRange} `{!TokenBucketLaws TB} cm os w k first times :
  enforced (clm w) = true → (0 < fillInterval (clm w))%Z → (0 < bucketSize (clm w))%Z →
  Get k (clients (clm w)) = None →
  attended (key_of cm true) k (maxAgeStaleClients (clm w)) None os →
  own_times (key_of cm true) k os = first :: times →
  (∀ i t1 t2, (first :: times) !! i = Some t1 → (first :: times) !! S i = Some t2 → (t1 <= t2)%Z) →
  (count_if (λ r, bool_decide (r = None)) (own_answers (key_of cm true) k os (fst (limit_run cm os w)))
     * fillInterval (clm w) <=
   bucketSize (clm w) * fillInterval (clm w) + (List.last times first - first))%Z.
Proof.
  intros He Hf Hb Hg Hatt Ht Hs. pose proof (limit_run_bucket cm os w k) as Hr.
  rewrite He, Hg in Hr. specialize (Hr Hatt). rewrite Hr, Ht.
  unfold lookup_limiter. rewrite Hg.
  etrans; [|apply bucket_rate; [done|lia|exact Hs]].
  apply Z.eq_le_incl. f_equal. generalize (bucket_answers (first :: times)
    (NewLimiter (fillInterval (clm w)) (bucketSize (clm w)))).
  intros l. induction l as [|b l IH]; [done|]. cbn [map]. rewrite !count_if_cons, IH. by destruct b.
Qed.

(** The first [bucketSize] calls of a client are let through: on a fresh
    manager, after any history of calls by any clients and of culls in which
    the client has made fewer than [bucketSize] calls, its next call returns
    no error. *)
Theorem limit_first_calls `{MapRange} `{!TokenBucketLaws TB} cm os w ctx now k :
  clients (clm w) = ∅ → (0 < fillInterval (clm w))%Z →
  key_of cm (enforced (clm w)) ctx = Some k →
  (Z.of_nat (length (own_times (key_of cm (enforced (clm w))) k os)) < bucketSize (clm w))%Z →
  run_result (Limit cm ctx now) (snd (limit_run cm os w)) = Ret None.
Proof.
  intros Hempty Hf Hk Hn.
  destruct (young_run cm [] os w) as (Hy & He & Hb & Hfi).
  { intros j c Hc. unfold Get in Hc. by rewrite Hempty, lookup_empty in Hc. }
  cbv zeta in *. set (w' := snd (limit_run cm os w)) in *. cbn [app] in Hy.
  pose proof (Limit_spec cm ctx now w') as Hl. rewrite He, Hk in Hl. destruct Hl as [-> _].
  enough (fst (Allow now (lookup_limiter k (clm w'))) = true) as -> by done.
  unfold lookup_limiter. destruct (Get k (clients (clm w'))) as [c|] eqn:Hg.
  - destruct (Hy _ _ Hg) as (ts & -> & ?). rewrite Hb, Hfi. apply bucket_burst; lia.
  - rewrite Hb, Hfi. apply (bucket_burst _ _ []); cbn; lia.
Qed.

(** A cull removes exactly the clients whose last call is more than the
    maximum age ago, in whole seconds, whatever the order in which the map is
    walked, and it leaves the other entries and the parameters as they are. *)
Theorem cull_exact `{MapRange} now w :
  let w' := run_state (cullStaleClients now) w in
  clients (clm w') =
    filter (λ kc : string * clientLimiter,
              (seconds (now - lastConnectionTime kc.2) <= seconds (maxAgeStaleClients (clm w)))%Z)
      (clients (clm w)) ∧
  clm w' = with_clients (clients (clm w')) (clm w) ∧ samples w' = samples w.
Proof.
  cbv zeta. split; [|apply cull_params].
  apply map_eq. intros k. pose proof (cull_lookup now w k) as Hk. unfold Get in Hk. rewrite Hk.
  destruct (clients (clm w) !! k) as [c|] eqn:Hc; cbn.
  - unfold stale. destruct (Z.ltb_spec (seconds (maxAgeStaleClients (clm w)))
      (seconds (now - lastConnectionTime c))) as [Hlt|Hle]; symmetry.
    + apply map_lookup_filter_None. right. intros x Hx. cbn. rewrite Hc in Hx. simplify_eq. lia.
    + apply map_lookup_filter_Some. done.
  - symmetry. apply map_lookup_filter_None. by left.
Qed.

(** When the limiter rejects: only with [ErrTooManyRequests], only when
    enforcement is on, only a client whose identifier is known, and only when
    that client's bucket refuses. A call of a peer that has no identifier yet,
    as in its first [Connect], is let through and takes no token. *)
Theorem limit_rejects cm ctx now w :
  (∀ e, run_result (Limit cm ctx now) w = Ret (Some e) ↔
     e = ErrTooManyRequests ∧ enforced (clm w) = true ∧
     ∃ k, GetClientIdentifier ctx cm = (k, None) ∧
          fst (Allow now (lookup_limiter k (clm w))) = false) ∧
  (enforced (clm w) = true → snd (GetClientIdentifier ctx cm) ≠ None →
     Limit cm ctx now w = (Ret None, w)).
Proof.
  pose proof (Limit_spec cm ctx now w) as Hl. unfold key_of in Hl.
  destruct (GetClientIdentifier ctx cm) as [id err] eqn:Hid. split.
  - intros e. destruct err as [err|]; cbn [is_Some] in Hl.
    + rewrite bool_decide_true in Hl by eauto. destruct (enforced (clm w)) eqn:He; cbn in Hl.
      * unfold run_result. rewrite Hl. split; [done|]. by intros (_ & _ & ? & ? & _).
      * destruct Hl as [-> _]. unfold verdict. split; [|by intros (_ & ? & _)].
        by destruct (fst _).
    + rewrite bool_decide_false in Hl by (by intros [? ?]). cbn in Hl. destruct Hl as [-> _].
      unfold verdict. destruct (fst (Allow now (lookup_limiter id (clm w)))) eqn:Ha.
      * split; [done|]. intros (_ & _ & k & ? & ?). simplify_eq. congruence.
      * destruct (enforced (clm w)); split.
        -- intros [= <-]. eauto.
        -- by intros (-> & _).
        -- done.
        -- by intros (_ & ? & _).
  - intros He Hne. rewrite He in Hl. cbn in Hne.
    by rewrite bool_decide_true in Hl by (by apply not_eq_None_Some).
Qed.

End limiter.
Arguments limit_op : clear implicits.

(** ** Witnesses *)

Section witnesses.
Import IntBucket.

(** Two clients; a bucket of two tokens and one second per token. *)
Definition demo_map : gmap string string := {[ "10.0.0.1:1" := "a-1"; "10.0.0.2:1" := "b-2" ]}.
Definition demo_world : world :=
  {| clm := {| clients := ∅; bucketSize := 2; fillInterval := 10 ^ 9;
               maxAgeStaleClients := 60 * 10 ^ 9; enforced := true |}; samples := [] |}.
Definition demo_history : list limit_op :=
  [LLimit (Some "10.0.0.1:1") 0; LLimit (Some "10.0.0.2:1") 1; LLimit (Some "10.0.0.1:1") 2;
   LCull (10 ^ 9); LLimit (Some "10.0.0.1:1") (10 ^ 9)].

Lemma limit_refines_bucket_witness (MR := default_range) :
  own_answers (key_of demo_map true) "a-1" demo_history
    (fst (limit_run demo_map demo_history demo_world)) =
  map (verdict true) (bucket_answers [0; 2; 10 ^ 9]%Z (NewLimiter (10 ^ 9) 2)).
Proof.
  apply (limit_refines_bucket demo_map demo_history demo_world "a-1").
  vm_compute. split; [discriminate|exact I].
Defined.

Lemma limit_rate_enforced_witness (MR := default_range) :
  (count_if (λ r, bool_decide (r = None))
     (own_answers (key_of demo_map true) "a-1" demo_history
        (fst (limit_run demo_map demo_history demo_world))) * 10 ^ 9 <= 2 * 10 ^ 9 + 10 ^ 9)%Z.
Proof.
  apply (limit_rate_enforced demo_map demo_history demo_world "a-1" 0 [2; 10 ^ 9]%Z).
  - reflexivity.
  - reflexivity.
  - reflexivity.
  - reflexivity.
  - vm_compute. split; [discriminate|exact I].
  - vm_compute. reflexivity.
  - intros [|[|[|i]]] t1 t2 H1 H2; cbn in H1, H2; inversion H1; inversion H2; discriminate.
Defined.

Lemma limit_first_calls_witness (MR := default_range) :
  run_result (Limit demo_map (Some "10.0.0.2:1") 5)
    (snd (limit_run demo_map demo_history demo_world)) = Ret None.
Proof.
  apply (limit_first_calls demo_map demo_history demo_world (Some "10.0.0.2:1") 5 "b-2");
    vm_compute; reflexivity.
Defined.

Lemma limit_rejects_witness :
  Limit demo_map (Some "10.0.0.9:1") 5 demo_world = (Ret None, demo_world).
Proof.
  apply (limit_rejects demo_map (Some "10.0.0.9:1") 5 demo_world); [reflexivity|].
  vm_compute. discriminate.
Defined.

End witnesses.
End RateLimiter.
