(* ===== verification/Compression.v ===== *)
(** * [connectors/amqp091/compression.go]: compression of large stream messages

    [compress/gzip] is the class [Gzip]: what a writer produces for a body and
    what reading gives back. The buffers of [bufPool] are reused from call to
    call, so the pool is part of the state: [compressBody] appends to whatever
    the buffer it takes still holds, and is right because [releasePools]
    empties every buffer it returns. *)

From Stdlib Require Import Ascii String.
From stdpp Require Import base gmap strings list fin_maps option.
From Stdlib Require Import ZArith Lia.
From S2P Require Import Prelude GoStrings.

(** [gz_write b]: the bytes [Write(b)] and [Close()] put into the underlying
    writer, and their error. [gz_read z]: [NewReader] and [ReadAll]. *)
Class Gzip := {
  gz_write : bytes → bytes * error;
  gz_read : bytes → bytes * error
}.

(** What a complete gzip stream was written from is what is read from it. *)
Class GzipLaws `(Gzip) := {
  gz_round b z : gz_write b = (z, None) → gz_read z = (b, None)
}.

Module Compression.
Open Scope list_scope.

(** [streamMessage], without the two callbacks, which are part of the state
    of the subscription ([Active] below). A nil map is [None]. *)
Record streamMessage := {
  SBody : bytes;
  SContentType : string;
  SContentEncoding : string;
  SHeaders : option (gmap string string);
  SPublishID : Z
}.

Definition transferEncodingHeaderName : string := "Transfer-Encoding".
Definition compressionSizeLimit : Z := 1024 * 1024.

Definition bodyOverLimit (body : bytes) : bool :=
  (compressionSizeLimit <? Z.of_nat (length body))%Z.

Section compression.
Context `{GZ : Gzip}.

(** The pooled buffers. *)
Definition pools : Type := list bytes.

(** [bufPool.Get()] *)
Definition get_buffer : prog pools bytes := λ ps,
  match ps with
  | [] => (Ret [], [])
  | buf :: rest => (Ret buf, rest)
  end.

(** [buf.Reset(); bufPool.Put(buf)]: the emptied buffer. *)
Definition releasePools : prog pools () := modify (λ ps, [] :: ps).

Definition compressBody (b : bytes) : prog pools (bytes * error) :=
  buf ← get_buffer;
  defer
    (let '(written, err) := gz_write b in
     match err with
     | Some e => mret (b, Some e)
     | None => mret (buf ++ written, None)
     end)
    releasePools.

Definition decompressBody (b : bytes) : bytes * error :=
  match gz_read b with
  | (_, Some err) => ([], Some err)
  | (out, None) => (out, None)
  end.

Definition with_compressed (compressed : bytes) (msg : streamMessage) : streamMessage :=
  {| SBody := compressed; SContentType := SContentType msg;
     SContentEncoding := SContentEncoding msg;
     SHeaders := Some (<[transferEncodingHeaderName := "gzip"]> (default ∅ (SHeaders msg)));
     SPublishID := SPublishID msg |}.

Definition compressMessage (msg : streamMessage) : prog pools (streamMessage * error) :=
  if bodyOverLimit (SBody msg) then
    r ← compressBody (SBody msg);
    let '(compressed, err) := r in
    match err with
    | Some e => mret (msg, Some e)
    | None =>
        if (Z.of_nat (length compressed) <? Z.of_nat (length (SBody msg)))%Z
           && negb (bodyOverLimit compressed)
        then mret (with_compressed compressed msg, None)
        else mret (msg, Some ("compression skipped: original=" +:+
                              itoa (Z.of_nat (length (SBody msg))) +:+ " compressed=" +:+
                              itoa (Z.of_nat (length compressed))))
    end
  else mret (msg, None).

(** ** Lemmas *)

(** The invariant of the pool: every buffer in it is empty. *)
Definition clean (ps : pools) : Prop := Forall (λ b, b = []) ps.

Lemma compressBody_clean b ps :
  clean ps →
  clean (run_state (compressBody b) ps) ∧
  run_result (compressBody b) ps =
    Ret (match gz_write b with (_, Some e) => (b, Some e) | (z, None) => (z, None) end).
Proof.
  intros Hc. unfold compressBody, get_buffer, defer, releasePools, clean in *. prog_unfold.
  destruct ps as [|buf rest].
  - destruct (gz_write b) as [z [e|]]; cbn; split; by repeat constructor.
  - apply Forall_cons_iff in Hc as [-> Hc].
    destruct (gz_write b) as [z [e|]]; cbn; split; by repeat constructor.
Qed.

(** What [compressMessage] returns from a clean pool. *)
Lemma compressMessage_spec msg ps :
  clean ps →
  clean (run_state (compressMessage msg) ps) ∧
  ∃ m e, run_result (compressMessage msg) ps = Ret (m, e) ∧
    ((m = msg ∧ (e = None → bodyOverLimit (SBody msg) = false)) ∨
     (∃ z, gz_write (SBody msg) = (z, None) ∧ m = with_compressed z msg ∧ e = None ∧
           bodyOverLimit (SBody msg) = true ∧ bodyOverLimit z = false)).
Proof.
  intros Hc. unfold compressMessage. destruct (bodyOverLimit (SBody msg)) eqn:Hover.
  2:{ split; [done|]. exists msg, None. split; [done|]. by left. }
  destruct (compressBody_clean (SBody msg) ps Hc) as [Hc' Hr].
  unfold run_state, run_result in *. prog_unfold.
  destruct (compressBody (SBody msg) ps) as [o ps'] eqn:Hb. cbn in Hc', Hr. subst o.
  destruct (gz_write (SBody msg)) as [z [e|]] eqn:Hz.
  - split; [done|]. exists msg, (Some e). split; [done|]. by left.
  - destruct ((_ <? _)%Z && negb (bodyOverLimit z)) eqn:Hsmall; (split; [done|]).
    + apply andb_true_iff in Hsmall as [_ Hsmall%negb_true_iff].
      exists (with_compressed z msg), None. split; [done|]. right. by exists z.
    + eexists msg, (Some _). split; [done|]. by left.
Qed.

End compression.
End Compression.
