(* ===== verification/Stream.v ===== *)
(** * [connectors/amqp091/streamhelpers.go], [streamshim.go]: the stream side

    The RabbitMQ stream client library is third-party code: the calls made to
    it are the interface [StreamLib]. Its objects (environments, producers,
    consumers) are numbers, and [None] is the nil environment of a connection
    that was never made. [streamConnection] holds one pool of publishers per
    key. *)

From Stdlib Require Import Ascii String.
From stdpp Require Import base gmap strings list fin_maps option.
From Stdlib Require Import ZArith Lia.
From S2P Require Import Prelude Effects GoStrings Api ConcurrentMap BlockingPool Compression.

Module Stream.
Import Compression.
Open Scope Z_scope.
Open Scope list_scope.

Definition maxProducers : Z := 100.
Definition maxPoolProducers : Z := 10.
Definition maxConsumers : Z := 10.
Definition port : Z := 5552.

(** ** Connection string *)

Definition getStreamConnectionString (tlsEnabled : bool) (cf : ConnectionConfiguration) : string :=
  let tenant := if String.eqb (Tenant cf) "" then "/" else Tenant cf in
  let scheme := "rabbitmq-stream" in
  let scheme := if tlsEnabled then scheme +:+ "+tls" else scheme in
  let encodedUsername := query_escape (GetUsername (Creds cf)) in
  let encodedPassword := query_escape (GetPassword (Creds cf)) in
  let encodedTenant := query_escape tenant in
  scheme +:+ "://" +:+ encodedUsername +:+ ":" +:+ encodedPassword +:+ "@" +:+ Host cf +:+
    ":" +:+ itoa port +:+ "/" +:+ encodedTenant.

(** ** Headers and messages on the wire *)

(** [message.StreamMessage], as [toStreamMessage] fills it in. *)
Record wireMessage := {
  Data : bytes;
  ApplicationProperties : gmap string gval;
  WireContentEncoding : string;
  WireContentType : string;
  PublishingId : option Z
}.

Definition toStreamHeaders (orig : option (gmap string string)) : gmap string gval :=
  VString <$> default ∅ orig.

(** [value.(string)] panics on any other dynamic type. *)
Definition fromStreamHeaders `{MapRange} (orig : gmap string gval) :
    outcome (gmap string string) :=
  let body kv : prog (gmap string string) () :=
    match snd kv with
    | VString s => modify (insert (fst kv) s)
    | _ => panic "interface conversion: interface {} is not string"
    end in
  match for_each (map_range orig) body ∅ with
  | (Ret _, sMap) => Ret sMap
  | (Panic why, _) => Panic why
  | (Block, _) => Block
  end.

Definition toStreamMessage (origMsg : streamMessage) : wireMessage := {|
  Data := SBody origMsg;
  ApplicationProperties := toStreamHeaders (SHeaders origMsg);
  WireContentEncoding := SContentEncoding origMsg;
  WireContentType := SContentType origMsg;
  PublishingId := if 0 <? SPublishID origMsg then Some (SPublishID origMsg) else None |}.

(** [streamPublisher.Publish] up to [publisher.Send]: the message handed to
    the library. *)
Definition streamPublish `{Gzip} (msg : streamMessage) : prog pools wireMessage :=
  r ← compressMessage msg;
  let '(compressedMsg, err) := r in
  match err with
  | Some _ => mret (toStreamMessage msg)
  | None => mret (toStreamMessage compressedMsg)
  end.

(** ** Offsets *)

Inductive OffsetSpecification :=
  | OffsetFirst
  | OffsetNext
  | OffsetLast
  | Offset (n : Z).

#[export] Instance OffsetSpecification_eq_dec : EqDecision OffsetSpecification.
Proof. solve_decision. Defined.

Definition toStreamOffset (offset : string) (lastOffset : Z) : option OffsetSpecification * error :=
  let low := to_lower offset in
  if String.eqb low "first" then (Some OffsetFirst, None)
  else if String.eqb low "continue" then (Some (Offset (int64 (lastOffset + 1))), None)
  else if String.eqb low "last" then (Some OffsetLast, None)
  else if String.eqb low "next" || String.eqb low "" then (Some OffsetNext, None)
  else match atoi offset with
       | Some pOffset => (Some (Offset pOffset), None)
       | None => (None, Some ("invalid offset: " +:+ offset))
       end.

(** ** Publisher keys *)

Definition genPublisherKey (streamName publisherName : string) (confirm : bool) : string :=
  let key := streamName +:+ "-" +:+ publisherName in
  if confirm then key +:+ "-" +:+ "confirm" else key.

(** ** Receiving a stream message

    The part of [handleMessages] (in [streamSubscribe]) that turns what the
    library delivers into headers and a body. *)

Definition streamOffsetHeaderName : string := "x-current-offset".
Definition rabbitReceivedTimeHeaderName : string := "x-opt-rabbitmq-received-time".
Definition timeStampInMSHeaderName : string := "timestamp_in_ms".

Definition addTimeStampHeader (hdrs : gmap string string) : gmap string string :=
  match hdrs !! rabbitReceivedTimeHeaderName with
  | Some val => <[timeStampInMSHeaderName := val]> hdrs
  | None => hdrs
  end.

Definition decodeDelivery `{Gzip} `{MapRange} (message : wireMessage) (offset : Z) :
    outcome (gmap string string * bytes) :=
  match fromStreamHeaders (ApplicationProperties message) with
  | Ret hdrs =>
      let hdrs := <[streamOffsetHeaderName := itoa offset]> hdrs in
      let hdrs := addTimeStampHeader hdrs in
      let data := Data message in
      if String.eqb (default "" (hdrs !! transferEncodingHeaderName)) "gzip" then
        match decompressBody data with
        | (_, Some _) => Ret (hdrs, data)
        | (decompressedData, None) =>
            Ret (delete transferEncodingHeaderName hdrs, decompressedData)
        end
      else Ret (hdrs, data)
  | Panic why => Panic why
  | Block => Block
  end.

(** ** The connection *)

Inductive lib_call :=
  | NewEnvironment (uri : string) (maxProducersPerClient maxConsumersPerClient : Z)
  | EnvClose (e : option nat)
  | EnvIsClosed (e : option nat)
  | NewReliableProducer (e : option nat) (clientName streamName : string)
      (producerName : option string) (confirm : bool)
  | ProducerSend (p : nat) (m : wireMessage)
  | ProducerClose (p : nat)
  | QueryOffset (e : option nat) (consumerName streamName : string)
  | NewReliableConsumer (e : option nat) (streamName consumerName : string)
      (offset : OffsetSpecification) (singleActive : bool)
  | ConsumerClose (c : nat)
  | LibDeclareStream (e : option nat) (streamName : string) (maxAge : option Z)
  | LibStoreOffset (e : option nat) (consumerName streamName : string) (offset : Z)
  | Sleep (ms : Z).

Definition lib_reply (c : lib_call) : Type :=
  match c with
  | NewEnvironment _ _ _ | NewReliableProducer _ _ _ _ _ | NewReliableConsumer _ _ _ _ _ => nat + string
  | EnvIsClosed _ => bool
  | QueryOffset _ _ _ => Z * error
  | EnvClose _ | ProducerSend _ _ | ProducerClose _ | ConsumerClose _
  | LibDeclareStream _ _ _ | LibStoreOffset _ _ _ _ => error
  | Sleep _ => ()
  end.

Definition StreamLib : Interface := {| icall := lib_call; ireply := lib_reply |}.

(** A publisher; [hasPC] when it was made with a confirmation channel. *)
Record streamPublisher := {
  streamName : string; publisherName : string; publisher : nat; hasPC : bool }.

Record streamConnection := {
  senv : option nat;
  sconnStr : string;
  smaxProducers : Z;
  smaxConsumers : Z;
  sclientIdentifier : string;
  sclientDisconnect : bool;
  publishers : gmap string (BlockingPool.BlockingPool streamPublisher);
  sctx_done : bool
}.

Definition NewStreamConnection (connStr clientIdentifier : string) : streamConnection := {|
  senv := None; sconnStr := connStr; smaxProducers := maxProducers;
  smaxConsumers := maxConsumers; sclientIdentifier := clientIdentifier;
  sclientDisconnect := false; publishers := ConcurrentMap.NewConcurrentMap;
  sctx_done := false |}.

Definition with_senv (e : option nat) (sc : streamConnection) : streamConnection := {|
  senv := e; sconnStr := sconnStr sc; smaxProducers := smaxProducers sc;
  smaxConsumers := smaxConsumers sc; sclientIdentifier := sclientIdentifier sc;
  sclientDisconnect := sclientDisconnect sc; publishers := publishers sc;
  sctx_done := sctx_done sc |}.

Definition with_publishers (m : gmap string (BlockingPool.BlockingPool streamPublisher))
    (sc : streamConnection) : streamConnection := {|
  senv := senv sc; sconnStr := sconnStr sc; smaxProducers := smaxProducers sc;
  smaxConsumers := smaxConsumers sc; sclientIdentifier := sclientIdentifier sc;
  sclientDisconnect := sclientDisconnect sc; publishers := m; sctx_done := sctx_done sc |}.

(** [clientDisconnect.Store(true)]; [cancel()], which the pools see as well. *)
Definition disconnected (sc : streamConnection) : streamConnection := {|
  senv := senv sc; sconnStr := sconnStr sc; smaxProducers := smaxProducers sc;
  smaxConsumers := smaxConsumers sc; sclientIdentifier := sclientIdentifier sc;
  sclientDisconnect := true; publishers := BlockingPool.cancelled <$> publishers sc;
  sctx_done := true |}.

Definition getMaxProducers (sc : streamConnection) : Z :=
  if smaxProducers sc <? 1 then 1 else smaxProducers sc.
Definition getMaxConsumers (sc : streamConnection) : Z :=
  if smaxConsumers sc <? 1 then 1 else smaxConsumers sc.

Section connection.
Context {E : Type} `{Oracle StreamLib E}.

Abbreviation sprog := (prog (world StreamLib E streamConnection)).

Definition Connect : sprog error :=
  sc ← reads id;
  r ← ext (I := StreamLib) (NewEnvironment (sconnStr sc) (getMaxProducers sc) (getMaxConsumers sc));
  match r with
  | inr err => mret (Some err)
  | inl e => writes (with_senv (Some e));; mret None
  end.

Definition Close : sprog error :=
  writes disconnected;;
  sc ← reads id;
  closed ← ext (I := StreamLib) (EnvIsClosed (senv sc));
  if (closed : bool) then mret None else ext (I := StreamLib) (EnvClose (senv sc)).

Definition IsClosed : sprog bool :=
  sc ← reads id; ext (I := StreamLib) (EnvIsClosed (senv sc)).

Definition newPublisher (streamName publisherName : string) (confirm : bool) :
    sprog (option streamPublisher) :=
  sc ← reads id;
  if sclientDisconnect sc then mret None
  else
    let producerName := if String.eqb publisherName "" then None else Some publisherName in
    r ← ext (I := StreamLib)
          (NewReliableProducer (senv sc) (sclientIdentifier sc) streamName producerName confirm);
    match r with
    | inr _ => mret None
    | inl producer =>
        mret (Some {| streamName := streamName; publisherName := publisherName;
                      publisher := producer; hasPC := confirm |})
    end.

(** The pool stored under a key. *)
Definition pool_at (key : string) (w : world StreamLib E streamConnection) :
    BlockingPool.BlockingPool streamPublisher :=
  default (BlockingPool.NewBlockingPool false 0) (ConcurrentMap.Get key (publishers (st w))).

Definition set_pool_at (key : string) (p : BlockingPool.BlockingPool streamPublisher)
    (w : world StreamLib E streamConnection) : world StreamLib E streamConnection :=
  set_st (with_publishers (ConcurrentMap.Add key p (publishers (st w))) (st w)) w.

(** The attempts of [GetPublisher]'s loop. *)
Fixpoint get_attempts (n : nat) (get : sprog (option streamPublisher)) :
    sprog (option streamPublisher) :=
  match n with
  | O => mret None
  | S n' =>
      pub ← get;
      match pub with
      | Some p => mret (Some p)
      | None => ext (I := StreamLib) (Sleep 20);; get_attempts n' get
      end
  end.

#[global] Arguments get_attempts : simpl never.

Lemma get_attempts_S n get w :
  get_attempts (S n) get w =
    (pub ← get;
     match pub with
     | Some p => mret (Some p)
     | None => ext (I := StreamLib) (Sleep 20);; get_attempts n get
     end) w.
Proof. done. Qed.

Definition GetPublisher (pick : bool) (streamName publisherName : string) (confirm : bool) :
    sprog (option streamPublisher) :=
  let key := genPublisherKey streamName publisherName confirm in
  sc ← reads id;
  match ConcurrentMap.Get key (publishers sc) with
  | Some _ => mret ()
  | None =>
      let limit := if String.eqb publisherName "" then maxPoolProducers else 1 in
      writes (with_publishers (ConcurrentMap.Add key
        (BlockingPool.NewBlockingPool (sctx_done sc) limit) (publishers sc)))
  end;;
  get_attempts 10
    (BlockingPool.Get (pool_at key) (set_pool_at key)
       (newPublisher streamName publisherName confirm) (λ _, mret true) pick).

Definition PutPublisher (pick : bool) (confirm : bool) (pub : streamPublisher) : sprog () :=
  let key := genPublisherKey (streamName pub) (publisherName pub) confirm in
  sc ← reads id;
  match ConcurrentMap.Get key (publishers sc) with
  | None => mret ()
  | Some _ =>
      err ← BlockingPool.Put (pool_at key) (set_pool_at key) (λ _, mret true) pick (Some pub);
      match err with
      | None => mret ()
      | Some _ => ext (I := StreamLib) (ProducerClose (publisher pub));; mret ()
      end
  end.

Definition NewConsumer (streamName consumerName offset : string) (singleActive : bool) :
    sprog (option nat * error) :=
  sc ← reads id;
  q ← ext (I := StreamLib) (QueryOffset (senv sc) consumerName streamName);
  let '(lastOffset, oErr) := (q : Z * error) in
  let lastOffset := match oErr with Some _ => -1 | None => lastOffset end in
  match toStreamOffset offset lastOffset with
  | (Some sOffset, None) =>
      r ← ext (I := StreamLib) (NewReliableConsumer (senv sc) streamName consumerName sOffset singleActive);
      match r with
      | inr err => mret (None, Some err)
      | inl c => mret (Some c, None)
      end
  | (_, qErr) => mret (None, qErr)
  end.

(** The [ConsumerUpdate] callback of a single active consumer. *)
Definition ConsumerUpdate (consumerName streamName : string) : sprog OffsetSpecification :=
  sc ← reads id;
  q ← ext (I := StreamLib) (QueryOffset (senv sc) consumerName streamName);
  match (q : Z * error) with
  | (_, Some _) => mret OffsetFirst
  | (offset, None) => mret (Offset (int64 (offset + 1)))
  end.

(** [time.Duration(ttl * int64(time.Second))]: a wrapping product. *)
Definition DeclareStream (streamName : string) (ttl : Z) : sprog error :=
  let maxAge := if 0 <? ttl then Some (int64 (ttl * 10 ^ 9)) else None in
  sc ← reads id; ext (I := StreamLib) (LibDeclareStream (senv sc) streamName maxAge).

Definition GetConsumerOffset (streamName consumerName : string) : sprog (Z * error) :=
  sc ← reads id; ext (I := StreamLib) (QueryOffset (senv sc) consumerName streamName).

Definition StoreOffset (streamName consumerName : string) (offset : Z) : sprog error :=
  sc ← reads id; ext (I := StreamLib) (LibStoreOffset (senv sc) consumerName streamName offset).

Definition GetStreamOffset (streamName : string) : sprog (Z * error) :=
  let fakeConsumerName := "arkeSourceStatsConsumer" in
  r ← NewConsumer streamName fakeConsumerName "last" false;
  match r with
  | (_, Some err) => mret (0, Some err)
  | (None, None) => panic "nil pointer dereference"
  | (Some c, None) =>
      defer (GetConsumerOffset streamName fakeConsumerName)
            (ext (I := StreamLib) (ConsumerClose c);; mret ())
  end.

(** [streamPublisher.Publish]; [ps] are the pooled buffers before, and the
    result carries those after. *)
Definition Publish `{Gzip} (ps : pools) (sp : streamPublisher) (msg : streamMessage) :
    sprog (pools * error) :=
  let '(m, ps') := streamPublish msg ps in
  m ← of_outcome m;
  err ← ext (I := StreamLib) (ProducerSend (publisher sp) m);
  mret (ps', err).

End connection.

(** ** Lemmas *)

Definition is_string (v : gval) : bool := match v with VString _ => true | _ => false end.

Section headers.
Context `{MR : MapRange}.

Lemma for_each_strings (l : list (string * gval)) (acc : gmap string string) :
  NoDup l.*1 → (∀ k, k ∈ l.*1 → acc !! k = None) →
  let body kv : prog (gmap string string) () :=
    match snd kv with
    | VString s => modify (insert (fst kv) s)
    | _ => panic "interface conversion: interface {} is not string"
    end in
  match for_each l body acc with
  | (Ret _, m) => VString <$> m = list_to_map l ∪ (VString <$> acc) ∧
                  Forall (λ kv, is_string kv.2 = true) l
  | (Panic _, _) => Exists (λ kv, is_string kv.2 = false) l
  | (Block, _) => False
  end.
Proof.
  revert acc. induction l as [|[k v] l IH]; intros acc Hnd Hacc; cbn.
  { split; [by rewrite map_empty_union|done]. }
  apply list.NoDup_cons in Hnd as [Hk Hnd]. cbn in Hk.
  destruct v as [x|x|x|x|x|ty x]; try (by apply Exists_cons_hd).
  prog_unfold. cbn. specialize (IH (<[k:=x]> acc) Hnd). cbv zeta in IH. prog_unfold.
  assert (∀ j, j ∈ l.*1 → (<[k:=x]> acc) !! j = None) as Hacc'.
  { intros j Hj. rewrite lookup_insert_ne by (intros <-; done). apply Hacc. set_solver. }
  specialize (IH Hacc').
  match type of IH with match ?X with _ => _ end => destruct X as [[[]|why|] m] end; [|by right|done].
  destruct IH as [Hm Hl]. split; [|by constructor]. rewrite Hm, fmap_insert.
  rewrite <- insert_union_l, <- insert_union_r; [done|].
  apply not_elem_of_list_to_map_1. done.
Qed.

(** [fromStreamHeaders] succeeds exactly on the images of [toStreamHeaders]. *)
Lemma fromStreamHeaders_spec orig :
  (∃ h, fromStreamHeaders orig = Ret h ∧ orig = VString <$> h) ∨
  (∃ why k v, fromStreamHeaders orig = Panic why ∧ orig !! k = Some v ∧ is_string v = false).
Proof.
  unfold fromStreamHeaders.
  pose proof (for_each_strings (map_range orig) ∅ (map_range_NoDup _)) as H. cbv zeta in H.
  specialize (H ltac:(intros ? _; apply lookup_empty)).
  destruct (for_each (map_range orig) _ ∅) as [[[]|why|] m]; [| |done].
  - left. exists m. split; [done|]. destruct H as [H _].
    by rewrite fmap_empty, map_union_empty, list_to_map_range in H.
  - right. apply list.Exists_exists in H as ((k & v) & Hin%elem_of_map_range & Hv). by exists why, k, v.
Qed.

Lemma fromStreamHeaders_fmap h : fromStreamHeaders (VString <$> h) = Ret h.
Proof.
  destruct (fromStreamHeaders_spec (VString <$> h)) as [(h' & -> & Heq)|(? & k & v & _ & Hk & Hv)].
  - f_equal. apply map_eq. intros k. apply (f_equal (λ m, m !! k)) in Heq.
    rewrite !lookup_fmap in Heq. destruct (h !! k), (h' !! k); naive_solver.
  - apply lookup_fmap_Some in Hk as (? & <- & ?). done.
Qed.
End headers.


(** *** Publishers *)

Section publishers.
Context {E : Type} `{Oracle StreamLib E}.
Implicit Types w : world StreamLib E streamConnection.

Definition dash_free (s : string) : bool := negb (any_byte (Ascii.eqb "-") s).

Definition key_of (p : streamPublisher) : string :=
  genPublisherKey (streamName p) (publisherName p) (hasPC p).

Definition fits (key : string) (p : streamPublisher) : Prop :=
  key_of p = key ∧ dash_free (streamName p) = true.

(** Every pooled publisher is stored under its own key. *)
Definition sorted_pools w : Prop :=
  ∀ key pool, ConcurrentMap.Get key (publishers (st w)) = Some pool →
  Forall (fits key) (BlockingPool.pool pool).

Lemma sorted_pool_at w key : sorted_pools w → Forall (fits key) (BlockingPool.pool (pool_at key w)).
Proof.
  intros Hs. unfold pool_at. destruct (ConcurrentMap.Get key _) as [p|] eqn:Hg; [by eapply Hs|].
  by constructor.
Qed.

Lemma sorted_set_pool w key p :
  sorted_pools w → Forall (fits key) (BlockingPool.pool p) → sorted_pools (set_pool_at key p w).
Proof.
  intros Hs Hp k pool. cbn. rewrite ConcurrentMap.Get_Add.
  case_decide as Hk; [|apply Hs]. by intros [= <-]; subst.
Qed.

Lemma ext_st c w : st (snd (ext (I := StreamLib) c w)) = st w.
Proof. unfold ext. by destruct (answer c (env w)). Qed.

Lemma newPublisher_st s n c w :
  st (snd (newPublisher s n c w)) = st w ∧
  ∀ p, fst (newPublisher s n c w) = Ret (Some p) →
       streamName p = s ∧ publisherName p = n ∧ hasPC p = c.
Proof.
  unfold newPublisher, reads. prog_unfold. cbn.
  destruct (sclientDisconnect (st w)); [split; [done|by intros p [=]]|].
  set (k := NewReliableProducer _ _ _ _ _). pose proof (ext_st k w) as Hst.
  change (icall StreamLib) with lib_call in *.
  destruct (ext (I := StreamLib) k w) as [[[q|e]|why|] w1]; cbn in Hst |- *; split; try done.
  by intros p [= <-].
Qed.

Lemma sorted_st w w' : st w' = st w → sorted_pools w → sorted_pools w'.
Proof. intros Hst Hs key pool. rewrite Hst. apply Hs. Qed.

Lemma get_attempts_pres n (g : prog (world StreamLib E streamConnection) (option streamPublisher)) key w :
  (∀ w, sorted_pools w → sorted_pools (snd (g w)) ∧ ∀ p, fst (g w) = Ret (Some p) → fits key p) →
  sorted_pools w →
  sorted_pools (snd (get_attempts n g w)) ∧
  ∀ p, fst (get_attempts n g w) = Ret (Some p) → fits key p.
Proof.
  intros Hg. revert w. induction n as [|n IH]; intros w Hs; [by split|].
  rewrite get_attempts_S. prog_unfold. destruct (Hg w Hs) as [Hs1 Hp].
  destruct (g w) as [[[p|]|why|] w1]; cbn in *; [| |by split..].
  - split; [done|]. intros ? [= <-]. by apply Hp.
  - pose proof (ext_st (Sleep 20) w1) as Hst.
    destruct (ext (I := StreamLib) (Sleep 20) w1) as [[u|why|] w2]; cbn in Hst |- *.
    + apply IH. by apply (sorted_st w1).
    + split; [by apply (sorted_st w1)|done].
    + split; [by apply (sorted_st w1)|done].
Qed.

Lemma GetPublisher_pres pick s n c w :
  dash_free s = true → sorted_pools w →
  sorted_pools (snd (GetPublisher pick s n c w)) ∧
  ∀ p, fst (GetPublisher pick s n c w) = Ret (Some p) → fits (genPublisherKey s n c) p.
Proof.
  intros Hd Hs. unfold GetPublisher, reads, writes. set (key := genPublisherKey s n c). prog_unfold.
  assert (∀ w, sorted_pools w →
    sorted_pools (snd (BlockingPool.Get (pool_at key) (set_pool_at key) (newPublisher s n c)
      (λ _, mret true) pick w)) ∧
    ∀ p, fst (BlockingPool.Get (pool_at key) (set_pool_at key) (newPublisher s n c)
      (λ _, mret true) pick w) = Ret (Some p) → fits key p) as Hget.
  { intros w' Hs'. apply (BlockingPool.get_run_pres _ _ _ _ _ sorted_pools (fits key)).
    - intros. by apply sorted_pool_at.
    - intros. by apply sorted_set_pool.
    - intros w2 Hs2. destruct (newPublisher_st s n c w2) as [Hst Hp]. split.
      + by apply (sorted_st w2).
      + intros p Hr. destruct (Hp p Hr) as (<- & <- & <-). done.
    - done.
    - done.
    - done. }
  cbn [st id]. destruct (ConcurrentMap.Get key (publishers (st w))) as [pool|];
    (apply get_attempts_pres; [apply Hget|]). { done. }
  intros k pool. cbn. rewrite ConcurrentMap.Get_Add. case_decide; [|apply Hs].
  intros [= <-]. constructor.
Qed.

Lemma PutPublisher_pres pick c p w :
  hasPC p = c → dash_free (streamName p) = true → sorted_pools w →
  sorted_pools (snd (PutPublisher pick c p w)).
Proof.
  intros Hc Hd Hs. unfold PutPublisher, reads. prog_unfold.
  set (key := genPublisherKey _ _ c). cbn [st id].
  destruct (ConcurrentMap.Get key (publishers (st w))) as [pool|]; [|done].
  assert (sorted_pools (snd (BlockingPool.Put (pool_at key) (set_pool_at key) (λ _, mret true) pick
    (Some p) w))) as Hput.
  { apply (BlockingPool.Put_pres _ _ _ _ sorted_pools (fits key)).
    - intros. by apply sorted_pool_at.
    - intros. by apply sorted_set_pool.
    - done.
    - split; [|done]. unfold key_of, key. by rewrite Hc.
    - done. }
  prog_unfold. destruct (BlockingPool.Put _ _ _ _ _ w) as [[[e|]|why|] w1]; cbn in *; try done.
  pose proof (ext_st (ProducerClose (publisher p)) w1) as Hst.
  destruct (ext (I := StreamLib) (ProducerClose (publisher p)) w1) as [[u|why|] w2]; cbn in *;
    by apply (sorted_st w1).
Qed.

Lemma dash_free_key_inj s1 n1 c1 s2 n2 c2 :
  dash_free s1 = true → dash_free s2 = true →
  genPublisherKey s1 n1 c1 = genPublisherKey s2 n2 c2 → s1 = s2.
Proof.
  intros H1%negb_true_iff H2%negb_true_iff Heq.
  assert (∀ s n c, ∃ t, genPublisherKey s n c = s +:+ String "-" t) as Hk.
  { intros s n c. unfold genPublisherKey. destruct c; cbv zeta.
    - exists (n +:+ "-" +:+ "confirm"). by rewrite !str_app_assoc.
    - by exists n. }
  destruct (Hk s1 n1 c1) as [t1 H1']. destruct (Hk s2 n2 c2) as [t2 H2'].
  rewrite H1', H2' in Heq. by apply str_split_unique in Heq as [? _].
Qed.
End publishers.


(** ** Properties *)

(** Whether the compressor changes the message: it does so for a body over the
    limit, if the codec gives something shorter that is not over the limit. *)
Definition compresses `{Gzip} (msg : streamMessage) : bool :=
  bodyOverLimit (SBody msg) &&
  match gz_write (SBody msg) with
  | (z, None) => (Z.of_nat (length z) <? Z.of_nat (length (SBody msg))) && negb (bodyOverLimit z)
  | _ => false
  end.

Definition published_headers (msg : streamMessage) : gmap string string := default ∅ (SHeaders msg).

(** The headers with what a consumer adds: the offset, and the copy of the
    broker's timestamp. *)
Definition received_headers (offset : Z) (h : gmap string string) : gmap string string :=
  addTimeStampHeader (<[streamOffsetHeaderName := itoa offset]> h).

Lemma received_other offset h k :
  k ≠ streamOffsetHeaderName → k ≠ timeStampInMSHeaderName → received_headers offset h !! k = h !! k.
Proof. intros. unfold received_headers, addTimeStampHeader. case_match; by rewrite !lookup_insert_ne by done. Qed.

Lemma received_delete offset h k :
  k ∉ [streamOffsetHeaderName; timeStampInMSHeaderName; rabbitReceivedTimeHeaderName] →
  delete k (received_headers offset h) = received_headers offset (delete k h).
Proof.
  intros Hk. assert (k ≠ streamOffsetHeaderName ∧ k ≠ timeStampInMSHeaderName ∧ k ≠ rabbitReceivedTimeHeaderName)
    as (H1 & H2 & H3) by (split_and!; intros ->; apply Hk; set_solver).
  unfold received_headers, addTimeStampHeader.
  rewrite !(lookup_insert_ne _ streamOffsetHeaderName), lookup_delete_ne by done.
  destruct (h !! rabbitReceivedTimeHeaderName); by rewrite !delete_insert_ne by done.
Qed.

(** What the library is handed is the message as it is, or compressed. *)
Lemma streamPublish_run `{Gzip} msg ps :
  clean ps →
  ∃ ps', clean ps' ∧ streamPublish msg ps =
    (Ret (toStreamMessage (if compresses msg then with_compressed (fst (gz_write (SBody msg))) msg else msg)), ps').
Proof.
  intros Hc. unfold streamPublish, compressMessage, compresses. destruct (bodyOverLimit (SBody msg)); [|by exists ps].
  destruct (compressBody_clean (SBody msg) ps Hc) as [Hc' Hr].
  unfold run_state, run_result in *. prog_unfold.
  destruct (compressBody (SBody msg) ps) as [o ps']. cbn in Hc', Hr. subst o. exists ps'. split; [done|].
  destruct (gz_write (SBody msg)) as [z [e|]]; [done|]. cbn [andb fst]. by destruct (_ && _).
Qed.

(** C7: Publishing to a stream and receiving from it, for every message: it is
    handed to the library, and the consumer makes something of it. If the client
    sets no header for the transfer encoding, this is the published body and the
    published headers, with the offset (and the copy of the broker's timestamp)
    added, whether the body has been compressed on the way or not. A header of
    the client's own is lost if the body is compressed; if it is not, and says
    [gzip], the consumer reads the body as a gzip stream, and hands on what is
    read from it without the header, or the message as it is if that fails; any
    other value is handed on. The pooled buffers are empty before and after. *)
Theorem stream_roundtrip `{GzipLaws} `{MapRange} msg ps offset :
  clean ps →
  let sent := published_headers msg in
  let got := received_headers offset sent in
  ∃ m ps', streamPublish msg ps = (Ret m, ps') ∧ clean ps' ∧
    (sent !! transferEncodingHeaderName = None → decodeDelivery m offset = Ret (got, SBody msg)) ∧
    decodeDelivery m offset = Ret
      (if compresses msg then (delete transferEncodingHeaderName got, SBody msg)
       else if bool_decide (sent !! transferEncodingHeaderName = Some "gzip") then
         match gz_read (SBody msg) with
         | (b, None) => (delete transferEncodingHeaderName got, b)
         | (_, Some _) => (got, SBody msg)
         end
       else (got, SBody msg)).
Proof.
  intros Hc sent got. destruct (streamPublish_run msg ps Hc) as (ps' & Hc' & Hp).
  eexists _, ps'. split; [exact Hp|]. split; [done|].
  assert (got !! transferEncodingHeaderName = sent !! transferEncodingHeaderName) as Hkeep by (by apply received_other).
  set (res := decodeDelivery _ offset).
  assert (res = Ret
      (if compresses msg then (delete transferEncodingHeaderName got, SBody msg)
       else if bool_decide (sent !! transferEncodingHeaderName = Some "gzip") then
         match gz_read (SBody msg) with
         | (b, None) => (delete transferEncodingHeaderName got, b)
         | (_, Some _) => (got, SBody msg)
         end
       else (got, SBody msg))) as ->; [|split; [|done]].
  - unfold res, decodeDelivery. destruct (compresses msg) eqn:Hcomp; cbn [toStreamMessage ApplicationProperties Data].
    + cbn [with_compressed SHeaders SBody]. unfold toStreamHeaders. cbn [default from_option].
      rewrite fromStreamHeaders_fmap. cbv zeta. unfold id.
      set (h := <[transferEncodingHeaderName := "gzip"]> (published_headers msg)).
      change (addTimeStampHeader _) with (received_headers offset h).
      rewrite received_other by done. unfold h at 1. rewrite lookup_insert_eq. cbn [default from_option]. rewrite String.eqb_refl.
      unfold compresses in Hcomp. apply andb_prop in Hcomp as [_ Hcomp].
      destruct (gz_write (SBody msg)) as [z [e|]] eqn:Hz; [done|]. cbn [fst]. unfold decompressBody.
      rewrite (gz_round _ _ Hz). do 2 f_equal. unfold got, h. rewrite !received_delete by (vm_compute; set_solver).
      by rewrite delete_insert_eq.
    + unfold toStreamHeaders. rewrite fromStreamHeaders_fmap. cbv zeta.
      change (addTimeStampHeader _) with got.
      rewrite Hkeep. unfold decompressBody. destruct (sent !! transferEncodingHeaderName) as [v|]; cbn [default from_option].
      * unfold id. destruct (String.eqb_spec v "gzip") as [->|Hv].
        -- rewrite bool_decide_eq_true_2 by done. by destruct (gz_read (SBody msg)) as [b [e|]].
        -- by rewrite bool_decide_eq_false_2 by congruence.
      * by rewrite bool_decide_eq_false_2 by done.
  - intros Hnone. rewrite Hnone, bool_decide_eq_false_2 by done. rewrite Hnone in Hkeep.
    destruct (compresses msg); [|done]. by rewrite delete_id.
Qed.

(** A stream message with a header that is not a string panics the
    consumer: [fromStreamHeaders] returns exactly for the tables whose values
    are all strings, with those strings, and panics for every other table,
    whatever the order in which the table is walked. *)
Theorem stream_headers_foreign `{MapRange} orig :
  (∀ h, fromStreamHeaders orig = Ret h ↔ orig = VString <$> h) ∧
  ((∃ why, fromStreamHeaders orig = Panic why) ↔ ∃ k v, orig !! k = Some v ∧ is_string v = false).
Proof.
  split.
  - intros h. split; [|intros ->; apply fromStreamHeaders_fmap].
    intros Hr. destruct (fromStreamHeaders_spec orig) as [(h' & Hh & ->)|(? & ? & ? & ? & _)];
      congruence.
  - destruct (fromStreamHeaders_spec orig) as [(h & -> & ->)|(why & k & v & -> & Hk & Hv)].
    + split; [by intros []|]. intros (k & v & Hk & Hv).
      apply lookup_fmap_Some in Hk as (? & <- & _). done.
    + split; [by exists k, v|by exists why].
Qed.

(** Where a consumer starts: [continue] is the message after the last
    stored offset (the first one when nothing is stored, which is -1), a decimal
    number is taken as it is, and a request is refused exactly when it is
    neither a number nor one of the four keywords, in any case, nor empty. *)
Theorem stream_offset_spec offset last :
  (to_lower offset = "continue" → in_int64 (last + 1) →
     toStreamOffset offset last = (Some (Offset (last + 1)), None)) ∧
  (∀ n, atoi offset = Some n → toStreamOffset offset last = (Some (Offset n), None)) ∧
  ((∃ e, snd (toStreamOffset offset last) = Some e) ↔
     to_lower offset ∉ ["first"; "continue"; "last"; "next"; ""] ∧ atoi offset = None).
Proof.
  unfold toStreamOffset. cbv zeta. split_and!.
  - intros -> Hr. cbn. by rewrite int64_small.
  - intros n Hn. destruct (to_lower offset) as [|c t] eqn:Hl.
    { destruct offset as [|a o]; [done|]. destruct (to_lower_head a o) as (c' & t' & Hh & _). by rewrite Hl in Hh. }
    pose proof (atoi_not_word offset n c t Hn Hl) as Hw. rewrite Hn.
    repeat match goal with
    | |- context [String.eqb (String c t) ?k] =>
        destruct (String.eqb_spec (String c t) k) as [[= -> ->]|_];
          [by specialize (Hw ltac:(done) ltac:(done))|]
    end. done.
  - repeat match goal with
    | |- context [String.eqb (to_lower offset) ?k] =>
        destruct (String.eqb_spec (to_lower offset) k) as [Hk|?]; cbn [orb]
    end.
    all: try (split; [by intros [? [=]]|intros [Hn _]; rewrite Hk in Hn; set_solver]).
    destruct (atoi offset); split; [by intros [? [=]]|by intros []| |eauto].
    intros _. split; [|done]. set_solver.
Qed.

(** C19: Publishers of different streams are kept apart as long as no stream
    name holds a dash: after any history of requests and returns of publishers
    of such streams, a publisher obtained for a stream is one of that stream. *)
Theorem get_publisher_matches {E} `{Oracle StreamLib E} (os : list (bool * (string + streamPublisher) * string * bool))
    (w : world StreamLib E streamConnection) pick s n c p w' :
  publishers (st w) = ∅ →
  Forall (λ o, match o with
               | (_, inl s, _, _) => dash_free s = true
               | (_, inr p, _, c) => dash_free (streamName p) = true ∧ hasPC p = c
               end) os →
  dash_free s = true →
  let step w o := match o with
                  | (pick, inl s, n, c) => snd (GetPublisher pick s n c w)
                  | (pick, inr p, _, c) => snd (PutPublisher pick c p w)
                  end in
  GetPublisher pick s n c (foldl step w os) = (Ret (Some p), w') →
  streamName p = s.
Proof.
  intros Hempty Hos Hd step Hget.
  assert (sorted_pools (foldl step w os)) as Hs.
  { assert (sorted_pools w) as Hw.
    { intros k q. unfold ConcurrentMap.Get. by rewrite Hempty, lookup_empty. }
    clear Hempty Hget. revert w Hw. induction Hos as [|o os Ho _ IH]; intros w Hw; [done|].
    cbn [foldl]. apply IH. destruct o as [[[pk [s'|p']] n'] c']; unfold step; cbn beta iota in Ho |- *.
    - by destruct (GetPublisher_pres pk s' n' c' w Ho Hw) as [? _].
    - destruct Ho as [Ho Hc']. by apply PutPublisher_pres. }
  destruct (GetPublisher_pres pick s n c _ Hd Hs) as [_ Hp]. rewrite Hget in Hp.
  destruct (Hp p eq_refl) as [Hk Hdp]. symmetry. by eapply dash_free_key_inj.
Qed.

(** The stream connection string is unambiguous: for hosts without a
    colon, two equal strings were built with the same scheme, the same user
    name, the same password, the same host and the same tenant (the empty
    tenant standing for the default one), because every component a client
    chooses is escaped. *)
Theorem stream_connection_string_inj tls1 tls2 cf1 cf2 :
  any_byte (Ascii.eqb ":") (Host cf1) = false → any_byte (Ascii.eqb ":") (Host cf2) = false →
  getStreamConnectionString tls1 cf1 = getStreamConnectionString tls2 cf2 →
  tls1 = tls2 ∧ GetUsername (Creds cf1) = GetUsername (Creds cf2) ∧
  GetPassword (Creds cf1) = GetPassword (Creds cf2) ∧ Host cf1 = Host cf2 ∧
  (if String.eqb (Tenant cf1) "" then "/" else Tenant cf1) =
  (if String.eqb (Tenant cf2) "" then "/" else Tenant cf2).
Proof.
  intros Hh1 Hh2. unfold getStreamConnectionString. cbv zeta.
  set (t1 := if String.eqb (Tenant cf1) "" then _ else _).
  set (t2 := if String.eqb (Tenant cf2) "" then _ else _).
  set (rest cf t := query_escape (GetUsername (Creds cf)) +:+ String ":"
    (query_escape (GetPassword (Creds cf)) +:+ String "@" (Host cf +:+ String ":" (itoa port +:+ String "/" (query_escape t))))).
  intros Heq.
  assert (tls1 = tls2 ∧ rest cf1 t1 = rest cf2 t2) as [-> Hr].
  { destruct tls1, tls2; unfold rest; cbn in Heq |- *; by simplify_eq/=. }
  split; [done|]. unfold rest in Hr.
  apply str_split_unique in Hr as [Hu Hr]; [|by apply query_escape_free..].
  apply str_split_unique in Hr as [Hp Hr]; [|by apply query_escape_free..].
  apply str_split_unique in Hr as [Hh Hr]; [|done..].
  apply str_app_inj_l in Hr. injection Hr as Hr.
  apply query_escape_inj in Hu, Hp, Hr. done.
Qed.


(** A named publisher is not retried: when the first creation fails, the
    pool has no unit left, so the second of the ten attempts of [GetPublisher]
    waits for a publisher that nobody holds, and the call never returns. *)
Theorem named_publisher_blocks {E} `{Oracle StreamLib E} (w : world StreamLib E streamConnection)
    pick s n c err e1 e2 :
  n ≠ "" → publishers (st w) = ∅ → sclientDisconnect (st w) = false → sctx_done (st w) = false →
  answer (I := StreamLib)
    (NewReliableProducer (senv (st w)) (sclientIdentifier (st w)) s (Some n) c) (env w) = (Ret (inr err), e1) →
  answer (I := StreamLib) (Sleep 20) e1 = (Ret (), e2) →
  fst (GetPublisher pick s n c w) = Block.
Proof.
  intros Hn Hp Hd Hc Hnew Hsleep. unfold GetPublisher, reads, writes. prog_unfold. cbn [st id].
  apply String.eqb_neq in Hn. set (key := genPublisherKey s n c).
  assert (ConcurrentMap.Get key (publishers (st w)) = None) as Hg
    by (unfold ConcurrentMap.Get; by rewrite Hp).
  rewrite Hg, Hn, Hc. set (w1 := set_st _ w).
  assert (pool_at key w1 = {| BlockingPool.ctx_done := false; BlockingPool.pool := [];
            BlockingPool.count := 0; BlockingPool.limit := 1 |}) as Hpool.
  { unfold pool_at. cbn. by rewrite ConcurrentMap.Get_Add, decide_True. }
  assert (∀ q (w : world StreamLib E streamConnection), pool_at key (set_pool_at key q w) = q) as Hset.
  { intros q w'. unfold pool_at. cbn. by rewrite ConcurrentMap.Get_Add, decide_True. }
  rewrite (get_attempts_S 9). prog_unfold.
  rewrite (BlockingPool.Get_alloc _ _ _ _ pick Hset) by (rewrite Hpool; done).
  set (w2 := set_pool_at key _ _).
  assert (∃ w3, newPublisher s n c w2 = (Ret None, w3) ∧ st w3 = st w2 ∧ env w3 = e1) as (w3 & -> & Hst & He).
  { unfold newPublisher, reads, ext. prog_unfold. cbn [st id env set_pool_at set_st w2 w1].
    cbn. rewrite Hd, Hn. change (env w2) with (env w). rewrite Hnew. by eexists. }
  assert (∃ w4, ext (I := StreamLib) (Sleep 20) w3 = (Ret (), w4) ∧ st w4 = st w2) as (w4 & -> & Hst4).
  { unfold ext. rewrite He, Hsleep. by eexists. }
  assert (pool_at key w4 = BlockingPool.with_count (λ c, c + 1) (pool_at key w1)) as Hpool4.
  { unfold pool_at at 1. rewrite Hst4. apply Hset. }
  rewrite Hpool in Hpool4.
  pose proof (BlockingPool.Get_starved (pool_at key) (set_pool_at key) (newPublisher s n c)
    (λ _, mret true) pick Hset w4) as Hb. rewrite Hpool4 in Hb.
  specialize (Hb eq_refl ltac:(done) eq_refl). cbn [fst].
  rewrite (get_attempts_S 8). prog_unfold.
  by destruct (BlockingPool.Get _ _ _ _ _ w4) as [[?|?|] ?].
Qed.

(** ** Witnesses *)

(** A codec that marks what it wrote. *)
#[local] Instance mark_gzip : Gzip := {|
  gz_write b := (Byte.x1f :: b, None);
  gz_read z := match z with
               | Byte.x1f :: b => (b, None)
               | _ => ([], Some "gzip: invalid header")
               end |}.
#[local] Instance mark_gzip_laws : GzipLaws mark_gzip.
Proof. split. by intros b z [= <-]. Qed.

Definition demo_message : streamMessage := {|
  SBody := [Byte.x68; Byte.x69]; SContentType := ""; SContentEncoding := "";
  SHeaders := Some {[ "subject" := "greeting" ]}; SPublishID := 0 |}.

(** A codec that makes two bytes of one large body, and a message with it. *)
#[local] Instance byte_eq_decision : EqDecision Byte.byte := Byte.byte_eq_dec.
Definition zeros : bytes := replicate (Z.to_nat (compressionSizeLimit + 1)) Byte.x00.
#[local] Instance zeros_gzip : Gzip := {|
  gz_write b := if decide (b = zeros) then ([Byte.x1f; Byte.x00], None) else (Byte.x1f :: Byte.x01 :: b, None);
  gz_read z := match z with
               | [Byte.x1f; Byte.x00] => (zeros, None)
               | Byte.x1f :: Byte.x01 :: b => (b, None)
               | _ => ([], Some "gzip: invalid header")
               end |}.
#[local] Instance zeros_gzip_laws : GzipLaws zeros_gzip.
Proof. split. intros b z. cbn. case_decide as Hb; intros [= <-]; [by rewrite Hb|done]. Qed.

Definition large_message : streamMessage := {|
  SBody := zeros; SContentType := ""; SContentEncoding := "";
  SHeaders := Some {[ "subject" := "greeting" ]}; SPublishID := 0 |}.

Lemma large_compresses : compresses (H := zeros_gzip) large_message = true.
Proof.
  assert (Z.of_nat (length zeros) = compressionSizeLimit + 1) as Hlen.
  { unfold zeros. rewrite length_replicate, Z2Nat.id by (by vm_compute). done. }
  unfold compresses, bodyOverLimit. change (SBody large_message) with zeros. rewrite Hlen.
  cbn [gz_write zeros_gzip]. rewrite decide_True by done. vm_compute. reflexivity.
Qed.

(** The body of the first message goes out as it is, that of the second one
    compressed; both arrive as they were. *)
Lemma stream_roundtrip_witness (MR := default_range) :
  (∃ m ps', streamPublish (H := mark_gzip) demo_message [] = (Ret m, ps') ∧
     decodeDelivery (H := mark_gzip) m 41 =
       Ret (received_headers 41 {[ "subject" := "greeting" ]}, [Byte.x68; Byte.x69])) ∧
  compresses (H := zeros_gzip) large_message = true ∧
  ∃ m ps', streamPublish (H := zeros_gzip) large_message [] = (Ret m, ps') ∧
    decodeDelivery (H := zeros_gzip) m 41 = Ret (received_headers 41 {[ "subject" := "greeting" ]}, zeros).
Proof.
  split; [|split; [exact large_compresses|]].
  - destruct (stream_roundtrip (H := mark_gzip) demo_message [] 41 ltac:(constructor)) as (m & ps' & H1 & _ & H2 & _).
    exists m, ps'. split; [exact H1|exact (H2 eq_refl)].
  - destruct (stream_roundtrip (H := zeros_gzip) large_message [] 41 ltac:(constructor)) as (m & ps' & H1 & _ & H2 & _).
    exists m, ps'. split; [exact H1|exact (H2 eq_refl)].
Defined.

(** A client that names the encoding itself: its body, which only looks like
    one of the codec, arrives as something else, without the header. *)
Example own_encoding (MR := default_range) (GZ := mark_gzip)
    (msg := {| SBody := [Byte.x1f; Byte.x68]; SContentType := ""; SContentEncoding := "";
               SHeaders := Some {[ transferEncodingHeaderName := "gzip" ]}; SPublishID := 0 |}) :
  match decodeDelivery (toStreamMessage msg) 41 with
  | Ret (h, b) => bool_decide (b = [Byte.x68] ∧ h !! transferEncodingHeaderName = None)
  | _ => false
  end = true.
Proof. vm_compute. reflexivity. Qed.

Lemma stream_offset_spec_witness :
  toStreamOffset "Continue" (-1) = (Some (Offset 0), None) ∧
  toStreamOffset "17" 3 = (Some (Offset 17), None).
Proof.
  split.
  - apply (proj1 (stream_offset_spec "Continue" (-1))); [reflexivity | split; [discriminate | reflexivity]].
  - apply (proj1 (proj2 (stream_offset_spec "17" 3))). reflexivity.
Defined.

Lemma stream_connection_string_inj_witness :
  let cf := {| Host := "rabbit"; Port := 5672; ProviderName := "amqp091"; Tenant := "";
               Creds := Some {| Username := "u:1"; Password := "p@2" |}; Tls := false;
               ClientName := "c"; AdminPort := 0 |} in
  GetUsername (Creds cf) = "u:1".
Proof.
  intros cf. destruct (stream_connection_string_inj false false cf cf) as (_ & H & _);
    [reflexivity..|]. transitivity (GetUsername (Creds cf)); [exact H | reflexivity].
Defined.

(** A library whose objects are numbered in the order of their creation. *)
#[local] Instance counting_lib : Oracle StreamLib nat := λ c n,
  match c return outcome (lib_reply c) * nat with
  | NewEnvironment _ _ _ => (Ret (inl n), S n)
  | NewReliableProducer _ _ _ _ _ => (Ret (inl n), S n)
  | NewReliableConsumer _ _ _ _ _ => (Ret (inl n), S n)
  | EnvIsClosed _ => (Ret false, n)
  | QueryOffset _ _ _ => (Ret (0, None), n)
  | EnvClose _ => (Ret None, n)
  | ProducerSend _ _ => (Ret None, n)
  | ProducerClose _ => (Ret None, n)
  | ConsumerClose _ => (Ret None, n)
  | LibDeclareStream _ _ _ => (Ret None, n)
  | LibStoreOffset _ _ _ _ => (Ret None, n)
  | Sleep _ => (Ret (), n)
  end.

Definition demo_world : world StreamLib nat streamConnection := {|
  st := with_senv (Some 0%nat) (NewStreamConnection "rabbitmq-stream://" "c-1");
  env := 1%nat; log := [] |}.

Definition demo_publisher : streamPublisher :=
  {| streamName := "orders"; publisherName := ""; publisher := 1; hasPC := false |}.

Lemma get_publisher_matches_witness :
  fst (GetPublisher true "orders" "" false
    (snd (PutPublisher true false demo_publisher
       (snd (GetPublisher true "orders" "" false demo_world))))) = Ret (Some demo_publisher) ∧
  streamName demo_publisher = "orders".
Proof.
  split; [vm_compute; reflexivity|].
  eapply (get_publisher_matches
    [(true, inl "orders", "", false); (true, inr demo_publisher, "", false)] demo_world
    true "orders" "" false demo_publisher);
    [reflexivity | repeat constructor | reflexivity | vm_compute; reflexivity].
Defined.

(** With dashes the keys of the publisher pools collide: after the
    publisher named "c" of stream "a-b" has been used and returned, the request
    for the publisher named "b-c" of stream "a" is answered with it, so the
    message goes to stream "a-b". *)
Theorem publisher_wrong_stream :
  let w1 := snd (GetPublisher true "a-b" "c" false demo_world) in
  ∃ p, fst (GetPublisher true "a-b" "c" false demo_world) = Ret (Some p) ∧
       streamName p = "a-b" ∧
       fst (GetPublisher true "a" "b-c" false (snd (PutPublisher true false p w1))) = Ret (Some p).
Proof. cbv zeta. eexists. split; [vm_compute; reflexivity|]. split; [done|]. vm_compute. done. Qed.


(** A library that creates nothing. *)
#[local] Instance failing_lib : Oracle StreamLib () := λ c n,
  match c return outcome (lib_reply c) * () with
  | NewEnvironment _ _ _ => (Ret (inl 0%nat), n)
  | NewReliableProducer _ _ _ _ _ => (Ret (inr "stream does not exist"), n)
  | NewReliableConsumer _ _ _ _ _ => (Ret (inr "stream does not exist"), n)
  | EnvIsClosed _ => (Ret false, n)
  | QueryOffset _ _ _ => (Ret (0, None), n)
  | EnvClose _ => (Ret None, n)
  | ProducerSend _ _ => (Ret None, n)
  | ProducerClose _ => (Ret None, n)
  | ConsumerClose _ => (Ret None, n)
  | LibDeclareStream _ _ _ => (Ret None, n)
  | LibStoreOffset _ _ _ _ => (Ret None, n)
  | Sleep _ => (Ret (), n)
  end.

Lemma named_publisher_blocks_witness :
  fst (GetPublisher (E := ()) true "orders" "p1" true
    {| st := with_senv (Some 0%nat) (NewStreamConnection "rabbitmq-stream://" "c-1");
       env := (); log := [] |}) = Block.
Proof.
  eapply (named_publisher_blocks (E := ()) _ true "orders" "p1" true "stream does not exist" () ());
    [discriminate | reflexivity..].
Defined.

End Stream.
