(* ===== verification/Amqp.v ===== *)
(** * The AMQP data of the provider, and its shim interfaces

    [connectors/amqp091/amqp091shim.go] declares two interfaces behind which
    the provider hides the AMQP client library, so that it can be tested
    against a fake; [streamshim.go] does the same for streams. Here they are
    the calls of the interface [Shim], together with the other things the
    provider asks of the outside: the clock, fresh identifiers, sleeping, the
    broker's HTTP management API, and the two channels to the server. The connections and channels behind the
    Go interfaces are numbers. *)

From Stdlib Require Import Ascii String.
From stdpp Require Import base gmap strings list fin_maps option.
From Stdlib Require Import ZArith Lia.
From S2P Require Import Prelude Effects GoStrings Api Compression Stream.

Module Amqp.
Open Scope Z_scope.

(** ** Tables, messages, errors *)

(** [amqp091Table]; as a field of a message it can be nil. *)
Abbreviation amqp091Table := (gmap string gval).

(** A delivery of the library: the channel it came on, which is its
    [Acknowledger], and its tag, which the broker counts per channel. *)
Definition delivery_id : Type := nat * Z.

(** [delivery] is the library's delivery the message came from; [None] for a
    message the provider builds itself. *)
Record amqp091Message := {
  delivery : option delivery_id;
  Body : bytes;
  DeliveryMode : Z;
  ContentType : string;
  ContentEncoding : string;
  Headers : option amqp091Table;
  DeliveryTag : Z
}.

Definition empty_message : amqp091Message := {|
  delivery := None; Body := []; DeliveryMode := 0; ContentType := ""; ContentEncoding := "";
  Headers := None; DeliveryTag := 0 |}.

Definition set_Headers (h : option amqp091Table) (m : amqp091Message) : amqp091Message := {|
  delivery := delivery m; Body := Body m; DeliveryMode := DeliveryMode m;
  ContentType := ContentType m; ContentEncoding := ContentEncoding m; Headers := h;
  DeliveryTag := DeliveryTag m |}.

(** [amqp091Error]: code and reason of the library's error. *)
Record amqp091Error := { ErrCode : Z; Reason : string }.

#[export] Instance amqp091Error_eq_dec : EqDecision amqp091Error.
Proof. solve_decision. Defined.

Definition zero_error : amqp091Error := {| ErrCode := 0; Reason := "" |}.
Definition newAmqp091Error (e : string) (code : Z) : amqp091Error :=
  {| ErrCode := code; Reason := e |}.

(** [amqp.Error.Error()] of the client library:
    [Exception (%d) Reason: %q], with [%q] of a printable reason. *)
Definition amqp091Error_Error (e : amqp091Error) : string :=
  "Exception (" +:+ itoa (ErrCode e) +:+ ") Reason: " +:+
  String (Ascii.ascii_of_nat 34) (Reason e +:+ String (Ascii.ascii_of_nat 34) "").

(** A lookup in a table that may be nil. *)
Definition header (h : option amqp091Table) (key : string) : option gval := h ≫= (.!! key).

(** ** Redelivery cap *)

(** [init] of the package: the threshold, from the environment variable. *)
Definition init_maxAcquiredCount (env : string) : Z :=
  if String.eqb env "" then 20
  else match parse_int 32 env with
       | Some n => if 0 <? n then n else 20
       | None => 20
       end.

Definition maxAcquiredCountHit (maxAcquiredCount : Z) (headers : option amqp091Table) : bool :=
  match header headers "x-acquired-count" with
  | Some c =>
      let count := match c with VInt32 n => n | VInt64 n => int32 n | _ => 0 end in
      maxAcquiredCount <? count
  | None => false
  end.

(** ** Conversions *)

(** [fmt.Sprintf("%v", val)] on every value. *)
Definition fromTableToMap (tab : option amqp091Table) : gmap string string :=
  show_gval <$> default ∅ tab.

(** ** The shim interfaces *)

Inductive shim_call :=
  (* amqp091ConnectionShim *)
  | KNewConnection (connStr clientIdentifier : string)
  | KConnect (c : nat)
  | KConnClose (c : nat)
  | KConnIsClosed (c : nat)
  | KNewChannel (c : nat) (confirm : bool)
  | KConnNotifyClose (c : nat)
  | KStandbyChannel (c : nat)
  (* amqp091ChannelShim *)
  | KChClose (ch : nat)
  | KChIsClosed (ch : nat)
  | KPublish (ch : nat) (exchange key : string) (m : amqp091Message)
  | KExchangeDeclare (ch : nat) (name kind : string) (autoDelete : bool)
  | KExchangeBind (ch : nat) (address subject parent : string)
  | KSetPrefetch (ch : nat) (n : Z)
  | KQueueDeclare (ch : nat) (name : string) (autoDelete exclusive : bool) (args : amqp091Table)
  | KQueueBind (ch : nat) (name subject destination : string) (args : option amqp091Table)
  | KConsume (ch : nat) (queue : string) (autoAck exclusive : bool)
  | KChNotifyClose (ch : nat)
  (* amqp091Message *)
  | KAck (m : amqp091Message)
  | KNack (m : amqp091Message) (requeue : bool)
  (* streamConnectionShim *)
  | KNewStreamConn (connStr clientIdentifier : string)
  | KStreamConnect (s : nat)
  | KStreamClose (s : nat)
  | KStreamIsClosed (s : nat)
  | KGetPublisher (s : nat) (streamName publisherName : string) (confirm : bool)
  | KPutPublisher (s : nat) (confirm : bool) (p : nat)
  | KStreamNewConsumer (s : nat) (streamName consumerName offset : string) (single : bool)
  | KDeclareStream (s : nat) (streamName : string) (ttl : Z)
  | KGetConsumerOffset (s : nat) (streamName consumerName : string)
  | KStoreOffset (s : nat) (streamName consumerName : string) (offset : Z)
  | KGetStreamOffset (s : nat) (streamName : string)
  | KStreamPublish (p : nat) (m : Compression.streamMessage)
  | KWaitConfirm (p : nat)
  | KConsumerClose (c : nat)
  | KConsumerOffset (c : nat)       (* [Consumer.GetOffset()] *)
  (* the channels to the server *)
  | KErrChan (e : option Error)     (* [errChan <- e] *)
  | KDeliver (m : Message)          (* [messageChannel <- m] *)
  (* the rest of the outside *)
  | KNow
  | KUUID
  | KSleepRandomReconnect
  | KSleep (ms : Z)
  | KHTTP (method url user password : string).

(** What a wait for a stream confirmation ends with: a status, which names the
    message it is about, or the end of the context. *)
Inductive confirmation :=
  | Confirmed (publishingId : Z)
  | NotConfirmed (publishingId : Z) (err : string)
  | Interrupted.

(** A response of the management API: [client.Do] fails, or there is a status
    with a body and the error of reading it. *)
Inductive http_reply :=
  | HTTPFailed (err : string)
  | HTTPNoResponse
  | HTTPResponse (status : Z) (body : string) (bodyErr : error).

Definition shim_reply (c : shim_call) : Type :=
  match c with
  | KNewConnection _ _ | KNewStreamConn _ _ => nat
  | KConnect _ | KConnClose _ | KChClose _ | KPublish _ _ _ _ | KExchangeDeclare _ _ _ _
  | KExchangeBind _ _ _ _ | KSetPrefetch _ _ | KQueueDeclare _ _ _ _ _ | KQueueBind _ _ _ _ _
  | KConsume _ _ _ _ | KAck _ | KNack _ _ | KStreamConnect _ | KStreamClose _
  | KDeclareStream _ _ _ | KStoreOffset _ _ _ _ | KStreamPublish _ _ | KConsumerClose _ => error
  | KConnIsClosed _ | KChIsClosed _ | KStreamIsClosed _ => bool
  | KNewChannel _ _ | KStandbyChannel _ => nat + string
  | KConnNotifyClose _ | KChNotifyClose _ | KPutPublisher _ _ _ | KSleepRandomReconnect | KSleep _
  | KErrChan _ | KDeliver _ => ()
  | KGetPublisher _ _ _ _ => option nat
  | KStreamNewConsumer _ _ _ _ _ => option nat
  | KGetConsumerOffset _ _ _ | KGetStreamOffset _ _ => Z * error
  | KWaitConfirm _ => confirmation
  | KNow | KConsumerOffset _ => Z
  | KUUID => string
  | KHTTP _ _ _ _ => http_reply
  end.

Definition Shim : Interface := {| icall := shim_call; ireply := shim_reply |}.

(** A logged call with its reply. *)
Abbreviation ev := (existT (P := λ c : icall Shim, outcome (ireply Shim c))).

(** ** A concrete outside, for running the model

    Every call succeeds, new objects are numbered in the order they are made,
    and the clock advances with every call that reads it. [over] replaces the
    outcome of the calls it answers. *)
Definition scripted (over : ∀ c : shim_call, option (outcome (shim_reply c))) : Oracle Shim nat :=
  λ c n,
    match over c with
    | Some o => (o, S n)
    | None =>
        (match c return outcome (shim_reply c) with
         | KNewConnection _ _ => Ret n
         | KNewStreamConn _ _ => Ret n
         | KNewChannel _ _ => Ret (inl n)
         | KStandbyChannel _ => Ret (inl n)
         | KConnect _ => Ret None | KConnClose _ => Ret None | KChClose _ => Ret None
         | KPublish _ _ _ _ => Ret None | KExchangeDeclare _ _ _ _ => Ret None
         | KExchangeBind _ _ _ _ => Ret None | KSetPrefetch _ _ => Ret None
         | KQueueDeclare _ _ _ _ _ => Ret None | KQueueBind _ _ _ _ _ => Ret None
         | KConsume _ _ _ _ => Ret None | KAck _ => Ret None | KNack _ _ => Ret None
         | KStreamConnect _ => Ret None | KStreamClose _ => Ret None
         | KDeclareStream _ _ _ => Ret None | KStoreOffset _ _ _ _ => Ret None
         | KStreamPublish _ _ => Ret None | KConsumerClose _ => Ret None
         | KConnIsClosed _ => Ret false | KChIsClosed _ => Ret false | KStreamIsClosed _ => Ret false
         | KConnNotifyClose _ => Ret () | KChNotifyClose _ => Ret () | KPutPublisher _ _ _ => Ret ()
         | KSleepRandomReconnect => Ret () | KSleep _ => Ret ()
         | KErrChan _ => Ret () | KDeliver _ => Ret ()
         | KGetPublisher _ _ _ _ => Ret (Some n)
         | KStreamNewConsumer _ _ _ _ _ => Ret (Some n)
         | KGetConsumerOffset _ _ _ => Ret (0, None)
         | KGetStreamOffset _ _ => Ret (0, None)
         | KWaitConfirm _ => Ret (Confirmed 0)
         | KNow => Ret (Z.of_nat n)
         | KConsumerOffset _ => Ret (Z.of_nat n)
         | KUUID => Ret "9f7c"
         | KHTTP _ _ _ _ => Ret (HTTPResponse 200 "" None)
         end, S n)
    end.

Definition ok_shim : Oracle Shim nat := scripted (λ _, None).

(** The calls of a log. *)
Definition calls_of (lg : list (event Shim)) : list shim_call := map (λ e : event Shim, projT1 e) lg.

Lemma calls_of_app l1 l2 : (calls_of (l1 ++ l2) = calls_of l1 ++ calls_of l2)%list.
Proof. apply map_app. Qed.

Abbreviation Returns E := (Effects.Returns Shim E).

Lemma ok_returns : @Effects.Returns Shim nat ok_shim.
Proof. intros c e. destruct c; by eexists _, _. Qed.

End Amqp.
