(* ===== verification/Shim.v ===== *)
(** * [connectors/amqp091/amqp091shim.go]: the shim over the AMQP library

    The client library (rabbitmq/amqp091-go) is third-party code: its calls
    are the interface [AmqpLib], its connections, channels and deferred
    confirmations are numbers. The shim's own objects, which hold such a
    library object and re-open it when it has been closed, live in the store
    [shim]; the provider refers to them by their address. *)

From Stdlib Require Import Ascii String.
From stdpp Require Import base gmap strings list fin_maps option.
From Stdlib Require Import ZArith Lia.
From S2P Require Import Prelude Effects GoStrings Compression Stream Amqp.

Module Shim.
Import Amqp.
Open Scope Z_scope.
Open Scope list_scope.

(** ** The library *)

(** [amqp.Publishing], without the timestamp of the moment. *)
Record Publishing := {
  PubBody : bytes;
  PubDeliveryMode : Z;
  PubHeaders : option amqp091Table;
  PubContentType : string;
  PubContentEncoding : string
}.

(** [uint8(msg.DeliveryMode)] *)
Definition toAmqpMessage (msg : amqp091Message) : Publishing := {|
  PubBody := Body msg; PubDeliveryMode := uint 8 (DeliveryMode msg);
  PubHeaders := Headers msg; PubContentType := ContentType msg;
  PubContentEncoding := ContentEncoding msg |}.

(** [amqp.Delivery]; [DelChannel] is its [Acknowledger]. *)
Record Delivery := {
  DelChannel : nat; DelTag : Z; DelBody : bytes; DelDeliveryMode : Z; DelHeaders : option amqp091Table;
  DelContentType : string; DelContentEncoding : string }.

Definition fromAmqpMessage (del : Delivery) : amqp091Message := {|
  delivery := Some (DelChannel del, DelTag del); Body := DelBody del; DeliveryMode := DelDeliveryMode del;
  Headers := DelHeaders del; ContentType := DelContentType del;
  ContentEncoding := DelContentEncoding del; DeliveryTag := DelTag del |}.

Inductive lib_call :=
  | DialConfig (connStr connectionName : string)
  | ConnChannel (c : option nat)
  | LibConnClose (c : option nat)
  | LibConnIsClosed (c : option nat)
  | LibConnNotifyClose (c : option nat)
  | LibChClose (ch : nat)
  | LibChIsClosed (ch : nat)
  | ChConfirm (ch : nat) (noWait : bool)
  | ChQos (ch : nat) (prefetchCount prefetchSize : Z) (global : bool)
  | ChExchangeDeclare (ch : nat) (name kind : string) (durable autoDelete internal noWait : bool)
  | ChExchangeBind (ch : nat) (destination key source : string) (noWait : bool)
  | ChQueueDeclare (ch : nat) (name : string) (durable autoDelete exclusive noWait : bool)
      (args : amqp091Table)
  | ChQueueBind (ch : nat) (name key exchange : string) (noWait : bool) (args : option amqp091Table)
  | ChConsume (ch : nat) (queue consumer : string) (autoAck exclusive : bool)
  | ChPublish (ch : nat) (exchange key : string) (mandatory immediate : bool) (m : Publishing)
  | ChPublishDeferred (ch : nat) (exchange key : string) (mandatory immediate : bool) (m : Publishing)
  | ConfirmWait (dc : nat)
  | ChNotify (ch : nat)
  | DeliveryAck (ch : nat) (tag : Z) (multiple : bool)
  | DeliveryNack (ch : nat) (tag : Z) (multiple requeue : bool).

(** [ChPublishDeferred] replies with an error or a confirmation, which may be
    nil. *)
Definition lib_reply (c : lib_call) : Type :=
  match c with
  | DialConfig _ _ | ConnChannel _ => nat + string
  | LibConnIsClosed _ | LibChIsClosed _ | ConfirmWait _ => bool
  | ChPublishDeferred _ _ _ _ _ _ => option nat + string
  | LibConnNotifyClose _ | ChNotify _ => ()
  | LibConnClose _ | LibChClose _ | ChConfirm _ _ | ChQos _ _ _ _
  | ChExchangeDeclare _ _ _ _ _ _ _ | ChExchangeBind _ _ _ _ _ | ChQueueDeclare _ _ _ _ _ _ _
  | ChQueueBind _ _ _ _ _ _ | ChConsume _ _ _ _ _ | ChPublish _ _ _ _ _ _
  | DeliveryAck _ _ _ | DeliveryNack _ _ _ _ => error
  end.

Definition AmqpLib : Interface := {| icall := lib_call; ireply := lib_reply |}.

(** ** The shim's objects *)

Record amqp091Connection := {
  connection : option nat;
  connStr : string;
  clientIdentifier : string;
  standbyChannel : option nat
}.

Record amqp091Channel := {
  channel : nat;
  chConnection : nat;
  prefetch : Z;
  confirm : bool
}.

Record shim := {
  conns : gmap nat amqp091Connection;
  chans : gmap nat amqp091Channel;
  next : nat
}.

Definition empty_shim : shim := {| conns := ∅; chans := ∅; next := 0 |}.

Definition set_conn (a : nat) (c : amqp091Connection) (s : shim) : shim :=
  {| conns := <[a := c]> (conns s); chans := chans s; next := next s |}.
Definition set_chan (a : nat) (c : amqp091Channel) (s : shim) : shim :=
  {| conns := conns s; chans := <[a := c]> (chans s); next := next s |}.

Section shim.
Context {E : Type} `{Oracle AmqpLib E}.

Abbreviation shprog := (prog (world AmqpLib E shim)).
Abbreviation lib := (ext (I := AmqpLib)).

Definition get_conn (a : nat) : shprog amqp091Connection :=
  s ← reads id;
  match conns s !! a with
  | Some c => mret c
  | None => panic "nil pointer dereference"
  end.
Definition get_chan (a : nat) : shprog amqp091Channel :=
  s ← reads id;
  match chans s !! a with
  | Some c => mret c
  | None => panic "nil pointer dereference"
  end.

(** *** Connections *)

Definition NewAmqp091Connection (connStr clientIdentifier : string) : shprog nat :=
  s ← reads id;
  let a := next s in
  writes (λ s, {| conns := <[a := {| connection := None; connStr := connStr;
                                     clientIdentifier := clientIdentifier;
                                     standbyChannel := None |}]> (conns s);
                  chans := chans s; next := S a |});;
  mret a.

Definition Connect (a : nat) : shprog error :=
  ac ← get_conn a;
  r ← lib (DialConfig (connStr ac) (clientIdentifier ac));
  match r with
  | inr err => mret (Some err)
  | inl conn =>
      writes (set_conn a {| connection := Some conn; connStr := connStr ac;
                            clientIdentifier := clientIdentifier ac;
                            standbyChannel := standbyChannel ac |});;
      mret None
  end.

(** The library channel behind a new channel object. *)
Definition open_channel (a : nat) (conf : bool) : shprog (nat + string) :=
  ac ← get_conn a;
  r ← lib (ConnChannel (connection ac));
  match r with
  | inr err => mret (inr err)
  | inl ch =>
      if conf then
        err ← lib (ChConfirm ch false);
        match err with
        | Some e => mret (inr e)
        | None => mret (inl ch)
        end
      else mret (inl ch)
  end.

Definition NewChannel (a : nat) (conf : bool) : shprog (nat + string) :=
  r ← open_channel a conf;
  match r with
  | inr err => mret (inr err)
  | inl ch =>
      s ← reads id;
      let loc := next s in
      writes (λ s, {| conns := conns s;
                      chans := <[loc := {| channel := ch; chConnection := a; prefetch := 0;
                                           confirm := conf |}]> (chans s);
                      next := S loc |});;
      mret (inl loc)
  end.

Definition ConnClose (a : nat) : shprog error :=
  ac ← get_conn a; lib (LibConnClose (connection ac)).

Definition ConnIsClosed (a : nat) : shprog bool :=
  ac ← get_conn a; lib (LibConnIsClosed (connection ac)).

(** *** Channels *)

Definition ChClose (loc : nat) : shprog error :=
  ch ← get_chan loc; lib (LibChClose (channel ch)).

Definition ChIsClosed (loc : nat) : shprog bool :=
  ch ← get_chan loc; lib (LibChIsClosed (channel ch)).

(** The re-opened library channel replaces the closed one; the channel object
    that [NewChannel] makes for it is dropped. *)
Definition ensureChannel (loc : nat) : shprog error :=
  ch ← get_chan loc;
  closed ← lib (LibChIsClosed (channel ch));
  reopened ←
    (if (closed : bool) then
       r ← NewChannel (chConnection ch) (confirm ch);
       match r with
       | inr err => mret (Some err)
       | inl newCh =>
           n ← get_chan newCh;
           writes (set_chan loc {| channel := channel n; chConnection := chConnection ch;
                                   prefetch := prefetch ch; confirm := confirm ch |});;
           mret None
       end
     else mret None);
  match reopened with
  | Some err => mret (Some err)
  | None =>
      ch ← get_chan loc;
      if 0 <? prefetch ch then lib (ChQos (channel ch) (prefetch ch) 0 false) else mret None
  end.

(** Every channel operation first makes sure of the channel. *)
Definition ensured (loc : nat) (body : amqp091Channel → shprog error) : shprog error :=
  err ← ensureChannel loc;
  match err with
  | Some e => mret (Some e)
  | None => ch ← get_chan loc; body ch
  end.

Definition ExchangeDeclare (loc : nat) (addressName exchangeType : string) (autoDelete : bool) :
    shprog error :=
  ensured loc (λ ch,
    lib (ChExchangeDeclare (channel ch) addressName exchangeType true autoDelete false false)).

Definition ExchangeBind (loc : nat) (addressName subject parentName : string) : shprog error :=
  ensured loc (λ ch, lib (ChExchangeBind (channel ch) addressName subject parentName false)).

Definition QueueDeclare (loc : nat) (name : string) (autoDelete exclusive : bool)
    (args : amqp091Table) : shprog error :=
  ensured loc (λ ch,
    lib (ChQueueDeclare (channel ch) name true autoDelete exclusive false args)).

Definition SetPrefetch (loc : nat) (prefetchCount : Z) : shprog error :=
  ch ← get_chan loc;
  writes (set_chan loc {| channel := channel ch; chConnection := chConnection ch;
                          prefetch := prefetchCount; confirm := confirm ch |});;
  ensureChannel loc.

Definition QueueBind (loc : nat) (name subject destination : string) (args : option amqp091Table) :
    shprog error :=
  ensured loc (λ ch, lib (ChQueueBind (channel ch) name subject destination true args)).

Definition Consume (loc : nat) (subject : string) (autoAck exclusive : bool) : shprog error :=
  ensured loc (λ ch, lib (ChConsume (channel ch) subject "" autoAck exclusive)).

Definition Publish (loc : nat) (addressName subject : string) (msg : amqp091Message) : shprog error :=
  ensured loc (λ ch,
    if negb (confirm ch)
    then lib (ChPublish (channel ch) addressName subject false false (toAmqpMessage msg))
    else
      r ← lib (ChPublishDeferred (channel ch) addressName subject false false (toAmqpMessage msg));
      match r with
      | inr pErr => mret (Some pErr)
      | inl None => mret None
      | inl (Some dc) =>
          recv ← lib (ConfirmWait dc);
          if (recv : bool) then mret None else mret (Some "Publish confirmation failed")
      end).

Definition StandbyChannel (a : nat) : shprog (nat + string) :=
  ac ← get_conn a;
  match standbyChannel ac with
  | None =>
      r ← NewChannel a false;
      match r with
      | inr err => mret (inr err)
      | inl loc =>
          writes (set_conn a {| connection := connection ac; connStr := connStr ac;
                                clientIdentifier := clientIdentifier ac;
                                standbyChannel := Some loc |});;
          mret (inl loc)
      end
  | Some loc =>
      err ← ensureChannel loc;
      match err with
      | Some e => mret (inr e)
      | None => mret (inl loc)
      end
  end.

Definition NotifyClose (loc : nat) : shprog () :=
  ch ← get_chan loc; lib (ChNotify (channel ch)).

(** *** Messages *)

Definition Ack (msg : amqp091Message) : shprog error :=
  match delivery msg with
  | Some (ch, tag) => lib (DeliveryAck ch tag false)
  | None => mret None
  end.

Definition Nack (maxAcquiredCount : Z) (msg : amqp091Message) (requeue : bool) : shprog error :=
  let requeue :=
    if requeue then (if maxAcquiredCountHit maxAcquiredCount (Headers msg) then false else requeue)
    else requeue in
  match delivery msg with
  | Some (ch, tag) => lib (DeliveryNack ch tag false requeue)
  | None => mret None
  end.

End shim.

(** ** The goroutines that relay a close notification

    Both loops wait for one event and send at most one notification on the
    channel they were given, dropping it when the buffer is full. *)

Inductive notify_event :=
  | NCancel (reason : string)             (* [cancelErrors] *)
  | NClose (err : option amqp091Error)    (* [closeErrors] *)
  | NRec                                  (* a receive on [rec] *)
  | NTimer (closed : bool).               (* the timer, and [isClosed()] *)

(** What one turn does: the notification it tries to send, and whether the
    goroutine goes on. *)
Definition notify_turn (clientID : string) (e : notify_event) : option amqp091Error * bool :=
  match e with
  | NCancel reason =>
      (Some (if String.eqb reason "" then zero_error else {| ErrCode := 0; Reason := reason |}), false)
  | NClose err => (Some (default zero_error err), false)
  | NRec => (None, false)
  | NTimer closed =>
      if closed then (Some {| ErrCode := 0; Reason := "Channel closed for client " +:+ clientID |}, false)
      else (None, true)
  end.

Fixpoint channelNotifyCloseLoop (clientID : string) (events : list notify_event) :
    list amqp091Error * bool :=
  match events with
  | [] => ([], true)
  | e :: rest =>
      let '(sent, going) := notify_turn clientID e in
      let '(later, going') := if going then channelNotifyCloseLoop clientID rest else ([], false) in
      (option_list sent ++ later, going')
  end.

(** ** Lemmas *)

(** A logged library call with its reply. *)
Abbreviation ev := (existT (P := λ c : icall AmqpLib, outcome (ireply AmqpLib c))).

Section lemmas.
Context {E : Type} `{Oracle AmqpLib E}.
Implicit Types w : world AmqpLib E shim.

(** Addresses are handed out in order. *)
Definition wf (s : shim) : Prop := ∀ a c, chans s !! a = Some c → (a < next s)%nat.

Lemma ext_run c w :
  ∃ o e, ext (I := AmqpLib) c w = (o, {| st := st w; env := e; log := log w ++ [ev c o] |}).
Proof. unfold ext. destruct (answer c (env w)) as [o e]. by exists o, e. Qed.

Lemma get_chan_run loc ch w : chans (st w) !! loc = Some ch → get_chan loc w = (Ret ch, w).
Proof. intros Hl. unfold get_chan, reads. prog_unfold. cbn [st id]. by rewrite Hl. Qed.

(** What opening a library channel has called: the channel, and the confirm
    mode if it is wanted. *)
Definition opening (conn : option nat) (ch : nat) (conf : bool) : list (event AmqpLib) :=
  ev (ConnChannel conn) (Ret (inl ch)) :: if conf then [ev (ChConfirm ch false) (Ret None)] else [].

(** The library's connection behind the connection object [a]. *)
Definition lib_connection (a : nat) (s : shim) : option nat := conns s !! a ≫= connection.

Lemma open_channel_run a conf w ch w' :
  open_channel a conf w = (Ret (inl ch), w') →
  st w' = st w ∧ log w' = log w ++ opening (lib_connection a (st w)) ch conf.
Proof.
  unfold open_channel, get_conn, reads, lib_connection. prog_unfold. cbn [st id].
  destruct (conns (st w) !! a) as [ac|]; [|done]. cbn [mbind option_bind].
  destruct (ext_run (ConnChannel (connection ac)) w) as (o & e & ->).
  destruct o as [[c|err]|why|]; [|by intros [=]..]. destruct conf.
  - match goal with |- context [ext (ChConfirm c false) ?v] =>
      destruct (ext_run (ChConfirm c false) v) as (o2 & e2 & ->) end.
    destruct o2 as [[err|]|why|]; [by intros [=]| |by intros [=]..]. intros [= <- <-].
    split; [done|]. cbn [log]. by rewrite <- app_assoc.
  - by intros [= <- <-].
Qed.

Lemma NewChannel_run a conf w loc w' :
  NewChannel a conf w = (Ret (inl loc), w') →
  loc = next (st w) ∧
  ∃ ch, chans (st w') = <[loc := {| channel := ch; chConnection := a; prefetch := 0; confirm := conf |}]>
                          (chans (st w)) ∧
        log w' = log w ++ opening (lib_connection a (st w)) ch conf.
Proof.
  unfold NewChannel, reads, writes. prog_unfold.
  destruct (open_channel a conf w) as [[[ch|err]|why|] w1] eqn:Ho; [|by intros [=]..].
  apply open_channel_run in Ho as (Hst & Hl). cbn [st id]. rewrite Hst.
  intros [= <- <-]. split; [done|]. by exists ch.
Qed.

(** What a successful [ensureChannel] has called for the object [ch], whose
    library channel is [c] afterwards: whether the one it had is closed; if it
    is, a new one is opened; and the prefetch count is set. *)
Definition restoring (conn : option nat) (ch : amqp091Channel) (c : nat) (closed : bool) : list (event AmqpLib) :=
  ev (LibChIsClosed (channel ch)) (Ret closed) ::
  (if closed then opening conn c (confirm ch) else []) ++
  (if 0 <? prefetch ch then [ev (ChQos c (prefetch ch) 0 false) (Ret None)] else []).

Definition set_channel (c : nat) (ch : amqp091Channel) : amqp091Channel :=
  {| channel := c; chConnection := chConnection ch; prefetch := prefetch ch; confirm := confirm ch |}.

Lemma set_prefetch_run c n w w' :
  (if 0 <? n then ext (ChQos c n 0 false) else mret None) w = (Ret (None : error), w') →
  st w' = st w ∧ log w' = log w ++ if 0 <? n then [ev (ChQos c n 0 false) (Ret None)] else [].
Proof.
  destruct (0 <? n); [|intros [= <-]; by rewrite app_nil_r].
  destruct (ext_run (ChQos c n 0 false) w) as (o & e & ->). by intros [= -> <-].
Qed.

Lemma ensureChannel_run loc ch w w' :
  wf (st w) → chans (st w) !! loc = Some ch → ensureChannel loc w = (Ret None, w') →
  ∃ c closed, chans (st w') !! loc = Some (set_channel c ch) ∧
    (closed = false → c = channel ch) ∧
    log w' = log w ++ restoring (lib_connection (chConnection ch) (st w)) ch c closed ∧
    (∀ loc' ch', loc' ≠ loc → chans (st w) !! loc' = Some ch' → chans (st w') !! loc' = Some ch') ∧
    ∀ loc' ch', loc' ≠ loc → chans (st w') !! loc' = Some ch' →
      chans (st w) !! loc' = Some ch' ∨ closed = true ∧ channel ch' = c ∧ confirm ch' = confirm ch.
Proof.
  intros Hwf Hloc. unfold ensureChannel. prog_unfold. rewrite (get_chan_run _ _ _ Hloc).
  destruct (ext_run (LibChIsClosed (channel ch)) w) as (o & e & ->).
  destruct o as [[|]|why|]; [| |by intros [=]..].
  - set (w1 := {| st := st w; env := e; log := _ |}).
    destruct (NewChannel (chConnection ch) (confirm ch) w1) as [[[n|err]|why|] w2] eqn:Hn;
      [|by intros [=]..].
    apply NewChannel_run in Hn as (-> & c & Hch & Hl). cbn [st w1] in Hch, Hl.
    rewrite (get_chan_run _ {| channel := c; chConnection := chConnection ch; prefetch := 0;
      confirm := confirm ch |}) by (by rewrite Hch, lookup_insert_eq).
    unfold writes, modify. cbn [channel]. set (w3 := set_st _ w2).
    assert (chans (st w3) !! loc = Some (set_channel c ch)) as Hloc3 by (by cbn; rewrite lookup_insert_eq).
    rewrite (get_chan_run _ _ _ Hloc3). cbn [set_channel prefetch channel].
    intros (Hst & Hlog)%set_prefetch_run. exists c, true. rewrite Hst.
    split; [exact Hloc3|]. split; [done|]. split.
    + rewrite Hlog. cbn [w3 set_st log]. rewrite Hl. cbn [log w1]. unfold restoring. by rewrite <- !app_assoc.
    + split; intros loc' ch' Hne; cbn; rewrite lookup_insert_ne by done; rewrite Hch.
      * intros Hloc'. rewrite lookup_insert_ne; [done|]. apply Hwf in Hloc'. cbn. lia.
      * intros [[_ <-]|[_ Hloc']]%lookup_insert_Some; [by right|by left].
  - set (w1 := {| st := st w; env := e; log := _ |}).
    rewrite (get_chan_run loc ch w1 Hloc). intros (Hst & Hlog)%set_prefetch_run. exists (channel ch), false.
    rewrite Hst. cbn [w1 st]. split; [rewrite Hloc; by destruct ch|]. split; [done|].
    split; [|split; [done|intros loc' ch' _ ?; by left]]. rewrite Hlog. cbn [w1 log]. by rewrite <- app_assoc.
Qed.

(** ** The confirm mode

    The library channel of a confirming object has been put into that mode. *)
Definition in_mode w : Prop :=
  ∀ loc ch, chans (st w) !! loc = Some ch → confirm ch = true → ev (ChConfirm (channel ch) false) (Ret None) ∈ log w.

Lemma opening_confirms conn c : ev (ChConfirm c false) (Ret None) ∈ opening conn c true.
Proof. unfold opening. set_solver. Qed.

Lemma in_mode_log w w' lg : in_mode w → st w' = st w → log w' = log w ++ lg → in_mode w'.
Proof. intros Hm Hs Hl loc ch Hloc Hc. rewrite Hs in Hloc. rewrite Hl. apply elem_of_app. left. by eapply Hm. Qed.

(** A new object is in its mode. *)
Lemma in_mode_NewChannel a conf w loc w' :
  in_mode w → NewChannel a conf w = (Ret (inl loc), w') → in_mode w'.
Proof.
  intros Hm (-> & ch & Hch & Hl)%NewChannel_run loc' c Hloc Hc. rewrite Hch in Hloc. rewrite Hl.
  apply elem_of_app. apply lookup_insert_Some in Hloc as [[_ <-]|[_ Hloc]]; [right|left; by eapply Hm].
  cbn in Hc. subst conf. apply opening_confirms.
Qed.

(** After a successful [ensureChannel] the object is still in its mode. *)
Lemma in_mode_ensured loc ch w w' c closed :
  in_mode w → chans (st w) !! loc = Some ch → confirm ch = true → (closed = false → c = channel ch) →
  log w' = log w ++ restoring (lib_connection (chConnection ch) (st w)) ch c closed →
  ev (ChConfirm c false) (Ret None) ∈ log w'.
Proof.
  intros Hm Hloc Hc Hsame Hl. rewrite Hl. apply elem_of_app. destruct closed; [right|left].
  - unfold restoring. rewrite Hc. apply elem_of_cons. right. apply elem_of_app. left. apply opening_confirms.
  - rewrite Hsame by done. by eapply Hm.
Qed.

(** Every object is. *)
Lemma in_mode_ensureChannel loc ch w w' :
  wf (st w) → in_mode w → chans (st w) !! loc = Some ch → ensureChannel loc w = (Ret None, w') → in_mode w'.
Proof.
  intros Hwf Hm Hloc He loc' ch' Hloc' Hc.
  destruct (ensureChannel_run loc ch w w' Hwf Hloc He) as (c & closed & Hl & Hsame & Hlog & _ & Hold).
  destruct (decide (loc' = loc)) as [->|Hne].
  - rewrite Hl in Hloc'. injection Hloc' as <-. by eapply in_mode_ensured.
  - destruct (Hold loc' ch' Hne Hloc') as [Hloc''|(-> & Hch & Hcf)].
    + rewrite Hlog. apply elem_of_app. left. by eapply Hm.
    + rewrite Hch. eapply in_mode_ensured; [exact Hm|exact Hloc|congruence|exact Hsame|exact Hlog].
Qed.
End lemmas.

(** ** Properties *)

(** C27: A channel that has been closed behind the shim's back comes back as it
    was. When [ensureChannel] succeeds, the channel object has the mode, the
    prefetch count and the connection it had; the calls are exactly these: the
    library is asked whether the channel is closed; if it is, and only then, a
    new channel is opened on the object's connection, is put into confirm mode
    if the object is a confirming one, and takes the place of the old one; and
    the prefetch count, if there is one, is set on the channel the object has
    then. No other object is touched. *)
Theorem ensure_channel_restores {E} `{Oracle AmqpLib E} (w w' : world AmqpLib E shim) loc ch :
  wf (st w) → chans (st w) !! loc = Some ch → ensureChannel loc w = (Ret None, w') →
  ∃ c closed, chans (st w') !! loc = Some (set_channel c ch) ∧
    (closed = false → c = channel ch) ∧
    log w' = log w ++ restoring (lib_connection (chConnection ch) (st w)) ch c closed ∧
    ∀ loc' ch', loc' ≠ loc → chans (st w) !! loc' = Some ch' → chans (st w') !! loc' = Some ch'.
Proof.
  intros Hwf Hloc He. destruct (ensureChannel_run loc ch w w' Hwf Hloc He) as (c & closed & ? & ? & ? & ? & _).
  by exists c, closed.
Qed.

(** C22: On a confirming channel [Publish] reports success only for a message
    the broker confirmed, or for which the library handed out no confirmation
    at all. After the calls that make sure of the channel the message goes out
    once, as it was given, on a library channel that has been put into confirm
    mode, and the confirmation that this very call handed out is waited for;
    nothing else is called. *)
Theorem publish_confirmed {E} `{Oracle AmqpLib E} (w w' : world AmqpLib E shim) loc ch exchange key m :
  wf (st w) → in_mode w → chans (st w) !! loc = Some ch → confirm ch = true →
  Publish loc exchange key m w = (Ret None, w') →
  ∃ c closed dc,
    log w' = (log w ++ restoring (lib_connection (chConnection ch) (st w)) ch c closed) ++
      ev (ChPublishDeferred c exchange key false false (toAmqpMessage m)) (Ret (inl dc)) ::
      match dc with Some dc => [ev (ConfirmWait dc) (Ret true)] | None => [] end ∧
    (closed = false → c = channel ch) ∧
    ev (ChConfirm c false) (Ret None) ∈ log w ++ restoring (lib_connection (chConnection ch) (st w)) ch c closed.
Proof.
  intros Hwf Hm Hloc Hc. unfold Publish, ensured. prog_unfold.
  destruct (ensureChannel loc w) as [[[err|]|why|] w1] eqn:He; [by intros [=]| |by intros [=]..].
  destruct (ensureChannel_run _ _ _ _ Hwf Hloc He) as (c & closed & Hl & Hsame & Hlog & _).
  pose proof (in_mode_ensured loc ch w w1 c closed Hm Hloc Hc Hsame Hlog) as Hin. rewrite Hlog in Hin.
  rewrite (get_chan_run _ _ _ Hl). cbn [set_channel confirm channel]. rewrite Hc. cbn [negb].
  destruct (ext_run (ChPublishDeferred c exchange key false false (toAmqpMessage m)) w1) as (o & e & ->).
  destruct o as [[[dc|]|err]|why|]; [| |by intros [=]..].
  - match goal with |- context [ext (ConfirmWait dc) ?v] =>
      destruct (ext_run (ConfirmWait dc) v) as (o2 & e2 & ->) end.
    destruct o2 as [[|]|why|]; [|by intros [=]..]. intros [= <-].
    exists c, closed, (Some dc). split; [|done]. cbn [log]. by rewrite Hlog, <- !app_assoc.
  - intros [= <-]. exists c, closed, None. split; [|done]. cbn [log]. by rewrite Hlog.
Qed.

(** C16: The redelivery cap: a rejection sends exactly one negative
    acknowledgement for the delivery, on the channel it came on, and asks for redelivery only when the
    caller does and the acquired count has not passed the threshold. *)
Theorem nack_redelivery_cap {E} `{Oracle AmqpLib E} (w : world AmqpLib E shim) maxCount m ch tag requeue :
  delivery m = Some (ch, tag) →
  (∃ o, run_result (Nack maxCount m requeue) w = o ∧
     log (run_state (Nack maxCount m requeue) w) = log w ++
       [ev (DeliveryNack ch tag false (requeue && negb (maxAcquiredCountHit maxCount (Headers m)))) o]) ∧
  (∀ c, header (Headers m) "x-acquired-count" = Some (VInt32 c) ∨
        header (Headers m) "x-acquired-count" = Some (VInt64 c) ∧ in_int32 c →
     maxAcquiredCountHit maxCount (Headers m) = (maxCount <? c)).
Proof.
  intros Hd. unfold Nack. rewrite Hd. split.
  - set (r := if requeue then _ else _).
    assert (r = requeue && negb (maxAcquiredCountHit maxCount (Headers m))) as ->
      by (subst r; destruct requeue; [|done]; by destruct (maxAcquiredCountHit _ _)).
    destruct (ext_run (DeliveryNack ch tag false
      (requeue && negb (maxAcquiredCountHit maxCount (Headers m)))) w) as (o & e & Hr).
    exists o. unfold run_result, run_state. by rewrite Hr.
  - intros c Hc. unfold maxAcquiredCountHit.
    destruct Hc as [->|[-> Hc]]; [done|]. by rewrite int32_small.
Qed.

(** ** Witnesses *)

(** A library in which every channel is found closed and the broker confirms. *)
#[local] Instance closing_lib : Oracle AmqpLib nat := λ c n,
  match c return outcome (lib_reply c) * nat with
  | DialConfig _ _ => (Ret (inl n), S n)
  | ConnChannel _ => (Ret (inl n), S n)
  | LibConnIsClosed _ => (Ret false, n)
  | LibChIsClosed _ => (Ret true, n)
  | ConfirmWait _ => (Ret true, n)
  | ChPublishDeferred _ _ _ _ _ _ => (Ret (inl (Some n)), S n)
  | LibConnNotifyClose _ => (Ret (), n)
  | ChNotify _ => (Ret (), n)
  | LibConnClose _ => (Ret None, n)
  | LibChClose _ => (Ret None, n)
  | ChConfirm _ _ => (Ret None, n)
  | ChQos _ _ _ _ => (Ret None, n)
  | ChExchangeDeclare _ _ _ _ _ _ _ => (Ret None, n)
  | ChExchangeBind _ _ _ _ _ => (Ret None, n)
  | ChQueueDeclare _ _ _ _ _ _ _ => (Ret None, n)
  | ChQueueBind _ _ _ _ _ _ => (Ret None, n)
  | ChConsume _ _ _ _ _ => (Ret None, n)
  | ChPublish _ _ _ _ _ _ => (Ret None, n)
  | DeliveryAck _ _ _ => (Ret None, n)
  | DeliveryNack _ _ _ _ => (Ret None, n)
  end.

Definition demo_channel : amqp091Channel := {| channel := 7; chConnection := 0; prefetch := 5; confirm := true |}.
Definition demo_world : world AmqpLib nat shim := {|
  st := {| conns := {[ 0%nat := {| connection := Some 0%nat; connStr := ""; clientIdentifier := "c-1";
                                   standbyChannel := None |} ]};
           chans := {[ 1%nat := demo_channel ]};
           next := 2 |};
  env := 8%nat; log := [ev (ChConfirm 7 false) (Ret None)] |}.

Lemma demo_wf : wf (st demo_world).
Proof. intros a c Ha. cbn in Ha. apply lookup_singleton_Some in Ha as [<- _]. cbn. lia. Qed.

Lemma demo_in_mode : in_mode demo_world.
Proof. intros a c Ha _. cbn in Ha. apply lookup_singleton_Some in Ha as [_ <-]. constructor. Qed.

Lemma ensure_channel_restores_witness : ∃ w' c closed,
  ensureChannel 1 demo_world = (Ret None, w') ∧
  log w' = log demo_world ++ restoring (Some 0%nat) demo_channel c closed.
Proof.
  eexists. destruct (ensure_channel_restores demo_world (snd (ensureChannel 1 demo_world)) 1 demo_channel)
    as (c & closed & _ & _ & Hl & _).
  - exact demo_wf.
  - reflexivity.
  - vm_compute. reflexivity.
  - exists c, closed. split; [|exact Hl]. vm_compute. reflexivity.
Defined.

(** On that run: the channel was closed and another one took its place. *)
Example channel_restored :
  log (snd (ensureChannel 1 demo_world)) = log demo_world ++
    [ev (LibChIsClosed 7) (Ret true); ev (ConnChannel (Some 0%nat)) (Ret (inl 8%nat));
     ev (ChConfirm 8 false) (Ret None); ev (ChQos 8 5 0 false) (Ret None)].
Proof. reflexivity. Qed.

Lemma publish_confirmed_witness : ∃ c,
  ev (ChConfirm c false) (Ret None) ∈ log (snd (Publish 1 "orders" "new" empty_message demo_world)) ∧
  fst (Publish 1 "orders" "new" empty_message demo_world) = Ret None.
Proof.
  destruct (publish_confirmed demo_world (snd (Publish 1 "orders" "new" empty_message demo_world)) 1
    demo_channel "orders" "new" empty_message) as (c & closed & dc & Hl & _ & Hc).
  - exact demo_wf.
  - exact demo_in_mode.
  - reflexivity.
  - reflexivity.
  - vm_compute. reflexivity.
  - exists c. split; [rewrite Hl; apply elem_of_app; left; exact Hc | vm_compute; reflexivity].
Defined.

Lemma nack_redelivery_cap_witness :
  let m := {| delivery := Some (7%nat, 3); Body := []; DeliveryMode := 1; ContentType := "";
              ContentEncoding := ""; Headers := Some {[ "x-acquired-count" := VInt64 21 ]};
              DeliveryTag := 3 |} in
  maxAcquiredCountHit 20 (Headers m) = true.
Proof.
  intros m. destruct (nack_redelivery_cap demo_world 20 m 7 3 true eq_refl) as [_ H].
  apply (H 21). right. split; [reflexivity|]. split; [discriminate | reflexivity].
Defined.

End Shim.
