(* ===== verification/Notify.v ===== *)
(** * [amqp091shim.go], [amqp091.go]: the news that a connection has closed

    Between the library and a subscription, or a publish stream, stands a
    goroutine that hands on one notification, through a channel with room for
    one. It also receives from that channel itself: a subscription that ends
    leaves a message there, so that the goroutine ends too. Both sides run in any
    order. *)

From Stdlib Require Import Ascii String.
From stdpp Require Import base gmap strings list fin_maps option.
From Stdlib Require Import ZArith Lia.
From S2P Require Import Prelude Effects GoStrings Api Amqp Shim.

Module Relay.
Import Amqp Shim.
Open Scope list_scope.

(** [amqpErrors] is what the library has sent, [rec] the shared channel; [got] is
    what the subscription has received, and [ended] whether it has left its
    message. *)
Record relay := mkRelay {
  amqpErrors : option (option amqp091Error);
  rec : option amqp091Error;
  relaying : bool;
  got : list amqp091Error;
  ended : bool
}.

(** [NotifyClose] on a new channel. *)
Definition NotifyClose : relay := mkRelay None None true [] false.

(** Who acts: the library, which sends an error or closes its channel; the
    goroutine, on the library's channel or on the shared one; the subscription,
    which receives, or ends with its message. *)
Inductive actor :=
  | Library (err : option amqp091Error)
  | RelayErrors
  | RelayRec
  | Receive
  | Done (msg : amqp091Error).

(** A send that does not wait. *)
Definition try_send (e : amqp091Error) (ch : option amqp091Error) : option amqp091Error :=
  match ch with None => Some e | Some _ => ch end.

(** One action; an actor that cannot act leaves everything as it is. *)
Definition act (a : actor) (s : relay) : relay :=
  match a with
  | Library err =>
      match amqpErrors s with
      | None => mkRelay (Some err) (rec s) (relaying s) (got s) (ended s)
      | Some _ => s
      end
  | RelayErrors =>
      match relaying s, amqpErrors s with
      | true, Some err => mkRelay None (try_send (default zero_error err) (rec s)) false (got s) (ended s)
      | _, _ => s
      end
  | RelayRec =>
      match relaying s, rec s with
      | true, Some _ => mkRelay (amqpErrors s) None false (got s) (ended s)
      | _, _ => s
      end
  | Receive =>
      match ended s, rec s with
      | false, Some e => mkRelay (amqpErrors s) None (relaying s) (got s ++ [e]) (ended s)
      | _, _ => s
      end
  | Done msg => if ended s then s else mkRelay (amqpErrors s) (try_send msg (rec s)) (relaying s) (got s) true
  end.

Definition run (sched : list actor) (s : relay) : relay := foldl (λ s a, act a s) s sched.

(** What holds all the time: as long as the subscription goes on there is nothing
    in the channel before the goroutine has handed on its notification, and
    afterwards it is there or has been received; and when the subscription has
    ended the goroutine has something to receive. *)
Definition told (s : relay) : list amqp091Error := got s ++ option_list (rec s).
Record good (s : relay) : Prop := {
  good_quiet : ended s = false → relaying s = true → told s = [];
  good_told : ended s = false → relaying s = false → ∃ e, told s = [e];
  good_ends : ended s = true → relaying s = true → is_Some (rec s);
  good_once : (length (got s) ≤ 1)%nat
}.

Lemma act_good a s : good s → good (act a s).
Proof.
  intros [Hq Ht He Ho]. destruct s as [lib ch go seen over]. unfold told in *. cbn in *.
  assert (over = false → go = true → seen = [] ∧ ch = None) as Hquiet
    by (intros Hv Hg; specialize (Hq Hv Hg); by destruct seen, ch).
  destruct a as [err| | | |msg]; cbn.
  - by destruct lib.
  - destruct go, lib as [err|]; try done. destruct over; [by split|].
    destruct (Hquiet eq_refl eq_refl) as [-> ->]. split; cbn; [done|intros _ _; by eexists|done|lia].
  - destruct go, ch as [e|]; try done. destruct over; [by split|]. by destruct (Hquiet eq_refl eq_refl).
  - destruct over, ch as [e|]; try done. destruct go; [by destruct (Hquiet eq_refl eq_refl)|].
    destruct (Ht eq_refl eq_refl) as [e' Hs]. destruct seen as [|? [|? ?]]; simplify_eq/=.
    split; cbn; [done|intros _ _; by eexists|done|lia].
  - destruct over; [done|]. split; cbn; [done|done| |done]. intros _ _. destruct ch; by eexists.
Qed.

Lemma run_good sched s : good s → good (run sched s).
Proof. revert s. induction sched as [|a sched IH]; intros s Hs; [done|]. by apply IH, act_good. Qed.

Lemma start_good : good NotifyClose.
Proof. split; cbn; try done. lia. Qed.

(** C36: The end of a connection reaches who listens for it, once: whatever the
    order in which the library, the goroutine and the subscription act, the
    subscription never receives a second notification; as long as it goes on, it
    has received or can receive one as soon as the goroutine has taken what the
    library has sent, and can receive none before; and when it has ended, the
    goroutine has ended too or finds the message that ends it. *)
Theorem close_notified sched :
  let s := run sched NotifyClose in
  (length (got s) <= 1)%nat ∧
  (ended s = false → relaying s = true → told s = []) ∧
  (ended s = false → relaying s = false → ∃ e, told s = [e]) ∧
  (ended s = true → relaying (act RelayRec s) = false).
Proof.
  intros s. destruct (run_good sched NotifyClose start_good) as [Hq Ht He Ho]. split_and!; [done..|].
  intros Hd. fold s in He. unfold act. destruct (relaying s) eqn:Hr; [|done].
  by destruct (He Hd eq_refl) as [e ->].
Qed.

End Relay.
