(* ===== verification/BrokerState.v ===== *)
(** * [connectors/amqp091/amqp091.go]: the state of the AMQP provider

    [broker] is the provider with everything it shares: the [BrokerDetails]
    objects by address, the map of connections (client identifier to address),
    the latches of the stream subscriptions, the process-wide table of client
    identifiers, and the one TLS configuration every connection points to.
    A handler of the provider is a program over [world Shim E broker]. *)

From Stdlib Require Import Ascii String.
From stdpp Require Import base gmap strings list fin_maps option.
From Stdlib Require Import ZArith Lia.
From S2P Require Import Prelude Effects GoStrings Api ConcurrentMap BlockingLatch BlockingPool ClientIds Provider Compression Stream Amqp.

Module BrokerState.
Import Amqp ConcurrentMap.
Open Scope Z_scope.
Open Scope list_scope.

(** A delivered message that waits for its acknowledgement. For a stream
    message the record holds what its two callbacks capture: the latch of the
    subscription, the consumer, and the names the offset is stored under. *)
Record streamActive := {
  saMessage : Compression.streamMessage;
  saLatch : nat;
  saConsumer : option nat;
  saSource : string;
  saConsumerName : string
}.

Inductive active :=
  | ActAmqp (m : amqp091Message)
  | ActStream (s : streamActive).

(** [BrokerDetails]. The mutexes, channels and contexts that only order
    goroutines are left out; [shutdown] says whether [shutdownChan] holds a
    value. The management client, made once per connection, is the oracle's. *)
Record BrokerDetails := mkBD {
  Connection : option nat;
  RetryChannel : option nat;
  pubChannels : BlockingPool.BlockingPool nat;
  pubPCChannels : BlockingPool.BlockingPool nat;
  StreamConnection : option nat;
  ClientIdentifier : string;
  knownExchanges : gmap string bool;
  knownQueues : gmap string bool;
  knownBindings : gmap string bool;
  activeMessages : gmap string active;
  state : Z;
  connectionConfig : ConnectionConfiguration;
  tlsSkipVerify : bool;
  ActiveStreams : Z;
  consumed : Z;
  produced : Z;
  clientDisconnect : bool;
  lastPubSubEvent : Z;
  tlsEnabled : bool;
  shutdown : bool
}.

Definition set_Connection (v : option nat) (bd : BrokerDetails) : BrokerDetails :=
  let 'mkBD _ b c d e f g h i j k l m n o p q r s t := bd in
  mkBD v b c d e f g h i j k l m n o p q r s t.
Definition set_RetryChannel (v : option nat) (bd : BrokerDetails) : BrokerDetails :=
  let 'mkBD a _ c d e f g h i j k l m n o p q r s t := bd in
  mkBD a v c d e f g h i j k l m n o p q r s t.
Definition set_pubChannels (v : BlockingPool.BlockingPool nat) (bd : BrokerDetails) : BrokerDetails :=
  let 'mkBD a b _ d e f g h i j k l m n o p q r s t := bd in
  mkBD a b v d e f g h i j k l m n o p q r s t.
Definition set_pubPCChannels (v : BlockingPool.BlockingPool nat) (bd : BrokerDetails) : BrokerDetails :=
  let 'mkBD a b c _ e f g h i j k l m n o p q r s t := bd in
  mkBD a b c v e f g h i j k l m n o p q r s t.
Definition set_StreamConnection (v : option nat) (bd : BrokerDetails) : BrokerDetails :=
  let 'mkBD a b c d _ f g h i j k l m n o p q r s t := bd in
  mkBD a b c d v f g h i j k l m n o p q r s t.
Definition set_knownExchanges (v : gmap string bool) (bd : BrokerDetails) : BrokerDetails :=
  let 'mkBD a b c d e f _ h i j k l m n o p q r s t := bd in
  mkBD a b c d e f v h i j k l m n o p q r s t.
Definition set_knownQueues (v : gmap string bool) (bd : BrokerDetails) : BrokerDetails :=
  let 'mkBD a b c d e f g _ i j k l m n o p q r s t := bd in
  mkBD a b c d e f g v i j k l m n o p q r s t.
Definition set_knownBindings (v : gmap string bool) (bd : BrokerDetails) : BrokerDetails :=
  let 'mkBD a b c d e f g h _ j k l m n o p q r s t := bd in
  mkBD a b c d e f g h v j k l m n o p q r s t.
Definition set_activeMessages (v : gmap string active) (bd : BrokerDetails) : BrokerDetails :=
  let 'mkBD a b c d e f g h i _ k l m n o p q r s t := bd in
  mkBD a b c d e f g h i v k l m n o p q r s t.
Definition set_state (v : Z) (bd : BrokerDetails) : BrokerDetails :=
  let 'mkBD a b c d e f g h i j _ l m n o p q r s t := bd in
  mkBD a b c d e f g h i j v l m n o p q r s t.
Definition set_ActiveStreams (v : Z) (bd : BrokerDetails) : BrokerDetails :=
  let 'mkBD a b c d e f g h i j k l m _ o p q r s t := bd in
  mkBD a b c d e f g h i j k l m v o p q r s t.
Definition set_consumed (v : Z) (bd : BrokerDetails) : BrokerDetails :=
  let 'mkBD a b c d e f g h i j k l m n _ p q r s t := bd in
  mkBD a b c d e f g h i j k l m n v p q r s t.
Definition set_produced (v : Z) (bd : BrokerDetails) : BrokerDetails :=
  let 'mkBD a b c d e f g h i j k l m n o _ q r s t := bd in
  mkBD a b c d e f g h i j k l m n o v q r s t.
Definition set_clientDisconnect (v : bool) (bd : BrokerDetails) : BrokerDetails :=
  let 'mkBD a b c d e f g h i j k l m n o p _ r s t := bd in
  mkBD a b c d e f g h i j k l m n o p v r s t.
Definition set_lastPubSubEvent (v : Z) (bd : BrokerDetails) : BrokerDetails :=
  let 'mkBD a b c d e f g h i j k l m n o p q _ s t := bd in
  mkBD a b c d e f g h i j k l m n o p q v s t.
Definition set_tlsEnabled (v : bool) (bd : BrokerDetails) : BrokerDetails :=
  let 'mkBD a b c d e f g h i j k l m n o p q r _ t := bd in
  mkBD a b c d e f g h i j k l m n o p q r v t.
Definition set_shutdown (v : bool) (bd : BrokerDetails) : BrokerDetails :=
  let 'mkBD a b c d e f g h i j k l m n o p q r s _ := bd in
  mkBD a b c d e f g h i j k l m n o p q r s v.

Record broker := {
  details : gmap nat BrokerDetails;
  connections : gmap string nat;
  nextAddr : nat;
  latches : gmap nat BlockingLatch.BlockingLatch;
  clientMap : gmap string string;
  insecureSkipVerify : bool      (* of the provider's [tlsConfig] *)
}.

Definition NewAMQP091Provider : broker := {|
  details := ∅; connections := NewConcurrentMap; nextAddr := 0; latches := ∅;
  clientMap := ∅; insecureSkipVerify := false |}.

Definition set_details (m : gmap nat BrokerDetails) (b : broker) : broker := {|
  details := m; connections := connections b; nextAddr := nextAddr b; latches := latches b;
  clientMap := clientMap b; insecureSkipVerify := insecureSkipVerify b |}.
Definition set_connections (m : gmap string nat) (b : broker) : broker := {|
  details := details b; connections := m; nextAddr := nextAddr b; latches := latches b;
  clientMap := clientMap b; insecureSkipVerify := insecureSkipVerify b |}.
Definition set_latches (m : gmap nat BlockingLatch.BlockingLatch) (b : broker) : broker := {|
  details := details b; connections := connections b; nextAddr := nextAddr b; latches := m;
  clientMap := clientMap b; insecureSkipVerify := insecureSkipVerify b |}.
Definition set_nextAddr (n : nat) (b : broker) : broker := {|
  details := details b; connections := connections b; nextAddr := n; latches := latches b;
  clientMap := clientMap b; insecureSkipVerify := insecureSkipVerify b |}.
Definition set_insecure (v : bool) (b : broker) : broker := {|
  details := details b; connections := connections b; nextAddr := nextAddr b; latches := latches b;
  clientMap := clientMap b; insecureSkipVerify := v |}.

Abbreviation bprog E := (prog (world Shim E broker)).

Section access.
Context {E : Type} `{Oracle Shim E}.

Definition call (c : shim_call) : bprog E (shim_reply c) := ext (I := Shim) c.

(** The object at an address. *)
Definition get_bd (l : nat) : bprog E BrokerDetails :=
  b ← reads id;
  match details b !! l with
  | Some bd => mret bd
  | None => panic "invalid memory address or nil pointer dereference"
  end.

Definition upd_bd (l : nat) (f : BrokerDetails → BrokerDetails) : bprog E () :=
  writes (λ b, set_details (alter f l (details b)) b).

(** A method call on an interface value, which may be nil. *)
Definition on_iface {A} (i : option nat) (f : nat → bprog E A) : bprog E A :=
  match i with
  | Some h => f h
  | None => panic "invalid memory address or nil pointer dereference"
  end.

Definition with_conn {A} (l : nat) (f : nat → bprog E A) : bprog E A :=
  bd ← get_bd l; on_iface (Connection bd) f.

(** [getBrokerDetailsByIdentifier]; its callers read the object. *)
Definition getBrokerDetailsByIdentifier (clientIdentifier : string) (b : broker) : option nat :=
  Get clientIdentifier (connections b).

Definition ClientExists (clientIdentifier : string) (b : broker) : bool :=
  bool_decide (is_Some (getBrokerDetailsByIdentifier clientIdentifier b)).

(** The address of the caller's object, or an error. *)
Definition getBrokerDetails (ctx : ClientIds.peer) : bprog E (nat + string) :=
  b ← reads id;
  match ClientIds.GetClientIdentifier ctx (clientMap b) with
  | (_, Some err) => mret (inr err)
  | (clientIdentifier, None) =>
      match getBrokerDetailsByIdentifier clientIdentifier b with
      | Some l => mret (inl l)
      | None => mret (inr ("could not retrieve broker details for this connection: " +:+ clientIdentifier))
      end
  end.

(** The prologue the handlers share. *)
Definition with_details (ctx : ClientIds.peer) (body : nat → bprog E (option Error)) :
    bprog E (option Error) :=
  r ← getBrokerDetails ctx;
  match r with
  | inr err => mret (Some (mkError err))
  | inl l => body l
  end.

Definition updateLastPubSubEvent (l : nat) : bprog E () :=
  now ← call KNow; upd_bd l (set_lastPubSubEvent now).

Definition incrementStreamCount (l : nat) : bprog E () :=
  upd_bd l (λ bd, set_ActiveStreams (int64 (ActiveStreams bd + 1)) bd);;
  updateLastPubSubEvent l.

Definition decrementStreamCount (l : nat) : bprog E () :=
  upd_bd l (λ bd, set_ActiveStreams (int64 (ActiveStreams bd - 1)) bd);;
  updateLastPubSubEvent l.

Definition exchangeKnown (name : string) (bd : BrokerDetails) : bool :=
  bool_decide (is_Some (Get name (knownExchanges bd))).
Definition queueKnown (name : string) (bd : BrokerDetails) : bool :=
  bool_decide (is_Some (Get name (knownQueues bd))).
Definition bindingKnown (name : string) (bd : BrokerDetails) : bool :=
  bool_decide (is_Some (Get name (knownBindings bd))).

Definition add_knownExchange (name : string) (bd : BrokerDetails) : BrokerDetails :=
  set_knownExchanges (Add name true (knownExchanges bd)) bd.
Definition add_knownQueue (name : string) (bd : BrokerDetails) : BrokerDetails :=
  set_knownQueues (Add name true (knownQueues bd)) bd.
Definition add_knownBinding (name : string) (bd : BrokerDetails) : BrokerDetails :=
  set_knownBindings (Add name true (knownBindings bd)) bd.
Definition add_active (id : string) (a : active) (bd : BrokerDetails) : BrokerDetails :=
  set_activeMessages (Add id a (activeMessages bd)) bd.
Definition delete_active (id : string) (bd : BrokerDetails) : BrokerDetails :=
  set_activeMessages (Delete id (activeMessages bd)) bd.

(** ** Lemmas *)

Lemma get_bd_run l bd (w : world Shim E broker) :
  details (st w) !! l = Some bd → get_bd l w = (Ret bd, w).
Proof. intros Hl. unfold get_bd, reads. prog_unfold. cbn. by rewrite Hl. Qed.

Lemma upd_bd_run l f (w : world Shim E broker) :
  upd_bd l f w = (Ret (), set_st (set_details (alter f l (details (st w))) (st w)) w).
Proof. done. Qed.

Lemma call_run c (w : world Shim E broker) :
  call c w = (fst (answer (I := Shim) c (env w)),
              {| st := st w; env := snd (answer (I := Shim) c (env w));
                 log := log w ++ [ev c (fst (answer (I := Shim) c (env w)))] |}).
Proof. unfold call, ext. by destruct (answer _ _). Qed.

Lemma upd_bd_at l f bd w :
  details (st w) !! l = Some bd →
  upd_bd l f w = (Ret (), set_st (set_details (<[l := f bd]> (details (st w))) (st w)) w).
Proof. intros Hl. rewrite upd_bd_run. by rewrite (alter_at _ _ _ _ Hl). Qed.

(** *** Looking at one object *)

Lemma details_upd l f b :
  details (set_details (alter f l (details b)) b) !! l = f <$> details b !! l.
Proof. cbn. apply lookup_alter_eq. Qed.

Lemma details_upd_ne l l' f b :
  l ≠ l' → details (set_details (alter f l (details b)) b) !! l' = details b !! l'.
Proof. intros. cbn. by rewrite lookup_alter_ne. Qed.

(** The object at [l] is there and satisfies [P]. *)
Definition at_bd (l : nat) (P : BrokerDetails → Prop) (b : broker) : Prop :=
  ∃ bd, details b !! l = Some bd ∧ P bd.

Lemma at_bd_upd l P f b : (∀ bd, P bd → P (f bd)) →
  at_bd l P b → at_bd l P (set_details (alter f l (details b)) b).
Proof.
  intros Hf (bd & Hl & HP). exists (f bd). rewrite details_upd, Hl. split; [done|by apply Hf].
Qed.

Lemma call_returns `{!Returns E} c w :
  ∃ r e, answer (I := Shim) c (env w) = (Ret r, e) ∧
    call c w = (Ret r, {| st := st w; env := e; log := log w ++ [ev c (Ret r)] |}).
Proof. destruct (returns c (env w)) as (r & e & He). exists r, e. by rewrite call_run, He. Qed.

Lemma ends_call `{!Returns E} c : ends (call c).
Proof. intros w. destruct (call_returns c w) as (r & e & _ & ->). done. Qed.

Lemma ends_get_bd l : ends (I := Shim) (E := E) (get_bd l).
Proof. unfold get_bd. by ends_solve. Qed.

(** The client of a context, when it has an open connection. *)
Definition client_at (ctx : ClientIds.peer) (l : nat) (b : broker) : Prop :=
  ∃ id, ClientIds.GetClientIdentifier ctx (clientMap b) = (id, None) ∧
        Get id (connections b) = Some l.

Lemma getBrokerDetails_run ctx l (w : world Shim E broker) :
  client_at ctx l (st w) → getBrokerDetails ctx w = (Ret (inl l), w).
Proof.
  intros (id & Hid & Hl). unfold getBrokerDetails, getBrokerDetailsByIdentifier, reads.
  prog_unfold. cbn. by rewrite Hid, Hl.
Qed.

(** A context without an open connection gets an error, and nothing happens. *)
Lemma with_details_none ctx body (w : world Shim E broker) :
  (∀ l, ¬ client_at ctx l (st w)) → ∃ e, with_details ctx body w = (Ret (Some (mkError e)), w).
Proof.
  intros Hno. unfold with_details, getBrokerDetails, getBrokerDetailsByIdentifier, reads.
  prog_unfold. cbn. destruct (ClientIds.GetClientIdentifier ctx (clientMap (st w))) as [cid [e|]] eqn:Hid;
    [by eexists|].
  destruct (Get cid (connections (st w))) as [l|] eqn:Hl; [|by eexists].
  exfalso. apply (Hno l). by exists cid.
Qed.

Lemma with_details_some ctx l body (w : world Shim E broker) :
  client_at ctx l (st w) → with_details ctx body w = body l w.
Proof.
  intros Hc. unfold with_details. prog_unfold. by rewrite (getBrokerDetails_run _ _ _ Hc).
Qed.

End access.

Ltac ends_the_call :=
  match goal with |- ends ?m => match m with call ?c => exact (ends_call c) end end.

(** ** A concrete provider, for running the model

    One client, "c-1" at the address 0, connected, from the peer
    "10.0.0.7:4711". *)
Definition demo_config : ConnectionConfiguration := {|
  Host := "rabbit"; Port := 5672; ProviderName := "amqp091"; Tenant := "";
  Creds := Some {| Username := "user"; Password := "secret" |}; Tls := false;
  ClientName := "c"; AdminPort := 0 |}.

Definition demo_details (act : gmap string active) : BrokerDetails := {|
  Connection := Some 1%nat; RetryChannel := None;
  pubChannels := BlockingPool.NewBlockingPool false 10;
  pubPCChannels := BlockingPool.NewBlockingPool false 10;
  StreamConnection := Some 2%nat; ClientIdentifier := "c-1"; knownExchanges := ∅;
  knownQueues := ∅; knownBindings := ∅; activeMessages := act; state := Provider.CONNECTED;
  connectionConfig := demo_config; tlsSkipVerify := false; ActiveStreams := 1; consumed := 0;
  produced := 0; clientDisconnect := false; lastPubSubEvent := 0; tlsEnabled := false;
  shutdown := false |}.

Definition demo_peer : ClientIds.peer := Some "10.0.0.7:4711".

Definition demo_broker (act : gmap string active) : broker := {|
  details := {[ 0%nat := demo_details act ]}; connections := {[ "c-1" := 0%nat ]}; nextAddr := 1;
  latches := ∅; clientMap := {[ "10.0.0.7:4711" := "c-1" ]}; insecureSkipVerify := false |}.

Definition demo_world (act : gmap string active) : world Shim nat broker :=
  {| st := demo_broker act; env := 10%nat; log := [] |}.

Lemma demo_client act : client_at demo_peer 0 (demo_broker act).
Proof. exists "c-1". split; reflexivity. Qed.

End BrokerState.
