(* ===== verification/BrokerDeclare.v ===== *)
(** * [connectors/amqp091/amqp091.go]: declaring exchanges, queues and bindings

    JSON decoding ([encoding/json]) and the HTTP client are asked for through
    [Json] and the oracle; everything the provider does with their answers is
    here. *)

From Stdlib Require Import Ascii String.
From stdpp Require Import base gmap strings list fin_maps option.
From Stdlib Require Import ZArith Lia.
From S2P Require Import Prelude Effects GoStrings Api ConcurrentMap Provider Amqp BrokerState.

(** A decoded JSON value; only strings are looked into. *)
Inductive json := JString (s : string) | JOther (txt : string).

(** [json.Unmarshal(body, &results)] into a slice of objects: what is decoded,
    and the error. *)
Class Json := { Unmarshal : string → list (gmap string json) * error }.

Module BrokerDeclare.
Import Amqp ConcurrentMap BrokerState.
Open Scope Z_scope.
Open Scope list_scope.

(** ** Names and types *)

Definition addressTypeToAmqpType (aType : Address_TargetType) : string + string :=
  match aType with
  | Address_TOPIC => inl "topic"
  | Address_FILTER => inl "headers"
  | Address_QUEUE => inl "direct"
  | Address_STREAM => inl "stream"
  | Address_other _ => inr (Address_TargetType_String aType +:+ " is not a valid address type")
  end.

Definition sourceTypeToAmqpType (source : Source) : string + string :=
  if AutoDelete source then inl "classic"
  else match SourceType source with
       | Source_QUEUE => inl "quorum"
       | Source_TEMPORARY => inl "classic"
       | t => inr (Source_TargetType_String t +:+ " is not a valid source type")
       end.

Definition isQuorum (source : Source) : bool :=
  if AutoDelete source then false else bool_decide (SourceType source = Source_QUEUE).

Definition sourceName (source : Source) : string :=
  if isQuorum source && negb (has_suffix ".quorum" (SourceName source))
  then SourceName source +:+ ".quorum"
  else SourceName source.

Definition ignoreDeclareError (err : error) : bool :=
  match err with
  | None => true
  | Some e => contains "PRECONDITION_FAILED" e && contains "inequivalent arg" e
  end.

Section declare.
Context {E : Type} `{Oracle Shim E} `{MapRange} `{Json}.

(** ** Exchanges *)

Definition zero_Address : Address := mkAddress "" [] Address_TOPIC false None.

(** The body of [declareExchange] for a non-nil address; the parent is
    declared by the same function. *)
Fixpoint declareExchange_ (address : Address) (l : nat) : bprog E error :=
  let 'mkAddress name subjects aType autoDelete parent := address in
  if contains "amq." name then mret None
  else
    r ← with_conn l (λ c, call (KStandbyChannel c));
    match r with
    | inr err => mret (Some err)
    | inl amqpChannel =>
        bd ← get_bd l;
        declared ←
          (if exchangeKnown name bd then mret None
           else match addressTypeToAmqpType aType with
                | inr err => mret (Some err)
                | inl exchangeType =>
                    err ← call (KExchangeDeclare amqpChannel name exchangeType autoDelete);
                    if ignoreDeclareError err
                    then upd_bd l (add_knownExchange name);; mret None
                    else mret err
                end);
        match declared with
        | Some err => mret (Some err)
        | None =>
            match parent with
            | None => mret None
            | Some p =>
                bd ← get_bd l;
                (if exchangeKnown (AddressName p) bd then mret ()
                 else declareExchange_ p l;; upd_bd l (add_knownExchange (AddressName p)));;
                r ← for_range subjects (λ subject,
                      err ← call (KExchangeBind amqpChannel name subject (AddressName p));
                      mret (Some <$> err));
                match r with Some err => mret err | None => mret None end
            end
        end
    end.

(** The getters accept a nil address. *)
Definition declareExchange (address : option Address) (l : nat) : bprog E error :=
  declareExchange_ (default zero_Address address) l.

(** ** Queues *)

(** One option of the source. *)
Definition queue_option (kv : string * string) (args : amqp091Table) : amqp091Table + string :=
  let '(option, value) := kv in
  if String.eqb option "MessageTTL" then
    match atoi value with
    | Some val => inl (<["x-message-ttl" := VInt val]> args)
    | None => inr "value for MessageTTL option must be a quoted integer"
    end
  else if String.eqb option "Expires" then
    match atoi value with
    | Some val => inl (<["x-expires" := VInt val]> args)
    | None => inr "value for Expires option must be a quoted integer"
    end
  else if String.eqb option "DeadLetterAddress" then
    inl (<["x-dead-letter-exchange" := VString value]> args)
  else if String.eqb option "DeadLetterSubject" then
    inl (<["x-dead-letter-routing-key" := VString value]> args)
  else inr (option +:+ " is an unsupported source option").

Fixpoint queue_options (opts : list (string * string)) (args : amqp091Table) : amqp091Table + string :=
  match opts with
  | [] => inl args
  | kv :: rest => match queue_option kv args with
                  | inl args' => queue_options rest args'
                  | inr err => inr err
                  end
  end.

(** The arguments the queue is declared with. *)
Definition queue_args (source : Source) : amqp091Table + string :=
  match sourceTypeToAmqpType source with
  | inr err => inr err
  | inl tmpType =>
      match queue_options (map_range (Options source)) {[ "x-queue-type" := VString tmpType ]} with
      | inr err => inr err
      | inl args =>
          let args := if SingleActiveConsumer source
                      then <["x-single-active-consumer" := VBool true]> args else args in
          inl (if (AutoDelete source || Exclusive source) && negb (bool_decide (is_Some (args !! "x-expires")))
               then <["x-expires" := VInt (5 * 60 * 1000)]> args else args)
      end
  end.

Definition declareQueue (source : Source) (l : nat) (force : bool) : bprog E error :=
  bd ← get_bd l;
  if queueKnown (SourceName source) bd && negb force then mret None
  else
    r ← with_conn l (λ c, call (KStandbyChannel c));
    match r with
    | inr err => mret (Some err)
    | inl amqpChannel =>
        match queue_args source with
        | inr err => mret (Some err)
        | inl args =>
            call (KQueueDeclare amqpChannel (SourceName source) false false args);;
            upd_bd l (add_knownQueue (SourceName source));;
            mret None
        end
    end.

(** ** The management API *)

Definition doManagementRequestWithoutMarshal (l : nat) (method urn : string) :
    bprog E (string * error) :=
  bd ← get_bd l;
  let cf := connectionConfig bd in
  let proto := if tlsEnabled bd then "https" else "http" in
  let adminPort := if AdminPort cf =? 0 then int32 (Port cf + 10000) else AdminPort cf in
  let rurl := proto +:+ "://" +:+ Host cf +:+ ":" +:+ itoa adminPort +:+ urn in
  resp ← call (KHTTP method rurl (GetUsername (Creds cf)) (GetPassword (Creds cf)));
  match resp with
  | HTTPFailed respErr => mret ("", Some ("Error retrieving bindings: " +:+ respErr))
  | HTTPNoResponse =>
      mret ("", Some ("Error " +:+ method +:+ " on management request " +:+ rurl +:+ ": no response"))
  | HTTPResponse status body bodyErr =>
      if (300 <=? status) || (status <? 200) then
        mret (body, Some ("Error " +:+ method +:+ " on management request " +:+ rurl +:+
                          ": request returned a " +:+ itoa status))
      else mret (body, bodyErr)
  end.

Definition doManagementRequest (l : nat) (method urn : string) :
    bprog E (list (gmap string json) * error) :=
  r ← doManagementRequestWithoutMarshal l method urn;
  let '(body, err) := r in
  match err with
  | Some e => mret ([], Some e)
  | None => if String.eqb body "" then mret ([], None) else mret (Unmarshal body)
  end.

Definition vhost_of (bd : BrokerDetails) : string :=
  let vhost := Tenant (connectionConfig bd) in
  query_escape (if String.eqb vhost "" then "/" else vhost).

Definition bindings_urn (bd : BrokerDetails) (source : Source) : string :=
  "/api/bindings/" +:+ vhost_of bd +:+ "/e/" +:+
  query_escape (GetAddressName (SourceAddress source)) +:+ "/q/" +:+
  query_escape (SourceName source) +:+ "/".

Definition getBindingKeysForSource (l : nat) (source : Source) : bprog E (list (gmap string json)) :=
  bd ← get_bd l;
  r ← doManagementRequest l "GET" (bindings_urn bd source);
  mret (fst r).

Definition deleteBindingByKeyFromSource (l : nat) (source : Source) (propKey : string) :
    bprog E error :=
  bd ← get_bd l;
  r ← doManagementRequest l "DELETE" (bindings_urn bd source +:+ propKey +:+ "/");
  mret (snd r).

(** [binding[key].(string)] *)
Definition string_field (key : string) (binding : gmap string json) : bprog E string :=
  match binding !! key with
  | Some (JString s) => mret s
  | _ => panic "interface conversion: interface {} is not string"
  end.

(** The property keys of the bindings removed. *)
Fixpoint cleanup_loop (l : nat) (source : Source) (subjects : list string)
    (bindings : list (gmap string json)) : bprog E (list string) :=
  match bindings with
  | [] => mret []
  | binding :: rest =>
      routingKey ← string_field "routing_key" binding;
      if bool_decide (routingKey ∈ subjects) then cleanup_loop l source subjects rest
      else
        propKey ← string_field "properties_key" binding;
        err ← deleteBindingByKeyFromSource l source propKey;
        removed ← cleanup_loop l source subjects rest;
        mret (match err with None => propKey :: removed | Some _ => removed end)
  end.

Definition cleanupBindings (l : nat) (source : Source) (subjects : list string) : bprog E (list string) :=
  bindings ← getBindingKeysForSource l source;
  cleanup_loop l source subjects bindings.

(** ** Bindings *)

(** The header table of one filter. *)
Definition matchHeaders (filter : Filter) : amqp091Table :=
  let m := foldl (λ m mt, <[MatchName mt := VString (MatchValue mt)]> m) ∅ (Matches filter) in
  if bool_decide (m = ∅) then m
  else <["x-match" := VString (if bool_decide (FilterType filter = Filter_ANY) then "any" else "all")]> m.

Definition matchHeadersList (source : Source) : list amqp091Table :=
  if bool_decide (GetAddressType (SourceAddress source) = Address_FILTER)
  then map matchHeaders (Filters source) else [].

Definition binding_subjects (source : Source) : list string :=
  let subjects := GetSubjects (SourceAddress source) in
  if bool_decide (subjects = []) && negb (bool_decide (matchHeadersList source = []))
  then [""] else subjects.

Definition bind_subject (amqpChannel : nat) (source : Source) (subject : string) : bprog E () :=
  let bind args :=
    call (KQueueBind amqpChannel (SourceName source) subject
            (GetAddressName (SourceAddress source)) args);; mret () in
  match matchHeadersList source with
  | [] => bind None
  | hs => for_each hs (λ h, bind (Some h))
  end.

(** [source.Address.GetSubjects()] accepts a nil address. *)
Definition declareBinding (source : Source) (l : nat) (force : bool) : bprog E error :=
  let knownBindingKey := SourceName source +:+ ":" +:+ join ":" (GetSubjects (SourceAddress source)) in
  bd ← get_bd l;
  if bindingKnown knownBindingKey bd && negb force then mret None
  else
    r ← with_conn l (λ c, call (KStandbyChannel c));
    match r with
    | inr err => mret (Some err)
    | inl amqpChannel =>
        for_each (binding_subjects source) (bind_subject amqpChannel source);;
        cleanupBindings l source (binding_subjects source);;
        upd_bd l (add_knownBinding knownBindingKey);;
        mret None
    end.

(** ** Dead letters *)

Definition setupDeadLetter (ctx : ClientIds.ClientIds.peer) (origSource : Source) :
    bprog E (option Error) :=
  let opts := Options origSource in
  match opts !! "DeadLetterAddress" with
  | None => mret None
  | Some dla =>
      with_details ctx (λ l,
        let sourceName := replace_first (SourceName origSource) ".quorum" "" +:+ ".dlq" in
        let subject := match opts !! "DeadLetterSubject" with
                       | Some dls => dls
                       | None => SourceName origSource
                       end in
        let address := mkAddress dla [subject] Address_TOPIC false None in
        let source := {|
          SourceName := sourceName; SourceAddress := Some address; AutoDelete := false;
          Options := ∅; Exclusive := false; PrefetchCount := 0; Filters := [];
          SourceType := Source_TEMPORARY; DeclareOnly := false; SingleActiveConsumer := false |} in
        declareExchange (SourceAddress source) l;;
        declareQueue source l true;;
        err ← declareBinding source l true;
        mret (mkError <$> err))
  end.

(** ** The exchanges the broker knows *)

(** [loadExchanges]: an exchange without a string name is skipped. *)
Definition loadExchanges (l : nat) : bprog E () :=
  bd ← get_bd l;
  r ← doManagementRequestWithoutMarshal l "GET" ("/api/exchanges/" +:+ vhost_of bd);
  match r with
  | (_, Some _) => mret ()
  | (body, None) =>
      match Unmarshal body with
      | (_, Some _) => mret ()
      | (results, None) =>
          for_each results (λ exchange,
            match exchange !! "name" with
            | Some (JString name) => upd_bd l (add_knownExchange name)
            | _ => mret ()
            end)
      end
  end.

End declare.

(** ** What declaring can do

    Declarations call the standby channel and the management API, and change
    nothing of the provider but the tables of what is known to be declared:
    they keep every relation that those tables do not matter to. *)

Definition decl_call (c : icall Shim) : Prop :=
  match c with
  | KStandbyChannel _ | KExchangeDeclare _ _ _ _ | KExchangeBind _ _ _ _ | KQueueDeclare _ _ _ _ _
  | KQueueBind _ _ _ _ _ | KHTTP _ _ _ _ => True
  | _ => False
  end.

Definition forget_known (bd : BrokerDetails) : BrokerDetails :=
  set_knownExchanges ∅ (set_knownQueues ∅ (set_knownBindings ∅ bd)).

Class Frame (R : broker → broker → Prop) := {
  frame_refl :: Reflexive R;
  frame_trans :: Transitive R;
  frame_upd : ∀ l f b, (∀ bd, forget_known (f bd) = forget_known bd) →
    R b (set_details (alter f l (details b)) b)
}.

Section declaring.
Context {E : Type} `{Oracle Shim E} `{MapRange} `{Json}.

Definition declaring {A} (m : bprog E A) : Prop :=
  emits decl_call m ∧ ∀ R, Frame R → keeps R m.

Lemma declaring_ret {A} (a : A) : declaring (mret a).
Proof. split; [apply emits_ret|intros; apply keeps_ret; exact _]. Qed.
Lemma declaring_panic {A} why : declaring (panic (A := A) why).
Proof. split; [apply emits_panic|intros; apply keeps_panic; exact _]. Qed.
Lemma declaring_call c : decl_call c → declaring (call (E := E) c).
Proof.
  intros Hc. split; [exact (emits_ext (I := Shim) _ c Hc)|].
  intros R ?. exact (keeps_ext (I := Shim) R c).
Qed.
Lemma declaring_bind {A B} (m : bprog E A) (f : A → bprog E B) :
  declaring m → (∀ a, declaring (f a)) → declaring (m ≫= f).
Proof.
  intros [H1' H2'] Hf. split; [apply emits_bind; [done|apply Hf]|]. intros R ?.
  apply keeps_bind; [exact _|by apply H2'|]. intros a. by apply Hf.
Qed.
Lemma declaring_upd_bd l f :
  (∀ bd, forget_known (f bd) = forget_known bd) → declaring (upd_bd (E := E) l f).
Proof.
  intros Hf. split; [apply emits_writes|]. intros R ?. apply keeps_writes. intros b.
  by apply frame_upd.
Qed.
Lemma declaring_get_bd l : declaring (get_bd (E := E) l).
Proof.
  unfold get_bd. apply declaring_bind.
  - split; [apply emits_reads|intros; apply keeps_reads; exact _].
  - intros b. destruct (details b !! l); [apply declaring_ret|apply declaring_panic].
Qed.
Lemma declaring_for_each {A} (l : list A) (body : A → bprog E ()) :
  (∀ x, declaring (body x)) → declaring (for_each l body).
Proof.
  intros Hb. split; [apply emits_for_each; intros; apply Hb|]. intros R ?.
  apply keeps_for_each; [exact _..|]. intros x. by apply Hb.
Qed.
Lemma declaring_for_range {A X} (l : list A) (body : A → bprog E (option X)) :
  (∀ x, declaring (body x)) → declaring (for_range l body).
Proof.
  intros Hb. split; [apply emits_for_range; intros; apply Hb|]. intros R ?.
  apply keeps_for_range; [exact _..|]. intros x. by apply Hb.
Qed.

Ltac declaring_step :=
  match goal with
  | |- ∀ _, _ => intros ?
  | |- declaring (mret _) => apply declaring_ret
  | |- declaring (panic _) => apply declaring_panic
  | |- declaring ?m => match m with call ?c => exact (declaring_call c I) end
  | |- declaring (get_bd _) => apply declaring_get_bd
  | |- declaring (upd_bd _ _) => apply declaring_upd_bd; intros []; reflexivity
  | |- declaring (_ ≫= _) => apply declaring_bind; [|intros ?]
  | |- declaring (for_each _ _) => apply declaring_for_each; intros ?
  | |- declaring (for_range _ _) => apply declaring_for_range; intros ?
  | |- declaring (match ?x with _ => _ end) => destruct x
  end.
Ltac declaring_solve := repeat (first [declaring_step | progress cbv zeta]).

Lemma declaring_with_conn {A} l (f : nat → bprog E A) :
  (∀ c, declaring (f c)) → declaring (with_conn l f).
Proof. intros Hf. unfold with_conn, on_iface. declaring_solve. apply Hf. Qed.

Lemma declaring_declareExchange a l : declaring (declareExchange a l).
Proof.
  unfold declareExchange. generalize (default zero_Address a). clear a.
  fix IH 1. intros [name subjects aType autoDelete parent]. cbn [declareExchange_].
  destruct (contains "amq." name); [declaring_solve|].
  apply declaring_bind; [apply declaring_with_conn; declaring_solve|]. intros [ch|err]; [|declaring_solve].
  apply declaring_bind; [declaring_solve|]. intros bd. apply declaring_bind; [declaring_solve|].
  intros [err|]; [declaring_solve|]. destruct parent as [p|]; [|declaring_solve].
  apply declaring_bind; [declaring_solve|]. intros bd'.
  apply declaring_bind; [|declaring_solve].
  destruct (exchangeKnown (AddressName p) bd'); [declaring_solve|].
  apply declaring_bind; [apply IH|declaring_solve].
Qed.

Lemma declaring_declareQueue s l force : declaring (declareQueue s l force).
Proof.
  unfold declareQueue. apply declaring_bind; [declaring_solve|]. intros bd.
  destruct (queueKnown (SourceName s) bd && negb force); [declaring_solve|].
  apply declaring_bind; [apply declaring_with_conn; declaring_solve|]. intros [ch|err]; [|declaring_solve].
  destruct (queue_args s); declaring_solve.
Qed.

Lemma declaring_managementRequest l method urn :
  declaring (doManagementRequestWithoutMarshal l method urn).
Proof.
  unfold doManagementRequestWithoutMarshal. apply declaring_bind; [declaring_solve|]. intros bd.
  cbv zeta. apply declaring_bind; [declaring_solve|].
  intros resp. destruct (resp : http_reply); declaring_solve.
Qed.

Lemma declaring_doManagementRequest l method urn : declaring (doManagementRequest l method urn).
Proof.
  unfold doManagementRequest. apply declaring_bind; [apply declaring_managementRequest|].
  intros [body [e|]]; declaring_solve.
Qed.

Lemma declaring_cleanupBindings l s subjects : declaring (cleanupBindings l s subjects).
Proof.
  unfold cleanupBindings. apply declaring_bind.
  { unfold getBindingKeysForSource. apply declaring_bind; [declaring_solve|]. intros bd.
    apply declaring_bind; [apply declaring_doManagementRequest|declaring_solve]. }
  intros bindings. induction bindings as [|b bs IH]; cbn [cleanup_loop]; [declaring_solve|].
  apply declaring_bind; [unfold string_field; declaring_solve|]. intros rk.
  case_bool_decide; [apply IH|].
  apply declaring_bind; [unfold string_field; declaring_solve|]. intros pk.
  apply declaring_bind; [|intros err; apply declaring_bind; [apply IH|declaring_solve]].
  unfold deleteBindingByKeyFromSource. apply declaring_bind; [declaring_solve|]. intros bd.
  apply declaring_bind; [apply declaring_doManagementRequest|declaring_solve].
Qed.

Lemma declaring_declareBinding s l force : declaring (declareBinding s l force).
Proof.
  unfold declareBinding. apply declaring_bind; [declaring_solve|]. intros bd.
  destruct (bindingKnown _ bd && negb force); [declaring_solve|].
  apply declaring_bind; [apply declaring_with_conn; declaring_solve|]. intros [ch|err]; [|declaring_solve].
  apply declaring_bind; [apply declaring_for_each; intros; unfold bind_subject; cbv zeta;
    destruct (matchHeadersList s); declaring_solve|]. intros _.
  apply declaring_bind; [apply declaring_cleanupBindings|declaring_solve].
Qed.

Lemma declaring_getBrokerDetails ctx : declaring (getBrokerDetails (E := E) ctx).
Proof.
  unfold getBrokerDetails. apply declaring_bind; [|intros b; declaring_solve].
  split; [apply emits_reads|intros; apply keeps_reads; exact _].
Qed.

Lemma declaring_setupDeadLetter ctx s : declaring (setupDeadLetter ctx s).
Proof.
  unfold setupDeadLetter. cbv zeta. destruct (Options s !! "DeadLetterAddress"); [|declaring_solve].
  unfold with_details. apply declaring_bind; [apply declaring_getBrokerDetails|]. intros [l|err];
    [|declaring_solve].
  apply declaring_bind; [apply declaring_declareExchange|]. intros _.
  apply declaring_bind; [apply declaring_declareQueue|]. intros _.
  apply declaring_bind; [apply declaring_declareBinding|declaring_solve].
Qed.

Lemma declaring_loadExchanges l : declaring (loadExchanges l).
Proof.
  unfold loadExchanges. apply declaring_bind; [declaring_solve|]. intros bd.
  apply declaring_bind; [apply declaring_managementRequest|]. intros [body [e|]]; declaring_solve.
Qed.
End declaring.
End BrokerDeclare.
