(* ===== verification/BrokerTopology.v ===== *)
(** * What the AMQP provider declares with the broker

    The theorems on the declarations of [BrokerDeclare]
    ([connectors/amqp091/amqp091.go]): the arguments of a queue, as a function
    of its source that does not depend on the order in which Go walks the
    options; the bindings of a queue, those that are made and those that are
    taken away; where the rejected messages of a queue go; and what is
    remembered of a declaration that failed. *)

From Stdlib Require Import Ascii String.
From stdpp Require Import base gmap strings list fin_maps option.
From Stdlib Require Import ZArith Lia.
From S2P Require Import Prelude Effects GoStrings Api ConcurrentMap ClientIds Provider Amqp BrokerState BrokerDeclare.

Module BrokerTopology.
Import Amqp ConcurrentMap BrokerState BrokerDeclare.
Open Scope Z_scope.
Open Scope list_scope.

(** ** The arguments of a queue *)

(** The argument an option is for. *)
Definition arg_name (o : string) : option string :=
  if String.eqb o "MessageTTL" then Some "x-message-ttl"
  else if String.eqb o "Expires" then Some "x-expires"
  else if String.eqb o "DeadLetterAddress" then Some "x-dead-letter-exchange"
  else if String.eqb o "DeadLetterSubject" then Some "x-dead-letter-routing-key"
  else None.

(** The value of the argument: a number for the first two. *)
Definition arg_value (o v : string) : option gval :=
  if String.eqb o "MessageTTL" || String.eqb o "Expires" then VInt <$> atoi v else Some (VString v).

(** A source that can be declared: its type is one of a queue, its options
    are known, and those that are numbers can be read. *)
Definition declarable (source : Source) : Prop :=
  (∃ t, sourceTypeToAmqpType source = inl t) ∧
  map_Forall (λ o v, is_Some (arg_name o) ∧ is_Some (arg_value o v)) (Options source).

(** The value an option gives its argument. *)
Definition option_arg (source : Source) (o : string) : option gval :=
  Options source !! o ≫= arg_value o.

(** The arguments, one by one. *)
Definition wanted_arg (source : Source) (k : string) : option gval :=
  if String.eqb k "x-queue-type" then
    match sourceTypeToAmqpType source with inl t => Some (VString t) | inr _ => None end
  else if String.eqb k "x-message-ttl" then option_arg source "MessageTTL"
  else if String.eqb k "x-dead-letter-exchange" then option_arg source "DeadLetterAddress"
  else if String.eqb k "x-dead-letter-routing-key" then option_arg source "DeadLetterSubject"
  else if String.eqb k "x-single-active-consumer" then
    if SingleActiveConsumer source then Some (VBool true) else None
  else if String.eqb k "x-expires" then
    match option_arg source "Expires" with
    | Some v => Some v
    | None => if AutoDelete source || Exclusive source then Some (VInt 300000) else None
    end
  else None.

Lemma arg_name_inj o o' k : arg_name o = Some k → arg_name o' = Some k → o = o'.
Proof.
  unfold arg_name. intros Ho Ho'.
  repeat (case_match; simplify_eq; repeat match goal with H : String.eqb _ _ = true |- _ =>
    apply String.eqb_eq in H end; subst; try done).
Qed.

(** One option sets its argument, or is refused. *)
Lemma queue_option_spec o v args :
  match arg_name o, arg_value o v with
  | Some k, Some x => queue_option (o, v) args = inl (<[k := x]> args)
  | _, _ => ∃ e, queue_option (o, v) args = inr e
  end.
Proof.
  unfold queue_option, arg_name, arg_value.
  destruct (String.eqb o "MessageTTL"); cbn [orb]; [destruct (atoi v); cbn; eauto|].
  destruct (String.eqb o "Expires"); [destruct (atoi v); cbn; eauto|].
  destruct (String.eqb o "DeadLetterAddress"); [done|].
  destruct (String.eqb o "DeadLetterSubject"); [done|]. by eexists.
Qed.

Definition good_option (kv : string * string) : Prop :=
  is_Some (arg_name kv.1) ∧ is_Some (arg_value kv.1 kv.2).

(** All options, in any order: each argument is what its option says, or what
    it was before. *)
Lemma queue_options_spec opts args :
  NoDup opts.*1 →
  match queue_options opts args with
  | inl args' => Forall good_option opts ∧
      ∀ k, args' !! k =
        match list_find (λ kv, arg_name kv.1 = Some k) opts with
        | Some (_, kv) => arg_value kv.1 kv.2
        | None => args !! k
        end
  | inr _ => ¬ Forall good_option opts
  end.
Proof.
  revert args. induction opts as [|[o v] opts IH]; intros args Hnd; cbn [queue_options]; [done|].
  apply list.NoDup_cons in Hnd as [Hno Hnd]. cbn [fst] in Hno.
  pose proof (queue_option_spec o v args) as Hq.
  destruct (arg_name o) as [k0|] eqn:Hk0.
  2:{ destruct Hq as [e ->]. intros [[[x Hx] _] _]%list.Forall_cons. cbn [fst] in Hx. congruence. }
  destruct (arg_value o v) as [x|] eqn:Hx.
  2:{ destruct Hq as [e ->]. intros [[_ [y Hy]] _]%list.Forall_cons. cbn [fst snd] in Hy. congruence. }
  rewrite Hq. specialize (IH (<[k0 := x]> args) Hnd).
  destruct (queue_options opts (<[k0 := x]> args)) as [args'|e].
  - destruct IH as [Hall Hl]. split.
    { constructor; [|done]. split; [by exists k0|by exists x]. }
    intros k. rewrite Hl. cbn [list_find fst snd]. case_decide as Hd.
    + rewrite Hk0 in Hd. injection Hd as ->. cbn [fst snd]. rewrite Hx, (proj2 (list_find_None _ _)).
      * apply lookup_insert_eq.
      * apply list.Forall_forall. intros [o' v'] Hin Ho'. apply Hno.
        rewrite (arg_name_inj o o' k Hk0 Ho'). by apply (list_elem_of_fmap_2 fst) in Hin.
    + destruct (list_find _ opts) as [[i [o' v']]|]; [done|]. cbn.
      apply lookup_insert_ne. intros <-. by rewrite Hk0 in Hd.
  - intros [_ Ha]%list.Forall_cons. done.
Qed.

Section args.
Context `{MR : MapRange}.

(** Looking an option up by its argument. *)
Lemma option_found source o k :
  arg_name o = Some k →
  match list_find (λ kv, arg_name kv.1 = Some k) (map_range (Options source)) with
  | Some (_, kv) => Options source !! o = Some kv.2 ∧ kv.1 = o
  | None => Options source !! o = None
  end.
Proof.
  intros Ho. destruct (list_find _ _) as [[i [o' v']]|] eqn:Hf.
  - apply list_find_Some in Hf as (Hi & Hk & _). cbn [fst snd] in *.
    assert (o' = o) as -> by (by eapply arg_name_inj). split; [|done].
    by apply elem_of_map_range, list_elem_of_lookup_2 with i.
  - apply list_find_None in Hf. destruct (Options source !! o) as [v|] eqn:Hv; [|done].
    apply elem_of_map_range in Hv. rewrite list.Forall_forall in Hf. by destruct (Hf _ Hv).
Qed.

Lemma no_option source k :
  (∀ o, arg_name o ≠ Some k) →
  list_find (λ kv : string * string, arg_name kv.1 = Some k) (map_range (Options source)) = None.
Proof. intros Hno. apply list_find_None, list.Forall_forall. intros kv _. apply Hno. Qed.

Lemma good_options_range source :
  Forall good_option (map_range (Options source)) ↔
  map_Forall (λ o v, is_Some (arg_name o) ∧ is_Some (arg_value o v)) (Options source).
Proof.
  rewrite list.Forall_forall. split.
  - intros Hall o v Hov. by apply (Hall (o, v)), elem_of_map_range.
  - intros Hall [o v] Hin. by apply (Hall o v), elem_of_map_range.
Qed.

(** The argument of an option, before the two that are not options. *)
Lemma option_lookup source o k args args' :
  arg_name o = Some k → queue_options (map_range (Options source)) args = inl args' →
  args !! k = None → args' !! k = option_arg source o.
Proof.
  intros Ho Hq Hk. pose proof (queue_options_spec _ args (map_range_NoDup (Options source))) as Hs.
  rewrite Hq in Hs. destruct Hs as [_ Hs]. rewrite Hs. pose proof (option_found source o k Ho) as Hf.
  unfold option_arg. destruct (list_find _ _) as [[i [o' v']]|]; cbn [fst snd] in *.
  - destruct Hf as [-> ->]. done.
  - by rewrite Hf.
Qed.

Lemma other_lookup source k args args' :
  (∀ o, arg_name o ≠ Some k) → queue_options (map_range (Options source)) args = inl args' →
  args' !! k = args !! k.
Proof.
  intros Ho Hq. pose proof (queue_options_spec _ args (map_range_NoDup (Options source))) as Hs.
  rewrite Hq in Hs. destruct Hs as [_ Hs]. by rewrite Hs, no_option.
Qed.

Lemma not_option k :
  k ≠ "x-message-ttl" → k ≠ "x-expires" → k ≠ "x-dead-letter-exchange" → k ≠ "x-dead-letter-routing-key" →
  ∀ o, arg_name o ≠ Some k.
Proof. unfold arg_name. intros. repeat case_match; naive_solver. Qed.

Lemma queue_args_spec source :
  match queue_args source with
  | inl args => declarable source ∧ ∀ k, args !! k = wanted_arg source k
  | inr _ => ¬ declarable source
  end.
Proof.
  unfold queue_args, declarable. destruct (sourceTypeToAmqpType source) as [t|e] eqn:Ht.
  2:{ intros [[t Hno] _]. done. }
  pose proof (queue_options_spec _ {[ "x-queue-type" := VString t ]} (map_range_NoDup (Options source))) as Hs.
  destruct (queue_options _ _) as [args|e] eqn:Hq.
  2:{ intros [_ Hall]. by apply Hs, good_options_range. }
  destruct Hs as [Hall _]. split.
  { split; [by eexists|]. by apply good_options_range. }
  intros k. set (args1 := if SingleActiveConsumer source then _ else args).
  assert (∀ k, k ≠ "x-single-active-consumer" → args1 !! k = args !! k) as H1.
  { intros k' Hk. unfold args1. destruct (SingleActiveConsumer source); [|done]. by rewrite lookup_insert_ne. }
  assert (args1 !! "x-single-active-consumer" =
    if SingleActiveConsumer source then Some (VBool true) else None) as H2.
  { unfold args1. destruct (SingleActiveConsumer source); [by rewrite lookup_insert_eq|].
    erewrite other_lookup; [|by apply not_option|exact Hq].
    by rewrite lookup_singleton_ne. }
  assert (args1 !! "x-expires" = option_arg source "Expires") as H3.
  { rewrite H1 by done. by eapply option_lookup; [reflexivity|exact Hq|]. }
  set (args2 := if (AutoDelete source || Exclusive source) && _ then _ else args1).
  assert (∀ k, k ≠ "x-expires" → args2 !! k = args1 !! k) as H4.
  { intros k' Hk. unfold args2. destruct (_ && _); [|done]. by rewrite lookup_insert_ne. }
  assert (args2 !! "x-expires" = wanted_arg source "x-expires") as H5.
  { unfold args2. rewrite H3. cbn. destruct (option_arg source "Expires") as [x|] eqn:Hx.
    - rewrite bool_decide_eq_true_2 by done. rewrite andb_false_r. by rewrite H3.
    - rewrite bool_decide_eq_false_2 by (by intros []). rewrite andb_true_r.
      destruct (AutoDelete source || Exclusive source); [apply lookup_insert_eq|by rewrite H3]. }
  destruct (decide (k = "x-expires")) as [->|Hk1]; [done|]. rewrite H4 by done.
  destruct (decide (k = "x-single-active-consumer")) as [->|Hk2]; [by rewrite H2|]. rewrite H1 by done.
  unfold wanted_arg. rewrite Ht. destruct (String.eqb_spec k "x-queue-type") as [->|Hk3].
  { erewrite other_lookup; [|by apply not_option|exact Hq].
    apply lookup_singleton_eq. }
  destruct (String.eqb_spec k "x-message-ttl") as [->|Hk4]; [by eapply option_lookup; [reflexivity|exact Hq|]|].
  destruct (String.eqb_spec k "x-dead-letter-exchange") as [->|Hk5];
    [by eapply option_lookup; [reflexivity|exact Hq|]|].
  destruct (String.eqb_spec k "x-dead-letter-routing-key") as [->|Hk6];
    [by eapply option_lookup; [reflexivity|exact Hq|]|].
  rewrite (proj2 (String.eqb_neq _ _) Hk1), (proj2 (String.eqb_neq _ _) Hk2).
  erewrite other_lookup; [|by apply not_option|exact Hq].
  by apply lookup_singleton_ne.
Qed.

(** C18: The arguments a queue is declared with, for any order in which the
    options are walked: the declaration is refused exactly when the type of the
    source is none of a queue, an option is unknown, or an option that is a
    number cannot be read; otherwise every argument has the value its option
    says, a source that is to go away expires after five minutes unless it says
    otherwise, and there are no other arguments. *)
Theorem queue_args_exact source :
  match queue_args source with
  | inl args => declarable source ∧ ∀ k, args !! k = wanted_arg source k
  | inr _ => ¬ declarable source
  end.
Proof. apply queue_args_spec. Qed.
End args.

(** ** Programs that only ask

    [asks b cs m Q]: from the state [b], [m] returns something in [Q], leaves
    the state alone, and makes the calls [cs], in this order. *)

(** The log from one world to another, as calls. *)
Definition asked {E} (cs : list shim_call) (w w' : world Shim E broker) : Prop :=
  ∃ lg, log w' = log w ++ lg ∧ calls_of lg = cs.

Section asks.
Context {E : Type} `{O : Oracle Shim E} `{R : !Returns E}.

Definition asks {A} (b : broker) (cs : list shim_call) (m : bprog E A) (Q : A → Prop) : Prop :=
  ∀ w, st w = b → ∃ a w', m w = (Ret a, w') ∧ Q a ∧ st w' = b ∧ asked cs w w'.

Lemma asks_ret {A} b (a : A) (Q : A → Prop) : Q a → asks b [] (mret a) Q.
Proof. intros Ha w Hw. exists a, w. split_and!; [done..|]. exists []. by rewrite app_nil_r. Qed.

Lemma asks_call b c : asks b [c] (call (E := E) c) (λ _, True).
Proof.
  intros w Hw. destruct (call_returns c w) as (r & e & _ & ->). eexists r, _.
  split_and!; [done|done|done|]. by eexists.
Qed.

Lemma asks_bind {A B} b cs1 cs2 (m : bprog E A) (f : A → bprog E B) Q1 Q2 :
  asks b cs1 m Q1 → (∀ a, Q1 a → asks b cs2 (f a) Q2) → asks b (cs1 ++ cs2) (m ≫= f) Q2.
Proof.
  intros Hm Hf w Hw. destruct (Hm w Hw) as (a & w1 & Hr & Ha & Hs & Hc).
  destruct (Hf a Ha w1 Hs) as (a2 & w2 & Hr2 & Ha2 & Hs2 & Hc2).
  exists a2, w2. rewrite (bind_run _ _ _ _ _ Hr). split_and!; [done..|].
  destruct Hc as (lg & Hl & <-), Hc2 as (lg2 & Hl2 & <-). exists (lg ++ lg2).
  by rewrite Hl2, Hl, app_assoc, calls_of_app.
Qed.

Lemma asks_weaken {A} b cs (m : bprog E A) (Q1 Q2 : A → Prop) :
  asks b cs m Q1 → (∀ a, Q1 a → Q2 a) → asks b cs m Q2.
Proof. intros Hm HQ w Hw. destruct (Hm w Hw) as (a & w1 & Hr & Ha & Hs). exists a, w1. naive_solver. Qed.

Lemma asks_then_ret {A B} b cs (m : bprog E A) (f : A → B) (Q : A → Prop) (Q2 : B → Prop) :
  asks b cs m Q → (∀ a, Q a → Q2 (f a)) → asks b cs (m ≫= λ a, mret (f a)) Q2.
Proof.
  intros Hm Hf. rewrite <- (app_nil_r cs). eapply asks_bind; [exact Hm|]. intros a Ha. by apply asks_ret, Hf.
Qed.

Lemma asks_for_each {A} b (f : A → list shim_call) xs (body : A → bprog E ()) :
  (∀ x, asks b (f x) (body x) (λ _, True)) → asks b (flat_map f xs) (for_each xs body) (λ _, True).
Proof.
  intros Hb. induction xs as [|x xs IH]; cbn [flat_map for_each]; [by apply asks_ret|].
  eapply asks_bind; [apply Hb|done].
Qed.

Lemma asks_get_bd b l bd : details b !! l = Some bd → asks b [] (get_bd (E := E) l) (λ x, x = bd).
Proof.
  intros Hl w Hw. exists bd, w. split_and!; [|done..|by exists []; rewrite app_nil_r].
  apply get_bd_run. by rewrite Hw.
Qed.
End asks.

(** ** The management API *)

(** What an answer of the management API says the bindings are. *)
Definition decoded `{Json} (rep : http_reply) : list (gmap string json) :=
  match rep with
  | HTTPResponse status body None =>
      if (300 <=? status) || (status <? 200) then [] else if String.eqb body "" then [] else fst (Unmarshal body)
  | _ => []
  end.

Definition management_call (bd : BrokerDetails) (method urn : string) : shim_call :=
  let cf := connectionConfig bd in
  KHTTP method
    ((if tlsEnabled bd then "https" else "http") +:+ "://" +:+ Host cf +:+ ":" +:+
     itoa (if AdminPort cf =? 0 then int32 (Port cf + 10000) else AdminPort cf) +:+ urn)
    (GetUsername (Creds cf)) (GetPassword (Creds cf)).

(** A binding as the management API lists them: the two fields are strings. *)
Definition binding_listed (binding : gmap string json) : Prop :=
  ∃ rk pk, binding !! "routing_key" = Some (JString rk) ∧ binding !! "properties_key" = Some (JString pk).

(** Asked for the bindings between an exchange and a queue, the management API
    lists them as documented: with a routing key and a properties key. Nothing
    is said of its answers to any other request. *)
Class Lists (E : Type) `{Oracle Shim E} `{Json} :=
  lists : ∀ bd source e rep e',
    answer (I := Shim) (management_call bd "GET" (bindings_urn bd source)) e = (Ret rep, e') →
    Forall binding_listed (decoded rep).

(** The property key of a binding whose routing key is none of the subjects. *)
Definition stale (subjects : list string) (binding : gmap string json) : option string :=
  match binding !! "routing_key", binding !! "properties_key" with
  | Some (JString rk), Some (JString pk) => if bool_decide (rk ∈ subjects) then None else Some pk
  | _, _ => None
  end.

Section bindings.
Context {E : Type} `{O : Oracle Shim E} `{R : !Returns E} `{MR : MapRange} `{J : Json}.

Lemma management_call_run l bd method urn w :
  details (st w) !! l = Some bd →
  ∃ rep e err, answer (I := Shim) (management_call bd method urn) (env w) = (Ret rep, e) ∧
    doManagementRequest l method urn w = (Ret (decoded rep, err),
      {| st := st w; env := e; log := log w ++ [ev (management_call bd method urn) (Ret rep)] |}).
Proof.
  intros Hl. destruct (call_returns (management_call bd method urn) w) as (rep & e & Ha & Hc).
  exists rep, e. unfold doManagementRequest, doManagementRequestWithoutMarshal.
  unfold mbind, prog_bind. rewrite (get_bd_run _ _ _ Hl). cbv beta iota zeta.
  unfold management_call in *. rewrite Hc.
  destruct (rep : http_reply) as [re| |status body [be|]] eqn:Hrep; cbn [decoded];
    try (eexists; split; [exact Ha|reflexivity]).
  - destruct ((300 <=? status) || (status <? 200)); (eexists; split; [exact Ha|reflexivity]).
  - destruct ((300 <=? status) || (status <? 200)); [eexists; split; [exact Ha|reflexivity]|].
    cbn. destruct (String.eqb body ""); [eexists; split; [exact Ha|reflexivity]|].
    destruct (Unmarshal body) as [res err]. eexists. split; [exact Ha|reflexivity].
Qed.

Lemma asks_delete l bd b source pk :
  details b !! l = Some bd →
  asks b [management_call bd "DELETE" (bindings_urn bd source +:+ pk +:+ "/")]
    (deleteBindingByKeyFromSource (E := E) l source pk) (λ _, True).
Proof.
  intros Hl. unfold deleteBindingByKeyFromSource. eapply (asks_bind b []); [by apply asks_get_bd|].
  intros ? ->. apply (asks_then_ret b _ _ snd (λ _, True)); [|done]. intros w Hw.
  destruct (management_call_run l bd "DELETE" (bindings_urn bd source +:+ pk +:+ "/") w) as (rep & e & err & _ & Hr);
    [by rewrite Hw|].
  exists (decoded rep, err). eexists. split; [exact Hr|]. split_and!; [exact I|done|]. by eexists.
Qed.

(** The bindings that are not wanted any more are deleted, and no others. *)
Lemma asks_cleanup l bd b source subjects bindings :
  details b !! l = Some bd → Forall binding_listed bindings →
  asks b (map (λ pk, management_call bd "DELETE" (bindings_urn bd source +:+ pk +:+ "/"))
              (omap (stale subjects) bindings))
    (cleanup_loop (E := E) l source subjects bindings) (λ removed, removed ⊆ omap (stale subjects) bindings).
Proof.
  intros Hl. induction bindings as [|bi bs IH]; intros Hall; cbn [cleanup_loop]; [by apply asks_ret|].
  apply list.Forall_cons in Hall as [(rk & pk & Hrk & Hpk) Hall]. specialize (IH Hall).
  cbn [omap list_omap].
  assert (stale subjects bi = if bool_decide (rk ∈ subjects) then None else Some pk) as ->
    by (unfold stale; by rewrite Hrk, Hpk).
  assert (string_field (E := E) "routing_key" bi = mret rk ∧ string_field (E := E) "properties_key" bi = mret pk)
    as [-> ->] by (unfold string_field; by rewrite Hrk, Hpk).
  eapply (asks_bind b []); [by apply (asks_ret b rk (eq rk))|]. intros ? <-.
  case_bool_decide as Hin; [exact IH|].
  eapply (asks_bind b []); [by apply (asks_ret b pk (eq pk))|]. intros ? <-. cbn [map].
  eapply (asks_bind b [_]); [by apply asks_delete|]. intros err _.
  eapply asks_then_ret; [exact IH|]. intros removed Hr. destruct err; set_solver.
Qed.

(** The calls that bind a queue: one for each subject and each table of
    headers to match. *)
Definition bind_calls (ch : nat) (source : Source) : list shim_call :=
  flat_map (λ subject,
      map (KQueueBind ch (SourceName source) subject (GetAddressName (SourceAddress source)))
          (match matchHeadersList source with [] => [None] | hs => map Some hs end))
    (binding_subjects source).

Lemma asks_binds b ch source :
  asks b (bind_calls ch source) (for_each (binding_subjects source) (bind_subject (E := E) ch source)) (λ _, True).
Proof.
  apply asks_for_each. intros subject. unfold bind_subject.
  assert (∀ args, asks b [KQueueBind ch (SourceName source) subject (GetAddressName (SourceAddress source)) args]
    (call (E := E) (KQueueBind ch (SourceName source) subject (GetAddressName (SourceAddress source)) args);; mret ())
    (λ _, True)) as Hone.
  { intros args. eapply asks_then_ret; [apply asks_call|done]. }
  destruct (matchHeadersList source) as [|h hs]; [apply Hone|]. generalize (h :: hs). clear h hs. intros hs.
  replace (map _ (map Some hs)) with
    (flat_map (λ h, [KQueueBind ch (SourceName source) subject (GetAddressName (SourceAddress source)) (Some h)]) hs).
  { apply asks_for_each. intros h. apply Hone. }
  induction hs as [|h hs IH]; [done|]. cbn. by rewrite IH.
Qed.

Definition binding_key (source : Source) : string :=
  SourceName source +:+ ":" +:+ join ":" (GetSubjects (SourceAddress source)).

(** The calls that binding a queue makes on the channel [ch], when the answer to
    the request for its bindings is [rep]. *)
Definition binding_calls (c ch : nat) (bd : BrokerDetails) (source : Source) (rep : http_reply) : list shim_call :=
  [KStandbyChannel c] ++ bind_calls ch source ++
  [management_call bd "GET" (bindings_urn bd source)] ++
  map (λ pk, management_call bd "DELETE" (bindings_urn bd source +:+ pk +:+ "/"))
      (omap (stale (binding_subjects source)) (decoded rep)).

Lemma declareBinding_run `{!Lists E} source l force bd c ch e1 w :
  details (st w) !! l = Some bd → Connection bd = Some c →
  bindingKnown (binding_key source) bd && negb force = false →
  answer (I := Shim) (KStandbyChannel c) (env w) = (Ret (inl ch), e1) →
  ∃ rep lg w', declareBinding source l force w = (Ret None, w') ∧ log w' = log w ++ lg ∧
    calls_of lg = binding_calls c ch bd source rep ∧
    ev (management_call bd "GET" (bindings_urn bd source)) (Ret rep) ∈ lg ∧
    st w' = set_details (<[l := add_knownBinding (binding_key source) bd]> (details (st w))) (st w).
Proof.
  intros Hl Hc Hk Ha. unfold declareBinding. fold (binding_key source).
  rewrite (bind_run _ _ _ _ _ (get_bd_run l bd w Hl)), Hk.
  set (w1 := {| st := st w; env := e1; log := log w ++ [ev (KStandbyChannel c) (Ret (inl ch))] |}).
  erewrite (bind_run _ _ _ _ w1).
  2:{ unfold with_conn. rewrite (bind_run _ _ _ _ _ (get_bd_run l bd w Hl)), Hc. cbn [on_iface].
      rewrite call_run, Ha. done. }
  cbv beta iota.
  destruct (asks_binds (st w) ch source w1 eq_refl) as ([] & w2 & Hr2 & _ & Hs2 & lg2 & Hl2 & Hc2).
  rewrite (bind_run _ _ _ _ _ Hr2). unfold cleanupBindings, getBindingKeysForSource.
  rewrite !bind_assoc, (bind_run _ _ _ _ _ (get_bd_run l bd w2 ltac:(by rewrite Hs2))).
  destruct (management_call_run l bd "GET" (bindings_urn bd source) w2 ltac:(by rewrite Hs2))
    as (rep & e3 & err & Ha3 & Hr3).
  rewrite !bind_assoc, (bind_run _ _ _ _ _ Hr3), bind_ret_l. cbn [fst].
  pose proof (lists bd source _ _ _ Ha3) as Hlist.
  set (w3 := {| st := st w2; env := e3; log := _ |}) in *.
  destruct (asks_cleanup l bd (st w) source (binding_subjects source) (decoded rep) Hl Hlist w3 Hs2)
    as (removed & w4 & Hr4 & _ & Hs4 & lg4 & Hl4 & Hc4).
  rewrite (bind_run _ _ _ _ _ Hr4), (bind_run _ _ _ _ _ (upd_bd_at l _ bd w4 ltac:(by rewrite Hs4))).
  exists rep, ([ev (KStandbyChannel c) (Ret (inl ch))] ++ lg2 ++
    [ev (management_call bd "GET" (bindings_urn bd source)) (Ret rep)] ++ lg4). eexists. split; [reflexivity|].
  split_and!.
  - cbn [set_st log]. rewrite Hl4. subst w3 w1. cbn [log] in *. rewrite Hl2. by rewrite <- !app_assoc.
  - rewrite !calls_of_app, Hc2, Hc4. done.
  - set_solver.
  - cbn [set_st st]. by rewrite Hs4.
Qed.

(** C11: What binding a queue does, unless that is known to be done, given a
    channel and a management API that lists the bindings of a queue as
    documented: it makes one binding for every subject and every set of headers
    to match, asks which bindings there are between the exchange and the queue,
    and deletes exactly those under a routing key that is none of the subjects,
    each once and in their order; nothing else is sent. A binding under the key
    of a subject is kept, whatever headers it matches. That a call fails
    changes nothing of this, and in the end the binding is known. *)
Theorem bindings_exact `{!Lists E} source l force bd c ch e1 w :
  details (st w) !! l = Some bd → Connection bd = Some c →
  bindingKnown (binding_key source) bd && negb force = false →
  answer (I := Shim) (KStandbyChannel c) (env w) = (Ret (inl ch), e1) →
  ∃ rep lg w', declareBinding source l force w = (Ret None, w') ∧ log w' = log w ++ lg ∧
    calls_of lg = [KStandbyChannel c] ++ bind_calls ch source ++
      [management_call bd "GET" (bindings_urn bd source)] ++
      map (λ pk, management_call bd "DELETE" (bindings_urn bd source +:+ pk +:+ "/"))
          (omap (stale (binding_subjects source)) (decoded rep)) ∧
    ev (management_call bd "GET" (bindings_urn bd source)) (Ret rep) ∈ lg ∧
    st w' = set_details (<[l := add_knownBinding (binding_key source) bd]> (details (st w))) (st w).
Proof. apply declareBinding_run. Qed.

(** A binding of a queue to a key it is still to have stays when the headers it
    matches are no longer wanted: only the keys are compared. *)
Lemma old_headers_stay subjects binding rk :
  binding !! "routing_key" = Some (JString rk) → rk ∈ subjects → stale subjects binding = None.
Proof.
  intros Hrk Hin. unfold stale. rewrite Hrk. destruct (binding !! "properties_key") as [[pk|]|]; try done.
  by rewrite bool_decide_eq_true_2.
Qed.

(** ** Dead letters *)

Definition dead_letter_queue (source : Source) : string :=
  replace_first (SourceName source) ".quorum" "" +:+ ".dlq".
Definition dead_letter_subject (source : Source) : string :=
  default (SourceName source) (Options source !! "DeadLetterSubject").

(** The calls that are made for the dead letters of a source: what is declared
    and bound is the exchange [dla], the queue of dead letters, and between
    them one binding. *)
Definition dead_letter_call (source : Source) (dla : string) (c : icall Shim) : Prop :=
  match c with
  | KExchangeDeclare _ name kind autoDelete => name = dla ∧ kind = "topic" ∧ autoDelete = false
  | KQueueDeclare _ name _ _ args => name = dead_letter_queue source ∧ args !! "x-queue-type" = Some (VString "classic")
  | KQueueBind _ name subject destination args =>
      name = dead_letter_queue source ∧ subject = dead_letter_subject source ∧ destination = dla ∧ args = None
  | KStandbyChannel _ | KHTTP _ _ _ _ => True
  | _ => False
  end.

Lemma emits_read_bd P l : emits (E := E) P (get_bd l).
Proof. unfold get_bd. by emits_solve. Qed.

Lemma emits_standby source dla l :
  emits (E := E) (dead_letter_call source dla) (with_conn l (λ c, call (KStandbyChannel c))).
Proof.
  unfold with_conn, on_iface, call. apply emits_bind; [apply emits_read_bd|]. intros bd. by emits_solve.
Qed.

Lemma emits_management source dla l method urn :
  emits (E := E) (dead_letter_call source dla) (doManagementRequest l method urn).
Proof.
  unfold doManagementRequest, doManagementRequestWithoutMarshal, call.
  repeat first [apply emits_read_bd | exact I | emits_step | progress cbv zeta].
Qed.

Lemma emits_cleanup source dla l src subjects :
  emits (E := E) (dead_letter_call source dla) (cleanupBindings l src subjects).
Proof.
  unfold cleanupBindings, getBindingKeysForSource.
  apply emits_bind; [repeat first [apply emits_read_bd | apply emits_management | emits_step]|].
  intros bs. induction bs as [|b bs IH]; cbn [cleanup_loop]; [apply emits_ret|].
  unfold string_field, deleteBindingByKeyFromSource.
  repeat first [apply IH | apply emits_read_bd | apply emits_management | emits_step].
Qed.

Lemma emits_setupDeadLetter ctx source dla :
  Options source !! "DeadLetterAddress" = Some dla →
  emits (E := E) (dead_letter_call source dla) (setupDeadLetter ctx source).
Proof.
  intros Hd. unfold setupDeadLetter. rewrite Hd. cbv zeta. unfold with_details, getBrokerDetails.
  apply emits_bind; [by emits_solve|]. intros [l|err]; [|apply emits_ret].
  fold (dead_letter_queue source). replace (match Options source !! "DeadLetterSubject" with
    | Some dls => dls | None => SourceName source end) with (dead_letter_subject source)
    by (unfold dead_letter_subject; by destruct (Options source !! "DeadLetterSubject")).
  set (src := {| SourceName := dead_letter_queue source |}).
  apply emits_bind; [|intros _; apply emits_bind; [|intros _; apply emits_bind; [|intros err; apply emits_ret]]].
  - cbn [SourceAddress src]. unfold declareExchange. cbn [from_option id declareExchange_].
    destruct (contains "amq." dla); [apply emits_ret|].
    apply emits_bind; [apply emits_standby|]. intros [ch|err]; [|apply emits_ret].
    apply emits_bind; [apply emits_read_bd|]. intros bd. cbn [addressTypeToAmqpType]. unfold call, upd_bd.
    by emits_solve.
  - unfold declareQueue. apply emits_bind; [apply emits_read_bd|]. intros bd.
    destruct (_ && _); [apply emits_ret|]. apply emits_bind; [apply emits_standby|].
    intros [ch|err]; [|apply emits_ret]. pose proof (queue_args_spec src) as Hq.
    destruct (queue_args src) as [args|err]; [|apply emits_ret]. destruct Hq as [_ Hq].
    unfold call, upd_bd. emits_solve. split; [done|]. exact (Hq "x-queue-type").
  - unfold declareBinding. apply emits_bind; [apply emits_read_bd|]. intros bd.
    destruct (_ && _); [apply emits_ret|]. apply emits_bind; [apply emits_standby|].
    intros [ch|err]; [|apply emits_ret]. apply emits_bind.
    { apply emits_for_each. intros subject Hin. cbn in Hin. apply list_elem_of_singleton in Hin as ->.
      unfold bind_subject. cbv zeta. change (matchHeadersList src) with (@nil amqp091Table). unfold call.
      by emits_solve. }
    intros _. apply emits_bind; [apply emits_cleanup|]. intros _. unfold upd_bd. by emits_solve.
Qed.

(** Where the rejected messages of a queue go: its arguments name the exchange
    and the subject they leave under, and the queue of dead letters is bound to
    that exchange. With the option for the subject both agree. Without it the
    queue has no such argument, so that the broker keeps the subject a message
    came with, while the queue of dead letters is bound under the name of the
    source and nothing else: what came under another subject is not in it. *)
Lemma dead_letter_route ctx source dla :
  Options source !! "DeadLetterAddress" = Some dla →
  emits (E := E) (dead_letter_call source dla) (setupDeadLetter ctx source) ∧
  ∀ args, queue_args source = inl args →
    args !! "x-dead-letter-exchange" = Some (VString dla) ∧
    match Options source !! "DeadLetterSubject" with
    | Some dls => args !! "x-dead-letter-routing-key" = Some (VString dls) ∧ dead_letter_subject source = dls
    | None => args !! "x-dead-letter-routing-key" = None ∧ dead_letter_subject source = SourceName source
    end.
Proof.
  intros Hd. split; [by apply emits_setupDeadLetter|]. intros args Hargs.
  pose proof (queue_args_spec source) as Hq. rewrite Hargs in Hq. destruct Hq as [_ Hq].
  rewrite !Hq. unfold wanted_arg, option_arg, dead_letter_subject. cbn. rewrite Hd.
  split; [done|]. by destruct (Options source !! "DeadLetterSubject").
Qed.

(** ** Declarations that fail *)

(** A queue that the broker refused to declare is remembered as declared, and
    reported so: the next declaration that is not forced, as that of the queue
    of a delayed retry, does not ask the broker again. *)
Lemma refused_queue_known source l bd c ch args err e1 e2 w :
  details (st w) !! l = Some bd → Connection bd = Some c → queueKnown (SourceName source) bd = false →
  answer (I := Shim) (KStandbyChannel c) (env w) = (Ret (inl ch), e1) → queue_args source = inl args →
  answer (I := Shim) (KQueueDeclare ch (SourceName source) false false args) e1 = (Ret (Some err), e2) →
  ∃ w', declareQueue source l false w = (Ret None, w') ∧
    log w' = log w ++ [ev (KStandbyChannel c) (Ret (inl ch));
                       ev (KQueueDeclare ch (SourceName source) false false args) (Ret (Some err))] ∧
    declareQueue source l false w' = (Ret None, w').
Proof.
  intros Hl Hc Hk Ha Hargs Hd. unfold declareQueue at 1.
  rewrite (bind_run _ _ _ _ _ (get_bd_run l bd w Hl)), Hk. cbn [andb].
  set (w1 := {| st := st w; env := e1; log := log w ++ [ev (KStandbyChannel c) (Ret (inl ch))] |}).
  erewrite (bind_run _ _ _ _ w1).
  2:{ unfold with_conn. rewrite (bind_run _ _ _ _ _ (get_bd_run l bd w Hl)), Hc. cbn [on_iface].
      by rewrite call_run, Ha. }
  cbv beta iota. rewrite Hargs. erewrite bind_run by (rewrite call_run; unfold w1; cbn [env]; rewrite Hd; done).
  cbn [fst snd]. erewrite bind_run by (apply (upd_bd_at l _ bd); exact Hl).
  eexists. split; [reflexivity|]. split; [by cbn; rewrite <- app_assoc|].
  unfold declareQueue. erewrite bind_run by (apply get_bd_run; apply lookup_insert_eq).
  replace (queueKnown _ _) with true; [done|]. symmetry. apply bool_decide_eq_true. unfold add_knownQueue.
  replace (knownQueues (set_knownQueues _ bd)) with (Add (SourceName source) true (knownQueues bd))
    by (by destruct bd). rewrite Get_Add, decide_True by done. by eexists.
Qed.
End bindings.

(** ** Witnesses *)

Section witnesses.
(** A management API that lists two bindings, of which one is wanted. *)
Definition demo_binding (rk pk : string) : gmap string json :=
  {[ "routing_key" := JString rk; "properties_key" := JString pk ]}.
#[local] Instance two_bindings : Json := {|
  Unmarshal _ := ([demo_binding "new" "new"; demo_binding "old" "old~1"], None) |}.

Definition listing_shim : Oracle Shim nat :=
  scripted (λ c, match c with KHTTP _ _ _ _ => Some (Ret (HTTPResponse 200 "[...]" None)) | _ => None end).

Definition demo_queue : Source :=
  {| SourceName := "orders"; SourceAddress := Some (mkAddress "shop" ["new"; "paid"] Address_TOPIC false None);
     AutoDelete := false; Options := ∅; Exclusive := false; PrefetchCount := 0; Filters := [];
     SourceType := Source_QUEUE; DeclareOnly := false; SingleActiveConsumer := false |}.

Lemma listing_lists : @Lists nat listing_shim _.
Proof.
  intros bd source e rep e'. cbn. intros [= <- _]. cbn. repeat constructor;
    by eexists _, _.
Qed.

Lemma bindings_exact_witness (O := listing_shim) (MR := default_range) :
  ∃ rep lg w', declareBinding demo_queue 0 false (demo_world ∅) = (Ret None, w') ∧ log w' = [] ++ lg ∧
    calls_of lg = [KStandbyChannel 1] ++ bind_calls 10 demo_queue ++
      [management_call (demo_details ∅) "GET" (bindings_urn (demo_details ∅) demo_queue)] ++
      map (λ pk, management_call (demo_details ∅) "DELETE"
                   (bindings_urn (demo_details ∅) demo_queue +:+ pk +:+ "/"))
          (omap (stale (binding_subjects demo_queue)) (decoded rep)).
Proof.
  assert (@Effects.Returns Shim nat O) as HR.
  { intros c e. destruct c; by eexists _, _. }
  destruct (bindings_exact (R := HR) (Lists0 := listing_lists) demo_queue 0 false (demo_details ∅) 1 10 11%nat
    (demo_world ∅) eq_refl eq_refl eq_refl eq_refl) as (rep & lg & w' & H1 & H2 & H3 & _).
  exists rep, lg, w'. split; [exact H1|]. split; [exact H2|exact H3].
Defined.

(** On the run of the witness: two bindings are made and one is deleted. *)
Example binding_replaced (O := listing_shim) (MR := default_range) :
  calls_of (log (run_state (declareBinding demo_queue 0 false) (demo_world ∅))) =
    let urn := "http://rabbit:15672/api/bindings/%2F/e/shop/q/orders/" in
    [KStandbyChannel 1; KQueueBind 10 "orders" "new" "shop" None; KQueueBind 10 "orders" "paid" "shop" None;
     KHTTP "GET" urn "user" "secret"; KHTTP "DELETE" (urn +:+ "old~1/") "user" "secret"].
Proof. vm_compute. reflexivity. Qed.

(** The same options walked in the two orders: the same arguments. *)
Definition demo_options : Source :=
  set_Options {[ "MessageTTL" := "60000"; "DeadLetterAddress" := "shop.dead"; "Expires" := "900000" ]} demo_queue.

Example options_in_any_order :
  bool_decide (queue_args (H0 := default_range) demo_options = queue_args (H0 := reverse_range) demo_options ∧
    queue_args (H0 := reverse_range) demo_options =
      inl {[ "x-queue-type" := VString "quorum"; "x-message-ttl" := VInt 60000; "x-expires" := VInt 900000;
             "x-dead-letter-exchange" := VString "shop.dead" ]}) = true.
Proof. vm_compute. reflexivity. Qed.
End witnesses.

End BrokerTopology.
