(* ===== verification/BrokerAck.v ===== *)
(** * [connectors/amqp091/amqp091.go]: acknowledging deliveries

    [Ack], [Nack], [Retry] and [DeadLetter]. Two of them register a deferred
    function that calls [recover()] and returns an error value; Go discards
    the value a deferred function returns, so a recovered panic makes the
    handler return [nil]. *)

From Stdlib Require Import Ascii String.
From stdpp Require Import base gmap strings list fin_maps option.
From Stdlib Require Import ZArith Lia.
From S2P Require Import Prelude Effects GoStrings Api ConcurrentMap BlockingLatch BlockingPool ClientIds Provider Compression Stream Amqp BrokerState BrokerDeclare.

Module BrokerAck.
Import Amqp ConcurrentMap BrokerState BrokerDeclare.
Open Scope Z_scope.
Open Scope list_scope.

Definition retryCountHeaderName : string := "x-retry-count".

(** The new header table of the message. *)
Definition updateRetryCountHeader (rm : amqp091Message) : amqp091Message :=
  let headers := default ∅ (Headers rm) in
  let retryCount :=
    match headers !! retryCountHeaderName with
    | Some (VInt32 v) => v
    | Some (VInt64 v) => int32 v
    | Some (VInt v) => int32 v
    | _ => 0
    end in
  set_Headers (Some (<[retryCountHeaderName := VInt32 (int32 (retryCount + 1))]> headers)) rm.

Section ack.
Context {E : Type} `{Oracle Shim E} `{MapRange} `{Json}.

(** [latch.Decrement()] *)
Definition decrement_latch (n : nat) : bprog E () :=
  writes (λ b, set_latches (alter BlockingLatch.Decrement n (latches b)) b).

(** [stm.Ack]: the offset stored is the one the consumer has reached when the
    acknowledgement arrives; an error of storing it is only logged. *)
Definition stream_ack (l : nat) (sm : streamActive) : bprog E () :=
  decrement_latch (saLatch sm);;
  match saConsumer sm with
  | None => mret ()
  | Some c =>
      consumerOffset ← call (KConsumerOffset c);
      bd ← get_bd l;
      on_iface (StreamConnection bd) (λ s,
        call (KStoreOffset s (saSource sm) (saConsumerName sm) consumerOffset));;
      mret ()
  end.

Definition stream_nack (sm : streamActive) : bprog E () := decrement_latch (saLatch sm).

Definition no_message (msgid : string) : Error := mkError ("No message with uuid " +:+ msgid).

Definition Ack (ctx : ClientIds.peer) (msgid : string) : bprog E (option Error) :=
  recover
    (with_details ctx (λ l,
       bd ← get_bd l;
       match Get msgid (activeMessages bd) with
       | None => mret (Some (no_message msgid))
       | Some a =>
           err ← match a with
                 | ActAmqp rm => call (KAck rm)
                 | ActStream sm => stream_ack l sm;; mret None
                 end;
           upd_bd l (delete_active msgid);;
           mret (mkError <$> (err : error))
       end))
    (λ _, mret None).

Definition Nack (ctx : ClientIds.peer) (msgid : string) : bprog E (option Error) :=
  with_details ctx (λ l,
    bd ← get_bd l;
    match Get msgid (activeMessages bd) with
    | None => mret (Some (no_message msgid))
    | Some a =>
        err ← match a with
              | ActAmqp rm => call (KNack rm false)
              | ActStream sm => stream_nack sm;; mret None
              end;
        upd_bd l (delete_active msgid);;
        mret (mkError <$> (err : error))
    end).

(** The source of the retry queue. *)
Definition retry_source (origSource : Source) (delay : Z) : Source :=
  let name := GetAddressName (SourceAddress origSource) +:+ ".retry." +:+ itoa delay +:+ "s" in
  {| SourceName := name;
     SourceAddress := Some (mkAddress name ["#"] Address_TOPIC false None);
     AutoDelete := false;
     Options := {[ "MessageTTL" := itoa (int64 (delay * 1000)); "DeadLetterAddress" := "" ]};
     Exclusive := false; PrefetchCount := 0; Filters := []; SourceType := Source_QUEUE;
     DeclareOnly := false; SingleActiveConsumer := false |}.

(** The handler works on a copy of the stored message, but a header table that
    is not nil is shared with the stored one. *)
Definition share_headers (msgid : string) (rm : amqp091Message) (bd : BrokerDetails) : BrokerDetails :=
  set_activeMessages (alter (λ a, match a with
                                  | ActAmqp m => ActAmqp (if Headers m then set_Headers (Headers rm) m else m)
                                  | ActStream s => ActStream s
                                  end) msgid (activeMessages bd)) bd.

(** From the declarations on, with the recovering deferred function. *)
Definition retry_send (l : nat) (origSource : Source) (msgid : string) (delay : Z) (amqpChannel : nat)
    (rm : amqp091Message) : bprog E (option (option Error)) :=
  let rs := retry_source origSource delay in
  declareExchange (SourceAddress rs) l;;
  declareQueue rs l false;;
  declareErr ← declareBinding rs l false;
  match declareErr with
  | Some e =>
      mret (Some (Some (mkError ("Failed to bind retry queue [" +:+ SourceName rs +:+
        "] to exchange [" +:+ GetAddressName (SourceAddress rs) +:+ "]: " +:+ e))))
  | None =>
      let rm := updateRetryCountHeader rm in
      upd_bd l (share_headers msgid rm);;
      retryErr ← call (KPublish amqpChannel (GetAddressName (SourceAddress rs)) (SourceName origSource) rm);
      match (retryErr : error) with
      | Some _ => call (KNack rm true);; mret None
      | None => call (KAck rm);; mret None
      end
  end.

(** The retry of a message; [None] means that the handler goes on, [Some r]
    that it returns [r]. *)
Definition retry_amqp (l : nat) (origSource : Source) (msgid : string) (delay : Z) (rm : amqp091Message) :
    bprog E (option (option Error)) :=
  bd ← get_bd l;
  ch ← match RetryChannel bd with
       | Some ch => mret (inl ch)
       | None =>
           r ← on_iface (Connection bd) (λ c, call (KNewChannel c true));
           match r with
           | inr err => mret (inr err)
           | inl ch => upd_bd l (set_RetryChannel (Some ch));; mret (inl ch)
           end
       end;
  match ch with
  | inr err => mret (Some (Some (mkError err)))
  | inl amqpChannel =>
      recover (retry_send l origSource msgid delay amqpChannel rm)
        (λ _, upd_bd l (set_RetryChannel None);; mret (Some None))
  end.

(** The handler renames the source it is given: the result is the source as
    the caller sees it afterwards, with the returned error. *)
Definition Retry (ctx : ClientIds.peer) (origSource : option Source) (msgid : string) (delay : Z) :
    bprog E (option Source * option Error) :=
  r ← getBrokerDetails ctx;
  match r with
  | inr err => mret (origSource, Some (mkError err))
  | inl l =>
      match origSource with
      | None => panic "invalid memory address or nil pointer dereference"
      | Some source =>
          let source := set_SourceName (sourceName source) source in
          bd ← get_bd l;
          err ← match Get msgid (activeMessages bd) with
                | None => mret (Some (no_message msgid))
                | Some a =>
                    early ← match a with
                            | ActStream _ => mret None
                            | ActAmqp rm => retry_amqp l source msgid delay rm
                            end;
                    match early with
                    | Some err => mret err
                    | None => upd_bd l (delete_active msgid);; mret None
                    end
                end;
          mret (Some source, err)
      end
  end.

Definition DeadLetter (ctx : ClientIds.peer) (msgid : string) : bprog E (option Error) :=
  with_details ctx (λ l,
    bd ← get_bd l;
    match Get msgid (activeMessages bd) with
    | Some (ActAmqp rm) =>
        call (KNack rm false);;
        upd_bd l (delete_active msgid);;
        mret None
    | Some (ActStream _) =>
        panic "interface conversion: interface {} is amqp091.streamMessage, not amqp091.amqp091Message"
    | None =>
        mret (Some (mkError ("DeadLetter message with id [" +:+ msgid +:+
                             "] failed, message not found in active messages.")))
    end).

End ack.

(** ** Lemmas: settling a delivery *)

(** The delivery a call acknowledges or rejects. *)
Definition settle_tag (c : shim_call) : option delivery_id :=
  match c with KAck m | KNack m _ => delivery m | _ => None end.

Definition is_settle (c : shim_call) : bool :=
  match c with KAck _ | KNack _ _ => true | _ => false end.

Lemma is_settle_tag c : is_settle c = false → settle_tag c = None.
Proof. by destruct c. Qed.

(** What a returned call that acknowledges or rejects delivery [t] has said. *)
Definition settle_reply (t : delivery_id) (e : event Shim) : option error :=
  match e with
  | existT c o =>
      if bool_decide (settle_tag c = Some t) then
        match c return outcome (shim_reply c) → option error with
        | KAck _ | KNack _ _ => λ o, match o with Ret err => Some err | _ => None end
        | _ => λ _, None
        end o
      else None
  end.

(** How often the library has accepted to settle delivery [t], and how often
    it has refused to; and how often it has been asked to, and has answered. *)
Definition accepts (t : delivery_id) (lg : list (event Shim)) : Z :=
  count_if (λ e, match settle_reply t e with Some None => true | _ => false end) lg.
Definition refusals (t : delivery_id) (lg : list (event Shim)) : Z :=
  count_if (λ e, match settle_reply t e with Some (Some _) => true | _ => false end) lg.
Definition asked_to_settle (t : delivery_id) (e : event Shim) : bool :=
  match settle_reply t e with Some _ => true | None => false end.
Definition settles (t : delivery_id) (lg : list (event Shim)) : Z := count_if (asked_to_settle t) lg.

Lemma settles_app t l1 l2 : settles t (l1 ++ l2) = settles t l1 + settles t l2.
Proof. apply count_if_app. Qed.

Lemma settles_split t lg : settles t lg = accepts t lg + refusals t lg.
Proof.
  unfold settles, accepts, refusals, asked_to_settle. induction lg as [|e lg IH]; [done|].
  rewrite !count_if_cons, IH. destruct (settle_reply t e) as [[err|]|]; cbn; lia.
Qed.

Lemma settle_reply_none t c o : settle_tag c = None → settle_reply t (existT c o) = None.
Proof. intros Hc. unfold settle_reply. by rewrite Hc. Qed.

Lemma asked_to_settle_call t c o :
  is_settle c = true →
  asked_to_settle t (existT c o) = bool_decide (settle_tag c = Some t) && is_ret o.
Proof.
  intros Hc. unfold asked_to_settle, settle_reply. case_bool_decide; [|done].
  by destruct c; try done; destruct o.
Qed.

(** [ActAmqp] entries of the tables of active messages that hold delivery [t]. *)
Definition holds (t : delivery_id) (l : nat) (id : string) (b : broker) : Prop :=
  ∃ bd m, details b !! l = Some bd ∧ Get id (activeMessages bd) = Some (ActAmqp m) ∧
          delivery m = Some t.

Definition unique (t : delivery_id) (b : broker) : Prop :=
  ∀ l id l' id', holds t l id b → holds t l' id' b → l = l' ∧ id = id'.

(** What settling depends on in an entry: the delivery, or the latch of the
    stream subscription. *)
Definition act_key (a : active) : option delivery_id + nat :=
  match a with ActAmqp m => inl (delivery m) | ActStream s => inr (saLatch s) end.

(** Nothing is added to or removed from a table of active messages. *)
Definition active_keys (bd : BrokerDetails) : gmap string (option delivery_id + nat) * option nat :=
  (act_key <$> activeMessages bd, StreamConnection bd).

Definition same_active (b b' : broker) : Prop :=
  ∀ l, active_keys <$> details b !! l = active_keys <$> details b' !! l.

#[global] Instance same_active_refl : Reflexive same_active.
Proof. by intros b l. Qed.
#[global] Instance same_active_trans : Transitive same_active.
Proof. intros b1 b2 b3 H1 H2 l. by rewrite H1. Qed.
#[global] Instance same_active_sym : Symmetric same_active.
Proof. intros b1 b2 H l. by rewrite (H l). Qed.

Lemma same_active_upd l f b :
  (∀ bd, active_keys (f bd) = active_keys bd) → same_active b (set_details (alter f l (details b)) b).
Proof.
  intros Hf l'. cbn. destruct (decide (l = l')) as [<-|Hne].
  - rewrite lookup_alter_eq, <- option_fmap_compose.
    destruct (details b !! l) as [bd|]; [|done]. cbn. by rewrite Hf.
  - by rewrite lookup_alter_ne.
Qed.

(** Declarations are not concerned with active messages. *)
#[global] Instance same_active_frame : Frame same_active.
Proof.
  split; [exact _..|]. intros l f b Hf. apply same_active_upd. intros bd.
  assert (∀ bd, active_keys (forget_known bd) = active_keys bd) as Hk by (by intros []).
  by rewrite <- (Hk (f bd)), Hf, Hk.
Qed.

Lemma same_active_lookup l id b b' bd' :
  same_active b b' → details b' !! l = Some bd' →
  ∃ bd, details b !! l = Some bd ∧ StreamConnection bd = StreamConnection bd' ∧
        act_key <$> Get id (activeMessages bd) = act_key <$> Get id (activeMessages bd').
Proof.
  intros Hs Hl. specialize (Hs l). rewrite Hl in Hs. destruct (details b !! l) as [bd|]; [|done].
  exists bd. split; [done|]. cbn in Hs. injection Hs as Hk Hc. split; [done|].
  unfold Get. rewrite <- !lookup_fmap. by rewrite Hk.
Qed.

Lemma holds_same t l id b b' : same_active b b' → holds t l id b' → holds t l id b.
Proof.
  intros Hs (bd' & m & Hl & Hm & Ht).
  destruct (same_active_lookup l id _ _ _ Hs Hl) as (bd & Hl' & _ & Hk). rewrite Hm in Hk.
  destruct (Get id (activeMessages bd)) as [[m'|s']|] eqn:Hg; try done. cbn in Hk.
  exists bd, m'. split_and!; [done..|]. congruence.
Qed.

Section settle.
Context {E : Type} `{Oracle Shim E} `{MR : MapRange} `{Json}.
Implicit Types w : world Shim E broker.

(** Programs that neither settle a delivery nor touch the active messages. *)
Definition quiet {A} (m : bprog E A) : Prop :=
  emits (λ c : icall Shim, is_settle c = false) m ∧ keeps same_active m.

Lemma quiet_run {A} (m : bprog E A) w t :
  quiet m → ∃ lg, log (snd (m w)) = log w ++ lg ∧ settles t lg = 0 ∧ same_active (st w) (st (snd (m w))).
Proof.
  intros [He Hk]. destruct (He w) as (lg & Hl & HP). exists lg. split; [done|]. split; [|apply Hk].
  unfold settles. apply count_if_zero. revert HP. apply Forall_impl. intros [c o] Hc.
  unfold asked_to_settle. by rewrite settle_reply_none by exact (is_settle_tag _ Hc).
Qed.

Lemma keeps_upd_bd l f :
  (∀ bd, active_keys (f bd) = active_keys bd) → keeps same_active (upd_bd (E := E) l f).
Proof. intros Hf. apply keeps_writes. intros b. by apply same_active_upd. Qed.

Lemma emits_upd_bd P l f : emits P (upd_bd (E := E) l f).
Proof. apply emits_writes. Qed.

Lemma quiet_ret {A} (a : A) : quiet (mret a).
Proof. split; [apply emits_ret|apply keeps_ret; exact _]. Qed.
Lemma quiet_panic {A} why : quiet (panic (A := A) why).
Proof. split; [apply emits_panic|apply keeps_panic; exact _]. Qed.
Lemma quiet_call c : is_settle c = false → quiet (call (E := E) c).
Proof. intros Hc. split; [exact (emits_ext (I := Shim) _ c Hc)|exact (keeps_ext (I := Shim) _ c)]. Qed.
Lemma quiet_bind {A B} (m : bprog E A) (f : A → bprog E B) :
  quiet m → (∀ a, quiet (f a)) → quiet (m ≫= f).
Proof.
  intros [H1 H2] Hf. split; [apply emits_bind; [done|apply Hf]|].
  apply keeps_bind; [exact _|done|apply Hf].
Qed.
Lemma quiet_upd_bd l f : (∀ bd, active_keys (f bd) = active_keys bd) → quiet (upd_bd (E := E) l f).
Proof. intros Hf. split; [apply emits_upd_bd|by apply keeps_upd_bd]. Qed.
Lemma quiet_reads {A} (f : broker → A) : quiet (A := A) (reads f).
Proof. split; [apply emits_reads|apply keeps_reads; exact _]. Qed.
Lemma quiet_for_each {A} (l : list A) (body : A → bprog E ()) :
  (∀ x, quiet (body x)) → quiet (for_each l body).
Proof.
  intros Hb. split; [apply emits_for_each; intros; apply Hb|].
  apply keeps_for_each; [exact _..|]. intros; apply Hb.
Qed.
Lemma quiet_for_range {A X} (l : list A) (body : A → bprog E (option X)) :
  (∀ x, quiet (body x)) → quiet (for_range l body).
Proof.
  intros Hb. split; [apply emits_for_range; intros; apply Hb|].
  apply keeps_for_range; [exact _..|]. intros; apply Hb.
Qed.

Lemma quiet_get_bd l : quiet (get_bd (E := E) l).
Proof.
  apply quiet_bind; [apply quiet_reads|]. intros b.
  destruct (details b !! l); [apply quiet_ret|apply quiet_panic].
Qed.

Ltac quiet_step :=
  match goal with
  | |- ∀ _, _ => intros ?
  | |- quiet (mret _) => apply quiet_ret
  | |- quiet (panic _) => apply quiet_panic
  | |- quiet ?m => match m with call ?c => exact (quiet_call c eq_refl) end
  | |- quiet (reads _) => apply quiet_reads
  | |- quiet (get_bd _) => apply quiet_get_bd
  | |- quiet (upd_bd _ _) => apply quiet_upd_bd; intros []; reflexivity
  | |- quiet (_ ≫= _) => apply quiet_bind; [|intros ?]
  | |- quiet (for_each _ _) => apply quiet_for_each; intros ?
  | |- quiet (for_range _ _) => apply quiet_for_range; intros ?
  | |- quiet (match ?x with _ => _ end) => destruct x
  end.
Ltac quiet_solve := repeat (first [quiet_step | progress cbv zeta]).

Lemma quiet_declaring {A} (m : bprog E A) : declaring m → quiet m.
Proof.
  intros [He Hk]. split; [|apply Hk; exact _]. eapply emits_weaken; [|exact He].
  by intros [].
Qed.

Lemma act_key_alter (f : active → active) id (m : gmap string active) :
  (∀ a, act_key (f a) = act_key a) → act_key <$> alter f id m = act_key <$> m.
Proof.
  intros Hf. apply map_eq. intros k. rewrite !lookup_fmap. destruct (decide (id = k)) as [<-|Hne].
  - rewrite lookup_alter_eq. destruct (m !! id) as [a|]; [|done]. cbn. by rewrite Hf.
  - by rewrite lookup_alter_ne.
Qed.

Lemma active_keys_share id rm bd : active_keys (share_headers id rm bd) = active_keys bd.
Proof.
  assert (∀ m, active_keys (set_activeMessages m bd) = (act_key <$> m, StreamConnection bd)) as Hs
    by (by destruct bd).
  unfold share_headers. rewrite Hs. unfold active_keys. f_equal. apply act_key_alter.
  intros [m|s]; [by destruct (Headers m)|done].
Qed.

(** *** Settling a delivery *)

Lemma holds_delete t l id b l' id' :
  holds t l' id' (set_details (alter (delete_active id) l (details b)) b) →
  holds t l' id' b ∧ (l', id') ≠ (l, id).
Proof.
  intros (bd & m & Hl & Hm & Ht). cbn in Hl. destruct (decide (l = l')) as [<-|Hne].
  - rewrite lookup_alter_eq in Hl. destruct (details b !! l) as [bd'|] eqn:Hl'; [|done].
    cbn in Hl. simplify_eq. unfold delete_active in Hm.
    replace (activeMessages (set_activeMessages (Delete id (activeMessages bd')) bd'))
      with (Delete id (activeMessages bd')) in Hm by (by destruct bd').
    rewrite Get_Delete in Hm. case_decide as Hid; [done|]. split; [by exists bd', m|].
    intros [= <-]. done.
  - rewrite lookup_alter_ne in Hl by done. split; [by exists bd, m|]. by intros [= -> _].
Qed.

Lemma holds_delete_other t l id b l' id' :
  holds t l' id' b → (l', id') ≠ (l, id) →
  holds t l' id' (set_details (alter (delete_active id) l (details b)) b).
Proof.
  intros (bd & m & Hl & Hm & Ht) Hne. destruct (decide (l = l')) as [<-|Hl'].
  - exists (delete_active id bd), m. cbn. rewrite lookup_alter_eq, Hl. split_and!; [done| |done].
    unfold delete_active. replace (activeMessages (set_activeMessages _ bd))
      with (Delete id (activeMessages bd)) by (by destruct bd).
    rewrite Get_Delete, decide_False; [done|]. by intros <-.
  - exists bd, m. cbn. by rewrite lookup_alter_ne.
Qed.

Lemma getBrokerDetails_cases ctx w : ∃ r, getBrokerDetails ctx w = (Ret r, w).
Proof.
  unfold getBrokerDetails, reads. prog_unfold. cbn.
  destruct (ClientIds.GetClientIdentifier ctx (clientMap (st w))) as [cid [e|]]; [by eexists|].
  destruct (getBrokerDetailsByIdentifier cid (st w)); by eexists.
Qed.

(** A single settling call. *)
Lemma settle_call_run c w t :
  is_settle c = true →
  let '(o, w1) := call (E := E) c w in
  log w1 = log w ++ [ev c o] ∧ st w1 = st w ∧
  settles t [ev c o] = b2z (bool_decide (settle_tag c = Some t) && is_ret o).
Proof.
  intros Hc. rewrite call_run. split; [done|]. split; [done|].
  unfold settles. by rewrite count_if_cons, Z.add_0_r, asked_to_settle_call.
Qed.

Lemma quiet_stream_ack l sm : quiet (stream_ack (E := E) l sm).
Proof.
  unfold stream_ack. apply quiet_bind.
  { split; [apply emits_writes|]. by apply keeps_writes. }
  intros _. destruct (saConsumer sm) as [c|]; [|quiet_solve].
  apply quiet_bind; [quiet_solve|]. intros o. apply quiet_bind; [quiet_solve|]. intros bd.
  apply quiet_bind; [|quiet_solve]. unfold on_iface. quiet_solve.
Qed.

Lemma quiet_stream_nack sm : quiet (stream_nack (E := E) sm).
Proof. split; [apply emits_writes|]. by apply keeps_writes. Qed.

(** *** Retry *)

(** From [w], [m] settles delivery [t] once if it ends with a result in [P],
    [once] saying whether [t] is at stake, and not at all otherwise. *)
Definition settles_when {A} (t : delivery_id) (once : bool) (P : outcome A → bool) (m : bprog E A) : Prop :=
  ∀ w, ∃ lg, log (snd (m w)) = log w ++ lg ∧ same_active (st w) (st (snd (m w))) ∧
             settles t lg = b2z (once && P (fst (m w))).

Lemma settles_when_quiet {A} t once P (m : bprog E A) :
  quiet m → (∀ w, P (fst (m w)) = false) → settles_when t once P m.
Proof.
  intros Hq HP w. destruct (quiet_run m w t Hq) as (lg & Hl & Hs & Ha).
  exists lg. split_and!; [done..|]. by rewrite HP, andb_false_r.
Qed.

Lemma settles_when_bind {A B} t once P (m : bprog E A) (f : A → bprog E B) :
  quiet m → (∀ why, P (Panic why) = false) → P Block = false →
  (∀ a, settles_when t once P (f a)) → settles_when t once P (m ≫= f).
Proof.
  intros Hq HP1 HP2 Hf w. destruct (quiet_run m w t Hq) as (lg & Hl & Hs & Ha).
  unfold mbind, prog_bind. destruct (m w) as [[a|why|] w1]; cbn [fst snd] in *.
  - destruct (Hf a w1) as (lg2 & Hl2 & Ha2 & Hs2). exists (lg ++ lg2).
    split_and!; [by rewrite Hl2, Hl, app_assoc|by etrans|by rewrite settles_app, Hs, Hs2].
  - exists lg. split_and!; [done..|]. by rewrite HP1, andb_false_r.
  - exists lg. split_and!; [done..|]. by rewrite HP2, andb_false_r.
Qed.

Definition sent (o : outcome (option (option Error))) : bool :=
  match o with Ret None => true | _ => false end.

Lemma settles_when_call t rm c :
  is_settle c = true → settle_tag c = delivery rm →
  settles_when t (bool_decide (delivery rm = Some t)) sent (call (E := E) c;; mret None).
Proof.
  intros Hset Hc w. pose proof (settle_call_run c w t Hset) as Hr. unfold mbind, prog_bind, mret, prog_ret.
  destruct (call c w) as [o w1]. destruct Hr as (Hlog & Hst & Hs). rewrite Hc in Hs.
  destruct o as [r|why|]; cbn [fst snd]; eexists; (split_and!; [exact Hlog|by rewrite Hst|exact Hs]).
Qed.

Lemma delivery_updateRetryCountHeader rm : delivery (updateRetryCountHeader rm) = delivery rm.
Proof. done. Qed.

Lemma retry_send_settles t l src id delay ch rm :
  settles_when t (bool_decide (delivery rm = Some t)) sent (retry_send l src id delay ch rm).
Proof.
  unfold retry_send. cbv zeta.
  apply settles_when_bind; [apply quiet_declaring, declaring_declareExchange|done..|]. intros _.
  apply settles_when_bind; [apply quiet_declaring, declaring_declareQueue|done..|]. intros _.
  apply settles_when_bind; [apply quiet_declaring, declaring_declareBinding|done..|]. intros [e|].
  { apply settles_when_quiet; [apply quiet_ret|done]. }
  apply settles_when_bind; [apply quiet_upd_bd, active_keys_share|done..|]. intros _.
  apply settles_when_bind; [quiet_solve|done..|]. intros [e|];
    (apply (settles_when_call t rm); [done|apply delivery_updateRetryCountHeader]).
Qed.

Lemma retry_amqp_settles t l src id delay rm :
  settles_when t (bool_decide (delivery rm = Some t)) sent (retry_amqp l src id delay rm).
Proof.
  unfold retry_amqp. apply settles_when_bind; [quiet_solve|done..|]. intros bd.
  apply settles_when_bind; [unfold on_iface; quiet_solve|done..|].
  intros [ch|err]; [|apply settles_when_quiet; [quiet_solve|done]].
  intros w. destruct (retry_send_settles t l src id delay ch rm w) as (lg & Hl & Ha & Hs).
  unfold recover. destruct (retry_send l src id delay ch rm w) as [[r|why|] w1]; cbn [fst snd] in *.
  - by exists lg.
  - assert (quiet (A := ()) (upd_bd (E := E) l (set_RetryChannel None))) as Hq by quiet_solve.
    destruct (quiet_run _ w1 t Hq) as (lg2 & Hl2 & Hs2 & Ha2).
    exists (lg ++ lg2). rewrite upd_bd_run in Hl2, Ha2. unfold mbind, prog_bind. rewrite upd_bd_run.
    cbn [fst snd mret prog_ret] in *.
    split_and!; [by rewrite app_assoc, <- Hl, <- Hl2|by etrans|].
    rewrite settles_app, Hs, Hs2. cbn [sent]. rewrite andb_false_r. done.
  - by exists lg.
Qed.

(** *** Histories *)

Inductive settle_op :=
  | OpAck (ctx : ClientIds.peer) (id : string)
  | OpNack (ctx : ClientIds.peer) (id : string)
  | OpRetry (ctx : ClientIds.peer) (src : option Source) (id : string) (delay : Z)
  | OpDeadLetter (ctx : ClientIds.peer) (id : string).

Definition settle_apply (o : settle_op) (w : world Shim E broker) : world Shim E broker :=
  match o with
  | OpAck ctx id => snd (Ack ctx id w)
  | OpNack ctx id => snd (Nack ctx id w)
  | OpRetry ctx src id delay => snd (Retry ctx src id delay w)
  | OpDeadLetter ctx id => snd (DeadLetter ctx id w)
  end.

End settle.

(** ** Properties *)

Section properties.
Context {E : Type} `{Oracle Shim E} `{MR : MapRange} `{Json}.
Implicit Types w : world Shim E broker.

(** An acknowledgement of a message that is held. *)
Lemma Ack_run ctx id l bd m w err e :
  client_at ctx l (st w) → details (st w) !! l = Some bd → Get id (activeMessages bd) = Some (ActAmqp m) →
  answer (I := Shim) (KAck m) (env w) = (Ret err, e) →
  Ack ctx id w = (Ret (mkError <$> err),
    {| st := set_details (<[l := delete_active id bd]> (details (st w))) (st w);
       env := e; log := log w ++ [ev (KAck m) (Ret err)] |}).
Proof.
  intros Hc Hl Hid He. unfold Ack, recover. rewrite (with_details_some _ _ _ _ Hc). prog_unfold.
  rewrite (get_bd_run _ _ _ Hl), Hid. rewrite call_run, He. cbn [fst snd].
  rewrite upd_bd_run. unfold set_st. cbn [st env log]. do 3 f_equal.
  apply map_eq; intros k. destruct (decide (k = l)) as [->|Hk].
  - by rewrite lookup_alter_eq, lookup_insert_eq, Hl.
  - by rewrite lookup_alter_ne, lookup_insert_ne by done.
Qed.

(** What [Ack] does: when the caller holds a message under the identifier,
    it sends one acknowledgement of exactly that delivery, returns the broker's
    error, and forgets the message whether that failed or not; an identifier
    that is not held, so also one acknowledged before, is an error and sends
    nothing. *)
Theorem ack_settles ctx id l bd m w :
  client_at ctx l (st w) → details (st w) !! l = Some bd →
  (Get id (activeMessages bd) = Some (ActAmqp m) →
     ∀ err e, answer (I := Shim) (KAck m) (env w) = (Ret err, e) →
     let w1 := {| st := set_details (<[l := delete_active id bd]> (details (st w))) (st w);
                  env := e; log := log w ++ [ev (KAck m) (Ret err)] |} in
     Ack ctx id w = (Ret (mkError <$> err), w1) ∧
     Ack ctx id w1 = (Ret (Some (no_message id)), w1)) ∧
  (Get id (activeMessages bd) = None → Ack ctx id w = (Ret (Some (no_message id)), w)).
Proof.
  intros Hc Hl.
  assert (∀ w bd, client_at ctx l (st w) → details (st w) !! l = Some bd →
    Get id (activeMessages bd) = None → Ack ctx id w = (Ret (Some (no_message id)), w)) as Hnone.
  { intros w' bd' Hc' Hl' Hid. unfold Ack, recover. rewrite (with_details_some _ _ _ _ Hc').
    prog_unfold. by rewrite (get_bd_run _ _ _ Hl'), Hid. }
  split; [|by apply Hnone]. intros Hid err e He w1.
  split; [by apply Ack_run|]. apply (Hnone w1 (delete_active id bd)).
  - destruct Hc as (cid & H1 & H2). by exists cid.
  - cbn. apply lookup_insert_eq.
  - unfold delete_active. replace (activeMessages (set_activeMessages _ bd))
      with (Delete id (activeMessages bd)) by (by destruct bd).
    by rewrite Get_Delete, decide_True.
Qed.

(** A panic while acknowledging is reported as success: the deferred
    function recovers it, but its return value is discarded, so [Ack] returns
    no error although the message is still held. *)
Theorem ack_panic_swallowed ctx id l bd m why e w :
  client_at ctx l (st w) → details (st w) !! l = Some bd →
  Get id (activeMessages bd) = Some (ActAmqp m) →
  answer (I := Shim) (KAck m) (env w) = (Panic why, e) →
  run_result (Ack ctx id) w = Ret None ∧
  details (st (run_state (Ack ctx id) w)) !! l = Some bd.
Proof.
  intros Hc Hl Hid He. unfold run_result, run_state, Ack, recover.
  rewrite (with_details_some _ _ _ _ Hc). prog_unfold.
  by rewrite (get_bd_run _ _ _ Hl), Hid, call_run, He.
Qed.

(** Retrying or dead-lettering a stream message goes wrong: [Retry] drops
    the message without giving its place in the prefetch window back (the
    latches do not change), and [DeadLetter] panics on it, as [Retry] does on
    any message when the client has not sent a source yet. *)
Theorem stream_settle_defects ctx id l bd sm delay src w :
  client_at ctx l (st w) → details (st w) !! l = Some bd →
  Get id (activeMessages bd) = Some (ActStream sm) →
  (let w' := run_state (Retry ctx (Some src) id delay) w in
   latches (st w') = latches (st w) ∧ log w' = log w ∧
   activeMessages <$> details (st w') !! l = Some (Delete id (activeMessages bd))) ∧
  (∃ why, run_result (DeadLetter ctx id) w = Panic why) ∧
  (∃ why, run_result (Retry ctx None id delay) w = Panic why).
Proof.
  intros Hc Hl Hid. unfold run_state, run_result. split; [|split].
  - unfold Retry. prog_unfold. rewrite (getBrokerDetails_run _ _ _ Hc), (get_bd_run _ _ _ Hl), Hid.
    rewrite upd_bd_run. cbn. split_and!; [done..|]. rewrite lookup_alter_eq, Hl. by destruct bd.
  - unfold DeadLetter. rewrite (with_details_some _ _ _ _ Hc). prog_unfold.
    rewrite (get_bd_run _ _ _ Hl), Hid. by eexists.
  - unfold Retry. prog_unfold. rewrite (getBrokerDetails_run _ _ _ Hc). by eexists.
Qed.

(** The offset stored for an acknowledged stream message is not the
    message's: it is where the consumer stands when the acknowledgement
    arrives, so acknowledging any of two messages of a subscription, the older
    or the newer, stores the same offset, past both. *)
Theorem stream_ack_stores_position ctx id l bd sm c s o e1 err e2 w :
  client_at ctx l (st w) → details (st w) !! l = Some bd → StreamConnection bd = Some s →
  Get id (activeMessages bd) = Some (ActStream sm) → saConsumer sm = Some c →
  answer (I := Shim) (KConsumerOffset c) (env w) = (Ret o, e1) →
  answer (I := Shim) (KStoreOffset s (saSource sm) (saConsumerName sm) o) e1 = (Ret err, e2) →
  let '(r, w') := Ack ctx id w in
  r = Ret None ∧
  log w' = log w ++ [ev (KConsumerOffset c) (Ret o);
                     ev (KStoreOffset s (saSource sm) (saConsumerName sm) o) (Ret err)].
Proof.
  intros Hc Hl Hs Hid Hcons H1 H2. unfold Ack, recover. rewrite (with_details_some _ _ _ _ Hc).
  prog_unfold. rewrite (get_bd_run _ _ _ Hl), Hid. unfold stream_ack, decrement_latch, writes.
  prog_unfold. rewrite Hcons, call_run. cbn [env set_st st log]. rewrite H1. cbn [fst snd].
  rewrite (get_bd_run _ bd) by (cbn; done). rewrite Hs. cbn [on_iface]. rewrite call_run.
  cbn [env st log]. rewrite H2. cbn [fst snd]. rewrite upd_bd_run. cbn. by rewrite <- app_assoc.
Qed.

End properties.

(** ** Witnesses *)

Section witnesses.
Definition demo_message : amqp091Message := {|
  delivery := Some (3%nat, 7); Body := []; DeliveryMode := 1; ContentType := ""; ContentEncoding := "";
  Headers := None; DeliveryTag := 7 |}.
Definition demo_stream : streamActive := {|
  saMessage := {| Compression.SBody := []; Compression.SContentType := "";
                  Compression.SContentEncoding := ""; Compression.SHeaders := None;
                  Compression.SPublishID := 0 |};
  saLatch := 0; saConsumer := Some 3%nat; saSource := "orders"; saConsumerName := "orders" |}.

Definition demo_active : gmap string active :=
  {[ "m1" := ActAmqp demo_message; "s1" := ActStream demo_stream ]}.

#[local] Instance demo_json : Json := {| Unmarshal _ := ([], None) |}.

Lemma ack_settles_witness (MR := default_range) (O := ok_shim) :
  fst (Ack demo_peer "m1" (demo_world demo_active)) = Ret None.
Proof.
  destruct (ack_settles demo_peer "m1" 0 (demo_details demo_active) demo_message
    (demo_world demo_active) (demo_client _) eq_refl) as [H _].
  destruct (H eq_refl None 11%nat eq_refl) as [H1 _]. exact (f_equal fst H1).
Defined.

Lemma ack_panic_swallowed_witness
    (O := scripted (λ c, match c with KAck _ => Some (Panic "broken pipe") | _ => None end)) :
  run_result (Ack demo_peer "m1") (demo_world demo_active) = Ret None.
Proof.
  apply (ack_panic_swallowed demo_peer "m1" 0 (demo_details demo_active) demo_message "broken pipe" 11%nat);
    [exact (demo_client _) | reflexivity..].
Defined.

Lemma stream_settle_defects_witness (MR := default_range) (O := ok_shim) :
  ∃ why, run_result (DeadLetter demo_peer "s1") (demo_world demo_active) = Panic why.
Proof.
  apply (stream_settle_defects demo_peer "s1" 0 (demo_details demo_active) demo_stream 5 zero_Source
    (demo_world demo_active)); [exact (demo_client _) | reflexivity..].
Defined.

Lemma stream_ack_stores_position_witness (O := ok_shim) :
  let '(r, w') := Ack demo_peer "s1" (demo_world demo_active) in
  r = Ret None ∧
  log w' = [ev (KConsumerOffset 3) (Ret 10); ev (KStoreOffset 2 "orders" "orders" 10) (Ret None)].
Proof.
  apply (stream_ack_stores_position demo_peer "s1" 0 (demo_details demo_active) demo_stream 3 2 10 11%nat
    None 12%nat (demo_world demo_active)); [exact (demo_client _) | reflexivity..].
Defined.
End witnesses.

End BrokerAck.
