(* ===== verification/Settling.v ===== *)
(** * Settling deliveries, several requests at a time

    The server answers each acknowledgement of a client in a goroutine of its
    own ([server/server.go], [Consume]), so that the handlers of [BrokerAck] run
    side by side. Each does three things that others can come between: it looks
    its message up, it settles it with the broker, and it deletes the entry.
    Here a request is a thread with these steps, and a schedule says whose turn
    it is. What a handler does to settle a message, with the declarations and
    the copy of a retry, is one step. *)

From Stdlib Require Import Ascii String.
From stdpp Require Import base gmap strings list fin_maps option.
From Stdlib Require Import ZArith Lia.
From S2P Require Import Prelude Effects GoStrings Api ConcurrentMap BlockingLatch BlockingPool ClientIds Provider Compression Stream Amqp BrokerState BrokerDeclare BrokerAck.

Module Settling.
Import Amqp ConcurrentMap BrokerState BrokerDeclare BrokerAck.
Open Scope Z_scope.
Open Scope list_scope.

(** ** Requests *)

Definition op_peer (o : settle_op) : ClientIds.peer :=
  match o with OpAck ctx _ | OpNack ctx _ | OpRetry ctx _ _ _ | OpDeadLetter ctx _ => ctx end.
Definition op_id (o : settle_op) : string :=
  match o with OpAck _ id | OpNack _ id | OpRetry _ _ id _ | OpDeadLetter _ id => id end.

(** How far a request is: it has been made; it has found an entry in the table
    of the object; it has settled it and is about to delete it; it has ended. *)
Inductive request :=
  | Asked (o : settle_op)
  | Found (o : settle_op) (l : nat) (a : active)
  | Settled (l : nat) (id : string)
  | Over.

Section machine.
Context {E : Type} `{Oracle Shim E} `{MR : MapRange} `{Json}.
Implicit Types w : world Shim E broker.

(** The first step of each handler: the object of the client and the entry. *)
Definition look_up (o : settle_op) : bprog E (option (nat * active)) :=
  r ← getBrokerDetails (op_peer o);
  match r with
  | inr _ => mret None
  | inl l =>
      (match o with
       | OpRetry _ None _ _ => panic "invalid memory address or nil pointer dereference"
       | _ => mret ()
       end);;
      bd ← get_bd l;
      mret (a ← Get (op_id o) (activeMessages bd); Some (l, a))
  end.

(** The second: the message is settled; [true] when the handler goes on. *)
Definition settle_found (o : settle_op) (l : nat) (a : active) : bprog E bool :=
  match o, a with
  | OpAck _ _, ActAmqp rm => call (KAck rm);; mret true
  | OpAck _ _, ActStream sm => stream_ack l sm;; mret true
  | OpNack _ _, ActAmqp rm => call (KNack rm false);; mret true
  | OpNack _ _, ActStream sm => stream_nack sm;; mret true
  | OpRetry _ (Some src) id delay, ActAmqp rm =>
      early ← retry_amqp l (set_SourceName (sourceName src) src) id delay rm;
      mret (match early with None => true | Some _ => false end)
  | OpRetry _ (Some _) _ _, ActStream _ => mret true
  | OpRetry _ None _ _, _ => panic "invalid memory address or nil pointer dereference"
  | OpDeadLetter _ _, ActAmqp rm => call (KNack rm false);; mret true
  | OpDeadLetter _ _, ActStream _ =>
      panic "interface conversion: interface {} is amqp091.streamMessage, not amqp091.amqp091Message"
  end.

(** A turn of a request. A panic ends it; when nothing recovers it, the process
    ends as well, and the schedules that go on are more than there are. *)
Definition request_step (r : request) (w : world Shim E broker) : request * world Shim E broker :=
  match r with
  | Asked o =>
      match look_up o w with
      | (Ret (Some (l, a)), w') => (Found o l a, w')
      | (_, w') => (Over, w')
      end
  | Found o l a =>
      match settle_found o l a w with
      | (Ret true, w') => (Settled l (op_id o), w')
      | (_, w') => (Over, w')
      end
  | Settled l id => (Over, snd (upd_bd l (delete_active id) w))
  | Over => (Over, w)
  end.

Inductive move :=
  | MAsk (o : settle_op)     (* a request is made *)
  | MStep (i : nat).         (* request [i] has its turn *)

Definition requests : Type := list request * world Shim E broker.

Definition move_apply (s : requests) (m : move) : requests :=
  match m with
  | MAsk o => (s.1 ++ [Asked o], s.2)
  | MStep i =>
      match s.1 !! i with
      | Some r => let '(r', w') := request_step r s.2 in (<[i := r']> s.1, w')
      | None => s
      end
  end.

Definition move_run (ms : list move) (s : requests) : requests := foldl move_apply s ms.

(** The identifier a request that has not ended is about. *)
Definition live_id (r : request) : option string :=
  match r with
  | Asked o | Found o _ _ => Some (op_id o)
  | Settled _ id => Some id
  | Over => None
  end.

(** No request is made while another one for the same identifier is going on. *)
Definition allowed (rs : list request) (m : move) : Prop :=
  match m with MAsk o => Forall (λ r, live_id r ≠ Some (op_id o)) rs | MStep _ => True end.
Fixpoint apart (ms : list move) (s : requests) : Prop :=
  match ms with [] => True | m :: ms => allowed s.1 m ∧ apart ms (move_apply s m) end.

(** ** A request on its own is its handler *)

Lemma look_up_run o w :
  look_up o w = (Ret None, w) ∨ (∃ why, look_up o w = (Panic why, w)) ∨
  ∃ l bd a, look_up o w = (Ret (Some (l, a)), w) ∧ details (st w) !! l = Some bd ∧
    Get (op_id o) (activeMessages bd) = Some a.
Proof.
  unfold look_up. destruct (getBrokerDetails_cases (op_peer o) w) as [[l|err] Hg];
    rewrite (bind_run _ _ _ _ _ Hg); [|by left].
  destruct o as [?|?|? [src|] ? ?|?]; cbn; try (right; left; by eexists); rewrite bind_ret_l;
    (destruct (details (st w) !! l) as [bd|] eqn:Hl;
      [rewrite (bind_run _ _ _ _ _ (get_bd_run l bd w Hl))
      |right; left; eexists; unfold get_bd, reads; prog_unfold; cbn; by rewrite Hl]);
    (cbn; destruct (Get _ (activeMessages bd)) as [a|] eqn:Hid; [|by left]; right; right; by exists l, bd, a).
Qed.

(** The world after a request that is alone. *)
Definition alone (o : settle_op) w : world Shim E broker := (move_run [MAsk o; MStep 0; MStep 0; MStep 0] ([], w)).2.

Lemma alone_steps o w :
  alone o w = (let '(r1, w1) := request_step (Asked o) w in
               let '(r2, w2) := request_step r1 w1 in snd (request_step r2 w2)).
Proof.
  unfold alone, move_run. cbn -[request_step]. destruct (request_step (Asked o) w) as [r1 w1]. cbn -[request_step].
  destruct (request_step r1 w1) as [r2 w2]. cbn -[request_step]. by destruct (request_step r2 w2).
Qed.

Lemma alone_is_handler o w : alone o w = settle_apply o w.
Proof.
  rewrite alone_steps. unfold request_step at 1, look_up.
  destruct o as [ctx id|ctx id|ctx src id delay|ctx id]; cbn [op_peer op_id settle_apply];
    unfold Ack, Nack, Retry, DeadLetter, recover, with_details; prog_unfold;
    (destruct (getBrokerDetails_cases ctx w) as [[l|err] ->]; [|done]).
  3: destruct src as [src|]; [|done].
  all: destruct (details (st w) !! l) as [bd|] eqn:Hl;
    [rewrite (get_bd_run l bd w Hl)|unfold get_bd, reads; prog_unfold; cbn; by rewrite Hl].
  all: destruct (Get id (activeMessages bd)) as [[m|sm]|]; [| |done]; cbn; prog_unfold.
  - destruct (call (KAck m) w) as [[err|why|] w1]; cbn; by rewrite ?upd_bd_run.
  - destruct (stream_ack l sm w) as [[[]|why|] w1]; cbn; by rewrite ?upd_bd_run.
  - destruct (call (KNack m false) w) as [[err|why|] w1]; cbn; by rewrite ?upd_bd_run.
  - done.
  - destruct (retry_amqp l _ id delay m w) as [[[r|]|why|] w1]; cbn; by rewrite ?upd_bd_run.
  - done.
  - destruct (call (KNack m false) w) as [[err|why|] w1]; cbn; by rewrite ?upd_bd_run.
  - done.
Qed.

(** ** What settling a message does *)

Definition goes_on (r : outcome bool) : bool := match r with Ret true => true | _ => false end.

Lemma settles_when_then_true t m c :
  is_settle c = true → settle_tag c = delivery m →
  settles_when t (bool_decide (act_key (ActAmqp m) = inl (Some t))) goes_on (call (E := E) c;; mret true).
Proof.
  intros Hset Hc w. pose proof (settle_call_run c w t Hset) as Hr. unfold mbind, prog_bind, mret, prog_ret.
  destruct (call c w) as [o w1]. destruct Hr as (Hlog & Hst & Hs). rewrite Hc in Hs. exists [ev c o].
  replace (bool_decide (act_key (ActAmqp m) = inl (Some t))) with (bool_decide (delivery m = Some t))
    by (apply bool_decide_ext; cbn; by split; [intros ->|intros [=]]).
  destruct o; cbn [fst snd]; split_and!; try done; by rewrite Hst.
Qed.

Lemma settles_when_stream {A} t sm P (m : bprog E A) :
  quiet m → settles_when t (bool_decide (act_key (ActStream sm) = inl (Some t))) P m.
Proof.
  intros Hq w. destruct (quiet_run m w t Hq) as (lg & Hl & Hs & Ha). exists lg. split; [done|]. split; [done|].
  by rewrite bool_decide_eq_false_2.
Qed.

Lemma settle_found_settles t o l a :
  settles_when t (bool_decide (act_key a = inl (Some t))) goes_on (settle_found o l a).
Proof.
  destruct o as [ctx id|ctx id|ctx [src|] id delay|ctx id], a as [m|sm]; cbn [settle_found];
    try (by apply settles_when_then_true); try (by apply settles_when_quiet; [apply quiet_panic|]);
    try (apply settles_when_stream);
    try (apply quiet_bind; [first [apply quiet_stream_ack|apply quiet_stream_nack]|intros _; apply quiet_ret]);
    try apply quiet_ret; try apply quiet_panic.
  - intros w. destruct (retry_amqp_settles t l (set_SourceName (sourceName src) src) id delay m w) as (lg & Hl & Ha & Hs).
    unfold mbind, prog_bind. exists lg.
    replace (bool_decide (act_key (ActAmqp m) = inl (Some t))) with (bool_decide (delivery m = Some t))
      by (apply bool_decide_ext; cbn; by split; [intros ->|intros [=]]).
    by destruct (retry_amqp l _ id delay m w) as [[[r|]|why|] w1].
Qed.

(** ** The invariant *)

(** There is an entry under [id]. *)
Definition has (l : nat) (id : string) (b : broker) : Prop :=
  ∃ bd, details b !! l = Some bd ∧ is_Some (Get id (activeMessages bd)).

(** A request that has found an entry, and has not deleted it, finds it still
    there: nobody else deletes it. *)
Definition entry_there (b : broker) (r : request) : Prop :=
  match r with
  | Found o l a => ∃ bd a', details b !! l = Some bd ∧ Get (op_id o) (activeMessages bd) = Some a' ∧ act_key a' = act_key a
  | Settled l id => has l id b
  | _ => True
  end.

(** No two requests for one identifier are going on. *)
Definition distinct (rs : list request) : Prop :=
  ∀ i j r1 r2 id, rs !! i = Some r1 → rs !! j = Some r2 → live_id r1 = Some id → live_id r2 = Some id → i = j.

Definition sound (rs : list request) (b : broker) : Prop := distinct rs ∧ Forall (entry_there b) rs.

(** Where delivery [t] is after [n] calls to settle it have returned: before it
    has come, nowhere. Then it is held in one place, and no request is about to
    delete it there; or it has been settled, and is only held where a request is
    about to delete it. *)
Definition stage (t : delivery_id) (came : bool) (n : Z) (rs : list request) (b : broker) : Prop :=
  if came then
    n = 0 ∧ (∃ l id, ∀ l' id', holds t l' id' b ↔ (l', id') = (l, id)) ∧
      (∀ i l id, rs !! i = Some (Settled l id) → ¬ holds t l id b) ∨
    n = 1 ∧ ∀ l id, holds t l id b → ∃ i, rs !! i = Some (Settled l id)
  else n = 0 ∧ ∀ l id, ¬ holds t l id b.

Lemma distinct_step rs i r r' :
  distinct rs → rs !! i = Some r → (∀ id, live_id r' = Some id → live_id r = Some id) → distinct (<[i := r']> rs).
Proof.
  intros Hd Hi Hr j k r1 r2 id Hj Hk H1 H2.
  apply list_lookup_insert_Some in Hj as [(<- & <- & _)|(Hij & Hj)], Hk as [(<- & <- & _)|(Hik & Hk)];
    [done|eapply Hd; eauto..].
Qed.

Lemma has_same l id b b' : same_active b b' → has l id b' → has l id b.
Proof.
  intros Hs (bd' & Hl & Hid). destruct (same_active_lookup l id b b' bd' Hs Hl) as (bd & Hl2 & _ & Hk).
  exists bd. split; [done|]. destruct (Get id (activeMessages bd')); [|by destruct Hid].
  destruct (Get id (activeMessages bd)); [by eexists|done].
Qed.

Lemma entry_there_same b b' r : same_active b b' → entry_there b' r ↔ entry_there b r.
Proof.
  assert (∀ b b' r, same_active b b' → entry_there b' r → entry_there b r) as Hone.
  { intros b1 b2 [|o l a|l id|] Hs; try done; [|by apply has_same]. cbn. intros (bd' & a' & Hl & Hid & Hk).
    destruct (same_active_lookup l (op_id o) b1 b2 bd' Hs Hl) as (bd & Hl' & _ & Hkey). rewrite Hid in Hkey.
    destruct (Get (op_id o) (activeMessages bd)) as [a''|] eqn:Hid'; [|done]. cbn in Hkey.
    exists bd, a''. split_and!; [done..|]. congruence. }
  intros Hs. split; [by apply Hone|]. apply Hone. by symmetry.
Qed.

Lemma holds_iff_same t l id b b' : same_active b b' → holds t l id b' ↔ holds t l id b.
Proof. intros Hs. split; apply holds_same; [done|by symmetry]. Qed.

(** Where the table does not change, and no request comes to delete an entry or
    ends doing so, a delivery is where it was. *)
Lemma stage_same t came n rs rs' b b' :
  same_active b b' → (∀ i l id, rs' !! i = Some (Settled l id) → rs !! i = Some (Settled l id) ∨ ¬ holds t l id b) →
  (∀ i l id, rs !! i = Some (Settled l id) → rs' !! i = Some (Settled l id)) →
  stage t came n rs b → stage t came n rs' b'.
Proof.
  intros Hs Hnew Hold. pose proof (λ l id, holds_iff_same t l id b b' Hs) as Hh. unfold stage. destruct came.
  - intros [(Hn & (l & id & Hx) & Hno)|(Hn & Hx)]; [left|right]; (split; [done|]).
    + split; [exists l, id; intros l' id'; by rewrite Hh|]. intros i l' id' Hi. rewrite Hh.
      destruct (Hnew i l' id' Hi) as [Hi'|]; [by eapply Hno|done].
    + intros l id Hl%Hh. destruct (Hx l id Hl) as [i Hi]. exists i. by apply Hold.
  - intros [Hn Hno]. split; [done|]. intros l id. rewrite Hh. apply Hno.
Qed.

(** One step: what is called meanwhile, and that the invariant is kept. *)
Definition sound_step (rs : list request) w (rs' : list request) w' : Prop :=
  ∃ lg, log w' = log w ++ lg ∧ sound rs' (st w') ∧
    ∀ t came n, stage t came n rs (st w) → stage t came (n + settles t lg) rs' (st w').

Lemma sound_insert rs b b' i r r' :
  sound rs b → rs !! i = Some r → same_active b b' → (∀ id, live_id r' = Some id → live_id r = Some id) →
  entry_there b' r' → sound (<[i := r']> rs) b'.
Proof.
  intros [Hd Hf] Hi Hs Hl Hr. split; [by eapply distinct_step|].
  apply Forall_insert; [|done]. eapply list.Forall_impl; [exact Hf|]. intros x Hx. by apply (entry_there_same b b').
Qed.

(** Only [i] changes, and it neither was nor becomes a request that is about to
    delete an entry. *)
Lemma settled_elsewhere (rs : list request) (i : nat) r r' :
  rs !! i = Some r → (∀ l id, r ≠ Settled l id) → (∀ l id, r' ≠ Settled l id) →
  ∀ j l id, <[i := r']> rs !! j = Some (Settled l id) ↔ rs !! j = Some (Settled l id).
Proof.
  intros Hi Hr Hr' j l id. rewrite list_lookup_insert_Some. split.
  - intros [(_ & Hx & _)|(_ & ?)]; [by destruct (Hr' l id)|done].
  - intros Hj. right. split; [|done]. intros ->. rewrite Hi in Hj. injection Hj as ->. by destruct (Hr l id).
Qed.

Lemma sound_step_quiet (rs : list request) (i : nat) r r' w w' lg :
  sound rs (st w) → rs !! i = Some r → same_active (st w) (st w') → log w' = log w ++ lg →
  (∀ t, settles t lg = 0) → (∀ l id, r ≠ Settled l id) → (∀ l id, r' ≠ Settled l id) →
  (∀ id, live_id r' = Some id → live_id r = Some id) → entry_there (st w') r' →
  sound_step rs w (<[i := r']> rs) w'.
Proof.
  intros Hs Hi Ha Hl Hset Hr Hr' Hlive He. exists lg. split; [done|]. split; [by eapply sound_insert|].
  intros t came n Hst. rewrite Hset, Z.add_0_r. eapply stage_same; [exact Ha| | |exact Hst];
    intros j l id; rewrite (settled_elsewhere rs i r r' Hi Hr Hr'); [by left|done].
Qed.

Lemma sound_step_asked rs i o w :
  sound rs (st w) → rs !! i = Some (Asked o) →
  sound_step rs w (<[i := (request_step (Asked o) w).1]> rs) (request_step (Asked o) w).2.
Proof.
  intros Hs Hi. cbn [request_step].
  assert (∀ r', (∀ l id, r' ≠ Settled l id) → (∀ id, live_id r' = Some id → op_id o = id) → entry_there (st w) r' →
    sound_step rs w (<[i := r']> rs) w) as Hgo.
  { intros r' Hr Hlive He. apply (sound_step_quiet rs i (Asked o) r' w w []); try done; [by rewrite app_nil_r|].
    intros id Hid. cbn. by rewrite (Hlive id Hid). }
  destruct (look_up_run o w) as [->|[[why ->]|(l & bd & a & -> & Hl & Hid)]]; cbn [fst snd]; apply Hgo; try done.
  - by intros ? [= <-].
  - by exists bd, a.
Qed.

(** The message of a request that has settled it. *)
Lemma found_holds t b o l a : entry_there b (Found o l a) → act_key a = inl (Some t) → holds t l (op_id o) b.
Proof.
  intros (bd & a' & Hl & Hid & Hk) Ha. rewrite Ha in Hk. destruct a' as [m|sm]; [|done].
  injection Hk as Hm. by exists bd, m.
Qed.

Lemma holds_found t b o l a : entry_there b (Found o l a) → holds t l (op_id o) b → act_key a = inl (Some t).
Proof.
  intros (bd & a' & Hl & Hid & Hk) (bd' & m & Hl' & Hm & Ht). simplify_eq. rewrite <- Hk. cbn. by rewrite Ht.
Qed.

(** A request has settled its message and is now about to delete the entry. *)
Lemma stage_settled t came n k rs i o l a b b' :
  sound rs b → rs !! i = Some (Found o l a) → same_active b b' →
  k = b2z (bool_decide (act_key a = inl (Some t))) → stage t came n rs b →
  stage t came (n + k) (<[i := Settled l (op_id o)]> rs) b'.
Proof.
  intros [Hd Hf] Hi Ha -> Hst. assert (entry_there b (Found o l a)) as He by (by eapply list.Forall_lookup_1).
  assert (∀ j l' id', rs !! j = Some (Settled l' id') → j ≠ i) as Hne.
  { intros j l' id' Hj ->. congruence. }
  assert (i < length rs)%nat as Hlen by (by eapply lookup_lt_Some).
  case_bool_decide as Hk; cbn [b2z]; rewrite ?Z.add_0_r.
  - pose proof (found_holds t b o l a He Hk) as Hh. unfold stage in *. destruct came.
    + destruct Hst as [(-> & (l0 & id0 & Hx) & _)|(_ & Hx)].
      * right. split; [done|]. intros l' id' Hh'. rewrite (holds_iff_same _ _ _ b b' Ha) in Hh'.
        apply Hx in Hh, Hh'. rewrite <- Hh in Hh'. injection Hh' as -> ->. exists i. by apply list_lookup_insert_eq.
      * exfalso. destruct (Hx _ _ Hh) as [j Hj]. apply (Hne j _ _ Hj). by eapply Hd; [exact Hj|exact Hi|..].
    + destruct Hst as [_ Hno]. by destruct (Hno _ _ Hh).
  - eapply stage_same; [exact Ha| | |exact Hst].
    + intros j l' id' Hj. apply list_lookup_insert_Some in Hj as [(<- & [= <- <-] & _)|(_ & Hj)]; [right|by left].
      intros Hh. by apply Hk, (holds_found t b o l a He).
    + intros j l' id' Hj. rewrite list_lookup_insert_ne; [done|]. intros ->. by apply (Hne j _ _ Hj).
Qed.

Lemma sound_step_found rs i o l a w :
  sound rs (st w) → rs !! i = Some (Found o l a) →
  sound_step rs w (<[i := (request_step (Found o l a) w).1]> rs) (request_step (Found o l a) w).2.
Proof.
  intros Hs Hi. cbn [request_step].
  pose proof (λ t, settle_found_settles t o l a w) as Hset.
  destruct (settle_found o l a w) as [r w1]. cbn [fst snd] in Hset.
  destruct (Hset (0%nat, 0)) as (lg & Hl & Ha & _).
  assert (∀ t, settles t lg = b2z (bool_decide (act_key a = inl (Some t)) && goes_on r)) as Hk.
  { intros t. destruct (Hset t) as (lg' & Hl' & _ & Hk). rewrite Hl in Hl'. by apply app_inv_head in Hl' as <-. }
  clear Hset. assert (goes_on r = false → sound_step rs w (<[i := Over]> rs) w1) as Hover.
  { intros Hr. apply (sound_step_quiet rs i (Found o l a) Over w w1 lg); try done.
    intros t. by rewrite Hk, Hr, andb_false_r. }
  destruct r as [[]|why|]; cbn [fst snd]; try (by apply Hover). exists lg. split; [done|]. split.
  - apply (sound_insert rs (st w) (st w1) i (Found o l a)); try done.
    apply (has_same _ _ (st w1) (st w)); [by symmetry|].
    destruct Hs as [_ Hf]. apply (list.Forall_lookup_1 _ _ _ _ Hf) in Hi as (bd & a' & Hl' & Hid & _).
    exists bd. split; [done|by eexists].
  - intros t came n. apply stage_settled with (a := a) (b := st w); [done..|]. by rewrite Hk, andb_true_r.
Qed.

Lemma entry_there_delete b l id r :
  live_id r ≠ Some id → entry_there b r → entry_there (set_details (alter (delete_active id) l (details b)) b) r.
Proof.
  destruct r as [|o l' a|l' id'|]; try done; cbn [live_id entry_there]; intros Hne.
  2:{ intros (bd & Hl & Hid). destruct (decide (l = l')) as [<-|Hl'].
      - exists (delete_active id bd). rewrite details_upd, Hl. split; [done|].
        unfold delete_active. replace (activeMessages (set_activeMessages _ bd))
          with (Delete id (activeMessages bd)) by (by destruct bd).
        rewrite Get_Delete, decide_False; [done|]. congruence.
      - exists bd. by rewrite details_upd_ne. }
  intros (bd & a' & Hl & Hid & Hk). destruct (decide (l = l')) as [<-|Hl'].
  - exists (delete_active id bd), a'. rewrite details_upd, Hl. split; [done|]. split; [|done].
    unfold delete_active. replace (activeMessages (set_activeMessages _ bd))
      with (Delete id (activeMessages bd)) by (by destruct bd).
    rewrite Get_Delete, decide_False; [done|]. congruence.
  - exists bd, a'. by rewrite details_upd_ne.
Qed.

Lemma sound_step_settled rs i l id w :
  sound rs (st w) → rs !! i = Some (Settled l id) →
  sound_step rs w (<[i := Over]> rs) (snd (upd_bd l (delete_active id) w)).
Proof.
  intros [Hd Hf] Hi. rewrite upd_bd_run. cbn [snd]. exists []. split; [by rewrite app_nil_r|].
  cbn [set_st st]. set (b' := set_details _ _). split; [split|].
  - by eapply distinct_step.
  - apply list.Forall_lookup_2. intros j r Hj. apply list_lookup_insert_Some in Hj as [(_ & <- & _)|(Hne & Hj)]; [done|].
    apply entry_there_delete; [|by eapply list.Forall_lookup_1]. intros Hlive. apply Hne. by eapply Hd.
  - intros t came n Hst. rewrite Z.add_0_r. unfold stage in *.
    assert (∀ l' id', holds t l' id' b' → holds t l' id' (st w) ∧ (l', id') ≠ (l, id)) as Hback
      by (intros; by apply holds_delete).
    destruct came; [destruct Hst as [(Hn & (l0 & id0 & Hx) & Hno)|(Hn & Hx)]|].
    + left. split; [done|]. split.
      * exists l0, id0. intros l' id'. rewrite <- Hx. split; [intros Hh; by apply Hback|]. intros Hh.
        apply holds_delete_other; [done|]. intros [= -> ->]. by apply (Hno i l id).
      * intros j l' id' Hj. apply list_lookup_insert_Some in Hj as [(_ & ? & _)|(_ & Hj)]; [done|].
        intros [Hh _]%Hback. by apply (Hno j l' id').
    + right. split; [done|]. intros l' id' [Hh Hne]%Hback. destruct (Hx l' id' Hh) as [j Hj]. exists j.
      rewrite list_lookup_insert_ne; [done|]. intros <-. congruence.
    + destruct Hst as [Hn Hno]. split; [done|]. intros l' id' [Hh _]%Hback. by apply (Hno l' id').
Qed.

Lemma sound_step_move rs w m :
  sound rs (st w) → allowed rs m → sound_step rs w (move_apply (rs, w) m).1 (move_apply (rs, w) m).2.
Proof.
  intros Hs Ha. destruct m as [o|i]; cbn [move_apply fst snd].
  - destruct Hs as [Hd Hf]. exists []. split; [by rewrite app_nil_r|]. split; [split|].
    + intros j k r1 r2 id Hj Hk H1 H2. cbn in Ha. rewrite list.Forall_lookup in Ha.
      apply lookup_app_Some in Hj as [Hj|[Hj1 Hj]], Hk as [Hk|[Hk1 Hk]].
      * by eapply Hd.
      * apply list_lookup_singleton_Some in Hk as [_ <-]. exfalso. apply (Ha j r1 Hj). cbn in H2. congruence.
      * apply list_lookup_singleton_Some in Hj as [_ <-]. exfalso. apply (Ha k r2 Hk). cbn in H1. congruence.
      * apply list_lookup_singleton_Some in Hj as [Hj _], Hk as [Hk _]. lia.
    + apply list.Forall_app. split; [done|]. by repeat constructor.
    + intros t came n Hst. rewrite Z.add_0_r. unfold stage in *.
      assert (∀ j l id, (rs ++ [Asked o]) !! j = Some (Settled l id) → rs !! j = Some (Settled l id)) as Hback.
      { intros j l id Hj. apply lookup_app_Some in Hj as [Hj|[_ Hj]]; [done|].
        by apply list_lookup_singleton_Some in Hj as [_ ?]. }
      destruct came; [destruct Hst as [(Hn & Hx & Hno)|(Hn & Hx)]|done].
      * left. split; [done|]. split; [done|]. intros j l id Hj%Hback. by eapply Hno.
      * right. split; [done|]. intros l id Hh. destruct (Hx l id Hh) as [j Hj]. exists j.
        by apply lookup_app_l_Some.
  - destruct (rs !! i) as [r|] eqn:Hi; [|exists []; split; [by rewrite app_nil_r|]; split; [done|];
      intros t came n; by rewrite Z.add_0_r].
    destruct r as [o|o l a|l id|].
    + pose proof (sound_step_asked rs i o w Hs Hi) as Hr. by destruct (request_step (Asked o) w).
    + pose proof (sound_step_found rs i o l a w Hs Hi) as Hr. by destruct (request_step (Found o l a) w).
    + by apply sound_step_settled.
    + cbn. apply (sound_step_quiet rs i Over Over w w []); try done. by rewrite app_nil_r.
Qed.

Lemma sound_step_run ms rs w :
  sound rs (st w) → apart ms (rs, w) → sound_step rs w (move_run ms (rs, w)).1 (move_run ms (rs, w)).2.
Proof.
  revert rs w. induction ms as [|m ms IH]; intros rs w Hs Ha.
  { exists []. cbn. rewrite app_nil_r. split; [done|]. split; [done|]. intros t came n. by rewrite Z.add_0_r. }
  destruct Ha as [Hm Ha]. destruct (sound_step_move rs w m Hs Hm) as (lg1 & Hl1 & Hs1 & Hst1).
  cbn [move_run foldl] in *. destruct (move_apply (rs, w) m) as [rs1 w1]. cbn [fst snd] in *.
  destruct (IH rs1 w1 Hs1 Ha) as (lg2 & Hl2 & Hs2 & Hst2). unfold move_run in *. exists (lg1 ++ lg2).
  split; [by rewrite Hl2, Hl1, app_assoc|]. split; [done|]. intros t came n Hst.
  rewrite settles_app, Z.add_assoc. by apply Hst2, Hst1.
Qed.

Lemma sound_nil b : sound [] b.
Proof. split; [by intros ? ? ? ? ? ?|constructor]. Qed.

(** When no request is going on, a delivery that has come is settled or held. *)
Lemma stage_over t n rs b :
  Forall (λ r, r = Over) rs → stage t true n rs b →
  n = 1 ∧ (∀ l id, ¬ holds t l id b) ∨ n = 0 ∧ ∃ l id, ∀ l' id', holds t l' id' b ↔ (l', id') = (l, id).
Proof.
  intros Hall [(Hn & Hx & _)|(Hn & Hx)]; [by right|left]. split; [done|]. intros l id Hh.
  destruct (Hx l id Hh) as [i Hi]. by apply (list.Forall_lookup_1 _ _ _ _ Hall) in Hi.
Qed.

(** ** Properties *)

(** C1: A delivery is settled at most once. Whatever requests to acknowledge,
    reject, retry or dead-letter clients make, for whatever identifiers, and
    however the steps of their handlers interleave, as long as no request is
    made for an identifier for which another one is still going on: for a
    delivery, which is a channel and a tag, at most one call that acknowledges
    or rejects it returns, with or without an error, if it is held under one
    identifier, and none if it is held under none. And when all requests have
    ended, it has left the table exactly if such a call has returned. *)
Theorem settled_at_most_once t ms w :
  apart ms ([], w) →
  let '(rs', w') := move_run ms ([], w) in
  ∃ lg, log w' = log w ++ lg ∧
    ((∀ l id, ¬ holds t l id (st w)) → accepts t lg + refusals t lg = 0) ∧
    ((∃ l id, ∀ l' id', holds t l' id' (st w) ↔ (l', id') = (l, id)) →
      accepts t lg + refusals t lg <= 1 ∧
      (Forall (λ r, r = Over) rs' →
        (accepts t lg + refusals t lg = 1 ↔ ∀ l id, ¬ holds t l id (st w')))).
Proof.
  intros Ha. destruct (sound_step_run ms [] w (sound_nil _) Ha) as (lg & Hl & _ & Hst).
  destruct (move_run ms ([], w)) as [rs' w']. cbn [fst snd] in *. exists lg. split; [done|].
  rewrite <- settles_split. split.
  - intros Hno. destruct (Hst t false 0 ltac:(by split)) as [Hz _]. lia.
  - intros Hheld. assert (stage t true (0 + settles t lg) rs' (st w')) as Hs.
    { apply Hst. left. split; [done|]. split; [done|]. by intros i l id Hi. }
    rewrite Z.add_0_l in Hs. split; [destruct Hs as [(-> & _)|(-> & _)]; lia|]. intros Hall.
    destruct (stage_over t _ rs' (st w') Hall Hs) as [[-> Hno]|(-> & l & id & Hx)]; [done|].
    split; [done|]. intros Hno. exfalso. apply (Hno l id). by apply Hx.
Qed.
End machine.

(** ** Witness *)

Section witness.
#[local] Instance demo_json : Json := {| Unmarshal _ := ([], None) |}.

Lemma demo_held : ∀ l id, holds (3%nat, 7) l id (demo_broker demo_active) ↔ (l, id) = (0%nat, "m1").
Proof.
  intros l id. split.
  - intros (bd & m & Hl & Hm & Ht). cbn in Hl. apply lookup_singleton_Some in Hl as [<- <-].
    cbn in Hm. unfold Get, demo_active in Hm. apply lookup_insert_Some in Hm as [[<- _]|[_ Hm]]; [done|].
    by apply lookup_singleton_Some in Hm as [_ ?].
  - intros [= -> ->]. by eexists _, _.
Qed.

(** The delivery is acknowledged while a stream message is; then it is
    rejected, twice at once with an identifier that nobody holds. *)
Definition demo_moves : list move :=
  [MAsk (OpAck demo_peer "m1"); MAsk (OpAck demo_peer "s1"); MStep 0; MStep 1; MStep 0; MStep 1; MStep 0; MStep 1;
   MAsk (OpNack demo_peer "m1"); MAsk (OpDeadLetter demo_peer "m9"); MStep 3; MStep 2].

Lemma settled_at_most_once_witness (MR := default_range) (O := ok_shim) :
  let w' := (move_run demo_moves ([], demo_world demo_active)).2 in
  accepts (3%nat, 7) (log w') + refusals (3%nat, 7) (log w') = 1 ∧ ∀ l id, ¬ holds (3%nat, 7) l id (st w').
Proof.
  assert (apart demo_moves ([], demo_world demo_active)) as Ha.
  { repeat first [exact I | split; [by repeat constructor|]]. }
  pose proof (settled_at_most_once (3%nat, 7) demo_moves (demo_world demo_active) Ha) as Hs.
  assert (Forall (λ r, r = Over) (move_run demo_moves ([], demo_world demo_active)).1) as Hover
    by (vm_compute; repeat constructor).
  assert (accepts (3%nat, 7) (log (move_run demo_moves ([], demo_world demo_active)).2) = 1 ∧
    refusals (3%nat, 7) (log (move_run demo_moves ([], demo_world demo_active)).2) = 0) as [Hacc Href]
    by (vm_compute; by split).
  subst O MR. destruct (move_run demo_moves ([], demo_world demo_active)) as [rs' w'] eqn:Hr. cbn [fst snd] in *.
  destruct Hs as (lg & Hl & _ & Hx). change (log (demo_world demo_active)) with (@nil (event Shim)) in Hl.
  cbn [app] in Hl. subst lg. rewrite Hacc, Href in *. split; [done|].
  destruct (Hx ltac:(exists 0%nat, "m1"; exact demo_held)) as [_ Hiff]. by apply (Hiff Hover).
Defined.

(** Two acknowledgements of one message at the same time: the server starts a
    goroutine for each, both find the message before either deletes it, and the
    broker gets two acknowledgements of one delivery. *)
Lemma overlapping_acks_settle_twice (MR := default_range) (O := ok_shim) :
  accepts (3%nat, 7) (log (move_run
    [MAsk (OpAck demo_peer "m1"); MAsk (OpAck demo_peer "m1"); MStep 0; MStep 1; MStep 0; MStep 1]
    ([], demo_world demo_active)).2) = 2.
Proof. vm_compute. reflexivity. Qed.
End witness.
End Settling.
