(* ===== verification/BrokerRetry.v ===== *)
(** * [connectors/amqp091/amqp091.go]: delayed retries

    The theorems on [Retry] of [BrokerAck]: what is called for a message that is
    retried, in which order, and what becomes of it; the queue its copy waits in;
    and how the tries are counted. *)

From Stdlib Require Import Ascii String.
From stdpp Require Import base gmap strings list fin_maps option.
From Stdlib Require Import ZArith Lia.
From S2P Require Import Prelude Effects GoStrings Api ConcurrentMap BlockingLatch BlockingPool ClientIds Provider Compression Stream Amqp BrokerState BrokerDeclare BrokerTopology BrokerAck.

Module BrokerRetry.
Import Amqp ConcurrentMap BrokerState BrokerDeclare BrokerTopology BrokerAck.
Open Scope Z_scope.
Open Scope list_scope.

(** ** Counting the tries *)

(** How often a message has been retried, as its headers say. *)
Definition retry_count (h : option amqp091Table) : Z :=
  match header h retryCountHeaderName with
  | Some (VInt32 v) => v
  | Some (VInt64 v) => int32 v
  | Some (VInt v) => int32 v
  | _ => 0
  end.

(** A retried message is the message with a count one higher. *)
Lemma updateRetryCountHeader_spec rm :
  updateRetryCountHeader rm =
    set_Headers (Some (<[retryCountHeaderName := VInt32 (int32 (retry_count (Headers rm) + 1))]>
                         (default ∅ (Headers rm)))) rm.
Proof.
  unfold updateRetryCountHeader, retry_count, header. destruct (Headers rm) as [h|]; cbn; [|by rewrite lookup_empty].
  by destruct (h !! retryCountHeaderName) as [[]|].
Qed.

Lemma retry_count_update rm :
  retry_count (Headers (updateRetryCountHeader rm)) = int32 (retry_count (Headers rm) + 1).
Proof.
  rewrite updateRetryCountHeader_spec. unfold retry_count at 1, header.
  replace (Headers (set_Headers _ rm)) with
    (Some (<[retryCountHeaderName := VInt32 (int32 (retry_count (Headers rm) + 1))]> (default ∅ (Headers rm))))
    by (by destruct rm).
  cbn. by rewrite lookup_insert_eq.
Qed.

(** The count is that of the tries, in 32 bits. *)
Lemma tries_counted n rm :
  retry_count (Headers (Nat.iter (S n) updateRetryCountHeader rm)) = int32 (retry_count (Headers rm) + Z.of_nat (S n)).
Proof.
  induction n as [|n IH]; [by rewrite Nat.iter_succ, retry_count_update|].
  rewrite Nat.iter_succ, retry_count_update, IH, int32_add_l. f_equal. lia.
Qed.

(** Nothing else of the message changes. *)
Lemma tries_keep n rm :
  Body (Nat.iter n updateRetryCountHeader rm) = Body rm ∧
  delivery (Nat.iter n updateRetryCountHeader rm) = delivery rm.
Proof.
  induction n as [|n [IH1 IH2]]; [done|]. rewrite Nat.iter_succ, updateRetryCountHeader_spec, <- IH1, <- IH2.
  by destruct (Nat.iter n updateRetryCountHeader rm).
Qed.

Lemma other_headers_kept n rm k :
  k ≠ retryCountHeaderName → header (Headers (Nat.iter n updateRetryCountHeader rm)) k = header (Headers rm) k.
Proof.
  intros Hk. induction n as [|n IH]; [done|]. rewrite Nat.iter_succ, updateRetryCountHeader_spec, <- IH.
  set (m := Nat.iter n updateRetryCountHeader rm). unfold header.
  replace (Headers (set_Headers _ m)) with
    (Some (<[retryCountHeaderName := VInt32 (int32 (retry_count (Headers m) + 1))]> (default ∅ (Headers m))))
    by (by destruct m).
  cbn. rewrite lookup_insert_ne by done. destruct (Headers m) as [h|]; cbn; [done|apply lookup_empty].
Qed.

(** ** The queue of a retry *)

Lemma retry_queue_args `{MR : MapRange} src delay :
  in_int32 delay →
  queue_args (retry_source src delay) =
    inl {[ "x-queue-type" := VString "quorum"; "x-message-ttl" := VInt (delay * 1000);
           "x-dead-letter-exchange" := VString "" ]}.
Proof.
  intros Hd. unfold in_int32 in Hd.
  assert (arg_value "MessageTTL" (itoa (int64 (delay * 1000))) = Some (VInt (delay * 1000))) as Hv.
  { unfold arg_value. cbn [String.eqb orb]. rewrite int64_small by (unfold in_int64; lia).
    rewrite atoi_itoa by (unfold in_int64; lia). done. }
  set (src' := retry_source src delay).
  assert (Options src' = {[ "MessageTTL" := itoa (int64 (delay * 1000)); "DeadLetterAddress" := "" ]}) as Ho by done.
  pose proof (queue_args_spec src') as Hq. destruct (queue_args src') as [args|e].
  - destruct Hq as [_ Hq]. f_equal. apply map_eq. intros k. rewrite Hq. unfold wanted_arg, option_arg. rewrite Ho.
    destruct (String.eqb_spec k "x-queue-type") as [->|H1]; [done|].
    destruct (String.eqb_spec k "x-message-ttl") as [->|H2]; [exact Hv|].
    destruct (String.eqb_spec k "x-dead-letter-exchange") as [->|H3]; [done|].
    cbv iota. rewrite !(lookup_insert_ne _ _ k), (lookup_singleton_ne _ k) by done.
    destruct (String.eqb_spec k "x-dead-letter-routing-key") as [->|H4]; [done|].
    destruct (String.eqb_spec k "x-single-active-consumer") as [->|H5]; [done|].
    by destruct (String.eqb_spec k "x-expires") as [->|H6].
  - destruct Hq. split; [by exists "quorum"|]. rewrite Ho. apply map_Forall_insert_2.
    + split; [by eexists|]. rewrite Hv. by eexists.
    + apply map_Forall_singleton. split; by eexists.
Qed.

(** ** What a retry sends *)

(** Rejecting or acknowledging the original, according to the answer to the
    copy. *)
Definition settle_ev (err : error) (m : amqp091Message) (o : outcome error) : event Shim :=
  match err with None => ev (KAck m) o | Some _ => ev (KNack m true) o end.

(** The last calls of a retry whose copy [m] goes to the exchange [x] under
    the key [k]: nothing; the copy, without an answer; or the copy and then the
    original. The flag says that the original is settled. *)
Inductive sends (x k : string) (m : amqp091Message) : list (event Shim) → bool → Prop :=
  | sends_nothing : sends x k m [] false
  | sends_copy ch o : is_ret o = false → sends x k m [ev (KPublish ch x k m) o] false
  | sends_both ch err o : sends x k m [ev (KPublish ch x k m) (Ret err); settle_ev err m o] (is_ret o).

(** Neither a message nor an acknowledgement. *)
Definition preparing (c : icall Shim) : Prop := decl_call c ∨ ∃ n confirm, c = KNewChannel n confirm.

Section retry.
Context {E : Type} `{Oracle Shim E} `{MR : MapRange} `{Json}.

(** Everything [m] does before it ends with a result in [P] if it has settled
    the original, and with another one if it has not. *)
Definition retries {A} (x k : string) (rm : amqp091Message) (P : outcome A → bool) (m : bprog E A) : Prop :=
  ∀ w, ∃ pre tail, log (snd (m w)) = log w ++ pre ++ tail ∧ same_active (st w) (st (snd (m w))) ∧
    Forall (λ e, preparing (projT1 e)) pre ∧ sends x k rm tail (P (fst (m w))).

Lemma retries_quiet {A} x k rm P (m : bprog E A) :
  emits preparing m → keeps same_active m → (∀ w, P (fst (m w)) = false) → retries x k rm P m.
Proof.
  intros He Hk HP w. destruct (He w) as (lg & Hl & Hall). exists lg, [].
  rewrite app_nil_r, HP. split_and!; [done|apply Hk|done|constructor].
Qed.

Lemma retries_bind {A B} x k rm P (m : bprog E A) (f : A → bprog E B) :
  emits preparing m → keeps same_active m → (∀ why, P (Panic why) = false) → P Block = false →
  (∀ a, retries x k rm P (f a)) → retries x k rm P (m ≫= f).
Proof.
  intros He Hk HP1 HP2 Hf w. destruct (He w) as (lg & Hl & Hall). specialize (Hk w).
  unfold mbind, prog_bind. destruct (m w) as [[a|why|] w1]; cbn [fst snd] in *.
  - destruct (Hf a w1) as (pre & tail & Hl2 & Ha2 & Hall2 & Hs). exists (lg ++ pre), tail.
    split_and!; [by rewrite Hl2, Hl, !app_assoc|by etrans|by apply Forall_app|done].
  - exists lg, []. rewrite app_nil_r, HP1. split_and!; [done..|constructor].
  - exists lg, []. rewrite app_nil_r, HP2. split_and!; [done..|constructor].
Qed.

Lemma declaring_prepares {A} (m : bprog E A) : declaring m → emits preparing m ∧ keeps same_active m.
Proof.
  intros [He Hk]. split; [|apply Hk; exact _]. eapply emits_weaken; [|exact He]. intros c Hc. by left.
Qed.

Lemma retries_declaring {A B} x k rm P (m : bprog E A) (f : A → bprog E B) :
  declaring m → (∀ why, P (Panic why) = false) → P Block = false →
  (∀ a, retries x k rm P (f a)) → retries x k rm P (m ≫= f).
Proof. intros [He Hk]%declaring_prepares. by apply retries_bind. Qed.

(** The copy and the original. *)
Lemma retries_both x k rm ch :
  retries x k rm sent
    (retryErr ← call (E := E) (KPublish ch x k rm);
     match (retryErr : error) with
     | Some _ => call (KNack rm true);; mret None
     | None => call (KAck rm);; mret None
     end).
Proof.
  intros w. exists []. unfold mbind, prog_bind. rewrite call_run.
  destruct (answer (I := Shim) (KPublish ch x k rm) (env w)) as [[err|why|] e1]; cbn [fst snd].
  - destruct (err : error) as [e|] eqn:He; rewrite call_run; cbn [env log st];
      [destruct (answer (I := Shim) (KNack rm true) e1) as [o e2]
      |destruct (answer (I := Shim) (KAck rm) e1) as [o e2]];
      (exists [ev (KPublish ch x k rm) (Ret err); settle_ev err rm o]; subst err;
       split_and!; [by destruct o; cbn; rewrite <- app_assoc|by destruct o|done|];
       replace (sent _) with (is_ret o) by (by destruct o); apply sends_both).
  - exists [ev (KPublish ch x k rm) (Panic why)]. split_and!; [done..|by constructor].
  - exists [ev (KPublish ch x k rm) Block]. split_and!; [done..|by constructor].
Qed.

Lemma share_prepares l id rm :
  emits (E := E) preparing (upd_bd l (share_headers id rm)) ∧ keeps (E := E) same_active (upd_bd l (share_headers id rm)).
Proof. split; [apply emits_upd_bd|apply keeps_upd_bd, active_keys_share]. Qed.

Lemma retry_send_retries l src id delay ch rm :
  retries (SourceName (retry_source src delay)) (SourceName src) (updateRetryCountHeader rm) sent
    (retry_send (E := E) l src id delay ch rm).
Proof.
  unfold retry_send. cbv zeta.
  apply retries_declaring; [apply declaring_declareExchange|done..|]. intros _.
  apply retries_declaring; [apply declaring_declareQueue|done..|]. intros _.
  apply retries_declaring; [apply declaring_declareBinding|done..|]. intros [e|].
  { apply retries_quiet; [apply emits_ret|apply keeps_ret; exact _|done]. }
  destruct (share_prepares l id (updateRetryCountHeader rm)). apply retries_bind; [done..|]. intros _.
  apply retries_both.
Qed.

Lemma retry_amqp_retries l src id delay rm :
  retries (SourceName (retry_source src delay)) (SourceName src) (updateRetryCountHeader rm) sent
    (retry_amqp (E := E) l src id delay rm).
Proof.
  unfold retry_amqp. apply retries_declaring; [apply declaring_get_bd|done..|]. intros bd.
  apply retries_bind; [| |done..|].
  - destruct (RetryChannel bd); [apply emits_ret|]. apply emits_bind.
    + unfold on_iface, call. destruct (Connection bd); emits_solve. right. by eexists _, _.
    + intros [ch|err]; unfold upd_bd; by emits_solve.
  - destruct (RetryChannel bd); [apply keeps_ret; exact _|]. apply keeps_bind; [exact _| |].
    + unfold on_iface, call. destruct (Connection bd); keeps_solve.
    + intros [ch|err]; [|apply keeps_ret; exact _].
      apply keeps_bind; [exact _|apply keeps_upd_bd; by intros []|intros _; apply keeps_ret; exact _].
  - intros [ch|err]; [|by apply retries_quiet; [apply emits_ret|apply keeps_ret; exact _|]].
    intros w. destruct (retry_send_retries l src id delay ch rm w) as (pre & tail & Hl & Ha & Hp & Hs).
    unfold recover. destruct (retry_send l src id delay ch rm w) as [[r|why|] w1]; cbn [fst snd] in *;
      exists pre, tail; [done| |done].
    unfold mbind, prog_bind. rewrite upd_bd_run. cbn [fst snd set_st st log mret prog_ret sent] in *.
    split_and!; [done| |done|done]. etrans; [exact Ha|]. apply same_active_upd. by intros [].
Qed.
End retry.

(** ** Properties *)

Section properties.
Context {E : Type} `{Oracle Shim E} `{MR : MapRange} `{Json}.
Implicit Types w : world Shim E broker.

(** What a retry sends in the end, whatever the broker answers: nothing; or the
    copy, to the exchange of the retry, under the name of the queue the message
    came from, with the tries counted one higher and the message otherwise as it
    is; and after the answer to the copy the original, which is acknowledged if
    there was no error, and put back otherwise. The original leaves the table
    exactly when that call has returned, and then the client is told of a
    success; until then the client still holds it. *)
Lemma retry_never_early ctx l src id delay bd m w :
  client_at ctx l (st w) → details (st w) !! l = Some bd → Get id (activeMessages bd) = Some (ActAmqp m) →
  let src' := set_SourceName (sourceName src) src in
  let w' := run_state (Retry ctx (Some src) id delay) w in
  ∃ pre tail settled, log w' = log w ++ pre ++ tail ∧ Forall (λ e, preparing (projT1 e)) pre ∧
    sends (SourceName (retry_source src' delay)) (SourceName src') (updateRetryCountHeader m) tail settled ∧
    if settled : bool then
      run_result (Retry ctx (Some src) id delay) w = Ret (Some src', None) ∧
      at_bd l (λ bd', Get id (activeMessages bd') = None) (st w')
    else at_bd l (λ bd', ∃ m', Get id (activeMessages bd') = Some (ActAmqp m') ∧ delivery m' = delivery m) (st w').
Proof.
  intros Hc Hl Hid. unfold run_state, run_result, Retry. cbv zeta. prog_unfold.
  rewrite (getBrokerDetails_run _ _ _ Hc), (get_bd_run _ _ _ Hl), Hid.
  set (src' := set_SourceName (sourceName src) src).
  destruct (retry_amqp_retries l src' id delay m w) as (pre & tail & Hlog & Ha & Hp & Hs).
  assert (∀ b, same_active (st w) b →
    at_bd l (λ bd', ∃ m', Get id (activeMessages bd') = Some (ActAmqp m') ∧ delivery m' = delivery m) b) as Hheld.
  { intros b Hb. symmetry in Hb. destruct (same_active_lookup l id b (st w) bd Hb Hl) as (bd' & Hl' & _ & Hk).
    rewrite Hid in Hk. exists bd'. split; [done|].
    destruct (Get id (activeMessages bd')) as [[m'|s']|]; try done. exists m'. split; [done|]. cbn in Hk. congruence. }
  destruct (retry_amqp l src' id delay m w) as [[[r|]|why|] w1]; cbn [fst snd sent] in *;
    try (exists pre, tail, false; split_and!; [done..|by apply Hheld]).
  exists pre, tail, true. rewrite upd_bd_run. do 4 (split; [done|]). cbn [set_st st fst snd].
  destruct (Hheld (st w1) Ha) as (bd1 & Hl1 & _). exists (delete_active id bd1).
  rewrite details_upd, Hl1. split; [done|]. unfold delete_active.
  replace (activeMessages (set_activeMessages _ bd1)) with (Delete id (activeMessages bd1)) by (by destruct bd1).
  by rewrite Get_Delete, decide_True.
Qed.

(** ** What a retry sends, call by call *)

(** The broker opens the channels it is asked for. *)
Class Opens (E : Type) `{Oracle Shim E} := {
  opens_standby c e : ∃ ch e', answer (I := Shim) (KStandbyChannel c) e = (Ret (inl ch), e');
  opens_new c conf e : ∃ ch e', answer (I := Shim) (KNewChannel c conf) e = (Ret (inl ch), e')
}.

(** What is called to declare the exchange, the queue and the binding of a
    retry: what is known already is left out. *)
Definition exchange_calls (c ch : nat) (bd : BrokerDetails) (rs : Source) : list shim_call :=
  if contains "amq." (SourceName rs) then []
  else KStandbyChannel c :: if exchangeKnown (SourceName rs) bd then [] else [KExchangeDeclare ch (SourceName rs) "topic" false].
Definition queue_calls (c ch : nat) (bd : BrokerDetails) (rs : Source) (args : amqp091Table) : list shim_call :=
  if queueKnown (SourceName rs) bd then [] else [KStandbyChannel c; KQueueDeclare ch (SourceName rs) false false args].
Definition retry_binding_calls (c ch : nat) (bd : BrokerDetails) (rs : Source) (rep : http_reply) : list shim_call :=
  if bindingKnown (binding_key rs) bd then [] else binding_calls c ch bd rs rep.

(** Whatever the objects know, they are otherwise the same. *)
Definition only_known (bd bd' : BrokerDetails) : Prop := forget_known bd' = forget_known bd.

Lemma only_known_same bd bd' :
  only_known bd bd' →
  Connection bd' = Connection bd ∧ RetryChannel bd' = RetryChannel bd ∧ activeMessages bd' = activeMessages bd ∧
  ∀ c ch rs rep, binding_calls c ch bd' rs rep = binding_calls c ch bd rs rep.
Proof. unfold only_known. destruct bd, bd'. cbn. intros Hk. injection Hk. intros. subst. by split_and!. Qed.

Section exact.
Context `{OP : !Opens E} `{R : !Returns E}.

Lemma standby_run l bd c w :
  details (st w) !! l = Some bd → Connection bd = Some c →
  ∃ ch e, answer (I := Shim) (KStandbyChannel c) (env w) = (Ret (inl ch), e) ∧
    with_conn l (λ c, call (KStandbyChannel c)) w =
      (Ret (inl ch), {| st := st w; env := e; log := log w ++ [ev (KStandbyChannel c) (Ret (inl ch))] |}).
Proof.
  intros Hl Hc. destruct (opens_standby c (env w)) as (ch & e & Ha). exists ch, e. split; [done|].
  unfold with_conn. rewrite (bind_run _ _ _ _ _ (get_bd_run l bd w Hl)), Hc. cbn [on_iface]. by rewrite call_run, Ha.
Qed.

Lemma exchange_run l bd c rs w :
  details (st w) !! l = Some bd → Connection bd = Some c →
  SourceAddress rs = Some (mkAddress (SourceName rs) ["#"] Address_TOPIC false None) →
  ∃ r ch lg w' bd', declareExchange (SourceAddress rs) l w = (Ret r, w') ∧ log w' = log w ++ lg ∧
    calls_of lg = exchange_calls c ch bd rs ∧ details (st w') !! l = Some bd' ∧
    (bd' = bd ∨ bd' = add_knownExchange (SourceName rs) bd).
Proof.
  intros Hl Hc ->. unfold declareExchange, exchange_calls. cbn [default from_option declareExchange_ id].
  destruct (contains "amq." (SourceName rs)).
  { exists None, 0%nat, [], w, bd. rewrite app_nil_r. by split_and!; try left. }
  destruct (standby_run l bd c w Hl Hc) as (ch & e & _ & Hs). rewrite (bind_run _ _ _ _ _ Hs).
  set (w1 := {| st := st w; env := e; log := _ |}).
  rewrite (bind_run _ _ _ _ _ (get_bd_run l bd w1 Hl)). destruct (exchangeKnown (SourceName rs) bd).
  { rewrite bind_ret_l. exists None, ch, [ev (KStandbyChannel c) (Ret (inl ch))], w1, bd. by split_and!; try left. }
  cbn [addressTypeToAmqpType]. rewrite bind_assoc.
  destruct (call_returns (KExchangeDeclare ch (SourceName rs) "topic" false) w1) as (err & e2 & _ & Hd).
  rewrite (bind_run _ _ _ _ _ Hd). set (w2 := {| st := st w1; env := e2; log := _ |}).
  assert (log w2 = log w ++ [ev (KStandbyChannel c) (Ret (inl ch)); ev (KExchangeDeclare ch (SourceName rs) "topic" false) (Ret err)])
    as Hlog by (cbn; by rewrite <- app_assoc).
  destruct (ignoreDeclareError err).
  - rewrite bind_assoc, (bind_run _ _ _ _ _ (upd_bd_at l _ bd w2 Hl)), !bind_ret_l.
    eexists None, ch, _, _, _. split; [reflexivity|]. split; [exact Hlog|]. split; [done|].
    split; [apply lookup_insert_eq|by right].
  - rewrite bind_ret_l. destruct (err : error); (eexists _, ch, _, w2, bd; split; [reflexivity|]; split; [exact Hlog|]; split; [done|]; split; [done|by left]).
Qed.

Lemma queue_run l bd c rs args w :
  details (st w) !! l = Some bd → Connection bd = Some c → queue_args rs = inl args →
  ∃ ch lg w' bd', declareQueue rs l false w = (Ret None, w') ∧ log w' = log w ++ lg ∧
    calls_of lg = queue_calls c ch bd rs args ∧ details (st w') !! l = Some bd' ∧
    (bd' = bd ∨ bd' = add_knownQueue (SourceName rs) bd).
Proof.
  intros Hl Hc Ha. unfold declareQueue, queue_calls. rewrite (bind_run _ _ _ _ _ (get_bd_run l bd w Hl)), andb_true_r.
  destruct (queueKnown (SourceName rs) bd).
  { exists 0%nat, [], w, bd. rewrite app_nil_r. by split_and!; try left. }
  destruct (standby_run l bd c w Hl Hc) as (ch & e & _ & Hs). rewrite (bind_run _ _ _ _ _ Hs).
  set (w1 := {| st := st w; env := e; log := _ |}). rewrite Ha.
  destruct (call_returns (KQueueDeclare ch (SourceName rs) false false args) w1) as (err & e2 & _ & Hd).
  rewrite (bind_run _ _ _ _ _ Hd). set (w2 := {| st := st w1; env := e2; log := _ |}).
  rewrite (bind_run _ _ _ _ _ (upd_bd_at l _ bd w2 Hl)).
  eexists ch, _, _, _. split; [reflexivity|]. split; [cbn; by rewrite <- app_assoc|]. split; [done|].
  split; [apply lookup_insert_eq|by right].
Qed.

Lemma binding_run `{LI : !Lists E} l bd c rs w :
  details (st w) !! l = Some bd → Connection bd = Some c →
  ∃ ch rep lg w' bd', declareBinding rs l false w = (Ret None, w') ∧ log w' = log w ++ lg ∧
    calls_of lg = retry_binding_calls c ch bd rs rep ∧ details (st w') !! l = Some bd' ∧ only_known bd bd'.
Proof.
  intros Hl Hc. unfold retry_binding_calls. destruct (bindingKnown (binding_key rs) bd) eqn:Hk.
  - exists 0%nat, HTTPNoResponse, [], w, bd. rewrite app_nil_r. split_and!; try done. unfold declareBinding.
    fold (binding_key rs). by rewrite (bind_run _ _ _ _ _ (get_bd_run l bd w Hl)), Hk.
  - destruct (opens_standby c (env w)) as (ch & e & Ha).
    destruct (declareBinding_run rs l false bd c ch e w Hl Hc ltac:(by rewrite Hk) Ha) as (rep & lg & w' & Hr & Hlog & Hcalls & _ & Hst).
    exists ch, rep, lg, w', (add_knownBinding (binding_key rs) bd). rewrite Hst. cbn. rewrite lookup_insert_eq.
    split_and!; try done. by destruct bd.
Qed.
Definition retry_args (delay : Z) : amqp091Table :=
  {[ "x-queue-type" := VString "quorum"; "x-message-ttl" := VInt (delay * 1000); "x-dead-letter-exchange" := VString "" ]}.

(** The calls before the copy is sent. *)
Definition declare_calls (c chx chq chb : nat) (bd : BrokerDetails) (rs : Source) (delay : Z) (rep : http_reply) :
    list shim_call :=
  exchange_calls c chx bd rs ++ queue_calls c chq bd rs (retry_args delay) ++ retry_binding_calls c chb bd rs rep.

Lemma retry_send_run `{LI : !Lists E} l src id delay ch bd c rm w :
  details (st w) !! l = Some bd → Connection bd = Some c → in_int32 delay →
  let rs := retry_source src delay in
  let rm' := updateRetryCountHeader rm in
  ∃ chx chq chb rep err o lg w' bd', retry_send l src id delay ch rm w = (Ret None, w') ∧
    log w' = log w ++ lg ++ [ev (KPublish ch (SourceName rs) (SourceName src) rm') (Ret err); settle_ev err rm' (Ret o)] ∧
    calls_of lg = declare_calls c chx chq chb bd rs delay rep ∧ details (st w') !! l = Some bd'.
Proof.
  intros Hl Hc Hd rs rm'. unfold retry_send. cbv zeta. fold rs. fold rm'.
  destruct (exchange_run l bd c rs w Hl Hc eq_refl) as (rx & chx & lg1 & w1 & bd1 & Hr1 & Hl1 & Hc1 & Hd1 & Hk1).
  rewrite (bind_run _ _ _ _ _ Hr1).
  assert (Connection bd1 = Some c) as Hcon1
    by (destruct Hk1 as [->| ->]; [done|by destruct bd]).
  destruct (queue_run l bd1 c rs (retry_args delay) w1 Hd1 Hcon1 (retry_queue_args src delay Hd))
    as (chq & lg2 & w2 & bd2 & Hr2 & Hl2 & Hc2 & Hd2 & Hk2).
  rewrite (bind_run _ _ _ _ _ Hr2).
  assert (Connection bd2 = Some c ∧ only_known bd bd2) as [Hcon2 Ho2]
    by (destruct Hk1 as [->| ->], Hk2 as [->| ->]; by destruct bd).
  destruct (binding_run l bd2 c rs w2 Hd2 Hcon2) as (chb & rep & lg3 & w3 & bd3 & Hr3 & Hl3 & Hc3 & Hd3 & _).
  rewrite (bind_run _ _ _ _ _ Hr3). cbv iota. rewrite (bind_run _ _ _ _ _ (upd_bd_at l _ bd3 w3 Hd3)).
  set (w4 := set_st _ w3).
  destruct (call_returns (KPublish ch (SourceName rs) (SourceName src) rm') w4) as (err & e5 & _ & Hp).
  change (GetAddressName (SourceAddress rs)) with (SourceName rs). rewrite (bind_run _ _ _ _ _ Hp).
  set (w5 := {| st := st w4; env := e5; log := _ |}).
  assert (calls_of (lg1 ++ lg2 ++ lg3) = declare_calls c chx chq chb bd rs delay rep) as Hcalls.
  { rewrite !calls_of_app, Hc1, Hc2, Hc3. unfold declare_calls. f_equal.
    destruct (only_known_same _ _ Ho2) as (_ & _ & _ & Hb).
    unfold queue_calls, retry_binding_calls. rewrite Hb. clear - Hk1 Hk2. destruct Hk1 as [->| ->], Hk2 as [->| ->]; by destruct bd. }
  assert (log w4 = log w ++ lg1 ++ lg2 ++ lg3) as Hlog by (cbn; by rewrite Hl3, Hl2, Hl1, <- !app_assoc).
  assert (details (st w5) !! l = Some (share_headers id rm' bd3)) as Hd5 by (cbn; apply lookup_insert_eq).
  destruct (err : error) as [er|] eqn:He;
    [destruct (call_returns (KNack rm' true) w5) as (o & e6 & _ & Ho)
    |destruct (call_returns (KAck rm') w5) as (o & e6 & _ & Ho)];
    rewrite (bind_run _ _ _ _ _ Ho); exists chx, chq, chb, rep, err, o, (lg1 ++ lg2 ++ lg3); subst err;
    (eexists _, _; split; [reflexivity|]; split; [|split; [exact Hcalls|exact Hd5]]);
    cbn [log w5]; rewrite Hlog, <- !app_assoc; reflexivity.
Qed.

Lemma retry_amqp_run `{LI : !Lists E} l src id delay bd c rm w :
  details (st w) !! l = Some bd → Connection bd = Some c → in_int32 delay →
  let rs := retry_source src delay in
  let rm' := updateRetryCountHeader rm in
  ∃ ch chx chq chb rep err o lg w' bd', retry_amqp l src id delay rm w = (Ret None, w') ∧
    log w' = log w ++ lg ++ [ev (KPublish ch (SourceName rs) (SourceName src) rm') (Ret err); settle_ev err rm' (Ret o)] ∧
    calls_of lg = (if RetryChannel bd then [] else [KNewChannel c true]) ++ declare_calls c chx chq chb bd rs delay rep ∧
    from_option (eq ch) True (RetryChannel bd) ∧ details (st w') !! l = Some bd'.
Proof.
  intros Hl Hc Hd rs rm'. unfold retry_amqp. rewrite (bind_run _ _ _ _ _ (get_bd_run l bd w Hl)).
  destruct (RetryChannel bd) as [ch|] eqn:Hch.
  - rewrite bind_ret_l.
    destruct (retry_send_run l src id delay ch bd c rm w Hl Hc Hd) as (chx & chq & chb & rep & err & o & lg & w' & bd' & Hr & H1 & H2 & H3).
    exists ch, chx, chq, chb, rep, err, o, lg, w', bd'. unfold recover. rewrite Hr. by split_and!.
  - rewrite bind_assoc, Hc. cbn [on_iface]. destruct (opens_new c true (env w)) as (ch & e & Ha).
    set (w1 := {| st := st w; env := e; log := log w ++ [ev (KNewChannel c true) (Ret (inl ch))] |}).
    erewrite (bind_run _ _ _ _ w1) by (by rewrite call_run, Ha). cbv iota.
    rewrite bind_assoc, (bind_run _ _ _ _ _ (upd_bd_at l _ bd w1 Hl)), bind_ret_l.
    set (w2 := set_st _ w1). set (bd1 := set_RetryChannel (Some ch) bd) in *.
    destruct (retry_send_run l src id delay ch bd1 c rm w2 (lookup_insert_eq _ _ _) ltac:(by destruct bd) Hd)
      as (chx & chq & chb & rep & err & o & lg & w' & bd' & Hr & H1 & H2 & H3).
    exists ch, chx, chq, chb, rep, err, o, (ev (KNewChannel c true) (Ret (inl ch)) :: lg), w', bd'.
    unfold recover. rewrite Hr. split; [done|]. split; [by rewrite H1; cbn; rewrite <- app_assoc|].
    split; [|done]. cbn [calls_of map]. rewrite <- app_comm_cons. cbn [app]. f_equal. change (calls_of lg = declare_calls c chx chq chb bd rs delay rep). rewrite H2. by destruct bd.
Qed.

End exact.

(** The name and the address of the queue of a retry. *)
Lemma retry_source_name src delay :
  SourceName (retry_source src delay) = GetAddressName (SourceAddress src) +:+ ".retry." +:+ itoa delay +:+ "s" ∧
  SourceAddress (retry_source src delay) = Some (mkAddress (SourceName (retry_source src delay)) ["#"] Address_TOPIC false None).
Proof. done. Qed.

Lemma retry_source_delay src delay delay' :
  in_int32 delay → in_int32 delay' →
  SourceName (retry_source src delay) = SourceName (retry_source src delay') → delay = delay'.
Proof.
  unfold in_int32. intros Hd Hd' Hn.
  assert (itoa delay = itoa delay') as Ha by
    (by apply (str_app_inj_r "s"), (str_app_inj_l ".retry."), (str_app_inj_l (GetAddressName (SourceAddress src)))).
  apply (f_equal atoi) in Ha. rewrite !atoi_itoa in Ha by (unfold in_int64; lia). congruence.
Qed.

(** C17: Where a retried message waits and for how long: the queue of a retry is
    called after the address of the source and the delay, so that messages of
    different delays wait in different queues, and all keys of a topic exchange
    of the same name lead to it. Its arguments are, in whatever order the
    options are walked, exactly the delay as the life time of its messages in
    milliseconds, the default exchange for those whose time is over, with no
    routing key of their own, and the type of a queue that is replicated. The
    count in the header goes one up with every try, in the 32 bits the code
    gives it; the other headers, the body and the delivery stay. *)
Theorem retry_queue src delay n rm :
  in_int32 delay →
  let rs := retry_source src delay in
  SourceName rs = GetAddressName (SourceAddress src) +:+ ".retry." +:+ itoa delay +:+ "s" ∧
  (∀ delay', in_int32 delay' → SourceName (retry_source src delay') = SourceName rs → delay' = delay) ∧
  SourceAddress rs = Some (mkAddress (SourceName rs) ["#"] Address_TOPIC false None) ∧
  queue_args rs = inl (retry_args delay) ∧
  retry_count (Headers (Nat.iter (S n) updateRetryCountHeader rm)) = int32 (retry_count (Headers rm) + Z.of_nat (S n)) ∧
  (∀ k, k ≠ retryCountHeaderName →
     header (Headers (Nat.iter n updateRetryCountHeader rm)) k = header (Headers rm) k) ∧
  Body (Nat.iter n updateRetryCountHeader rm) = Body rm ∧
  delivery (Nat.iter n updateRetryCountHeader rm) = delivery rm.
Proof.
  intros Hd rs. destruct (retry_source_name src delay). split_and!; try done.
  - intros delay' Hd' Hn. by apply (retry_source_delay src).
  - by apply retry_queue_args.
  - apply tries_counted.
  - intros k Hk. by apply other_headers_kept.
  - apply tries_keep.
  - apply tries_keep.
Qed.
End properties.

(** ** Witnesses *)

Section witnesses.
#[local] Instance no_json : Json := {| Unmarshal _ := ([], None) |}.
Lemma ok_opens : @Opens nat ok_shim.
Proof. by split; intros; do 2 eexists. Qed.
Lemma ok_lists : @Lists nat ok_shim _.
Proof. intros bd source e rep e' [= <- <-]. constructor. Qed.


Lemma retry_queue_witness (MR := reverse_range) :
  queue_args (retry_source zero_Source 5) = inl (retry_args 5) ∧
  retry_count (Headers (Nat.iter 3 updateRetryCountHeader demo_message)) = 3.
Proof.
  destruct (retry_queue zero_Source 5 2 demo_message) as (_ & _ & _ & H1 & H2 & _);
    [split; vm_compute; congruence|split; [exact H1|exact H2]].
Defined.

(** The queue of a retry that the broker refuses to declare does not hold the
    retry up: the copy goes to an exchange without a queue, and the original is
    acknowledged. *)
Definition refusing_queues : Oracle Shim nat :=
  scripted (λ c, match c with KQueueDeclare _ _ _ _ _ => Some (Ret (Some "NOT_ALLOWED")) | _ => None end).

Example retry_without_queue (MR := default_range) (O := refusing_queues) :
  let '(r, w) := Retry demo_peer (Some zero_Source) "m1" 5 (demo_world demo_active) in
  match r with Ret (_, err) => bool_decide (err = None) | _ => false end &&
  existsb (λ c, match c with KPublish _ _ _ _ => true | _ => false end) (calls_of (log w)) &&
  existsb (λ c, match c with KAck _ => true | _ => false end) (calls_of (log w)) = true.
Proof. vm_compute. reflexivity. Qed.
End witnesses.

End BrokerRetry.
