(* ===== verification/BrokerConnect.v ===== *)
(** * [connectors/amqp091/amqp091.go]: connections

    [Connect], the [connect] state machine, the watcher that reconnects,
    [Disconnect], [WaitForConnect], [Stats], and the cleaner of idle clients
    ([cleaner.go]). A goroutine that sleeps lets the others run: what they do
    meanwhile to the shared state is the class [Others]. The goroutine in which
    [connect] loads the exchanges runs where it is started. *)

From Stdlib Require Import Ascii String.
From stdpp Require Import base gmap strings list fin_maps option.
From Stdlib Require Import ZArith Lia.
From S2P Require Import Prelude Effects GoStrings Api ConcurrentMap BlockingPool ClientIds Provider Amqp BrokerState BrokerDeclare BrokerAck.

(** What the other goroutines have done to the provider when this one is
    woken, as a function of the outside. *)
Class Others (E : Type) := interfere : E → BrokerState.broker → BrokerState.broker.

(** Nobody else runs. *)
Definition alone {E} : Others E := λ _ b, b.

Module BrokerConnect.
Import Amqp ConcurrentMap BrokerState BrokerDeclare.
Open Scope Z_scope.
Open Scope list_scope.

Definition maxPubChannels : Z := 10.
Definition maxPubPCChannels : Z := 10.

(** 30 seconds, in the milliseconds of [KNow]. *)
Definition cleanInterval : Z := 30000.

Section connect.
Context {E : Type} `{Oracle Shim E} `{MapRange} `{Json} `{Others E}.

Definition yield : bprog E () := λ w, (Ret (), set_st (interfere (env w) (st w)) w).

(** [time.Since(start)] *)
Definition time_since (start : Z) : bprog E Z := now ← call KNow; mret (now - start).

(** ** Waiting for a connection attempt of another goroutine *)

Fixpoint wait_turns (fuel : nat) (start : Z) (l : nat) : bprog E Z :=
  match fuel with
  | O => block
  | S fuel' =>
      elapsed ← time_since start;
      if elapsed <? 30000 then
        bd ← get_bd l;
        if state bd =? Provider.CONNECTED then mret Provider.CONNECTED
        else if state bd =? Provider.CONNECTING then
          call (KSleep 100);; yield;; wait_turns fuel' start l
        else if state bd =? Provider.CLOSED then mret Provider.CLOSED
        else if state bd =? Provider.DISCONNECTED then mret Provider.DISCONNECTED
        else yield;; wait_turns fuel' start l
      else mret Provider.DISCONNECTED
  end.

(** Every turn but the last sleeps 100 ms, so the 30 s are over within 301
    turns. *)
Definition waitWhileConnecting (l : nat) : bprog E Z :=
  start ← call KNow; wait_turns 301 start l.

(** ** [connect] *)

Definition connection_string (bd : BrokerDetails) : string :=
  let cf := connectionConfig bd in
  let tenant := if String.eqb (Tenant cf) "" then "/" else Tenant cf in
  (if Tls cf then "amqps" else "amqp") +:+ "://" +:+
  GetUsername (Creds cf) +:+ ":" +:+ GetPassword (Creds cf) +:+ "@" +:+ Host cf +:+ ":" +:+
  itoa (Port cf) +:+ "/" +:+ tenant.

(** The tables are made anew before the attempt. *)
Definition reset_tables (bd : BrokerDetails) : BrokerDetails :=
  set_activeMessages NewConcurrentMap (set_knownBindings NewConcurrentMap
    (set_knownQueues NewConcurrentMap (set_knownExchanges NewConcurrentMap bd))).

(** What is done to the object before the broker is dialled. *)
Definition prepare (l : nat) : bprog E () :=
  upd_bd l (set_state Provider.CONNECTING);;
  upd_bd l reset_tables;;
  bd ← get_bd l;
  (if Tls (connectionConfig bd) then upd_bd l (set_tlsEnabled true) else mret ());;
  bd ← get_bd l;
  if tlsEnabled bd && tlsSkipVerify bd then writes (set_insecure true) else mret ().

Definition dial (l : nat) : bprog E (bool * error) :=
  bd ← get_bd l;
  conn ← call (KNewConnection (connection_string bd) (ClientIdentifier bd));
  err ← call (KConnect conn);
  match (err : error) with
  | Some e => upd_bd l (set_state Provider.CLOSED);; mret (false, Some e)
  | None =>
      upd_bd l (set_Connection (Some conn));;
      upd_bd l (set_RetryChannel None);;
      call (KConnNotifyClose conn);;
      upd_bd l (set_state Provider.CONNECTED);;
      loadExchanges l;;
      mret (true, None)
  end.

(** From the lock on. *)
Definition connect_locked (l : nat) : bprog E (bool * error) :=
  bd ← get_bd l;
  if state bd =? Provider.CONNECTED then mret (true, None) else prepare l;; dial l.

Definition connect (l : nat) : bprog E (bool * error) :=
  bd ← get_bd l;
  if clientDisconnect bd then mret (false, None)
  else
    waited ← (if state bd =? Provider.CONNECTING then waitWhileConnecting l
              else mret Provider.DISCONNECTED);
    if waited =? Provider.CONNECTED then mret (true, None)
    else if waited =? Provider.CLOSED then mret (false, None)
    else connect_locked l.

(** ** [Connect] *)

Definition new_details (cid : string) (cf : ConnectionConfiguration) (skip : bool) (now : Z) :
    BrokerDetails := {|
  Connection := None; RetryChannel := None;
  pubChannels := BlockingPool.NewBlockingPool false maxPubChannels;
  pubPCChannels := BlockingPool.NewBlockingPool false maxPubPCChannels;
  StreamConnection := None; ClientIdentifier := cid; knownExchanges := ∅; knownQueues := ∅;
  knownBindings := ∅; activeMessages := NewConcurrentMap; state := Provider.DISCONNECTED;
  connectionConfig := cf; tlsSkipVerify := skip; ActiveStreams := 0; consumed := 0; produced := 0;
  clientDisconnect := false; lastPubSubEvent := now; tlsEnabled := false; shutdown := false |}.

Definition alloc (bd : BrokerDetails) (b : broker) : broker := {|
  details := <[nextAddr b := bd]> (details b); connections := connections b;
  nextAddr := S (nextAddr b); latches := latches b; clientMap := clientMap b;
  insecureSkipVerify := insecureSkipVerify b |}.

Definition Connect (ctx : ClientIds.peer) (cf : ConnectionConfiguration) (tlsSkipVerify : bool) :
    bprog E (option Error) :=
  b ← reads id;
  match ClientIds.GetClientIdentifier ctx (clientMap b) with
  | (_, Some err) => mret (Some (mkError err))
  | (cid, None) =>
      now ← call KNow;
      writes (alloc (new_details cid cf tlsSkipVerify now));;
      r ← connect (nextAddr b);
      match snd (r : bool * error) with
      | Some err => mret (Some (mkError err))
      | None => writes (λ b', set_connections (Add cid (nextAddr b) (connections b')) b');; mret None
      end
  end.

(** ** The watcher *)

(** What the watcher's [select] receives. *)
Inductive watcher_event := WShutdown | WError | WTimer.

(** Reconnect until it works or the client goes; [false] when the fuel is used
    up. *)
Fixpoint reconnect (fuel : nat) (l : nat) : bprog E bool :=
  match fuel with
  | O => mret false
  | S fuel' =>
      bd ← get_bd l;
      if clientDisconnect bd then mret true
      else
        call KSleepRandomReconnect;; yield;;
        r ← connect l;
        if fst (r : bool * error) then mret true
        else upd_bd l (set_state Provider.DISCONNECTED);; reconnect fuel' l
  end.

(** One turn: whether the watcher goes on. *)
Definition watcher_turn (fuel : nat) (l : nat) (e : watcher_event) : bprog E bool :=
  match e with
  | WShutdown => upd_bd l (set_shutdown false);; mret false
  | WError =>
      upd_bd l (set_state Provider.DISCONNECTED);;
      reconnect fuel l;; mret true
  | WTimer =>
      closed ← with_conn l (λ c, call (KConnIsClosed c));
      (if (closed : bool) then
         upd_bd l (set_state Provider.DISCONNECTED);; connect l;; mret ()
       else mret ());;
      mret true
  end.

(** The events are those the watcher comes to receive. *)
Fixpoint connectionWatcher (fuel : nat) (l : nat) (events : list watcher_event) : bprog E () :=
  bd ← get_bd l;
  if clientDisconnect bd then mret ()
  else match events with
       | [] => mret ()
       | e :: rest =>
           go ← watcher_turn fuel l e;
           if (go : bool) then yield;; connectionWatcher fuel l rest else mret ()
       end.

(** ** Disconnecting *)

(** [bd.shutdownChan <- true]: the channel holds one value. *)
Definition send_shutdown (l : nat) : bprog E () :=
  bd ← get_bd l;
  if shutdown bd then block else upd_bd l (set_shutdown true).

(** [bd.pubChannelCancel()] *)
Definition cancel_pools (bd : BrokerDetails) : BrokerDetails :=
  set_pubPCChannels (BlockingPool.cancelled (pubPCChannels bd))
    (set_pubChannels (BlockingPool.cancelled (pubChannels bd)) bd).

Definition close_connections (l : nat) : bprog E () :=
  bd ← get_bd l;
  match Connection bd with
  | Some c =>
      closed ← call (KConnIsClosed c);
      if (closed : bool) then mret () else call (KConnClose c);; mret ()
  | None => mret ()
  end;;
  match StreamConnection bd with
  | Some s => call (KStreamClose s);; mret ()
  | None => mret ()
  end.

Definition disconnectClientByIdentifier (clientIdentifier : string) : bprog E () :=
  b ← reads id;
  match Get clientIdentifier (connections b) with
  | None => mret ()
  | Some l =>
      recover
        (upd_bd l cancel_pools;;
         upd_bd l (set_clientDisconnect true);;
         send_shutdown l;;
         close_connections l;;
         writes (λ b, set_connections (Delete clientIdentifier (connections b)) b))
        (λ _, mret ())
  end.

Definition Disconnect (ctx : ClientIds.peer) : bprog E () :=
  b ← reads id;
  match ClientIds.GetClientIdentifier ctx (clientMap b) with
  | (_, Some _) => mret ()
  | (cid, None) => disconnectClientByIdentifier cid
  end.

(** ** Waiting for the connection *)

(** [l] is the object looked at; the deferred decrement is of the first one. *)
Fixpoint wait_connect_turns (fuel : nat) (start : Z) (ctx : ClientIds.peer) (l : nat) : bprog E bool :=
  match fuel with
  | O => block
  | S fuel' =>
      elapsed ← time_since start;
      if elapsed <? Provider.CONNECTTIMEOUT * 1000 then
        bd ← get_bd l;
        if state bd =? Provider.CONNECTED then mret true
        else
          r ← getBrokerDetails ctx;
          match r with
          | inr _ => mret false
          | inl l' => call KSleepRandomReconnect;; yield;; wait_connect_turns fuel' start ctx l'
          end
      else mret false
  end.

(** Every turn but the last sleeps at least 100 ms. *)
Definition WaitForConnect (ctx : ClientIds.peer) : bprog E bool :=
  r ← getBrokerDetails ctx;
  match r with
  | inr _ => mret false
  | inl l =>
      incrementStreamCount l;;
      defer (start ← call KNow; wait_connect_turns 151 start ctx l) (decrementStreamCount l)
  end.

(** ** Statistics *)

Definition client_stats (bd : BrokerDetails) : Provider.ClientStats := {|
  Provider.ID := ClientIdentifier bd; Provider.ActiveMessages := Length (activeMessages bd);
  Provider.Streams := ActiveStreams bd; Provider.Produced := produced bd;
  Provider.Consumed := consumed bd |}.

Fixpoint stats_loop (b : broker) (ids : list string) : list Provider.ClientStats :=
  match ids with
  | [] => []
  | connID :: rest =>
      match Get connID (connections b) ≫= (details b !!.) with
      | Some bd => client_stats bd :: stats_loop b rest
      | None => stats_loop b rest
      end
  end.

Definition Stats (b : broker) : Provider.Stats :=
  {| Provider.Clients := stats_loop b (GetList (connections b)) |}.

(** ** The cleaner ([cleaner.go]) *)

(** One client of a tick. *)
Definition clean_one (connID : string) : bprog E () :=
  b ← reads id;
  match Get connID (connections b) with
  | None => mret ()
  | Some l =>
      bd ← get_bd l;
      lastKnown ← time_since (lastPubSubEvent bd);
      if (ActiveStreams bd <? 1) && (cleanInterval <? lastKnown)
      then disconnectClientByIdentifier connID
      else mret ()
  end.

Definition clean_tick : bprog E () :=
  b ← reads id; for_each (GetList (connections b)) clean_one.

(** The ticks until [ctx] is done. *)
Fixpoint connectionCleaner (ticks : nat) : bprog E () :=
  match ticks with
  | O => mret ()
  | S ticks' => clean_tick;; yield;; connectionCleaner ticks'
  end.

End connect.

(** ** Assumptions about the outside

    [Clock]: [time.Now] does not go backwards and a sleep takes at least the
    time it is asked for; [SleepRandom] sleeps 100 ms or more. *)

Class Clock (E : Type) `{Oracle Shim E} := {
  time : E → Z;
  clock_now : ∀ e, ∃ e', answer (I := Shim) KNow e = (Ret (time e), e') ∧ time e <= time e';
  clock_sleep : ∀ ms e, ∃ e',
    answer (I := Shim) (KSleep ms) e = (Ret (), e') ∧ time e + ms <= time e';
  clock_reconnect : ∀ e, ∃ e',
    answer (I := Shim) KSleepRandomReconnect e = (Ret (), e') ∧ time e + 100 <= time e'
}.

(** [Refuses]: the broker refuses so many more connections and accepts the
    next one. *)
Class Refuses (E : Type) `{Oracle Shim E} := {
  refusals : E → nat;
  refuse_connect : ∀ conn e r e', answer (I := Shim) (KConnect conn) e = (Ret r, e') →
    (r = None ↔ refusals e = 0%nat) ∧ refusals e' = pred (refusals e);
  refuse_other : ∀ (c : shim_call) e, (∀ conn, c ≠ KConnect conn) →
    refusals (snd (answer (I := Shim) c e)) = refusals e
}.

(** The values the state field takes. *)
Definition valid_state (s : Z) : Prop :=
  s = Provider.DISCONNECTED ∨ s = Provider.CONNECTED ∨ s = Provider.CONNECTING ∨ s = Provider.CLOSED.

(** The provider is well formed: addresses are handed out in order, every
    table entry points to the object of that client, and every object has a
    valid state. *)
Record wf (b : broker) : Prop := {
  wf_fresh : ∀ l bd, details b !! l = Some bd → (l < nextAddr b)%nat;
  wf_conn : ∀ cid l, Get cid (connections b) = Some l →
              ∃ bd, details b !! l = Some bd ∧ ClientIdentifier bd = cid;
  wf_state : ∀ l bd, details b !! l = Some bd → valid_state (state bd)
}.

Class OthersWf (E : Type) `{Others E} := {
  others_wf : ∀ e b, wf b → wf (interfere e b);
  others_keep : ∀ e b l, is_Some (details b !! l) → is_Some (details (interfere e b) !! l)
}.

#[export] Instance alone_wf E : @OthersWf E alone.
Proof. by split. Qed.

Section lemmas.
Context {E : Type} `{Oracle Shim E} `{MR : MapRange} `{Json} `{Others E}.
Implicit Types w : world Shim E broker.

(** *** Waiting ends *)

Lemma KNow_run `{!Clock E} w : ∃ e, time (env w) <= time e ∧
  call KNow w = (Ret (time (env w)), {| st := st w; env := e; log := log w ++ [ev KNow (Ret (time (env w)))] |}).
Proof. destruct (clock_now (env w)) as (e & He & Ht). exists e. by rewrite call_run, He. Qed.

Lemma sleep_run `{!Clock E} c w ms :
  (c = KSleep ms ∨ c = KSleepRandomReconnect ∧ ms = 100) →
  ∃ r w', call c w = (Ret r, w') ∧ st w' = st w ∧ time (env w) + ms <= time (env w').
Proof.
  intros [->|[-> ->]]; rewrite call_run.
  - destruct (clock_sleep ms (env w)) as (e & -> & Ht). by eexists _, _.
  - destruct (clock_reconnect (env w)) as (e & -> & Ht). by eexists _, _.
Qed.

Lemma wait_turns_end `{!Clock E} `{!OthersWf E} fuel start l w :
  wf (st w) → is_Some (details (st w) !! l) → (0 < fuel)%nat →
  30000 <= 100 * (Z.of_nat fuel - 1) + (time (env w) - start) →
  ∃ r, run_result (wait_turns fuel start l) w = Ret r ∧
       (r = Provider.CONNECTED ∨ r = Provider.CLOSED ∨ r = Provider.DISCONNECTED).
Proof.
  revert w. induction fuel as [|fuel IH]; intros w Hwf [bd Hl] Hpos Hf; [lia|].
  cbn [wait_turns]. unfold time_since. prog_unfold.
  destruct (KNow_run w) as (e & He & ->). cbn [st env] in *.
  case_match eqn:Hel; [|by eauto]. apply Z.ltb_lt in Hel.
  rewrite (get_bd_run _ bd) by done.
  destruct (wf_state _ Hwf _ _ Hl) as [Hs|[Hs|[Hs|Hs]]]; rewrite Hs; cbn; eauto.
  match goal with |- context [call (KSleep 100) ?v] =>
    destruct (sleep_run (KSleep 100) v 100) as ([] & w' & -> & Hst & Ht); [by left|] end.
  cbn [st env] in *. unfold yield. apply IH; unfold set_st; cbn [st env]; rewrite ?Hst.
  - by apply others_wf.
  - apply others_keep. by eexists.
  - lia.
  - lia.
Qed.

Lemma wait_from `{!Clock E} `{!OthersWf E} fuel l w :
  (301 <= fuel)%nat → wf (st w) → is_Some (details (st w) !! l) →
  ∃ r, run_result (start ← call KNow; wait_turns fuel start l) w = Ret r ∧
       (r = Provider.CONNECTED ∨ r = Provider.CLOSED ∨ r = Provider.DISCONNECTED).
Proof.
  intros Hf Hwf Hl. destruct (KNow_run w) as (e & He & Hn). unfold run_result.
  rewrite (bind_run _ _ _ _ _ Hn).
  apply wait_turns_end; cbn [st env]; [done|done|lia|]. lia.
Qed.

(** Loading the exchanges touches nothing but the known exchanges. *)
Lemma loadExchanges_keeps l P :
  (∀ name bd, P bd → P (add_knownExchange name bd)) → keeps (stable (at_bd l P)) (loadExchanges l).
Proof.
  intros HP. unfold loadExchanges, doManagementRequestWithoutMarshal, get_bd, call, upd_bd.
  keeps_solve. intros Hb. apply at_bd_upd; [apply HP|exact Hb].
Qed.

(** *** The attempt *)

(** What [connect] has done to the object before it dials. *)
Definition prepared (bd : BrokerDetails) : BrokerDetails :=
  let bd := reset_tables (set_state Provider.CONNECTING bd) in
  if Tls (connectionConfig bd) then set_tlsEnabled true bd else bd.

(** What a connected object looks like, as far as the client sees it. *)
Definition fresh_on (conn : nat) (bd : BrokerDetails) : Prop :=
  state bd = Provider.CONNECTED ∧ Connection bd = Some conn ∧ RetryChannel bd = None ∧
  activeMessages bd = ∅ ∧ knownQueues bd = ∅ ∧ knownBindings bd = ∅.

Lemma add_exchanges_ret l results w :
  is_Some (details (st w) !! l) →
  ∃ w', for_each results (λ exchange : gmap string json,
          match exchange !! "name" with
          | Some (JString name) => upd_bd l (add_knownExchange name)
          | _ => mret ()
          end) w = (Ret (), w').
Proof.
  revert w. induction results as [|x rest IH]; intros w Hl; cbn; [by eexists|].
  prog_unfold. destruct (x !! "name") as [[name|]|]; [|by apply IH..].
  rewrite upd_bd_run. apply IH. unfold set_st. cbn [st]. rewrite details_upd.
  by destruct Hl as [bd ->].
Qed.

Lemma loadExchanges_ret `{!Returns E} l w :
  is_Some (details (st w) !! l) → ∃ w', loadExchanges l w = (Ret (), w').
Proof.
  intros [bd Hl]. unfold loadExchanges, doManagementRequestWithoutMarshal. prog_unfold.
  rewrite !(get_bd_run _ _ _ Hl). cbv zeta.
  match goal with |- context [call ?c w] =>
    destruct (call_returns c w) as (r & e & _ & Hc); rewrite Hc; clear Hc end.
  destruct (r : http_reply) as [err| |status body berr]; [by eexists..|].
  destruct ((300 <=? status) || (status <? 200)); [by eexists|]. destruct berr; [by eexists|].
  destruct (Unmarshal body) as [results [uerr|]]; [by eexists|].
  apply add_exchanges_ret. by eexists.
Qed.

Lemma prepared_same bd :
  connectionConfig (prepared bd) = connectionConfig bd ∧
  ClientIdentifier (prepared bd) = ClientIdentifier bd ∧ Connection (prepared bd) = Connection bd ∧
  activeMessages (prepared bd) = ∅ ∧ knownQueues (prepared bd) = ∅ ∧ knownBindings (prepared bd) = ∅ ∧
  clientDisconnect (prepared bd) = clientDisconnect bd ∧ pubChannels (prepared bd) = pubChannels bd.
Proof. unfold prepared. cbv zeta. destruct bd as [? ? ? ? ? ? ? ? ? ? ? cf]. cbn. by destruct (Tls cf). Qed.

(** From [w] to [w1], only the object at [l] changed, to [bd], and perhaps the
    TLS configuration; nothing was called. *)
Definition became (l : nat) (bd : BrokerDetails) (w w1 : world Shim E broker) : Prop :=
  env w1 = env w ∧ log w1 = log w ∧ details (st w1) = <[l := bd]> (details (st w)) ∧
  connections (st w1) = connections (st w) ∧ clientMap (st w1) = clientMap (st w).

Lemma became_at l bd w w1 : became l bd w w1 → details (st w1) !! l = Some bd.
Proof. intros (_ & _ & Hd & _). rewrite Hd. apply lookup_insert_eq. Qed.

Lemma became_upd l f bd w w1 :
  became l bd w w1 → ∃ w2, upd_bd l f w1 = (Ret (), w2) ∧ became l (f bd) w w2.
Proof.
  intros Hb. rewrite (upd_bd_at l f bd) by (by eapply became_at). eexists. split; [done|].
  destruct Hb as (He & Hlog & Hd & Hc & Hm). unfold became, set_st. cbn.
  by rewrite Hd, insert_insert_eq.
Qed.

Lemma prepare_run l bd w :
  details (st w) !! l = Some bd →
  ∃ w1, prepare l w = (Ret (), w1) ∧ became l (prepared bd) w w1.
Proof.
  intros Hl. unfold prepare.
  assert (became l bd w w) as H0'.
  { split_and!; try done. by rewrite insert_id. }
  destruct (became_upd l (set_state Provider.CONNECTING) _ _ _ H0') as (w1 & Hw1 & Hb1).
  rewrite (bind_run _ _ _ _ _ Hw1). clear H0' Hw1.
  destruct (became_upd l reset_tables _ _ _ Hb1) as (w2 & Hw2 & Hb2).
  rewrite (bind_run _ _ _ _ _ Hw2). clear Hw2 Hb1 w1.
  rewrite (bind_run _ _ _ _ _ (get_bd_run _ _ _ (became_at _ _ _ _ Hb2))).
  assert (∃ w3, (if Tls (connectionConfig (reset_tables (set_state Provider.CONNECTING bd)))
                 then upd_bd l (set_tlsEnabled true) else mret ()) w2 = (Ret (), w3) ∧
                became l (prepared bd) w w3) as (w3 & Hw3 & Hb3).
  { unfold prepared. cbv zeta. destruct (Tls _); [by apply became_upd|by exists w2]. }
  rewrite (bind_run _ _ _ _ _ Hw3), (bind_run _ _ _ _ _ (get_bd_run _ _ _ (became_at _ _ _ _ Hb3))).
  destruct (tlsEnabled _ && _); [|by exists w3]. eexists. split; [done|exact Hb3].
Qed.

Lemma at_bd_weaken l (P Q : BrokerDetails → Prop) b :
  (∀ bd, P bd → Q bd) → at_bd l P b → at_bd l Q b.
Proof. intros HPQ (bd & Hl & HP). exists bd. auto. Qed.

Lemma dial_run `{!Returns E} l bd w :
  details (st w) !! l = Some bd → activeMessages bd = ∅ → knownQueues bd = ∅ → knownBindings bd = ∅ →
  ∃ conn err e1 e2 w' lg,
    answer (I := Shim) (KNewConnection (connection_string bd) (ClientIdentifier bd)) (env w) = (Ret conn, e1) ∧
    answer (I := Shim) (KConnect conn) e1 = (Ret err, e2) ∧
    log w' = log w ++ ev (KNewConnection (connection_string bd) (ClientIdentifier bd)) (Ret conn)
                                   :: ev (KConnect conn) (Ret err) :: lg ∧
    match (err : error) with
    | Some e => dial l w = (Ret (false, Some e), w') ∧ lg = [] ∧ env w' = e2 ∧
                details (st w') !! l = Some (set_state Provider.CLOSED bd)
    | None => dial l w = (Ret (true, None), w') ∧ at_bd l (fresh_on conn) (st w')
    end.
Proof.
  intros Hl Ha Hq Hk. unfold dial. rewrite (bind_run _ _ _ _ _ (get_bd_run _ _ _ Hl)).
  destruct (call_returns (KNewConnection (connection_string bd) (ClientIdentifier bd)) w)
    as (conn & e1 & Ha1 & Hc1).
  rewrite (bind_run _ _ _ _ _ Hc1). clear Hc1.
  set (w1 := {| st := st w; env := e1; log := _ |}).
  destruct (call_returns (KConnect conn) w1) as (err & e2 & Ha2 & Hc2).
  rewrite (bind_run _ _ _ _ _ Hc2). clear Hc2. exists conn, err, e1, e2.
  set (w2 := {| st := st w1; env := e2; log := _ |}).
  assert (became l bd w2 w2) as Hb by (split_and!; try done; by rewrite insert_id).
  destruct (err : error) as [e|].
  - destruct (became_upd l (set_state Provider.CLOSED) _ _ _ Hb) as (w3 & Hw3 & Hb3).
    rewrite (bind_run _ _ _ _ _ Hw3). exists w3, []. split; [exact Ha1|]. split; [exact Ha2|].
    pose proof (became_at _ _ _ _ Hb3). destruct Hb3 as (He & Hlog & _).
    split; [|split_and!; [done..|by rewrite He|done]].
    rewrite Hlog. subst w2 w1. cbn. by rewrite <- app_assoc.
  - destruct (became_upd l (set_Connection (Some conn)) _ _ _ Hb) as (w3 & Hw3 & Hb3).
    rewrite (bind_run _ _ _ _ _ Hw3).
    destruct (became_upd l (set_RetryChannel None) _ _ _ Hb3) as (w4 & Hw4 & Hb4).
    rewrite (bind_run _ _ _ _ _ Hw4). clear Hw3 Hw4 Hb3 w3.
    destruct (call_returns (KConnNotifyClose conn) w4) as ([] & e5 & _ & Hc5).
    rewrite (bind_run _ _ _ _ _ Hc5). clear Hc5. set (w5 := {| st := st w4; env := e5; log := _ |}).
    set (bd4 := set_RetryChannel None (set_Connection (Some conn) bd)) in *.
    assert (details (st w5) !! l = Some bd4) as Hl5 by (exact (became_at _ _ _ _ Hb4)).
    pose proof (upd_bd_at l (set_state Provider.CONNECTED) bd4 w5 Hl5) as Hw6.
    set (w6 := set_st _ w5) in Hw6. rewrite (bind_run _ _ _ _ _ Hw6).
    assert (details (st w6) !! l = Some (set_state Provider.CONNECTED bd4)) as Hl6
      by apply lookup_insert_eq.
    destruct (loadExchanges_ret l w6) as [w7 Hw7]; [by eexists|]. rewrite (bind_run _ _ _ _ _ Hw7).
    assert (at_bd l (fresh_on conn) (st w7)) as H7.
    { pose proof (loadExchanges_keeps l (fresh_on conn)) as Hk7.
      specialize (Hk7 ltac:(by intros ? []) w6). rewrite Hw7 in Hk7. apply Hk7.
      eexists. split; [exact Hl6|]. subst bd4. unfold fresh_on. destruct bd. by split_and!. }
    assert (emits (λ _ : icall Shim, True) (loadExchanges (E := E) l)) as He.
    { unfold loadExchanges, doManagementRequestWithoutMarshal, get_bd, call, upd_bd. by emits_solve. }
    destruct (He w6) as (lg & Hlg & _). rewrite Hw7 in Hlg. cbn [snd] in Hlg.
    exists w7. eexists (_ :: lg). split; [exact Ha1|]. split; [exact Ha2|]. split; [|done]. rewrite Hlg. subst w6 w5. cbn.
    destruct Hb4 as (_ & Hlog & _). rewrite Hlog. subst w2 w1. cbn. by rewrite <- !app_assoc.
Qed.

(** [connect] on an object that is neither connected nor connecting. *)
Lemma connect_run `{!Returns E} l bd w :
  details (st w) !! l = Some bd → clientDisconnect bd = false →
  state bd ≠ Provider.CONNECTING → state bd ≠ Provider.CONNECTED →
  ∃ conn err e1 e2 w' lg,
    answer (I := Shim) (KNewConnection (connection_string bd) (ClientIdentifier bd)) (env w) = (Ret conn, e1) ∧
    answer (I := Shim) (KConnect conn) e1 = (Ret err, e2) ∧
    log w' = log w ++ ev (KNewConnection (connection_string bd) (ClientIdentifier bd)) (Ret conn)
                   :: ev (KConnect conn) (Ret err) :: lg ∧
    match (err : error) with
    | Some e => connect l w = (Ret (false, Some e), w') ∧ lg = [] ∧ env w' = e2 ∧
                details (st w') !! l = Some (set_state Provider.CLOSED (prepared bd))
    | None => connect l w = (Ret (true, None), w') ∧ at_bd l (fresh_on conn) (st w')
    end.
Proof.
  intros Hl Hd Hc Hs. unfold connect.
  rewrite (bind_run _ _ _ _ _ (get_bd_run _ _ _ Hl)), Hd, (proj2 (Z.eqb_neq _ _) Hc).
  rewrite bind_ret_l. cbn [Z.eqb Provider.DISCONNECTED Provider.CONNECTED Provider.CLOSED].
  unfold connect_locked.
  rewrite (bind_run _ _ _ _ _ (get_bd_run _ _ _ Hl)), (proj2 (Z.eqb_neq _ _) Hs).
  destruct (prepare_run l bd w Hl) as (w1 & Hw1 & Hb). rewrite (bind_run _ _ _ _ _ Hw1).
  destruct (prepared_same bd) as (Hcf & Hid & _ & Ha & Hq & Hk & _).
  destruct (dial_run l (prepared bd) w1) as (conn & err & e1 & e2 & w' & lg & Hn & Hco & Hlog & Hr);
    [by eapply became_at|done..|].
  destruct Hb as (He & Hlog1 & _).
  assert (connection_string (prepared bd) = connection_string bd) as Hcs
    by (unfold connection_string; by rewrite Hcf).
  rewrite He, Hcs, Hid in Hn. rewrite Hlog1, Hcs, Hid in Hlog.
  exists conn, err, e1, e2, w', lg. by split_and!.
Qed.

Lemma client_at_keeps ctx l {A} (m : bprog E A) :
  keeps (λ b b', clientMap b = clientMap b' ∧ connections b = connections b') m →
  keeps (stable (client_at ctx l)) m.
Proof.
  intros Hm w (cid & H1' & H2'). destruct (Hm w) as [Hcm Hco]. exists cid. by rewrite <- Hcm, <- Hco.
Qed.

Lemma connect_same_clients l :
  keeps (λ b b', clientMap b = clientMap b' ∧ connections b = connections b') (connect_locked (E := E) l).
Proof.
  set (R := λ b b' : broker, _).
  assert (Reflexive R) by done.
  assert (Transitive R) by (intros ? ? ? [] []; split; etrans; done).
  unfold connect_locked, prepare, dial, loadExchanges, doManagementRequestWithoutMarshal, get_bd,
    call, upd_bd.
  keeps_solve; done.
Qed.

Lemma refuses_call `{!Returns E} `{!Refuses E} (c : shim_call) w :
  (∀ conn, c ≠ KConnect conn) →
  ∃ r w', call c w = (Ret r, w') ∧ st w' = st w ∧ refusals (env w') = refusals (env w).
Proof.
  intros Hc. destruct (call_returns c w) as (r & e & Ha & Hr). eexists _, _. split; [exact Hr|].
  split; [done|]. cbn. pose proof (refuse_other c (env w) Hc) as Hk. by rewrite Ha in Hk.
Qed.

(** *** Well-formedness *)

Lemma wf_upd l f b :
  (∀ bd, ClientIdentifier (f bd) = ClientIdentifier bd ∧
         (valid_state (state bd) → valid_state (state (f bd)))) →
  wf b → wf (set_details (alter f l (details b)) b).
Proof.
  intros Hf [Hfr Hco Hst].
  assert (∀ l' bd', alter f l (details b) !! l' = Some bd' →
    ∃ bd, details b !! l' = Some bd ∧ (bd' = bd ∨ bd' = f bd)) as Hget.
  { intros l' bd'. destruct (decide (l = l')) as [<-|Hne].
    - rewrite lookup_alter_eq. destruct (details b !! l) as [bd|]; [|done]. intros [= <-]. eauto.
    - rewrite lookup_alter_ne by done. eauto. }
  split; cbn.
  - intros l' bd' (bd & Hl & _)%Hget. by eapply Hfr.
  - intros cid l' Hc. destruct (Hco _ _ Hc) as (bd & Hl & Hid).
    destruct (decide (l = l')) as [<-|Hne].
    + exists (f bd). rewrite lookup_alter_eq, Hl. split; [done|]. by rewrite (proj1 (Hf bd)).
    + exists bd. by rewrite lookup_alter_ne.
  - intros l' bd' (bd & Hl & [->| ->])%Hget; [by eapply Hst|]. apply Hf. by eapply Hst.
Qed.

Lemma wf_disconnect cid b :
  wf b → wf (set_connections (Delete cid (connections b)) b).
Proof.
  intros [Hfr Hco Hst]. split; cbn; [done| |done]. intros cid' l. rewrite Get_Delete.
  case_decide; [done|]. apply Hco.
Qed.

(** Different clients have different objects. *)
Lemma wf_inj b cid cid' l :
  wf b → Get cid (connections b) = Some l → Get cid' (connections b) = Some l → cid = cid'.
Proof.
  intros Hwf (bd & Hl & <-)%(wf_conn _ Hwf) (bd' & Hl' & <-)%(wf_conn _ Hwf). by simplify_eq.
Qed.

(** *** Disconnecting *)

Definition gone (bd : BrokerDetails) : BrokerDetails :=
  set_shutdown true (set_clientDisconnect true (cancel_pools bd)).

(** The calls that close a client's connections, when the first has answered
    whether the connection is closed. *)
Definition close_calls (bd : BrokerDetails) (closed : bool) : list shim_call :=
  match Connection bd with
  | Some c => KConnIsClosed c :: if closed then [] else [KConnClose c]
  | None => []
  end ++ match StreamConnection bd with Some s => [KStreamClose s] | None => [] end.

(** The calls are made, and the answer is as said. *)
Definition closes (bd : BrokerDetails) (lg : list (event Shim)) : Prop :=
  ∃ closed, calls_of lg = close_calls bd closed ∧
    ∀ c, Connection bd = Some c → head lg = Some (ev (KConnIsClosed c) (Ret closed)).

Lemma close_connections_run `{!Returns E} l bd w :
  details (st w) !! l = Some bd →
  ∃ w' lg, close_connections l w = (Ret (), w') ∧ st w' = st w ∧ log w' = log w ++ lg ∧ closes bd lg.
Proof.
  intros Hl. unfold close_connections. rewrite (bind_run _ _ _ _ _ (get_bd_run _ _ _ Hl)).
  assert (∃ w1 lg1 closed, (match Connection bd with
    | Some c => closed ← call (KConnIsClosed c);
                if (closed : bool) then mret () else call (KConnClose c);; mret ()
    | None => mret ()
    end) w = (Ret (), w1) ∧ st w1 = st w ∧ log w1 = log w ++ lg1 ∧
    calls_of lg1 = match Connection bd with
                   | Some c => KConnIsClosed c :: if closed : bool then [] else [KConnClose c]
                   | None => []
                   end ∧
    ∀ c, Connection bd = Some c → head lg1 = Some (ev (KConnIsClosed c) (Ret closed)))
    as (w1 & lg1 & closed & Hw1 & Hst1 & Hlog1 & Hcalls & Hhead).
  { destruct (Connection bd) as [c|].
    2: { exists w, [], false. split_and!; [done..|by rewrite app_nil_r|done|done]. }
    destruct (call_returns (KConnIsClosed c) w) as ([|] & e & _ & Hc); rewrite (bind_run _ _ _ _ _ Hc).
    { eexists _, [_], true. split; [done|]. split; [done|]. split; [done|]. split; [done|]. by intros c' [= <-]. }
    match goal with |- context [(_ ≫= _) ?v] =>
      destruct (call_returns (KConnClose c) v) as (err & e2 & _ & Hc2) end.
    rewrite (bind_run _ _ _ _ _ Hc2). eexists _, [_; _], false. split; [done|]. split; [done|]. cbn [log].
    rewrite <- app_assoc. split; [done|]. split; [done|]. by intros c' [= <-]. }
  rewrite (bind_run _ _ _ _ _ Hw1). unfold closes, close_calls. destruct (StreamConnection bd) as [s|].
  2: { exists w1, lg1. split; [done|]. split; [done|]. split; [done|]. exists closed. by rewrite app_nil_r. }
  destruct (call_returns (KStreamClose s) w1) as (err & e & _ & Hc). rewrite (bind_run _ _ _ _ _ Hc).
  eexists _, (lg1 ++ [_]). split; [done|]. split; [done|]. cbn [log]. rewrite Hlog1, app_assoc.
  split; [done|]. exists closed. rewrite calls_of_app, Hcalls. split; [done|].
  intros c Hco. specialize (Hhead c Hco). by destruct lg1.
Qed.

Lemma disconnect_run `{!Returns E} cid l bd w :
  Get cid (connections (st w)) = Some l → details (st w) !! l = Some bd → shutdown bd = false →
  ∃ w' lg, disconnectClientByIdentifier cid w = (Ret (), w') ∧ log w' = log w ++ lg ∧
    details (st w') = <[l := gone bd]> (details (st w)) ∧
    connections (st w') = Delete cid (connections (st w)) ∧ nextAddr (st w') = nextAddr (st w) ∧
    closes bd lg.
Proof.
  intros Hc Hl Hs. unfold disconnectClientByIdentifier, recover.
  rewrite reads_bind. cbn [id]. rewrite Hc.
  rewrite (bind_run _ _ _ _ _ (upd_bd_at l _ _ _ Hl)).
  set (w1 := set_st _ w). assert (details (st w1) !! l = Some (cancel_pools bd)) as Hl1
    by apply lookup_insert_eq.
  rewrite (bind_run _ _ _ _ _ (upd_bd_at l _ _ _ Hl1)). set (w2 := set_st _ w1).
  assert (details (st w2) !! l = Some (set_clientDisconnect true (cancel_pools bd))) as Hl2
    by apply lookup_insert_eq.
  unfold send_shutdown. rewrite bind_assoc, (bind_run _ _ _ _ _ (get_bd_run _ _ _ Hl2)).
  assert (shutdown (set_clientDisconnect true (cancel_pools bd)) = false) as Hs2 by (by destruct bd).
  rewrite Hs2, (bind_run _ _ _ _ _ (upd_bd_at l _ _ _ Hl2)). set (w3 := set_st _ w2).
  assert (details (st w3) !! l = Some (gone bd)) as Hl3 by apply lookup_insert_eq.
  destruct (close_connections_run l (gone bd) w3 Hl3) as (w4 & lg & Hw4 & Hst4 & Hlog4 & Hclose).
  assert (closes bd lg) by (by destruct bd).
  rewrite (bind_run _ _ _ _ _ Hw4). eexists _, lg. split; [done|]. split; [exact Hlog4|].
  cbn [set_st st set_connections details connections nextAddr]. rewrite Hst4. cbn.
  rewrite !insert_insert_eq. split_and!; try done; by destruct bd.
Qed.

Lemma disconnect_told_twice cid l bd w :
  Get cid (connections (st w)) = Some l → details (st w) !! l = Some bd → shutdown bd = true →
  run_result (disconnectClientByIdentifier cid) w = Block ∧
  log (run_state (disconnectClientByIdentifier cid) w) = log w ∧
  connections (st (run_state (disconnectClientByIdentifier cid) w)) = connections (st w).
Proof.
  intros Hc Hl Hs. unfold run_result, run_state, disconnectClientByIdentifier, recover.
  rewrite reads_bind. cbn [id]. rewrite Hc, (bind_run _ _ _ _ _ (upd_bd_at l _ _ _ Hl)).
  set (w1 := set_st _ w). assert (details (st w1) !! l = Some (cancel_pools bd)) as Hl1 by apply lookup_insert_eq.
  rewrite (bind_run _ _ _ _ _ (upd_bd_at l _ _ _ Hl1)). set (w2 := set_st _ w1).
  assert (details (st w2) !! l = Some (set_clientDisconnect true (cancel_pools bd))) as Hl2 by apply lookup_insert_eq.
  unfold send_shutdown. rewrite bind_assoc, (bind_run _ _ _ _ _ (get_bd_run _ _ _ Hl2)).
  by replace (shutdown (set_clientDisconnect true (cancel_pools bd))) with true by (by destruct bd).
Qed.

(** *** One client of a cleaner's tick *)

(** Every connected client can still be told to shut down. *)
Definition quiescent (b : broker) : Prop :=
  wf b ∧ ∀ cid l bd, Get cid (connections b) = Some l → details b !! l = Some bd → shutdown bd = false.

Definition read_at (t : Z) (lg : list (event Shim)) : Prop := ev KNow (Ret t) ∈ lg.

(** What becomes of client [cid], given the calls made meanwhile. *)
Definition disposed (cid : string) (b b' : broker) (lg : list (event Shim)) : Prop :=
  ∀ l bd, Get cid (connections b) = Some l → details b !! l = Some bd →
  (Get cid (connections b') = None ∧ ActiveStreams bd < 1 ∧
     ∃ t, read_at t lg ∧ cleanInterval < t - lastPubSubEvent bd) ∨
  (Get cid (connections b') = Some l ∧ details b' !! l = Some bd ∧
     (1 <= ActiveStreams bd ∨ ∃ t, read_at t lg ∧ t - lastPubSubEvent bd <= cleanInterval)).

Definition untouched (cid : string) (b b' : broker) : Prop :=
  Get cid (connections b') = Get cid (connections b) ∧
  ∀ l, Get cid (connections b) = Some l → details b' !! l = details b !! l.

Lemma wf_gone cid l bd b b' :
  wf b → details b !! l = Some bd → nextAddr b' = nextAddr b →
  details b' = <[l := gone bd]> (details b) → connections b' = Delete cid (connections b) → wf b'.
Proof.
  intros Hwf Hl Hn Hd Hc.
  assert (wf (set_details (alter (λ _, gone bd) l (details b)) b)) as Hw.
  { destruct Hwf as [Hfr Hco Hst]. split; cbn.
    - intros l' bd' Hl'. destruct (decide (l = l')) as [<-|Hne]; [by eapply Hfr|].
      rewrite lookup_alter_ne in Hl' by done. by eapply Hfr.
    - intros cid' l' Hc'. destruct (Hco _ _ Hc') as (bd' & Hl' & Hid).
      destruct (decide (l = l')) as [<-|Hne].
      + exists (gone bd). rewrite lookup_alter_eq, Hl'. simplify_eq. split; [done|]. by destruct bd.
      + exists bd'. by rewrite lookup_alter_ne.
    - intros l' bd' Hl'. destruct (decide (l = l')) as [<-|Hne].
      + rewrite lookup_alter_eq, Hl in Hl'. cbn in Hl'. simplify_eq. apply Hst in Hl. by destruct bd.
      + rewrite lookup_alter_ne in Hl' by done. by eapply Hst. }
  rewrite (alter_at _ _ _ _ Hl) in Hw. apply (wf_disconnect cid) in Hw.
  destruct Hw as [H1' H2' H3']. cbn in *. rewrite <- Hd, <- Hn in *. by split; rewrite ?Hc.
Qed.

Lemma clean_one_run `{!Returns E} cid w :
  quiescent (st w) →
  ∃ w' lg, clean_one cid w = (Ret (), w') ∧ log w' = log w ++ lg ∧ quiescent (st w') ∧
    disposed cid (st w) (st w') lg ∧ ∀ cid', cid' ≠ cid → untouched cid' (st w) (st w').
Proof.
  intros [Hwf Hsd]. unfold clean_one. rewrite reads_bind. cbn [id].
  destruct (Get cid (connections (st w))) as [l|] eqn:Hc.
  2: { exists w, []. split_and!; try done; [by rewrite app_nil_r|]. intros l bd Hc'. congruence. }
  destruct (wf_conn _ Hwf _ _ Hc) as (bd & Hl & Hid).
  rewrite (bind_run _ _ _ _ _ (get_bd_run _ _ _ Hl)). unfold time_since.
  destruct (call_returns KNow w) as (now & e & _ & Hn). rewrite bind_assoc, (bind_run _ _ _ _ _ Hn).
  cbv beta. rewrite bind_ret_l. set (w1 := {| st := st w; env := e; log := _ |}).
  destruct ((ActiveStreams bd <? 1) && (cleanInterval <? now - lastPubSubEvent bd)) eqn:Hidle.
  - apply andb_true_iff in Hidle as [?%Z.ltb_lt ?%Z.ltb_lt].
    destruct (disconnect_run cid l bd w1 Hc Hl (Hsd _ _ _ Hc Hl)) as
      (w2 & lg & Hw2 & Hlog & Hd & Hco & Hna & _).
    exists w2, (ev KNow (Ret now) :: lg). split; [done|].
    split; [rewrite Hlog; cbn; by rewrite <- app_assoc|]. cbn [st w1] in Hd, Hco, Hna.
    assert (∀ cid' l', Get cid' (connections (st w)) = Some l' → cid' ≠ cid → l' ≠ l) as Hne.
    { intros cid' l' Hc' Hn' ->. by apply Hn', (wf_inj (st w) _ _ l). }
    split_and!.
    + split; [by eapply (wf_gone cid l bd (st w))|]. intros cid' l' bd'. rewrite Hco, Get_Delete.
      case_decide; [done|]. intros Hc' Hl'. eapply Hsd; [done|].
      rewrite Hd, lookup_insert_ne in Hl'; [done|]. symmetry. by eapply Hne.
    + intros l' bd' Hc' Hl'. simplify_eq. left. rewrite Hco, Get_Delete, decide_True by done.
      split_and!; [done..|]. exists now. split; [constructor|done].
    + intros cid' Hn'. split; [rewrite Hco, Get_Delete; by rewrite decide_False|].
      intros l' Hc'. rewrite Hd, lookup_insert_ne; [done|]. symmetry. by eapply Hne.
  - exists w1, [ev KNow (Ret now)]. split_and!; [done..| |done].
    intros l' bd' Hc' Hl'. simplify_eq. right. split_and!; [done..|].
    apply andb_false_iff in Hidle as [?%Z.ltb_ge|?%Z.ltb_ge]; [by left|]. right.
    exists now. split; [constructor|done].
Qed.

Lemma read_at_mono t lg lg1 lg2 : read_at t lg → read_at t (lg1 ++ lg ++ lg2).
Proof. unfold read_at. set_solver. Qed.

Lemma clean_loop_run `{!Returns E} ids w :
  NoDup ids → quiescent (st w) →
  ∃ w' lg, for_each ids clean_one w = (Ret (), w') ∧ log w' = log w ++ lg ∧
    (∀ cid, cid ∈ ids → disposed cid (st w) (st w') lg) ∧
    (∀ cid, cid ∉ ids → untouched cid (st w) (st w')).
Proof.
  revert w. induction ids as [|cid ids IH]; intros w Hnd Hq.
  { exists w, []. split_and!; [done|by rewrite app_nil_r|set_solver|done]. }
  apply list.NoDup_cons in Hnd as [Hnin Hnd]. cbn [for_each].
  destruct (clean_one_run cid w Hq) as (w1 & lg1 & Hw1 & Hlog1 & Hq1 & Hdis & Hunt).
  rewrite (bind_run _ _ _ _ _ Hw1).
  destruct (IH w1 Hnd Hq1) as (w2 & lg2 & Hw2 & Hlog2 & Hdis2 & Hunt2).
  exists w2, (lg1 ++ lg2). split; [done|]. split; [by rewrite Hlog2, Hlog1, app_assoc|]. split.
  - intros cid' [->|Hin]%list.elem_of_cons.
    + (* the head: nobody touches it later *)
      destruct (Hunt2 cid Hnin) as [Hg Hd]. intros l bd Hc Hl.
      destruct (Hdis l bd Hc Hl) as [(Hn & Ha & t & Ht & Hi)|(Hk & Hkd & Hw')].
      * left. rewrite Hg. split_and!; [done..|]. exists t. split; [by apply (read_at_mono t lg1 [])|done].
      * right. rewrite Hg. split_and!; [done|by rewrite Hd|]. destruct Hw' as [?|(t & Ht & Hi)]; [by left|].
        right. exists t. split; [by apply (read_at_mono t lg1 [])|done].
    + assert (cid' ≠ cid) as Hne by set_solver. destruct (Hunt cid' Hne) as [Hg Hd].
      intros l bd Hc Hl. specialize (Hdis2 cid' Hin l bd). rewrite Hg, (Hd l Hc) in Hdis2.
      destruct (Hdis2 Hc Hl) as [(Hn & Ha & t & Ht & Hi)|(Hk & Hkd & [?|(t & Ht & Hi)])].
      * left. split_and!; [done..|]. exists t. split; [unfold read_at in *; set_solver|done].
      * right. split_and!; [done..|by left].
      * right. split_and!; [done..|]. right. exists t. split; [unfold read_at in *; set_solver|done].
  - intros cid' Hnin'. destruct (Hunt cid') as [Hg Hd]; [set_solver|].
    destruct (Hunt2 cid') as [Hg2 Hd2]; [set_solver|]. split; [congruence|].
    intros l Hc. rewrite Hd2 by congruence. by apply Hd.
Qed.

(** *** [WaitForConnect] *)

Lemma wait_connect_end `{!Clock E} `{!OthersWf E} fuel start ctx l w :
  wf (st w) → is_Some (details (st w) !! l) → (0 < fuel)%nat →
  15000 <= 100 * (Z.of_nat fuel - 1) + (time (env w) - start) →
  ∃ b w', wait_connect_turns fuel start ctx l w = (Ret b, w') ∧
          (b = true → ∃ l', at_bd l' (λ bd, state bd = Provider.CONNECTED) (st w')).
Proof.
  revert l w. induction fuel as [|fuel IH]; intros l w Hwf [bd Hl] Hpos Hf; [lia|].
  cbn [wait_connect_turns]. unfold time_since.
  destruct (KNow_run w) as (e & He & Hn). rewrite bind_assoc, (bind_run _ _ _ _ _ Hn), bind_ret_l.
  set (w1 := {| st := st w; env := e; log := _ |}). cbn [Provider.CONNECTTIMEOUT].
  case_match eqn:Hel; [|by exists false, w1]. apply Z.ltb_lt in Hel. unfold Provider.CONNECTTIMEOUT in Hel.
  rewrite (bind_run _ _ _ _ _ (get_bd_run l bd w1 Hl)).
  destruct (Z.eqb_spec (state bd) Provider.CONNECTED) as [Hs|Hs].
  { eexists _, _. split; [done|]. intros _. exists l, bd. done. }
  unfold getBrokerDetails. rewrite bind_assoc, reads_bind. cbn [id].
  destruct (ClientIds.GetClientIdentifier ctx (clientMap (st w1))) as [cid [err|]];
    [rewrite bind_ret_l; by exists false, w1|].
  unfold getBrokerDetailsByIdentifier.
  destruct (Get cid (connections (st w1))) as [l'|] eqn:Hc; rewrite bind_ret_l; [|by exists false, w1].
  destruct (sleep_run KSleepRandomReconnect w1 100) as ([] & w2 & Hw2 & Hst & Ht); [by right|].
  rewrite (bind_run _ _ _ _ _ Hw2).
  match goal with |- context [(yield ≫= ?f) w2] =>
    change ((yield ≫= f) w2) with (f () (set_st (interfere (env w2) (st w2)) w2)) end.
  cbn [env w1] in Ht. apply IH; cbn [set_st st env]; rewrite ?Hst.
  - by apply others_wf.
  - apply others_keep. destruct (wf_conn _ Hwf _ _ Hc) as (bd' & Hl' & _). by eexists.
  - lia.
  - lia.
Qed.

Lemma wait_connect_from `{!Clock E} `{!OthersWf E} fuel ctx l w :
  (151 <= fuel)%nat → wf (st w) → is_Some (details (st w) !! l) →
  ∃ b w', defer (start ← call KNow; wait_connect_turns fuel start ctx l) (decrementStreamCount l) w =
            (Ret b, w') ∧
          (b = true → ∃ l', at_bd l' (λ bd, state bd = Provider.CONNECTED) (st w')).
Proof.
  intros Hf Hwf Hl. unfold defer.
  destruct (KNow_run w) as (e & He & Hn). rewrite (bind_run _ _ _ _ _ Hn).
  destruct (wait_connect_end fuel (time (env w)) ctx l
              {| st := st w; env := e; log := log w ++ [ev KNow (Ret (time (env w)))] |})
    as (b & w' & Hw' & Hb); [done|done|lia|cbn [env]; lia|].
  rewrite Hw'. unfold decrementStreamCount, updateLastPubSubEvent.
  rewrite (bind_run (upd_bd l _) _ _ _ _ (upd_bd_run _ _ _)).
  match goal with |- context [(call KNow ≫= _) ?v] =>
    destruct (KNow_run v) as (e2 & _ & Hn2); rewrite (bind_run _ _ _ _ _ Hn2) end.
  rewrite upd_bd_run. exists b. eexists. split; [done|]. intros Hbt.
  destruct (Hb Hbt) as (l' & Hat). exists l'. cbn [set_st st].
  assert (∀ f b', (∀ bd, state (f bd) = state bd) → at_bd l' (λ bd, state bd = Provider.CONNECTED) b' →
    at_bd l' (λ bd, state bd = Provider.CONNECTED) (set_details (alter f l (details b')) b')) as Hupd.
  { intros f b' Hf' (bd & Hl' & Hs). destruct (decide (l = l')) as [<-|Hne].
    - exists (f bd). rewrite details_upd, Hl'. split; [done|]. by rewrite Hf'.
    - exists bd. by rewrite details_upd_ne. }
  apply Hupd; [by intros []|]. apply Hupd; [by intros []|]. done.
Qed.
End lemmas.

(** ** Properties *)

Section properties.
Context {E : Type} `{Oracle Shim E} `{MR : MapRange} `{Json} `{Others E}.
Implicit Types w : world Shim E broker.

(** A connection attempt on an object that is neither connected nor being
    connected asks for exactly one connection, with the client's host, port,
    tenant and credentials. It reports success exactly when the broker accepts
    it; then the object is CONNECTED on the new connection, without a retry
    channel and with empty tables of deliveries, queues and bindings. When the
    broker refuses, the error is returned, nothing else is called, the state
    is CLOSED, the old connection stays, and the tables are emptied all the
    same. *)
Theorem connect_outcome `{!Returns E} l bd w :
  details (st w) !! l = Some bd → clientDisconnect bd = false →
  state bd ≠ Provider.CONNECTING → state bd ≠ Provider.CONNECTED →
  ∃ conn (err : error) lg, let '(r, w') := connect l w in
    r = Ret (bool_decide (err = None), err) ∧
    log w' = log w ++ ev (KNewConnection (connection_string bd) (ClientIdentifier bd)) (Ret conn)
                   :: ev (KConnect conn) (Ret err) :: lg ∧
    match err with
    | None => at_bd l (fresh_on conn) (st w')
    | Some _ => lg = [] ∧ at_bd l (λ bd', state bd' = Provider.CLOSED ∧ Connection bd' = Connection bd ∧
                                         activeMessages bd' = ∅) (st w')
    end.
Proof.
  intros Hl Hd Hc Hs.
  destruct (connect_run l bd w Hl Hd Hc Hs) as (conn & err & e1 & e2 & w' & lg & _ & _ & Hlog & Hr).
  exists conn, err, lg. destruct (err : error) as [e|].
  - destruct Hr as (-> & -> & _ & Hl'). split_and!; [done..|]. eexists. split; [done|].
    destruct (prepared_same bd) as (_ & _ & Hco & Ha & _). by destruct (prepared bd).
  - destruct Hr as (-> & Hf). by split_and!.
Qed.

(** C15: A connection attempt, successful or not, forgets every delivery the
    client has not settled: whatever identifier it then acknowledges, it gets
    an error, and no acknowledgement goes out on the new connection. *)
Theorem reconnect_forgets `{!Returns E} ctx id l bd w :
  client_at ctx l (st w) → details (st w) !! l = Some bd → clientDisconnect bd = false →
  state bd ≠ Provider.CONNECTING → state bd ≠ Provider.CONNECTED →
  let w' := run_state (connect l) w in
  BrokerAck.Ack ctx id w' = (Ret (Some (BrokerAck.no_message id)), w').
Proof.
  intros Hcl Hl Hd Hc Hs w'.
  assert (client_at ctx l (st w')) as Hcl'.
  { subst w'. unfold run_state, connect.
    rewrite (bind_run _ _ _ _ _ (get_bd_run _ _ _ Hl)), Hd, (proj2 (Z.eqb_neq _ _) Hc), bind_ret_l.
    exact (client_at_keeps ctx l _ (connect_same_clients l) w Hcl). }
  assert (at_bd l (λ bd', activeMessages bd' = ∅) (st w')) as (bd' & Hl' & Ha).
  { subst w'. unfold run_state.
    destruct (connect_run l bd w Hl Hd Hc Hs) as (conn & err & e1 & e2 & w' & lg & _ & _ & _ & Hr).
    destruct (err : error) as [e|].
    - destruct Hr as (-> & _ & _ & Hl'). eexists. split; [done|].
      destruct (prepared_same bd) as (_ & _ & _ & Ha & _). by destruct (prepared bd).
    - destruct Hr as (-> & Hf). eapply at_bd_weaken; [|exact Hf]. by intros ? (_ & _ & _ & ? & _). }
  clearbody w'. unfold BrokerAck.Ack, recover. rewrite (with_details_some _ _ _ _ Hcl'). prog_unfold.
  rewrite (get_bd_run _ _ _ Hl'), Ha. done.
Qed.

(** Waiting for the connection attempt of another goroutine ends, with one
    of the three states the caller tells apart, whatever the others do to the
    object meanwhile: 301 turns of 100 ms are enough for the 30 seconds. *)
Theorem wait_while_connecting_returns `{!Clock E} `{!OthersWf E} l w :
  wf (st w) → is_Some (details (st w) !! l) →
  ∃ r, run_result (waitWhileConnecting l) w = Ret r ∧
       (r = Provider.CONNECTED ∨ r = Provider.CLOSED ∨ r = Provider.DISCONNECTED).
Proof.
  intros Hwf Hl. exact (wait_from 301 l w (le_n 301) Hwf Hl).
Qed.

Lemma reconnect_gone fuel l bd w :
  details (st w) !! l = Some bd → clientDisconnect bd = true → reconnect (S fuel) l w = (Ret true, w).
Proof. intros Hl Hd. cbn [reconnect]. by rewrite (bind_run _ _ _ _ _ (get_bd_run _ _ _ Hl)), Hd. Qed.

(** C28: [WaitForConnect] always returns, within 151 turns of at least 100 ms
    for its 15 seconds, and it returns true only when it has seen an object in
    the state CONNECTED. *)
Theorem wait_for_connect_returns `{!Clock E} `{!OthersWf E} ctx w :
  wf (st w) →
  ∃ b w', WaitForConnect ctx w = (Ret b, w') ∧
          (b = true → ∃ l, at_bd l (λ bd, state bd = Provider.CONNECTED) (st w')).
Proof.
  intros Hwf. unfold WaitForConnect, getBrokerDetails. rewrite bind_assoc, reads_bind. cbn [id].
  destruct (ClientIds.GetClientIdentifier ctx (clientMap (st w))) as [cid [err|]];
    [rewrite bind_ret_l; by exists false, w|].
  unfold getBrokerDetailsByIdentifier.
  destruct (Get cid (connections (st w))) as [l|] eqn:Hc; rewrite bind_ret_l; [|by exists false, w].
  destruct (wf_conn _ Hwf _ _ Hc) as (bd & Hl & _).
  unfold incrementStreamCount, updateLastPubSubEvent.
  rewrite !bind_assoc, (bind_run (upd_bd l _) _ _ _ _ (upd_bd_run _ _ _)). rewrite bind_assoc.
  match goal with |- context [(call KNow ≫= _) ?v] =>
    destruct (KNow_run v) as (e & _ & Hn); rewrite (bind_run _ _ _ _ _ Hn) end.
  rewrite (bind_run (upd_bd l _) _ _ _ _ (upd_bd_run _ _ _)).
  apply (wait_connect_from 151); [done| |].
  - cbn [set_st st]. apply wf_upd; [by intros []|]. apply wf_upd; [by intros []|done].
  - cbn [set_st st]. rewrite !details_upd, Hl. by eexists.
Qed.

(** What the other goroutines leave alone while the watcher of [l] sleeps:
    only the watcher and [Connect] change the state of a live object. *)
Definition watched (l : nat) : BrokerDetails → Prop := λ bd,
  clientDisconnect bd = true ∨ clientDisconnect bd = false ∧ state bd = Provider.DISCONNECTED.

(** C29: The watcher reconnects: when the broker refuses a number of attempts
    and then accepts, the retry loop ends, after at most one turn more than
    there are refusals, connected, unless the client has disconnected
    meanwhile. It never gives up before. *)
Theorem watcher_reconnects `{!Returns E} `{!Refuses E} fuel l w :
  (∀ e b, at_bd l (watched l) b → at_bd l (watched l) (interfere e b)) →
  at_bd l (watched l) (st w) → (S (refusals (env w)) < fuel)%nat →
  ∃ w', reconnect fuel l w = (Ret true, w') ∧
        at_bd l (λ bd, clientDisconnect bd = true ∨ state bd = Provider.CONNECTED) (st w').
Proof.
  intros Hoth. revert w. induction fuel as [|fuel IH]; intros w (bd & Hl & Hw) Hf; [lia|].
  cbn [reconnect]. rewrite (bind_run _ _ _ _ _ (get_bd_run _ _ _ Hl)).
  destruct (clientDisconnect bd) eqn:Hd.
  { eexists. split; [done|]. exists bd. by split; [|left]. }
  destruct (refuses_call KSleepRandomReconnect w) as ([] & w1 & Hw1 & Hst1 & Hr1); [done|].
  rewrite (bind_run _ _ _ _ _ Hw1). unfold yield.
  match goal with |- context [(_ ≫= ?f) w1] => change ((_ ≫= f) w1) with (f () (set_st (interfere (env w1) (st w1)) w1)) end.
  cbv beta. set (w2 := set_st _ w1).
  assert (at_bd l (watched l) (st w2)) as (bd2 & Hl2 & Hw2).
  { apply Hoth. rewrite Hst1. by exists bd. }
  assert (refusals (env w2) = refusals (env w)) as Hr2 by done.
  destruct Hw2 as [Hd2|[Hd2 Hs2]].
  - (* the client has disconnected *)
    assert (connect l w2 = (Ret (false, None), w2)) as Hc.
    { unfold connect. by rewrite (bind_run _ _ _ _ _ (get_bd_run _ _ _ Hl2)), Hd2. }
    rewrite (bind_run _ _ _ _ _ Hc). cbn [fst].
    rewrite (bind_run _ _ _ _ _ (upd_bd_at l _ _ _ Hl2)). destruct fuel as [|fuel]; [lia|].
    eexists. split.
    + eapply reconnect_gone; [apply lookup_insert_eq|]. by destruct bd2.
    + eexists. split; [apply lookup_insert_eq|]. left. by destruct bd2.
  - destruct (connect_run l bd2 w2) as (conn & err & e1 & e2 & w' & lg & Hn & Hco & _ & Hr);
      [done|done|by rewrite Hs2..|].
    apply refuse_connect in Hco as [Hnone Hpred].
    pose proof (refuse_other (KNewConnection (connection_string bd2) (ClientIdentifier bd2)) (env w2)
                  ltac:(done)) as Hsame. rewrite Hn in Hsame. cbn [snd] in Hsame.
    destruct (err : error) as [err'|].
    + destruct Hr as (Hc & _ & He & Hl'). rewrite (bind_run _ _ _ _ _ Hc). cbn [fst].
      rewrite (bind_run _ _ _ _ _ (upd_bd_at l _ _ _ Hl')). apply IH.
      * eexists. split; [apply lookup_insert_eq|]. right.
        destruct (prepared_same bd2) as (_ & _ & _ & _ & _ & _ & Hpd & _). rewrite Hd2 in Hpd.
        by destruct (prepared bd2).
      * cbn [set_st env]. rewrite He, Hpred.
        assert (refusals e1 ≠ 0%nat) by (intros ?%Hnone; done). lia.
    + destruct Hr as (Hc & Hf'). rewrite (bind_run _ _ _ _ _ Hc). eexists. split; [done|].
      eapply at_bd_weaken; [|exact Hf']. intros bd' (Hs' & _). by right.
Qed.


(** A tick of the cleaner disconnects exactly the dead clients: a client is
    removed only when it has no stream open and its last stream event is more
    than 30 seconds old at some reading of the clock during the tick; a client
    that stays, stays untouched, and has a stream or was active less than 30
    seconds before such a reading. *)
Theorem cleaner_exact `{!Returns E} w :
  quiescent (st w) →
  ∃ w' lg, clean_tick w = (Ret (), w') ∧ log w' = log w ++ lg ∧
    ∀ cid, disposed cid (st w) (st w') lg.
Proof.
  intros Hq. unfold clean_tick. rewrite reads_bind. cbn [id].
  destruct (clean_loop_run (GetList (connections (st w))) w) as (w' & lg & Hw' & Hlog & Hdis & _);
    [apply GetList_NoDup|done|].
  exists w', lg. split_and!; [done..|]. intros cid l bd Hc. apply Hdis; [|done].
  apply elem_of_GetList. by eexists.
Qed.
End properties.

(** ** Witnesses *)

Section witnesses.
#[local] Instance demo_json : Json := {| Unmarshal _ := ([], None) |}.

(** An outside with a clock: the state is the time. *)
Definition timed_shim : Oracle Shim nat := λ c n,
  match c return outcome (shim_reply c) * nat with
  | KNow => (Ret (Z.of_nat n), n)
  | KSleep ms => (Ret (), (n + Z.to_nat ms)%nat)
  | KSleepRandomReconnect => (Ret (), (n + 100)%nat)
  | c => (fst (ok_shim c n), n)
  end.

Program Definition timed_clock : @Clock nat timed_shim := {| time n := Z.of_nat n |}.
Next Obligation. intros e. exists e. by split. Qed.
Next Obligation. intros ms e. eexists. split; [done|]. lia. Qed.
Next Obligation. intros e. eexists. split; [done|]. lia. Qed.

(** An outside that refuses as many connections as its state says. *)
Definition refusing_shim : Oracle Shim nat := λ c n,
  match c return outcome (shim_reply c) * nat with
  | KConnect _ => match n with O => (Ret None, O) | S n' => (Ret (Some "connection refused"), n') end
  | c => (fst (ok_shim c 0%nat), n)
  end.

Lemma refusing_returns : @Effects.Returns Shim nat refusing_shim.
Proof. intros c e. destruct c; try by eexists _, _. destruct e; by eexists _, _. Qed.

Program Definition refusing_refuses : @Refuses nat refusing_shim := {| refusals n := n |}.
Next Obligation. intros conn [|e] r e' Ha; cbn in Ha; by simplify_eq. Qed.
Next Obligation. intros c e Hc. destruct c; try done. by destruct (Hc c). Qed.

(** The demo client, disconnected, with a message it has not acknowledged. *)
Definition down_details : BrokerDetails :=
  set_state Provider.DISCONNECTED (demo_details {[ "m1" := ActAmqp empty_message ]}).
Definition down_world : world Shim nat broker :=
  {| st := set_details {[ 0%nat := down_details ]} (demo_broker ∅); env := 5%nat; log := [] |}.

Lemma down_lookup : details (st down_world) !! 0%nat = Some down_details.
Proof. reflexivity. Defined.

Lemma demo_broker_wf b :
  (∀ l bd, details b !! l = Some bd → l = 0%nat ∧ ClientIdentifier bd = "c-1" ∧ valid_state (state bd)) →
  is_Some (details b !! 0%nat) → nextAddr b = 1%nat → connections b = {[ "c-1" := 0%nat ]} → wf b.
Proof.
  intros Hd [bd Hl] Hn Hc. split.
  - intros l bd' (-> & _ & _)%Hd. rewrite Hn. lia.
  - intros cid l. rewrite Hc. unfold Get. intros [<- <-]%lookup_singleton_Some.
    exists bd. split; [done|]. by apply Hd in Hl as (_ & ? & _).
  - by intros l bd' (_ & _ & ?)%Hd.
Qed.

Lemma down_wf : wf (st down_world).
Proof.
  apply demo_broker_wf; try done. intros l bd Hl. cbn in Hl. apply lookup_singleton_Some in Hl as [<- <-]. split_and!; [done..|by left].
Qed.

Lemma connect_outcome_witness (O := ok_shim) (I := alone : Others nat) :
  fst (connect 0 down_world) = Ret (true, None).
Proof.
  destruct (connect_outcome (H0 := demo_json) (Returns0 := ok_returns) 0 down_details down_world down_lookup
              eq_refl ltac:(discriminate) ltac:(discriminate)) as (conn & err & lg & Hr).
  vm_compute. reflexivity.
Defined.

Lemma reconnect_forgets_witness (O := ok_shim) (I := alone : Others nat) :
  fst (BrokerAck.Ack demo_peer "m1" (run_state (connect 0) down_world)) =
    Ret (Some (BrokerAck.no_message "m1")).
Proof.
  exact (f_equal fst (reconnect_forgets (H0 := demo_json) (Returns0 := ok_returns) demo_peer "m1" 0
    down_details down_world ltac:(exists "c-1"; split; reflexivity) down_lookup eq_refl
    ltac:(discriminate) ltac:(discriminate))).
Defined.

Lemma wait_while_connecting_returns_witness (O := timed_shim) (I := alone : Others nat) :
  ∃ r, run_result (waitWhileConnecting 0) down_world = Ret r.
Proof.
  destruct (wait_while_connecting_returns (Clock0 := timed_clock) (OthersWf0 := alone_wf nat) 0
    down_world down_wf ltac:(by eexists)) as (r & Hr & _).
  exists r. exact Hr.
Defined.

Lemma wait_for_connect_returns_witness (O := timed_shim) (I := alone : Others nat) :
  ∃ b, run_result (WaitForConnect demo_peer) down_world = Ret b.
Proof.
  destruct (wait_for_connect_returns (Clock0 := timed_clock) (OthersWf0 := alone_wf nat) demo_peer
    down_world down_wf) as (b & w' & Hb & _).
  exists b. exact (f_equal fst Hb).
Defined.

Lemma watcher_reconnects_witness (O := refusing_shim) (I := alone : Others nat) :
  fst (reconnect 7 0 down_world) = Ret true.
Proof.
  destruct (watcher_reconnects (H0 := demo_json) (Returns0 := refusing_returns)
    (Refuses0 := refusing_refuses) 7 0 down_world) as (w' & Hw & _).
  - intros e b Hb. exact Hb.
  - exists down_details. split; [reflexivity|]. right. split; reflexivity.
  - cbn. lia.
  - exact (f_equal fst Hw).
Defined.


Lemma cleaner_exact_witness (O := ok_shim) (MR := default_range) :
  fst (clean_tick down_world) = Ret ().
Proof.
  destruct (cleaner_exact (Returns0 := ok_returns) down_world) as (w' & lg & Hw' & _).
  - split; [exact down_wf|]. intros cid l bd Hc Hl. cbn in Hl.
    apply lookup_singleton_Some in Hl as [<- <-]. reflexivity.
  - exact (f_equal fst Hw').
Defined.
End witnesses.

End BrokerConnect.
