(* ===== verification/BrokerPublish.v ===== *)
(** * [connectors/amqp091/amqp091.go]: publishing

    The [Publish] stream, [PublishOne] with its channel pools, and publishing
    to streams. The [select] of [Publish] is a program over the events it
    receives; what it sends on the server's error channel is logged. *)

From Stdlib Require Import Ascii String.
From stdpp Require Import base gmap strings list fin_maps option.
From Stdlib Require Import ZArith Lia.
From S2P Require Import Prelude Effects GoStrings Api ConcurrentMap BlockingPool ClientIds Provider Compression Stream Amqp BrokerState BrokerDeclare.

(** When the context of a pool is cancelled and an item could be exchanged as
    well, Go's [select] picks one of the two: [pick] is its choice. *)
Class Select := pick : bool.

Module BrokerPublish.
Import Amqp ConcurrentMap BrokerState BrokerDeclare.
Open Scope Z_scope.
Open Scope list_scope.

Definition errMsgConnectionClosed : string := "connection to broker is closed".

Section publish.
Context {E : Type} `{Oracle Shim E} `{MapRange} `{Json} `{Select}.

(** ** Sending one message *)

(** [int64] counters of the statistics. *)
Definition add_produced (bd : BrokerDetails) : BrokerDetails :=
  set_produced (int64 (produced bd + 1)) bd.
Definition add_consumed (bd : BrokerDetails) : BrokerDetails :=
  set_consumed (int64 (consumed bd + 1)) bd.

(** The message for the broker. *)
Definition amqp_message (msg : Message) : amqp091Message := {|
  delivery := None;
  Body := Api.Body msg;
  DeliveryMode := if Persistent msg then 2 else 1;
  ContentType := default "" (Api.Headers msg !! "Content-Type");
  ContentEncoding := default "" (Api.Headers msg !! "Content-Encoding");
  Headers := Some (VString <$> Api.Headers msg);
  DeliveryTag := 0
|}.

(** The first subject is looked up before anything else. *)
Definition prepareAndSend (msg : Message) (l : nat) (amqpChannel : nat) : bprog E (option Error) :=
  match GetSubjects (MessageAddress msg) with
  | [] => panic "index out of range [0] with length 0"
  | subject :: _ =>
      declareExchange (MessageAddress msg) l;;
      err ← call (KPublish amqpChannel (GetAddressName (MessageAddress msg)) subject (amqp_message msg));
      match (err : error) with
      | Some e => mret (Some (mkFatal e))
      | None => upd_bd l add_produced;; mret None
      end
  end.

(** ** The channel pools *)

Definition the_pool (confirm : bool) (bd : BrokerDetails) : BlockingPool.BlockingPool nat :=
  if confirm then pubPCChannels bd else pubChannels bd.
Definition set_the_pool (confirm : bool) (p : BlockingPool.BlockingPool nat) (bd : BrokerDetails) :
    BrokerDetails :=
  if confirm then set_pubPCChannels p bd else set_pubChannels p bd.

Definition pool_at (l : nat) (confirm : bool) (w : world Shim E broker) : BlockingPool.BlockingPool nat :=
  match details (st w) !! l with
  | Some bd => the_pool confirm bd
  | None => BlockingPool.NewBlockingPool true 0
  end.
Definition set_pool_at (l : nat) (confirm : bool) (p : BlockingPool.BlockingPool nat)
    (w : world Shim E broker) : world Shim E broker :=
  set_st (set_details (alter (set_the_pool confirm p) l (details (st w))) (st w)) w.

(** [newPubChannel] and [newPubPCChannel] *)
Definition new_pub_channel (l : nat) (confirm : bool) : bprog E (option nat) :=
  r ← with_conn l (λ c, call (KNewChannel c confirm));
  mret (match (r : nat + string) with inl ch => Some ch | inr _ => None end).

Definition validateChannel (ch : nat) : bprog E bool :=
  closed ← call (KChIsClosed ch); mret (negb closed).

Definition pool_get (l : nat) (confirm : bool) : bprog E (option nat) :=
  BlockingPool.Get (pool_at l confirm) (set_pool_at l confirm) (new_pub_channel l confirm)
    validateChannel pick.

Definition pool_put (l : nat) (confirm : bool) (ch : nat) : bprog E error :=
  BlockingPool.Put (pool_at l confirm) (set_pool_at l confirm) validateChannel pick (Some ch).

(** The deferred return of the channel. *)
Definition give_back (l : nat) (confirm : bool) (ch : nat) : bprog E () :=
  err ← pool_put l confirm ch;
  match err with Some _ => call (KChClose ch);; mret () | None => mret () end.

Definition publishOneQueue (msg : Message) (l : nat) : bprog E (option Error) :=
  closed ← with_conn l (λ c, call (KConnIsClosed c));
  if (closed : bool) then mret (Some (mkError errMsgConnectionClosed))
  else if 0 <? PublishId msg then
    mret (Some (mkError "Message deduplication is not supported by Queue types"))
  else
    amc ← pool_get l (Confirm msg);
    match amc with
    | None => mret (Some (mkError "failed to get channel from pool"))
    | Some ch => defer (prepareAndSend msg l ch) (give_back l (Confirm msg) ch)
    end.

(** ** Streams *)

(** A failed attempt stores nothing, so the next caller tries again. *)
Definition getStreamConnection (l : nat) : bprog E (option Error) :=
  bd ← get_bd l;
  match StreamConnection bd with
  | Some _ => mret None
  | None =>
      conn ← call (KNewStreamConn
        (Stream.getStreamConnectionString (tlsEnabled bd) (connectionConfig bd)) (ClientIdentifier bd));
      err ← call (KStreamConnect conn);
      match (err : error) with
      | Some e => mret (Some (mkError ("failed to create stream connection to broker: " +:+ e)))
      | None => upd_bd l (set_StreamConnection (Some conn));; mret None
      end
  end.

(** A message without headers has a nil map. *)
Definition stream_message (msg : Message) : Compression.streamMessage := {|
  Compression.SBody := Api.Body msg; Compression.SContentType := "";
  Compression.SContentEncoding := "";
  Compression.SHeaders := if bool_decide (Api.Headers msg = ∅) then None else Some (Api.Headers msg);
  Compression.SPublishID := PublishId msg |}.

(** The status is not compared with the message that was sent. *)
Definition streamPrepareAndSend (msg : Message) (l : nat) (publisher : nat) : bprog E (option Error) :=
  match GetSubjects (MessageAddress msg) with
  | [] => panic "index out of range [0] with length 0"
  | _ =>
      err ← call (KStreamPublish publisher (stream_message msg));
      match (err : error) with
      | Some e => mret (Some (mkFatal e))
      | None =>
          waited ← (if Confirm msg then
                      status ← call (KWaitConfirm publisher);
                      match (status : confirmation) with
                      | Interrupted => mret (Some (mkFatal "Publish interrupted before confirmation received"))
                      | NotConfirmed _ e => mret (Some (mkError e))
                      | Confirmed _ => mret None
                      end
                    else mret None);
          match (waited : option Error) with
          | Some e => mret (Some e)
          | None => upd_bd l add_produced;; mret None
          end
      end
  end.

Definition stream_closed (l : nat) : bprog E bool :=
  bd ← get_bd l; on_iface (StreamConnection bd) (λ s, call (KStreamIsClosed s)).

Definition publishOneStream (msg : Message) (l : nat) : bprog E (option Error) :=
  strConnErr ← getStreamConnection l;
  match strConnErr with
  | Some e => mret (Some e)
  | None =>
      closed ← stream_closed l;
      if (closed : bool) then mret (Some (mkError errMsgConnectionClosed))
      else if (0 <? PublishId msg) && String.eqb (PublisherName msg) "" then
        mret (Some (mkError "PublisherName not set on message, PublisherName is required when PublishID is set"))
      else
        bd ← get_bd l;
        publisher ← on_iface (StreamConnection bd) (λ s,
          call (KGetPublisher s (GetAddressName (MessageAddress msg)) (PublisherName msg) (Confirm msg)));
        match (publisher : option nat) with
        | None => mret (Some (mkError "connected to broker, but failed to create a stream publisher"))
        | Some p =>
            defer (streamPrepareAndSend msg l p)
              (on_iface (StreamConnection bd) (λ s, call (KPutPublisher s (Confirm msg) p)))
        end
  end.

Definition PublishOne (ctx : ClientIds.peer) (msg : Message) : bprog E (option Error) :=
  with_details ctx (λ l,
    updateLastPubSubEvent l;;
    match GetAddressType (MessageAddress msg) with
    | Address_STREAM => publishOneStream msg l
    | _ => publishOneQueue msg l
    end).

(** ** The publish stream *)

(** What a [select] over the context, the two close notifications and the
    messages receives; [None] is a closed channel, or a nil message. *)
Inductive publish_event :=
  | PDone
  | PCancel (e : option amqp091Error)
  | PConn (e : option amqp091Error)
  | PMessage (m : option Message).

(** A notification: [None] when the loop goes on, [Some r] when it returns
    [r]. *)
Definition notified (l : nat) (when_closed : Error) (e : option amqp091Error) :
    bprog E (option (option Error)) :=
  match e with
  | None => mret (Some (Some when_closed))
  | Some err =>
      if bool_decide (err = zero_error) then
        bd ← get_bd l;
        mret (if state bd =? Provider.CONNECTED then None else Some None)
      else mret (Some (Some (mkError (amqp091Error_Error err))))
  end.

Definition publish_turn (l ch : nat) (e : publish_event) : bprog E (option (option Error)) :=
  match e with
  | PDone => mret (Some None)
  | PCancel n => notified l (mkError "Channel to broker closed") n
  | PConn n => notified l (mkError "Connection to broker closed") n
  | PMessage None => mret (Some None)
  | PMessage (Some message) =>
      (if Confirm message then
         call (KErrChan (Some (mkError "Unsupported: Publish does not support publish confirmation")))
       else mret ());;
      err ← prepareAndSend message l ch;
      call (KErrChan err);;
      mret None
  end.

(** Without an event the loop waits. *)
Fixpoint publish_loop (l ch : nat) (events : list publish_event) : bprog E (option Error) :=
  match events with
  | [] => block
  | e :: rest =>
      r ← publish_turn l ch e;
      match r with Some res => mret res | None => publish_loop l ch rest end
  end.

(** From the test of the connection on. The deferred send on [connErrChan] only
    ends the goroutine that relays the notifications. *)
Definition publish_stream (l : nat) (events : list publish_event) : bprog E (option Error) :=
  closed ← with_conn l (λ c, call (KConnIsClosed c));
  if (closed : bool) then mret (Some (mkError errMsgConnectionClosed))
  else
    r ← with_conn l (λ c, call (KNewChannel c false));
    match r with
    | inr err => mret (Some (mkError err))
    | inl ch =>
        defer
          (with_conn l (λ c, call (KConnNotifyClose c));;
           call (KChNotifyClose ch);;
           publish_loop l ch events)
          (call (KChClose ch);; mret ())
    end.

Definition Publish (ctx : ClientIds.peer) (events : list publish_event) : bprog E (option Error) :=
  with_details ctx (λ l,
    updateLastPubSubEvent l;;
    incrementStreamCount l;;
    defer (publish_stream l events) (decrementStreamCount l)).

End publish.

(** ** Lemmas: borrowing a channel *)

Section lemmas.
Context {E : Type} `{Oracle Shim E} `{MR : MapRange} `{Json} `{Select}.
Implicit Types w : world Shim E broker.

Lemma the_pool_set c c' p bd :
  the_pool c (set_the_pool c' p bd) = if Bool.eqb c c' then p else the_pool c bd.
Proof. by destruct c, c', bd. Qed.

Lemma pool_at_set l c p w :
  is_Some (details (st w) !! l) → pool_at l c (set_pool_at l c p w) = p.
Proof.
  intros [bd Hl]. unfold pool_at, set_pool_at. cbn. rewrite lookup_alter_eq, Hl. cbn.
  by rewrite the_pool_set, eqb_reflx.
Qed.

Lemma set_pool_at_some l c p w :
  is_Some (details (st w) !! l) → is_Some (details (st (set_pool_at l c p w)) !! l).
Proof. intros [bd Hl]. unfold set_pool_at. cbn. rewrite lookup_alter_eq, Hl. by eexists. Qed.

Lemma pool_at_eq l c w w' : st w' = st w → pool_at l c w' = pool_at l c w.
Proof. unfold pool_at. by intros ->. Qed.

(** The connection and the pools of the object are left alone. *)
Definition same_pools (l : nat) (b b' : broker) : Prop :=
  (λ bd, (Connection bd, pubChannels bd, pubPCChannels bd)) <$> details b !! l =
  (λ bd, (Connection bd, pubChannels bd, pubPCChannels bd)) <$> details b' !! l.

#[global] Instance same_pools_refl l : Reflexive (same_pools l).
Proof. by intros b. Qed.
#[global] Instance same_pools_trans l : Transitive (same_pools l).
Proof. intros b1 b2 b3 H1' H2'. unfold same_pools in *. by rewrite H1'. Qed.

Lemma same_pools_upd l l' f b :
  (∀ bd, (Connection (f bd), pubChannels (f bd), pubPCChannels (f bd)) =
         (Connection bd, pubChannels bd, pubPCChannels bd)) →
  same_pools l b (set_details (alter f l' (details b)) b).
Proof.
  intros Hf. unfold same_pools. destruct (decide (l' = l)) as [->|Hne].
  - rewrite details_upd, <- option_fmap_compose. destruct (details b !! l); [|done]. cbn. by rewrite Hf.
  - by rewrite details_upd_ne.
Qed.

Lemma same_pools_at l c w w' : same_pools l (st w) (st w') → pool_at l c w' = pool_at l c w.
Proof.
  unfold same_pools, pool_at. destruct (details (st w) !! l), (details (st w') !! l); intros Hs; try done.
  cbn in Hs. injection Hs as H1' H2' H3'. destruct c; cbn; congruence.
Qed.

#[global] Instance same_pools_frame l : Frame (same_pools l).
Proof.
  split; [exact _..|]. intros l' f b Hf. apply same_pools_upd. intros bd.
  set (P := λ bd, (Connection bd, pubChannels bd, pubPCChannels bd)).
  assert (∀ bd, P (forget_known bd) = P bd) as Hk by (by intros []).
  change (P (f bd) = P bd). by rewrite <- (Hk (f bd)), Hf, Hk.
Qed.

Lemma prepareAndSend_pools l msg l' ch : keeps (same_pools l) (prepareAndSend (E := E) msg l' ch).
Proof.
  unfold prepareAndSend. destruct (GetSubjects (MessageAddress msg)); [by keeps_solve|].
  apply keeps_bind; [exact _|apply declaring_declareExchange; exact _|]. intros _.
  apply keeps_bind; [exact _|unfold call; by keeps_solve|]. intros err.
  destruct (err : error); [by keeps_solve|]. unfold upd_bd. keeps_solve. apply same_pools_upd. by intros [].
Qed.

Lemma ends_with_conn {A} l (f : nat → bprog E A) : (∀ c, ends (f c)) → ends (with_conn l f).
Proof.
  intros Hf. unfold with_conn. apply ends_bind; [apply ends_get_bd|]. intros bd.
  destruct (Connection bd); [apply Hf|apply ends_panic].
Qed.

Lemma declareExchange_ends `{!Returns E} a l : ends (declareExchange (E := E) a l).
Proof.
  unfold declareExchange. generalize (default zero_Address a). clear a.
  fix IH 1. intros [name subjects aType autoDelete parent]. cbn [declareExchange_].
  destruct (contains "amq." name); [apply ends_ret|].
  apply ends_bind; [apply ends_with_conn; intros; ends_the_call|]. intros [ch|err]; [|apply ends_ret].
  apply ends_bind; [apply ends_get_bd|]. intros bd. apply ends_bind.
  { destruct (exchangeKnown name bd); [apply ends_ret|].
    destruct (addressTypeToAmqpType aType); [|apply ends_ret]. apply ends_bind; [ends_the_call|].
    intros err. unfold upd_bd. by ends_solve. }
  intros [err|]; [apply ends_ret|]. destruct parent as [p|]; [|apply ends_ret].
  apply ends_bind; [apply ends_get_bd|]. intros bd'. apply ends_bind.
  - destruct (exchangeKnown (AddressName p) bd'); [apply ends_ret|].
    apply ends_bind; [apply IH|]. intros _. unfold upd_bd. apply ends_writes.
  - intros _. apply ends_bind; [|intros ?; by ends_solve]. apply ends_for_range. intros x.
    apply ends_bind; [ends_the_call|]. intros. apply ends_ret.
Qed.

Lemma prepareAndSend_ends `{!Returns E} msg l ch : ends (prepareAndSend (E := E) msg l ch).
Proof.
  unfold prepareAndSend. destruct (GetSubjects (MessageAddress msg)); [apply ends_panic|].
  apply ends_bind; [apply declareExchange_ends|]. intros _. apply ends_bind; [ends_the_call|].
  intros err. destruct (err : error); [apply ends_ret|]. unfold upd_bd. by ends_solve.
Qed.

(** *** The hypotheses of the pool's accounting, for the pools of a client *)

Definition connected_at (l : nat) (w : world Shim E broker) : Prop :=
  at_bd l (λ bd, is_Some (Connection bd)) (st w).

Lemma connected_same l w w' : same_pools l (st w) (st w') → connected_at l w → connected_at l w'.
Proof.
  intros Hs (bd & Hl & Hc). unfold same_pools in Hs. rewrite Hl in Hs.
  destruct (details (st w') !! l) as [bd'|] eqn:Hl'; [|done]. cbn in Hs. injection Hs as Hs _ _.
  exists bd'. split; [done|]. by rewrite <- Hs.
Qed.

Lemma pools_set l c s w :
  connected_at l w → connected_at l (set_pool_at l c s w) ∧ pool_at l c (set_pool_at l c s w) = s.
Proof.
  intros (bd & Hl & Hc). split; [|apply pool_at_set; by eexists].
  exists (set_the_pool c s bd). unfold set_pool_at. cbn. rewrite lookup_alter_eq, Hl. split; [done|].
  by destruct c, bd.
Qed.

Lemma with_conn_run {A} l c bd (f : nat → bprog E A) w :
  details (st w) !! l = Some bd → Connection bd = Some c → with_conn l f w = f c w.
Proof. intros Hl Hc. unfold with_conn. by rewrite (bind_run _ _ _ _ _ (get_bd_run _ _ _ Hl)), Hc. Qed.

Lemma pools_new `{!Returns E} l c w :
  connected_at l w → ∃ r w', new_pub_channel l c w = (Ret r, w') ∧ connected_at l w' ∧
                             pool_at l c w' = pool_at l c w.
Proof.
  intros (bd & Hl & [conn Hc]). unfold new_pub_channel.
  destruct (call_returns (KNewChannel conn c) w) as (r & e & _ & Hr).
  erewrite bind_run by (rewrite (with_conn_run l conn bd) by done; exact Hr).
  eexists _, _. split; [done|]. split; [|done]. exists bd. split; [done|by eexists].
Qed.

Lemma pools_validate `{!Returns E} l c x w :
  connected_at l w → ∃ v w', validateChannel x w = (Ret v, w') ∧ connected_at l w' ∧
                             pool_at l c w' = pool_at l c w.
Proof.
  intros Hc. unfold validateChannel. destruct (call_returns (KChIsClosed x) w) as (r & e & _ & Hr).
  rewrite (bind_run _ _ _ _ _ Hr). by eexists _, _.
Qed.

Abbreviation pool_ok := (BlockingPool.pool_ok (A := nat)).
Abbreviation lent := (BlockingPool.lent (A := nat)).

(** Publishing over the pool borrows one channel and accounts for it again. *)
Lemma borrow_conserved `{!Returns E} msg l ch w :
  connected_at l w → pool_ok (pool_at l (Confirm msg) w) → 1 <= lent (pool_at l (Confirm msg) w) →
  ∃ o w', defer (prepareAndSend msg l ch) (give_back l (Confirm msg) ch) w = (o, w') ∧ o ≠ Block ∧
    fst (prepareAndSend msg l ch w) = o ∧ connected_at l w' ∧ pool_ok (pool_at l (Confirm msg) w') ∧
    BlockingPool.limit (pool_at l (Confirm msg) w') = BlockingPool.limit (pool_at l (Confirm msg) w) ∧
    lent (pool_at l (Confirm msg) w') = lent (pool_at l (Confirm msg) w) - 1.
Proof.
  intros Hc Hp Hl. set (cf := Confirm msg) in *. unfold defer.
  pose proof (prepareAndSend_pools l msg l ch w) as Hs. pose proof (prepareAndSend_ends msg l ch w) as He.
  destruct (prepareAndSend msg l ch w) as [o w1]. cbn [fst snd] in *.
  apply (connected_same l w w1 Hs) in Hc. rewrite <- (same_pools_at l cf w w1 Hs) in Hp, Hl |- *.
  destruct (BlockingPool.Put_account (pool_at l cf) (set_pool_at l cf) validateChannel pick
    (connected_at l) (λ s w, pools_set l cf s w) (λ x w, pools_validate l cf x w) ch w1 Hc Hp Hl)
    as (e & w2 & Hput & Hc2 & Hp2 & Hlim & Hlent).
  assert (∃ w3, give_back l cf ch w1 = (Ret (), w3) ∧ st w3 = st w2) as (w3 & Hw3 & Hst).
  { unfold give_back, pool_put. rewrite (bind_run _ _ _ _ _ Hput). destruct e as [err|]; [|by eexists].
    destruct (call_returns (KChClose ch) w2) as (r & e' & _ & Hr). rewrite (bind_run _ _ _ _ _ Hr).
    by eexists. }
  exists o, w3. rewrite Hw3, !(pool_at_eq l cf w2 w3 Hst).
  split_and!; try done; [by destruct o|]. by apply (connected_same l w2 w3); [rewrite Hst|].
Qed.

Lemma prepareAndSend_run msg l ch subject rest w :
  GetSubjects (MessageAddress msg) = subject :: rest →
  prepareAndSend msg l ch w =
    (declareExchange (MessageAddress msg) l;;
     err ← call (KPublish ch (GetAddressName (MessageAddress msg)) subject (amqp_message msg));
     match (err : error) with
     | Some e => mret (Some (mkFatal e))
     | None => upd_bd l add_produced;; mret None
     end) w.
Proof. intros Hs. unfold prepareAndSend. by rewrite Hs. Qed.
End lemmas.

(** ** Properties *)

Section properties.
Context {E : Type} `{Oracle Shim E} `{MR : MapRange} `{Json} `{Select}.
Implicit Types w : world Shim E broker.

(** Sending a message: after its exchange has been declared, whether that
    worked or not, the message goes out exactly once, to its exchange under its
    first subject, persistent if it asks for it, with its headers. The result
    is the broker's error, as a fatal one, and the client's count of produced
    messages goes up exactly when there is none. *)
Theorem publish_sends_once msg l ch subject rest w d w1 err e bd :
  GetSubjects (MessageAddress msg) = subject :: rest →
  declareExchange (MessageAddress msg) l w = (Ret d, w1) →
  details (st w1) !! l = Some bd →
  answer (I := Shim) (KPublish ch (GetAddressName (MessageAddress msg)) subject (amqp_message msg)) (env w1)
    = (Ret err, e) →
  let '(r, w') := prepareAndSend msg l ch w in
  r = Ret (mkFatal <$> err) ∧
  log w' = log w1 ++ [ev (KPublish ch (GetAddressName (MessageAddress msg)) subject (amqp_message msg)) (Ret err)] ∧
  at_bd l (λ bd', produced bd' = match err with None => int64 (produced bd + 1) | Some _ => produced bd end)
    (st w').
Proof.
  intros Hs Hd Hl Ha. rewrite (prepareAndSend_run _ _ _ _ _ _ Hs), (bind_run _ _ _ _ _ Hd).
  erewrite bind_run by (rewrite call_run, Ha; done). destruct (err : error) as [er|].
  - split_and!; [done..|]. by exists bd.
  - erewrite bind_run by (apply (upd_bd_at l _ bd); exact Hl).
    split_and!; [done..|]. eexists. split; [apply lookup_insert_eq|]. by destruct bd.
Qed.

(** Publishing to a queue accounts for the channel it borrows, also when it
    panics: afterwards no more channels are out of the pool than before, except
    that a channel which the broker refused to open stays accounted for, for
    ever, as if it were out. *)
Theorem publish_pool_conserved `{!Returns E} msg l w :
  connected_at l w → BlockingPool.pool_ok (pool_at l (Confirm msg) w) →
  BlockingPool.lent (pool_at l (Confirm msg) w) < BlockingPool.limit (pool_at l (Confirm msg) w) →
  ∃ o w', publishOneQueue msg l w = (o, w') ∧ o ≠ Block ∧ connected_at l w' ∧
    BlockingPool.pool_ok (pool_at l (Confirm msg) w') ∧
    (BlockingPool.lent (pool_at l (Confirm msg) w') = BlockingPool.lent (pool_at l (Confirm msg) w) ∨
     o = Ret (Some (mkError "failed to get channel from pool")) ∧
     BlockingPool.lent (pool_at l (Confirm msg) w') = BlockingPool.lent (pool_at l (Confirm msg) w) + 1).
Proof.
  intros Hc Hp Hl. set (cf := Confirm msg) in *. pose proof Hc as (bd & Hbd & [conn Hconn]).
  unfold publishOneQueue.
  destruct (call_returns (KConnIsClosed conn) w) as (closed & e & _ & Hr).
  erewrite bind_run by (rewrite (with_conn_run l conn bd) by done; exact Hr).
  set (w1 := {| st := st w; env := e; log := _ |}).
  assert (pool_at l cf w1 = pool_at l cf w) as Hp1 by done.
  destruct (closed : bool); [exists (Ret (Some (mkError errMsgConnectionClosed))), w1; split_and!; try done; by left|].
  case_match; [eexists _, w1; split_and!; try done; by left|].
  destruct (BlockingPool.Get_account (pool_at l cf) (set_pool_at l cf) (new_pub_channel l cf)
    validateChannel pick (connected_at l) (λ s w, pools_set l cf s w) (pools_new l cf)
    (λ x w, pools_validate l cf x w) w1) as (r & w2 & Hget & Hc2 & Hp2 & Hlim2 & Hlent2 & _);
    [done|by rewrite Hp1|by rewrite Hp1|].
  rewrite Hp1 in Hlent2, Hlim2. unfold pool_get. fold cf. rewrite (bind_run _ _ _ _ _ Hget).
  destruct r as [ch|].
  - destruct (borrow_conserved msg l ch w2) as (o & w3 & Hd & Ho & _ & Hc3 & Hp3 & Hlim3 & Hlent3);
      [done|done| |].
    { fold cf. rewrite Hlent2. pose proof (BlockingPool.use_lent _ Hp). lia. }
    fold cf in Hd, Hp3, Hlim3, Hlent3. exists o, w3. rewrite Hd. split_and!; try done. left. lia.
  - eexists _, w2. split_and!; try done. right. by split.
Qed.

(** When all slots of the pool are accounted for by channels that were
    never opened, publishing to a queue hangs, although the connection is open
    and nobody holds a channel: the pool waits for a channel to be put back. *)
Theorem publish_starves `{!Returns E} msg l w bd conn e :
  details (st w) !! l = Some bd → Connection bd = Some conn →
  answer (I := Shim) (KConnIsClosed conn) (env w) = (Ret false, e) → PublishId msg <= 0 →
  BlockingPool.pool_ok (pool_at l (Confirm msg) w) →
  BlockingPool.lent (pool_at l (Confirm msg) w) = BlockingPool.limit (pool_at l (Confirm msg) w) →
  run_result (publishOneQueue msg l) w = Block.
Proof.
  intros Hbd Hconn Ha Hid Hp Hl. set (cf := Confirm msg) in *. unfold run_result, publishOneQueue.
  erewrite bind_run by (rewrite (with_conn_run l conn bd) by done; rewrite call_run, Ha; done).
  cbn [fst snd]. rewrite (proj2 (Z.ltb_ge _ _)) by lia.
  set (w1 := {| st := st w; env := e; log := _ |}).
  assert (pool_at l cf w1 = pool_at l cf w) as Hp1 by done.
  pose proof (BlockingPool.Get_account_starved (pool_at l cf) (set_pool_at l cf) (new_pub_channel l cf)
    validateChannel pick (connected_at l) (λ s w, pools_set l cf s w) w1) as Hb.
  rewrite Hp1 in Hb. specialize (Hb ltac:(by exists bd; split; [|eexists]) Hp Hl).
  unfold pool_get. fold cf. unfold mbind, prog_bind.
  destruct (BlockingPool.Get _ _ _ _ _ w1) as [o w2]. cbn in Hb. by subst o.
Qed.

(** On a publish stream a message that asks for confirmation is answered
    twice: with an error that says confirmation is unsupported, and then with
    the result of publishing it, which happens all the same. *)
Theorem publish_confirm_twice msg l ch w u e1 r w2 u2 e3 :
  Confirm msg = true →
  let unsupported := Some (mkError "Unsupported: Publish does not support publish confirmation") in
  answer (I := Shim) (KErrChan unsupported) (env w) = (Ret u, e1) →
  let w1 := {| st := st w; env := e1; log := log w ++ [ev (KErrChan unsupported) (Ret u)] |} in
  prepareAndSend msg l ch w1 = (Ret r, w2) →
  answer (I := Shim) (KErrChan r) (env w2) = (Ret u2, e3) →
  publish_turn l ch (PMessage (Some msg)) w =
    (Ret None, {| st := st w2; env := e3; log := log w2 ++ [ev (KErrChan r) (Ret u2)] |}).
Proof.
  intros Hc unsupported Ha w1 Hp Ha2. cbn [publish_turn]. rewrite Hc.
  erewrite bind_run by (rewrite call_run; fold unsupported; rewrite Ha; done).
  rewrite (bind_run _ _ _ _ _ Hp). erewrite bind_run by (rewrite call_run, Ha2; done). done.
Qed.

(** *** A message for a stream *)

(** A message that may not go out: it is numbered, and its publisher has no
    name. *)
Definition unnamed (msg : Message) : bool := (0 <? PublishId msg) && String.eqb (PublisherName msg) "".

(** The error of a wait for a confirmation. *)
Definition not_confirmed (status : confirmation) : option Error :=
  match status with
  | Interrupted => Some (mkFatal "Publish interrupted before confirmation received")
  | NotConfirmed _ e => Some (mkError e)
  | Confirmed _ => None
  end.

(** What is done with the publisher [p], and the error: the message is sent;
    if that worked and confirmation is asked for, the next status is waited
    for; and last of all the publisher is given back. *)
Definition stream_send (s p : nat) (msg : Message) (sent : error) (status : confirmation) :
    list (event Shim) * option Error :=
  let back := [ev (KPutPublisher s (Confirm msg) p) (Ret ())] in
  let send := [ev (KStreamPublish p (stream_message msg)) (Ret sent)] in
  match sent with
  | Some e => (send ++ back, Some (mkFatal e))
  | None =>
      if Confirm msg then (send ++ [ev (KWaitConfirm p) (Ret status)] ++ back, not_confirmed status)
      else (send ++ back, None)
  end.

(** The same from the connection [s] on, which says whether it is [closed], and
    gives a publisher or not. *)
Definition stream_publish (s : nat) (msg : Message) (closed : bool) (publisher : option nat) (sent : error)
    (status : confirmation) : list (event Shim) * option Error :=
  let asked := [ev (KStreamIsClosed s) (Ret closed)] in
  let got := ev (KGetPublisher s (GetAddressName (MessageAddress msg)) (PublisherName msg) (Confirm msg)) (Ret publisher) in
  if closed then (asked, Some (mkError errMsgConnectionClosed))
  else if unnamed msg then
    (asked, Some (mkError "PublisherName not set on message, PublisherName is required when PublishID is set"))
  else match publisher with
       | None => (asked ++ [got], Some (mkError "connected to broker, but failed to create a stream publisher"))
       | Some p => let '(lg, r) := stream_send s p msg sent status in (asked ++ got :: lg, r)
       end.

Definition counted (r : option Error) (l : nat) (bd : BrokerDetails) (b : broker) : broker :=
  match r with None => set_details (<[l := add_produced bd]> (details b)) b | Some _ => b end.

Lemma stream_send_run `{!Returns E} msg l s p bd w :
  details (st w) !! l = Some bd → GetSubjects (MessageAddress msg) ≠ [] →
  ∃ sent status w', defer (streamPrepareAndSend msg l p) (call (KPutPublisher s (Confirm msg) p)) w =
      (Ret (stream_send s p msg sent status).2, w') ∧
    log w' = log w ++ (stream_send s p msg sent status).1 ∧
    st w' = counted (stream_send s p msg sent status).2 l bd (st w).
Proof.
  intros Hl Hs. unfold defer, streamPrepareAndSend, stream_send. destruct (GetSubjects _) as [|sub rest]; [done|].
  destruct (call_returns (KStreamPublish p (stream_message msg)) w) as (sent & e1 & _ & Hsent).
  rewrite (bind_run _ _ _ _ _ Hsent). set (w1 := {| st := st w; env := e1; log := _ |}).
  exists sent. destruct (sent : error) as [e|].
  { exists Interrupted. destruct (call_returns (KPutPublisher s (Confirm msg) p) w1) as ([] & e2 & _ & Hput).
    cbn [mret prog_ret]. rewrite Hput. eexists. split; [reflexivity|]. split; [cbn; by rewrite <- app_assoc|done]. }
  destruct (Confirm msg).
  - destruct (call_returns (KWaitConfirm p) w1) as (status & e2 & _ & Hwait). exists status.
    rewrite bind_assoc, (bind_run _ _ _ _ _ Hwait). set (w2 := {| st := st w1; env := e2; log := _ |}).
    destruct status as [i|i e|]; cbn [not_confirmed]; rewrite bind_ret_l; cbv iota.
    + rewrite (bind_run _ _ _ _ _ (upd_bd_at l _ bd w2 Hl)). set (w3 := set_st _ w2).
      destruct (call_returns (KPutPublisher s true p) w3) as ([] & e4 & _ & Hput). cbn [mret prog_ret]. rewrite Hput.
      eexists. split; [reflexivity|]. split; [cbn; by rewrite <- !app_assoc|done].
    + destruct (call_returns (KPutPublisher s true p) w2) as ([] & e4 & _ & Hput). cbn [mret prog_ret]. rewrite Hput.
      eexists. split; [reflexivity|]. split; [cbn; by rewrite <- !app_assoc|done].
    + destruct (call_returns (KPutPublisher s true p) w2) as ([] & e4 & _ & Hput). cbn [mret prog_ret]. rewrite Hput.
      eexists. split; [reflexivity|]. split; [cbn; by rewrite <- !app_assoc|done].
  - exists Interrupted. rewrite bind_ret_l. cbv iota. rewrite (bind_run _ _ _ _ _ (upd_bd_at l _ bd w1 Hl)).
    set (w3 := set_st _ w1).
    destruct (call_returns (KPutPublisher s false p) w3) as ([] & e4 & _ & Hput). cbn [mret prog_ret]. rewrite Hput.
    eexists. split; [reflexivity|]. split; [cbn; by rewrite <- !app_assoc|done].
Qed.

(** C31: What publishing a message to a stream does, call by call, over a stream
    connection whose calls return. Nothing is sent if the connection is closed,
    if the message is numbered without a publisher's name, or if there is no
    publisher; otherwise the message is sent once, through the publisher that was
    asked for in its name and kind. If that fails, this is the error. If it works,
    a message without confirmation counts as published; for one with
    confirmation the next status of the publisher is waited for afterwards, and
    it counts as published exactly if that status says so. The publisher is
    given back last of all, in every case. That the status is about this very
    message is not checked by the code, and not claimed. *)
Theorem stream_publish_exact `{!Returns E} msg l s bd w :
  details (st w) !! l = Some bd → StreamConnection bd = Some s → GetSubjects (MessageAddress msg) ≠ [] →
  ∃ closed publisher sent status w',
    let '(lg, r) := stream_publish s msg closed publisher sent status in
    publishOneStream msg l w = (Ret r, w') ∧ log w' = log w ++ lg ∧ st w' = counted r l bd (st w).
Proof.
  intros Hl Hsc Hs. unfold publishOneStream, getStreamConnection.
  rewrite bind_assoc, (bind_run _ _ _ _ _ (get_bd_run l bd w Hl)), Hsc, bind_ret_l. cbv iota.
  unfold stream_closed. rewrite bind_assoc, (bind_run _ _ _ _ _ (get_bd_run l bd w Hl)), Hsc. cbn [on_iface].
  destruct (call_returns (KStreamIsClosed s) w) as (closed & e1 & _ & Hc). rewrite (bind_run _ _ _ _ _ Hc).
  set (w1 := {| st := st w; env := e1; log := _ |}). exists closed. unfold stream_publish.
  destruct (closed : bool); [by exists None, None, Interrupted, w1|]. fold (unnamed msg).
  destruct (unnamed msg); [by exists None, None, Interrupted, w1|].
  rewrite (bind_run _ _ _ _ _ (get_bd_run l bd w1 Hl)), Hsc. cbn [on_iface].
  match goal with |- context [(call ?c ≫= _) w1] => destruct (call_returns c w1) as (publisher & e2 & _ & Hp) end.
  rewrite (bind_run _ _ _ _ _ Hp). set (w2 := {| st := st w1; env := e2; log := _ |}).
  exists publisher. destruct (publisher : option nat) as [p|].
  - destruct (stream_send_run msg l s p bd w2 Hl Hs) as (sent & status & w' & Hr & Hlog & Hst).
    exists sent, status, w'. destruct (stream_send s p msg sent status) as [lg r]. cbn [fst snd] in *.
    split; [exact Hr|]. split; [by rewrite Hlog; cbn; rewrite <- !app_assoc|exact Hst].
  - exists None, Interrupted, w2. split; [done|]. split; [by cbn; rewrite <- app_assoc|done].
Qed.
End properties.

(** ** Witnesses *)

Section witnesses.
#[local] Instance demo_json : Json := {| Unmarshal _ := ([], None) |}.
#[local] Instance demo_select : Select := true.

Definition demo_msg (confirm : bool) : Message := {|
  Uuid := ""; Api.Headers := {[ "Content-Type" := "text/plain" ]}; Api.Body := [Byte.x01];
  MessageAddress := Some (mkAddress "orders" ["new"] Address_TOPIC false None); Persistent := true;
  MessageError := None; Confirm := confirm; PublishId := 0; PublisherName := "" |}.

Lemma demo_pool_ok (O : Oracle Shim nat) c : BlockingPool.pool_ok (pool_at 0 c (demo_world ∅)).
Proof. destruct c; split; vm_compute; try done; split; congruence. Qed.

Lemma demo_connected (O : Oracle Shim nat) : connected_at 0 (demo_world ∅).
Proof. exists (demo_details ∅). split; [reflexivity|by eexists]. Qed.

Lemma publish_sends_once_witness (O := ok_shim) :
  fst (prepareAndSend (demo_msg false) 0 3 (demo_world ∅)) = Ret None.
Proof.
  pose proof (publish_sends_once (demo_msg false) 0 3 "new" [] (demo_world ∅) None
    (run_state (declareExchange (MessageAddress (demo_msg false)) 0) (demo_world ∅)) None 13%nat
    (add_knownExchange "orders" (demo_details ∅)) eq_refl eq_refl eq_refl eq_refl) as Hp.
  destruct (prepareAndSend (demo_msg false) 0 3 (demo_world ∅)) as [r w']. exact (proj1 Hp).
Defined.

Lemma publish_pool_conserved_witness (O := ok_shim) :
  ∃ o, run_result (publishOneQueue (demo_msg true) 0) (demo_world ∅) = o ∧ o ≠ Block.
Proof.
  destruct (publish_pool_conserved (Returns0 := ok_returns) (demo_msg true) 0 (demo_world ∅)
    (demo_connected O) (demo_pool_ok O true) ltac:(vm_compute; reflexivity)) as (o & w' & Hp & Ho & _).
  exists o. split; [exact (f_equal fst Hp)|exact Ho].
Defined.

(** The broker refuses ten channels, and then opens them again. *)
Definition no_channels : Oracle Shim nat :=
  scripted (λ c, match c with
                 | KNewChannel _ _ => Some (Ret (inr "Exception (504) Reason: channel error"))
                 | _ => None
                 end).
Definition after_ten_refusals : world Shim nat broker :=
  Nat.iter 10 (run_state (publishOneQueue (H := no_channels) (demo_msg false) 0)) (demo_world ∅).

Lemma publish_starves_witness (O := ok_shim) :
  run_result (publishOneQueue (demo_msg false) 0) after_ten_refusals = Block.
Proof.
  apply (publish_starves (Returns0 := ok_returns) (demo_msg false) 0 after_ten_refusals
    (default (demo_details ∅) (details (st after_ten_refusals) !! 0%nat)) 1
    (S (env after_ten_refusals))); [vm_compute; reflexivity..|discriminate| |vm_compute; reflexivity].
  split; vm_compute; try reflexivity; try split; congruence.
Defined.

Lemma publish_confirm_twice_witness (O := ok_shim) :
  fst (publish_turn 0 3 (PMessage (Some (demo_msg true))) (demo_world ∅)) = Ret None.
Proof.
  set (e := Some (mkError "Unsupported: Publish does not support publish confirmation")).
  set (w1 := {| st := demo_broker ∅; env := 11%nat; log := [ev (KErrChan e) (Ret ())] |}).
  exact (f_equal fst (publish_confirm_twice (demo_msg true) 0 3 (demo_world ∅) () 11%nat None
    (run_state (prepareAndSend (demo_msg true) 0 3) w1) () 15%nat eq_refl eq_refl eq_refl eq_refl)).
Defined.

(** A client with a stream connection. *)
Definition stream_world `{Oracle Shim nat} : world Shim nat broker :=
  set_st (set_details (<[0%nat := set_StreamConnection (Some 8%nat) (demo_details ∅)]> (details (demo_broker ∅)))
    (demo_broker ∅)) (demo_world ∅).
Definition numbered (n : Z) : Message := {|
  Uuid := ""; Api.Headers := ∅; Api.Body := [Byte.x01];
  MessageAddress := Some (mkAddress "orders" ["new"] Address_STREAM false None); Persistent := true;
  MessageError := None; Confirm := true; PublishId := n; PublisherName := "shop" |}.

Lemma stream_publish_exact_witness (O := ok_shim) :
  ∃ closed publisher sent status w',
    let '(lg, r) := stream_publish 8 (numbered 1) closed publisher sent status in
    publishOneStream (numbered 1) 0 stream_world = (Ret r, w') ∧ log w' = [] ++ lg ∧
    st w' = counted r 0 (set_StreamConnection (Some 8%nat) (demo_details ∅)) (st stream_world).
Proof.
  exact (stream_publish_exact (Returns0 := ok_returns) (numbered 1) 0 8
    (set_StreamConnection (Some 8%nat) (demo_details ∅)) stream_world (lookup_insert_eq _ _ _) eq_refl ltac:(discriminate)).
Defined.

(** A broker that confirms what it is sent, in that order, late: the first wait
    of a client is interrupted. The state is what is still to be confirmed, and
    whether somebody has waited. *)
#[local] Instance late_shim : Oracle Shim (list Z * bool) := λ c s,
  match c return outcome (shim_reply c) * (list Z * bool) with
  | KStreamPublish _ m => (Ret None, (fst s ++ [Compression.SPublishID m], snd s))
  | KWaitConfirm _ =>
      match s with
      | (i :: rest, true) => (Ret (Confirmed i), (rest, true))
      | (q, _) => (Ret Interrupted, (q, true))
      end
  | KStreamIsClosed _ => (Ret false, s)
  | KGetPublisher _ _ _ _ => (Ret (Some 4%nat), s)
  | KPutPublisher _ _ _ => (Ret (), s)
  | _ => (Block, s)
  end.

(** The status of the message whose wait was interrupted stays in the channel
    of its publisher, which is given back: the next message sent through it is
    reported published when that status comes, while its own is still due. *)
Lemma stale_confirmation
    (w := {| st := st (stream_world (H := ok_shim)); env := ([], false); log := [] |} : world Shim (list Z * bool) broker) :
  let '(r1, w1) := publishOneStream (numbered 1) 0 w in
  let '(r2, w2) := publishOneStream (numbered 2) 0 w1 in
  r1 = Ret (Some (mkFatal "Publish interrupted before confirmation received")) ∧ r2 = Ret None ∧
  list.last (omap (λ e : event Shim, let 'existT c o := e in
     match c return outcome (shim_reply c) → option Z with
     | KWaitConfirm _ => λ o, match o with Ret (Confirmed i) => Some i | _ => None end
     | _ => λ _, None
     end o) (log w2)) = Some 1 ∧ env w2 = ([2], true).
Proof. vm_compute. by split_and!. Qed.
End witnesses.

End BrokerPublish.
