(* ===== verification/BrokerSubscribe.v ===== *)
(** * [connectors/amqp091/amqp091.go]: subscribing

    [Subscribe] to a queue or to a stream. The delivery loop of a queue and the
    message handler of a stream are programs over what they receive; a message
    handed to the server is a logged call. The prefetch window of a stream
    subscription is its latch. *)

From Stdlib Require Import Ascii String.
From stdpp Require Import base gmap strings list fin_maps option.
From Stdlib Require Import ZArith Lia.
From S2P Require Import Prelude Effects GoStrings Api ConcurrentMap BlockingLatch BlockingPool ClientIds Provider Compression Stream Amqp BrokerState BrokerDeclare BrokerAck BrokerPublish.

(** The tracing library: whether it is on, and the two headers it gives a
    message with the given headers. *)
Class Tracing := {
  tracing_enabled : bool;
  trace_headers : gmap string string → string * string
}.

Module BrokerSubscribe.
Import Amqp ConcurrentMap BrokerState BrokerDeclare BrokerAck BrokerPublish.
Open Scope Z_scope.
Open Scope list_scope.

Definition HeaderTraceParent : string := "traceparent".
Definition HeaderTraceState : string := "tracestate".

Section subscribe.
Context {E : Type} `{Oracle Shim E} `{MapRange} `{Json} `{Select} `{Tracing} `{Gzip}.

(** ** Queues *)

(** The name and type the source is given before anything is declared. *)
Definition normalise_source (source : Source) : Source :=
  let source := if AutoDelete source then set_SourceType Source_TEMPORARY source else source in
  set_SourceName (sourceName source) source.

(** The headers of a delivery, all made strings. *)
Definition delivery_headers (msg : amqp091Message) : gmap string string :=
  let headers := fromTableToMap (Headers msg) in
  let headers := if String.eqb (ContentType msg) "" then headers
                 else <["Content-Type" := ContentType msg]> headers in
  if String.eqb (ContentEncoding msg) "" then headers
  else <["Content-Encoding" := ContentEncoding msg]> headers.

Definition delivered_message (uuid : string) (source : Source) (hdrs : gmap string string) (body : bytes) :
    Message := {|
  Uuid := uuid; Api.Headers := hdrs; Api.Body := body; MessageAddress := SourceAddress source;
  Persistent := false; MessageError := None; Confirm := false; PublishId := 0; PublisherName := "" |}.

(** With tracing on, the trace headers are put into the message and into the
    header table of the delivery, which is the table the library made: nil
    when the delivery has no headers. *)
Definition traced (hdrs : gmap string string) (msg : amqp091Message) :
    bprog E (gmap string string * amqp091Message) :=
  if tracing_enabled then
    let '(state, parent) := trace_headers hdrs in
    let hdrs := <[HeaderTraceParent := parent]> (<[HeaderTraceState := state]> hdrs) in
    match Headers msg with
    | None => panic "assignment to entry in nil map"
    | Some h =>
        mret (hdrs, set_Headers (Some (<[HeaderTraceParent := VString parent]>
                                        (<[HeaderTraceState := VString state]> h))) msg)
    end
  else mret (hdrs, msg).

Variable maxAcquiredCount : Z.

(** One delivery. *)
Definition queue_message (l : nat) (source : Source) (msg : amqp091Message) : bprog E () :=
  if DeliveryTag msg =? 0 then mret ()
  else
    uuid ← call KUUID;
    t ← traced (delivery_headers msg) msg;
    let '(hdrs, msg) := (t : gmap string string * amqp091Message) in
    if maxAcquiredCountHit maxAcquiredCount (Headers msg) then
      call (KNack msg false);; mret ()
    else
      upd_bd l (add_active uuid (ActAmqp msg));;
      call (KDeliver (delivered_message uuid source hdrs (Body msg)));;
      upd_bd l add_consumed.

(** What the [select] receives; [SMessage None] is the closed channel. *)
Inductive subscribe_event :=
  | SDone
  | SCancel (e : option amqp091Error)
  | SConn (e : option amqp091Error)
  | SMessage (m : option amqp091Message).

Definition queue_turn (l : nat) (source : Source) (e : subscribe_event) :
    bprog E (option (option Error)) :=
  match e with
  | SDone => mret (Some None)
  | SCancel n => notified l (mkFatal "Channel to broker closed") n
  | SConn n => notified l (mkError "Connection to broker closed") n
  | SMessage None => mret (Some None)
  | SMessage (Some msg) => queue_message l source msg;; mret None
  end.

Fixpoint queue_loop (l : nat) (source : Source) (events : list subscribe_event) :
    bprog E (option Error) :=
  match events with
  | [] => block
  | e :: rest =>
      r ← queue_turn l source e;
      match r with Some res => mret res | None => queue_loop l source rest end
  end.

(** The deferred function recovers a panic of the loop, and the error it
    returns is discarded. *)
Definition recovered_loop (l : nat) (source : Source) (events : list subscribe_event) :
    bprog E (option Error) :=
  recover (queue_loop l source events) (λ _, mret None).

(** From the subscription on. *)
Definition queue_consume (l ch : nat) (source : Source) (events : list subscribe_event) :
    bprog E (option Error) :=
  with_conn l (λ c, call (KConnNotifyClose c));;
  call (KChNotifyClose ch);;
  incrementStreamCount l;;
  defer (recovered_loop l source events) (decrementStreamCount l).

(** From the declarations on. *)
Definition queue_setup (ctx : ClientIds.peer) (l ch : nat) (source : Source)
    (events : list subscribe_event) : bprog E (option Error) :=
  declareExchange (SourceAddress source) l;;
  qErr ← declareQueue source l true;
  match (qErr : error) with
  | Some e => mret (Some (mkError e))
  | None =>
      bErr ← declareBinding source l true;
      match (bErr : error) with
      | Some e => mret (Some (mkError e))
      | None =>
          setupDeadLetter ctx source;;
          if DeclareOnly source then mret None
          else
            pErr ← (if 0 <? PrefetchCount source then call (KSetPrefetch ch (PrefetchCount source))
                    else mret None);
            match (pErr : error) with
            | Some e => mret (Some (mkError e))
            | None =>
                cErr ← call (KConsume ch (SourceName source) false (Exclusive source));
                match (cErr : error) with
                | Some e => mret (Some (mkError e))
                | None => queue_consume l ch source events
                end
            end
      end
  end.

Definition queueSubscribe (ctx : ClientIds.peer) (l : nat) (source : Source)
    (events : list subscribe_event) : bprog E (option Error) :=
  closed ← with_conn l (λ c, call (KConnIsClosed c));
  if (closed : bool) then mret (Some (mkError errMsgConnectionClosed))
  else
    let source := normalise_source source in
    r ← with_conn l (λ c, call (KNewChannel c false));
    match (r : nat + string) with
    | inr err => mret (Some (mkError err))
    | inl ch => defer (queue_setup ctx l ch source events) (call (KChClose ch);; mret ())
    end.

(** ** Streams *)

Definition supportedStreamSourceOptions : list string := ["Offset"; "MessageTTL"; "ConsumerGroup"].

Definition getConsumerName (source : Source) : string + Error :=
  if SingleActiveConsumer source then
    match Options source !! "ConsumerGroup" with
    | Some cg => if String.eqb cg ""
                 then inr (mkError "single active consumer requested but no ConsumerGroup option set")
                 else inl cg
    | None => inr (mkError "single active consumer requested but no ConsumerGroup option set")
    end
  else inl (SourceName source).

(** [latch.Increment()] in a handler: it takes a slot, gives up, or waits. *)
Definition latch_increment (n : nat) : bprog E bool :=
  b ← reads id;
  match latches b !! n with
  | None => panic "invalid memory address or nil pointer dereference"
  | Some latch =>
      match BlockingLatch.increment_turn latch with
      | (BlockingLatch.TReturn ok, latch') => writes (λ b, set_latches (<[n := latch']> (latches b)) b);; mret ok
      | (BlockingLatch.TWait, _) => block
      end
  end.

(** [handleMessages]: one message of the stream, at [offset]. *)
Definition handleMessages (l latch : nat) (consumer : nat) (source : Source) (consumerName : string)
    (message : Stream.wireMessage) : bprog E () :=
  uuid ← call KUUID;
  offset ← call (KConsumerOffset consumer);
  d ← of_outcome (Stream.decodeDelivery message offset);
  let '(hdrs, data) := (d : gmap string string * bytes) in
  ok ← latch_increment latch;
  if negb ok then mret ()
  else
    let stm := {|
      saMessage := {| Compression.SBody := Stream.Data message; Compression.SContentType := "";
                      Compression.SContentEncoding := ""; Compression.SHeaders := Some hdrs;
                      Compression.SPublishID := 0 |};
      saLatch := latch; saConsumer := Some consumer; saSource := SourceName source;
      saConsumerName := consumerName |} in
    upd_bd l (add_active uuid (ActStream stm));;
    call (KDeliver (delivered_message uuid source hdrs data));;
    upd_bd l add_consumed.

(** A new latch, at the next address. *)
Definition new_latch (prefetch : Z) (b : broker) : broker := {|
  details := details b; connections := connections b; nextAddr := S (nextAddr b);
  latches := <[nextAddr b := BlockingLatch.NewBlockingLatch false (uint 64 prefetch)]> (latches b);
  clientMap := clientMap b; insecureSkipVerify := insecureSkipVerify b |}.

(** The options of a stream source; the unsupported ones in some order. *)
Definition unsupported_options (supported : list string) (source : Source) : list string :=
  filter (λ o, o ∉ supported) (map_range (Options source)).*1.

Definition stream_ttl (source : Source) : Z + Error :=
  match Options source !! "MessageTTL" with
  | None => inl 0
  | Some sTTL => match parse_int 64 sTTL with
                 | Some val => inl val
                 | None => inr (mkError "value for MessageTTL option must be a quoted integer")
                 end
  end.

(** The consumer, and the messages it hands to the handler before the context
    is done. A consumer that could not be made is nil. *)
Definition stream_consume (l latch : nat) (source : Source) (consumerName offset : string)
    (messages : list Stream.wireMessage) : bprog E (option Error) :=
  bd ← get_bd l;
  consumer ← on_iface (StreamConnection bd) (λ s,
    call (KStreamNewConsumer s (SourceName source) consumerName offset (SingleActiveConsumer source)));
  incrementStreamCount l;;
  defer
    (match (consumer : option nat) with
     | None => panic "invalid memory address or nil pointer dereference"
     | Some c =>
         for_each messages (handleMessages l latch c source consumerName);;
         call (KConsumerClose c);;
         mret None
     end)
    (decrementStreamCount l).

(** The declarations of a stream. *)
Definition stream_declare (l : nat) (source : Source) (ttl : Z) : bprog E (option Error) :=
  let is_stream := bool_decide (GetAddressType (SourceAddress source) = Address_STREAM) in
  (if is_stream then mret () else declareExchange (SourceAddress source) l;; mret ());;
  bd ← get_bd l;
  dErr ← on_iface (StreamConnection bd) (λ s, call (KDeclareStream s (SourceName source) ttl));
  match (dErr : error) with
  | Some e => mret (Some (mkFatal ("failed to declare stream: " +:+ e)))
  | None =>
      if is_stream then mret None
      else bErr ← declareBinding source l true; mret (mkError <$> (bErr : error))
  end.

Definition streamSubscribe (l : nat) (source : Source) (messages : list Stream.wireMessage) :
    bprog E (option Error) :=
  let unsupported := unsupported_options supportedStreamSourceOptions source in
  if negb (bool_decide (unsupported = [])) then
    mret (Some (mkError ("streams do not support the following source options: " +:+ show_strings unsupported)))
  else if AutoDelete source || Exclusive source then
    mret (Some (mkError "streams do not support AutoDelete or Exclusive"))
  else
    strConnErr ← getStreamConnection l;
    match strConnErr with
    | Some e => mret (Some e)
    | None =>
        closed ← stream_closed l;
        if (closed : bool) then mret (Some (mkError errMsgConnectionClosed))
        else
          match stream_ttl source with
          | inr e => mret (Some e)
          | inl ttl =>
              r ← stream_declare l source ttl;
              match r with
              | Some e => mret (Some e)
              | None =>
                  if DeclareOnly source then mret None
                  else
                    b ← reads id;
                    writes (new_latch (PrefetchCount source));;
                    match getConsumerName source with
                    | inr e => mret (Some e)
                    | inl consumerName =>
                        stream_consume l (nextAddr b) source consumerName
                          (default "" (Options source !! "Offset")) messages
                    end
              end
          end
    end.

(** ** [Subscribe] *)

(** What the subscription receives: the events of a queue, or the messages of
    a stream. *)
Definition Subscribe (ctx : ClientIds.peer) (source : Source) (events : list subscribe_event)
    (messages : list Stream.wireMessage) : bprog E (option Error) :=
  if String.eqb (GetAddressName (SourceAddress source)) "" then mret (Some (mkError "address name not defined"))
  else with_details ctx (λ l,
    updateLastPubSubEvent l;;
    match SourceType source with
    | Source_STREAM => streamSubscribe l source messages
    | _ => queueSubscribe ctx l source events
    end).

End subscribe.

(** ** Properties *)

Section properties.
Context {E : Type} `{Oracle Shim E} `{MR : MapRange} `{Json} `{Select} `{Tracing} `{Gzip}.
Implicit Types w : world Shim E broker.

Lemma traced_run hdrs msg w :
  tracing_enabled = false ∨ Headers msg ≠ None →
  ∃ hdrs' h, traced hdrs msg w = (Ret (hdrs', set_Headers h msg), w) ∧
    (∀ cap, maxAcquiredCountHit cap h = maxAcquiredCountHit cap (Headers msg)).
Proof.
  intros Hn. unfold traced. destruct tracing_enabled.
  - destruct Hn as [Hn|Hn]; [done|]. destruct (trace_headers hdrs) as [s p].
    destruct (Headers msg) as [h|] eqn:Hh; [|done]. eexists _, _. split; [done|]. intros cap.
    unfold maxAcquiredCountHit, header. cbn.
    by rewrite !lookup_insert_ne by done.
  - exists hdrs, (Headers msg). split; [by destruct msg|done].
Qed.

Lemma get_add_active id a bd : Get id (activeMessages (add_active id a bd)) = Some a.
Proof.
  unfold add_active. replace (activeMessages (set_activeMessages _ bd))
    with (Add id a (activeMessages bd)) by (by destruct bd). by rewrite Get_Add, decide_True.
Qed.

(** What becomes of a delivery (with a tag, and with a header table when
    tracing is on). One that has been acquired too often is rejected for good,
    and the client never sees it. Any other is first entered into the table of
    active messages, under a new identifier, and then handed to the client
    under that identifier; it is in the table even when the client is slow to
    take it, so an acknowledgement can never come too early. *)
Theorem queue_delivery cap l source msg w bd uuid e1 :
  details (st w) !! l = Some bd → DeliveryTag msg ≠ 0 →
  tracing_enabled = false ∨ Headers msg ≠ None →
  answer (I := Shim) KUUID (env w) = (Ret uuid, e1) →
  ∃ m' hdrs, delivery m' = delivery msg ∧
    let '(r, w') := queue_message cap l source msg w in
    if maxAcquiredCountHit cap (Headers msg) then
      ∃ o, log w' = log w ++ [ev KUUID (Ret uuid); ev (KNack m' false) o] ∧ st w' = st w
    else
      ∃ o, log w' = log w ++ [ev KUUID (Ret uuid);
                              ev (KDeliver (delivered_message uuid source hdrs (Body msg))) o] ∧
           at_bd l (λ bd', Get uuid (activeMessages bd') = Some (ActAmqp m')) (st w') ∧
           (o = Ret () → r = Ret () ∧ at_bd l (λ bd', consumed bd' = int64 (consumed bd + 1)) (st w')).
Proof.
  intros Hl Htag Htr Hu. destruct (traced_run (delivery_headers msg) msg
    {| st := st w; env := e1; log := log w ++ [ev KUUID (Ret uuid)] |} Htr) as (hdrs & h & Ht & Hcap).
  exists (set_Headers h msg), hdrs. split; [done|].
  unfold queue_message. rewrite (proj2 (Z.eqb_neq _ _) Htag).
  erewrite bind_run by (rewrite call_run, Hu; done). cbn [fst snd].
  rewrite (bind_run _ _ _ _ _ Ht). cbv beta iota.
  change (Headers (set_Headers h msg)) with h. rewrite Hcap.
  destruct (maxAcquiredCountHit cap (Headers msg)).
  - unfold mbind, prog_bind. rewrite call_run. cbn [st env log fst snd].
    destruct (answer (I := Shim) (KNack (set_Headers h msg) false) e1) as [[r|why|] e2]; cbn;
      (eexists; split; [by rewrite <- app_assoc|done]).
  - erewrite bind_run by (apply (upd_bd_at l _ bd); exact Hl).
    unfold mbind at 1, prog_bind at 1. rewrite call_run. cbn [st env log fst snd set_st].
    change (Body (set_Headers h msg)) with (Body msg).
    assert (at_bd l (λ bd', Get uuid (activeMessages bd') = Some (ActAmqp (set_Headers h msg)))
              (set_details (<[l := add_active uuid (ActAmqp (set_Headers h msg)) bd]> (details (st w))) (st w)))
      as Hat by (eexists; split; [apply lookup_insert_eq|apply get_add_active]).
    destruct (answer (I := Shim) (KDeliver (delivered_message uuid source hdrs (Body msg))) e1)
      as [[[]|why|] e2]; cbn [fst snd].
    + exists (Ret ()). cbn [set_st st log env]. split; [by rewrite <- app_assoc|].
      split.
      * eapply at_bd_upd; [|exact Hat]. by intros [].
      * intros _. split; [done|]. destruct Hat as (bd' & Hl' & _). cbn in Hl'.
        rewrite lookup_insert_eq in Hl'. injection Hl' as <-.
        eexists. split; [rewrite details_upd; cbn; rewrite lookup_insert_eq; done|]. by destruct bd.
    + exists (Panic why). split; [cbn; by rewrite <- app_assoc|]. by split.
    + exists Block. split; [cbn; by rewrite <- app_assoc|]. by split.
Qed.

(** *** A queue's deliveries, one after the other *)

(** A delivery that can be handled: it has a tag, and a table of headers when
    tracing is on. *)
Definition handleable (msg : amqp091Message) : Prop :=
  DeliveryTag msg ≠ 0 ∧ (tracing_enabled = false ∨ Headers msg ≠ None).

(** The headers the client gets, and the message that is kept. *)
Definition handed_headers (msg : amqp091Message) : gmap string string :=
  let hdrs := delivery_headers msg in
  if tracing_enabled then
    <[HeaderTraceParent := (trace_headers hdrs).2]> (<[HeaderTraceState := (trace_headers hdrs).1]> hdrs)
  else hdrs.

Definition kept_message (msg : amqp091Message) : amqp091Message :=
  if tracing_enabled then
    let '(state, parent) := trace_headers (delivery_headers msg) in
    set_Headers (Some (<[HeaderTraceParent := VString parent]>
                        (<[HeaderTraceState := VString state]> (default ∅ (Headers msg))))) msg
  else msg.

(** What is done with a delivery: one that has come too often is rejected for
    good, any other is handed to the client. *)
Definition handling (cap : Z) (source : Source) (uuid : string) (msg : amqp091Message) : shim_call :=
  if maxAcquiredCountHit cap (Headers msg) then KNack (kept_message msg) false
  else KDeliver (delivered_message uuid source (handed_headers msg) (Body msg)).

Lemma traced_exact msg w :
  handleable msg → traced (delivery_headers msg) msg w = (Ret (handed_headers msg, kept_message msg), w).
Proof.
  intros [_ Hn]. unfold traced, handed_headers, kept_message. destruct tracing_enabled; [|done].
  destruct Hn as [Hn|Hn]; [done|]. destruct (trace_headers (delivery_headers msg)) as [s p].
  by destruct (Headers msg).
Qed.

Lemma kept_message_same msg :
  handleable msg → Body (kept_message msg) = Body msg ∧ delivery (kept_message msg) = delivery msg ∧
    ∀ cap, maxAcquiredCountHit cap (Headers (kept_message msg)) = maxAcquiredCountHit cap (Headers msg).
Proof.
  intros [_ Hn]. unfold kept_message. destruct tracing_enabled; [|done].
  destruct Hn as [Hn|Hn]; [done|]. destruct (trace_headers (delivery_headers msg)) as [s p].
  destruct msg as [d b dm ct ce [h|] dt]; [|done]. split; [done|]. split; [done|]. intros cap.
  unfold maxAcquiredCountHit, header. cbn. by rewrite !lookup_insert_ne by done.
Qed.

Definition handled (cap : Z) (source : Source) (msg : amqp091Message) (lg : list (event Shim)) : Prop :=
  ∃ uuid e, lg = [ev KUUID (Ret uuid); e] ∧ projT1 e = handling cap source uuid msg.

Lemma queue_message_handles `{!Returns E} cap l source msg w :
  is_Some (details (st w) !! l) → handleable msg →
  ∃ lg w', queue_message cap l source msg w = (Ret (), w') ∧ log w' = log w ++ lg ∧
    handled cap source msg lg ∧ is_Some (details (st w') !! l).
Proof.
  intros [bd Hl] Hm. destruct (call_returns KUUID w) as (uuid & e1 & _ & Hu).
  pose proof (traced_exact msg {| st := st w; env := e1; log := log w ++ [ev KUUID (Ret uuid)] |} Hm) as Ht.
  destruct (kept_message_same msg Hm) as (Hb & _ & Hcap). unfold queue_message, handled, handling.
  rewrite (proj2 (Z.eqb_neq _ _) (proj1 Hm)), (bind_run _ _ _ _ _ Hu), (bind_run _ _ _ _ _ Ht).
  cbv beta iota. rewrite Hcap. destruct (maxAcquiredCountHit cap (Headers msg)).
  - match goal with |- context [(call ?c ≫= _) ?w1] => destruct (call_returns c w1) as (r & e2 & _ & Hc) end.
    rewrite (bind_run _ _ _ _ _ Hc). eexists _, _. split; [reflexivity|]. cbn [log st].
    split; [by rewrite <- app_assoc|]. split; [by eexists _, _|by rewrite Hl].
  - erewrite bind_run by (apply (upd_bd_at l _ bd); exact Hl). cbn [set_st st env log].
    match goal with |- context [(call ?c ≫= _) ?w1] => destruct (call_returns c w1) as (r & e2 & _ & Hc) end.
    rewrite (bind_run _ _ _ _ _ Hc), upd_bd_run. eexists _, _. split; [reflexivity|]. cbn [set_st log st].
    split; [by rewrite <- app_assoc|]. rewrite Hb. split; [by eexists _, _|].
    rewrite details_upd. cbn. rewrite lookup_insert_eq. by eexists.
Qed.

(** The deliveries of a queue reach the client in the order in which the
    broker sends them, each once: for each, in turn, the loop draws an
    identifier and does one thing with it, which is to hand it to the client,
    with its body, its headers and the address of the source, or, when it has
    been acquired too often, to reject it for good; nothing else is sent in
    between, and then the loop goes on with what comes next. *)
Theorem deliveries_in_order `{!Returns E} cap l source msgs rest w :
  is_Some (details (st w) !! l) → Forall handleable msgs →
  ∃ chunks w1, queue_loop cap l source (map (λ m, SMessage (Some m)) msgs ++ rest) w =
                 queue_loop cap l source rest w1 ∧
    log w1 = log w ++ concat chunks ∧ Forall2 (handled cap source) msgs chunks ∧
    is_Some (details (st w1) !! l).
Proof.
  revert w. induction msgs as [|msg msgs IH]; intros w Hl Hall.
  { exists [], w. cbn. rewrite app_nil_r. split_and!; [done..|constructor|done]. }
  apply list.Forall_cons in Hall as [Hm Hall].
  destruct (queue_message_handles cap l source msg w Hl Hm) as (lg & w1 & Hr & Hlog & Hh & Hl1).
  destruct (IH w1 Hl1 Hall) as (chunks & w2 & Hr2 & Hlog2 & Hh2 & Hl2).
  exists (lg :: chunks), w2. split.
  { cbn [map app queue_loop queue_turn]. rewrite bind_assoc, (bind_run _ _ _ _ _ Hr), bind_ret_l. exact Hr2. }
  split; [by rewrite Hlog2, Hlog, <- app_assoc|]. split; [by constructor|done].
Qed.

(** With tracing on, a delivery without a header table ends the
    subscription of the client: the loop panics and recovers, [Subscribe]
    reports no error, and the delivery is neither handed to the client nor
    settled nor remembered. *)
Theorem tracing_loses_delivery cap l source msg events w uuid e1 :
  tracing_enabled = true → Headers msg = None → DeliveryTag msg ≠ 0 →
  answer (I := Shim) KUUID (env w) = (Ret uuid, e1) →
  recovered_loop cap l source (SMessage (Some msg) :: events) w =
    (Ret None, {| st := st w; env := e1; log := log w ++ [ev KUUID (Ret uuid)] |}).
Proof.
  intros Htr Hh Htag Hu. unfold recovered_loop, recover. cbn [queue_loop queue_turn].
  unfold queue_message. rewrite (proj2 (Z.eqb_neq _ _) Htag).
  unfold mbind, prog_bind. rewrite call_run, Hu. cbn [fst snd]. unfold traced. rewrite Htr.
  destruct (trace_headers _). by rewrite Hh.
Qed.

(** A stream subscription that cannot be is refused before the broker is
    asked for anything: one with an option streams do not have, whatever the
    order in which the options are walked, and one that is AutoDelete or
    Exclusive. *)
Theorem stream_subscribe_rejects l source messages w :
  (∃ o, is_Some (Options source !! o) ∧ o ∉ supportedStreamSourceOptions) ∨
  AutoDelete source = true ∨ Exclusive source = true →
  ∃ err, streamSubscribe l source messages w = (Ret (Some err), w).
Proof.
  intros Hbad. unfold streamSubscribe. cbv zeta.
  case_bool_decide as Hun; cbn [negb]; [|by eexists].
  destruct Hbad as [(o & [v Ho] & Hno)|Hbad].
  - exfalso. apply (elem_of_nil o). rewrite <- Hun. unfold unsupported_options.
    apply list_elem_of_filter. split; [done|]. apply list_elem_of_fmap. exists (o, v).
    split; [done|]. by apply elem_of_map_range.
  - replace (AutoDelete source || Exclusive source) with true; [by eexists|].
    symmetry. apply orb_true_iff. naive_solver.
Qed.
End properties.
(** ** Witnesses *)

Section witnesses.
#[local] Instance demo_json : Json := {| Unmarshal _ := ([], None) |}.
#[local] Instance demo_select : Select := true.
#[local] Instance tracing_on : Tracing := {| tracing_enabled := true; trace_headers _ := ("s=1", "00-a-b-01") |}.
#[local] Instance no_gzip : Gzip := {| gz_write b := (b, None); gz_read b := (b, None) |}.

Definition demo_source : Source := set_SourceName "orders" zero_Source.

Definition tagged_message : amqp091Message :=
  set_Headers (Some {[ "x-acquired-count" := VInt32 3 ]}) demo_message.

Lemma queue_delivery_witness (O := ok_shim) :
  ∃ m' hdrs, delivery m' = Some (3%nat, 7) ∧
    let '(r, w') := queue_message 20 0 demo_source tagged_message (demo_world ∅) in
    ∃ o, log w' = [] ++ [ev KUUID (Ret "9f7c");
                         ev (KDeliver (delivered_message "9f7c" demo_source hdrs [])) o] ∧
      at_bd 0 (λ bd', Get "9f7c" (activeMessages bd') = Some (ActAmqp m')) (st w') ∧
      (o = Ret () → r = Ret () ∧ at_bd 0 (λ bd', consumed bd' = int64 1) (st w')).
Proof.
  assert (details (st (demo_world ∅)) !! 0%nat = Some (demo_details ∅)) as H1 by reflexivity.
  assert (DeliveryTag tagged_message ≠ 0) as H2 by (intros [=]).
  assert (tracing_enabled = false ∨ Headers tagged_message ≠ None) as H3 by (right; intros [=]).
  assert (answer (I := Shim) KUUID (env (demo_world ∅)) = (Ret "9f7c", 11%nat)) as H4 by reflexivity.
  destruct (queue_delivery 20 0 demo_source tagged_message (demo_world ∅) (demo_details ∅) "9f7c" 11%nat
    H1 H2 H3 H4) as (m' & hdrs & Hm & Hq).
  exists m', hdrs. split; [exact Hm|]. revert Hq.
  destruct (queue_message 20 0 demo_source tagged_message (demo_world ∅)) as [r w'].
  intros Hq. exact Hq.
Defined.

Lemma deliveries_in_order_witness (O := ok_shim) :
  ∃ chunks w1, queue_loop 20 0 demo_source (map (λ m, SMessage (Some m)) [tagged_message; tagged_message] ++ [SDone])
      (demo_world ∅) = queue_loop 20 0 demo_source [SDone] w1 ∧
    log w1 = [] ++ concat chunks ∧ Forall2 (handled 20 demo_source) [tagged_message; tagged_message] chunks.
Proof.
  assert (Forall handleable [tagged_message; tagged_message]) as Hall.
  { repeat constructor; try discriminate; by right. }
  destruct (deliveries_in_order (Returns0 := ok_returns) 20 0 demo_source [tagged_message; tagged_message] [SDone]
    (demo_world ∅) ltac:(by eexists) Hall) as (chunks & w1 & H1 & H2 & H3 & _).
  exists chunks, w1. split; [exact H1|]. split; [exact H2|exact H3].
Defined.

Lemma tracing_loses_delivery_witness (O := ok_shim) :
  run_result (recovered_loop 20 0 demo_source [SMessage (Some demo_message)]) (demo_world ∅) = Ret None.
Proof.
  exact (f_equal fst (tracing_loses_delivery 20 0 demo_source demo_message [] (demo_world ∅) "9f7c" 11%nat
    eq_refl eq_refl ltac:(discriminate) eq_refl)).
Defined.

Lemma stream_subscribe_rejects_witness (MR := default_range) (O := ok_shim) :
  ∃ err, run_result (streamSubscribe 0 (set_Options {[ "Priority" := "3" ]} demo_source) [])
           (demo_world ∅) = Ret (Some err).
Proof.
  destruct (stream_subscribe_rejects 0 (set_Options {[ "Priority" := "3" ]} demo_source) [] (demo_world ∅))
    as [err He].
  - left. exists "Priority". split; [by eexists|]. unfold supportedStreamSourceOptions. set_solver.
  - exists err. exact (f_equal fst He).
Defined.
End witnesses.

End BrokerSubscribe.
