(* ===== verification/Custody.v ===== *)
(** * The custody of deliveries

    A delivery of a queue enters the table of active messages when it is handed
    to the client ([BrokerSubscribe]), and leaves it when the client settles it
    ([Settling]). Here the two are put together: whatever is delivered and
    whatever the clients ask for, in any interleaving, each delivery that the
    provider can deal with is in exactly one place, either held for a client or
    settled with the broker, once; the others are lost. *)

From Stdlib Require Import Ascii String.
From stdpp Require Import base gmap strings list fin_maps option.
From Stdlib Require Import ZArith Lia.
From S2P Require Import Prelude Effects GoStrings Api ConcurrentMap BlockingLatch BlockingPool ClientIds Provider Compression Stream Amqp BrokerState BrokerDeclare BrokerAck Settling BrokerPublish BrokerSubscribe.

Module Custody.
Import Amqp ConcurrentMap BrokerState BrokerDeclare BrokerAck Settling BrokerSubscribe.
Open Scope Z_scope.
Open Scope list_scope.

(** ** Tables *)

(** No object comes or goes, and no table gets an entry. *)
Definition thins (b b' : broker) : Prop :=
  (∀ l, is_Some (details b !! l) ↔ is_Some (details b' !! l)) ∧ ∀ l id, has l id b' → has l id b.

#[global] Instance thins_refl : Reflexive thins.
Proof. by split. Qed.
#[global] Instance thins_trans : Transitive thins.
Proof. intros b1 b2 b3 [H1 H2] [H3 H4]. split; [intros l; by rewrite H1|]. intros l id Hh. by apply H2, H4. Qed.

Lemma same_active_thins b b' : same_active b b' → thins b b'.
Proof.
  intros Hs. split.
  - intros l. specialize (Hs l). destruct (details b !! l), (details b' !! l); try done;
      (split; intros; by eexists).
  - intros l id (bd' & Hl & Hid). destruct (same_active_lookup l id b b' bd' Hs Hl) as (bd & Hl2 & _ & Hk).
    exists bd. split; [done|]. destruct (Get id (activeMessages bd')); [|by destruct Hid].
    destruct (Get id (activeMessages bd)); [by eexists|done].
Qed.

Lemma thins_delete l id b : thins b (set_details (alter (delete_active id) l (details b)) b).
Proof.
  split.
  - intros l'. destruct (decide (l = l')) as [<-|Hne]; [|by rewrite details_upd_ne].
    rewrite details_upd. by rewrite fmap_is_Some.
  - intros l' id' (bd' & Hl & Hid). destruct (decide (l = l')) as [<-|Hne].
    + rewrite details_upd in Hl. destruct (details b !! l) as [bd|] eqn:Hl'; [|done]. cbn in Hl. simplify_eq.
      exists bd. split; [done|]. unfold delete_active in Hid.
      replace (activeMessages (set_activeMessages _ bd)) with (Delete id (activeMessages bd)) in Hid
        by (by destruct bd).
      rewrite Get_Delete in Hid. case_decide; [by destruct Hid|done].
    + rewrite details_upd_ne in Hl by done. by exists bd'.
Qed.

(** The entry a delivery is given. *)
Lemma holds_add t l id m bd b l' id' :
  details b !! l = Some bd → ¬ has l id b →
  let b' := set_details (<[l := add_active id (ActAmqp m) bd]> (details b)) b in
  holds t l' id' b' ↔ holds t l' id' b ∨ (l', id') = (l, id) ∧ delivery m = Some t.
Proof.
  intros Hl Hno b'.
  assert (∀ k, Get k (activeMessages (add_active id (ActAmqp m) bd)) =
    if decide (k = id) then Some (ActAmqp m) else Get k (activeMessages bd)) as Hget.
  { intros k. unfold add_active. replace (activeMessages (set_activeMessages _ bd))
      with (Add id (ActAmqp m) (activeMessages bd)) by (by destruct bd). apply Get_Add. }
  unfold holds. subst b'. cbn. destruct (decide (l' = l)) as [->|Hne].
  - rewrite lookup_insert_eq, Hl. split.
    + intros (bd' & m' & [= <-] & Hm & Ht). rewrite Hget in Hm. case_decide as Hid; [right|left; by exists bd, m'].
      injection Hm as <-. by subst.
    + intros [(bd' & m' & [= <-] & Hm & Ht)|[[= ->] Ht]].
      * exists (add_active id (ActAmqp m) bd), m'. rewrite Hget, decide_False; [done|]. intros ->. apply Hno.
        exists bd. split; [done|by eexists].
      * exists (add_active id (ActAmqp m) bd), m. by rewrite Hget, decide_True.
  - rewrite lookup_insert_ne by done. split; [by left|]. intros [Hh|[[= ? _] _]]; done.
Qed.

Lemma has_add l id a bd b l' id' :
  details b !! l = Some bd →
  has l' id' (set_details (<[l := add_active id a bd]> (details b)) b) → has l' id' b ∨ (l', id') = (l, id).
Proof.
  intros Hl (bd' & Hl' & Hid). cbn in Hl'. destruct (decide (l' = l)) as [->|Hne].
  - rewrite lookup_insert_eq in Hl'. injection Hl' as <-. unfold add_active in Hid.
    replace (activeMessages (set_activeMessages _ bd)) with (Add id a (activeMessages bd)) in Hid
      by (by destruct bd).
    rewrite Get_Add in Hid. case_decide as Hk; [right; by subst|left]. by exists bd.
  - rewrite lookup_insert_ne in Hl' by done. left. by exists bd'.
Qed.

(** The identifiers that were drawn. *)
Definition drawn_by (e : event Shim) : option string :=
  match e with
  | existT c o =>
      match c return outcome (shim_reply c) → option string with
      | KUUID => λ o, match o with Ret u => Some u | _ => None end
      | _ => λ _, None
      end o
  end.
Definition drawn (lg : list (event Shim)) : list string := omap drawn_by lg.

Lemma drawn_app l1 l2 : drawn (l1 ++ l2) = drawn l1 ++ drawn l2.
Proof. apply omap_app. Qed.

Section custody.
Context {E : Type} `{O : Oracle Shim E} `{R : !Returns E} `{MR : MapRange} `{J : Json} `{T : Tracing}.
Implicit Types w : world Shim E broker.

(** ** Settling only takes away *)

Lemma move_thins rs w m : thins (st w) (st (move_apply (rs, w) m).2).
Proof.
  destruct m as [o|i]; [done|]. cbn [move_apply fst snd]. destruct (rs !! i) as [r|]; [|done].
  destruct r as [o|o l a|l id|]; cbn [request_step].
  - by destruct (look_up_run o w) as [->|[[why ->]|(l & bd & a & -> & _)]].
  - destruct (settle_found_settles (0%nat, 0) o l a w) as (lg & _ & Ha & _). apply same_active_thins in Ha.
    by destruct (settle_found o l a w) as [[[]|why|] w1].
  - rewrite upd_bd_run. apply thins_delete.
  - done.
Qed.

(** ** A delivery *)

(** Whether the provider deals with a delivery: it has a tag, and, with tracing
    on, a table of headers. *)
Definition dealt_with (msg : amqp091Message) : bool :=
  negb (DeliveryTag msg =? 0) && (negb tracing_enabled || bool_decide (is_Some (Headers msg))).

(** Any other leaves no trace but an identifier. *)
Lemma queue_message_lost cap l source msg w :
  dealt_with msg = false →
  ∃ lg, log (run_state (queue_message cap l source msg) w) = log w ++ lg ∧ (∀ t, settles t lg = 0) ∧
    st (run_state (queue_message cap l source msg) w) = st w.
Proof.
  intros Hd. unfold run_state, queue_message.
  destruct (DeliveryTag msg =? 0) eqn:Htag; [exists []; by rewrite app_nil_r|].
  unfold dealt_with in Hd. rewrite Htag in Hd. cbn [negb andb] in Hd.
  apply orb_false_iff in Hd as [Htr%negb_false_iff Hh%bool_decide_eq_false].
  destruct (call_returns KUUID w) as (uuid & e1 & _ & Hu). rewrite (bind_run _ _ _ _ _ Hu).
  exists [ev KUUID (Ret uuid)]. unfold traced. rewrite Htr. destruct (trace_headers (delivery_headers msg)) as [ts tp].
  destruct (Headers msg); [by destruct Hh|]. done.
Qed.

Lemma queue_message_run cap l source msg bd w :
  details (st w) !! l = Some bd → DeliveryTag msg ≠ 0 → tracing_enabled = false ∨ Headers msg ≠ None →
  ∃ uuid m' lg w', queue_message cap l source msg w = (Ret (), w') ∧ delivery m' = delivery msg ∧
    log w' = log w ++ lg ∧ drawn lg = [uuid] ∧
    if maxAcquiredCountHit cap (Headers msg) then
      st w' = st w ∧ ∀ t, settles t lg = b2z (bool_decide (delivery msg = Some t))
    else
      (∀ t, settles t lg = 0) ∧
      same_active (set_details (<[l := add_active uuid (ActAmqp m') bd]> (details (st w))) (st w)) (st w').
Proof.
  intros Hl Htag Htr. destruct (call_returns KUUID w) as (uuid & e1 & Hu & Hcu).
  destruct (traced_run (delivery_headers msg) msg
    {| st := st w; env := e1; log := log w ++ [ev KUUID (Ret uuid)] |} Htr) as (hdrs & h & Ht & Hcap).
  exists uuid, (set_Headers h msg). unfold queue_message. rewrite (proj2 (Z.eqb_neq _ _) Htag).
  rewrite (bind_run _ _ _ _ _ Hcu), (bind_run _ _ _ _ _ Ht). cbv beta iota.
  change (Headers (set_Headers h msg)) with h. rewrite Hcap.
  destruct (maxAcquiredCountHit cap (Headers msg)).
  - destruct (call_returns (KNack (set_Headers h msg) false)
      {| st := st w; env := e1; log := log w ++ [ev KUUID (Ret uuid)] |}) as (r & e2 & _ & Hn).
    rewrite (bind_run _ _ _ _ _ Hn). eexists _, _. split; [reflexivity|]. cbn [log st].
    split; [done|]. split; [by rewrite <- app_assoc|]. split; [done|]. split; [done|]. intros t.
    unfold settles. cbn [app]. rewrite !count_if_cons, count_if_nil, (asked_to_settle_call t (KNack _ _)) by done.
    unfold asked_to_settle. rewrite settle_reply_none by done. cbn [settle_tag]. rewrite andb_true_r.
    replace (delivery (set_Headers h msg)) with (delivery msg) by (by destruct msg). cbn [b2z]. lia.
  - erewrite bind_run by (apply (upd_bd_at l _ bd); exact Hl). cbn [set_st st env log].
    match goal with |- context [(call ?c ≫= _) ?w1] =>
      destruct (call_returns c w1) as (r & e2 & _ & Hd) end.
    rewrite (bind_run _ _ _ _ _ Hd), upd_bd_run. eexists _, _. split; [reflexivity|]. cbn [set_st log st].
    split; [by destruct msg|]. split; [by rewrite <- app_assoc|]. split; [done|]. split; [done|].
    apply same_active_upd. by intros [].
Qed.

(** ** Histories *)

(** A delivery of a subscription, or a move of the requests. *)
Inductive custody_move :=
  | CDeliver (l : nat) (source : Source) (msg : amqp091Message)
  | CMove (m : move).

Definition custody_apply (cap : Z) (s : requests (E := E)) (m : custody_move) : requests :=
  match m with
  | CDeliver l source msg => (s.1, run_state (queue_message cap l source msg) s.2)
  | CMove m => move_apply s m
  end.

Definition custody_run (cap : Z) (ms : list custody_move) (s : requests) : requests := foldl (custody_apply cap) s ms.

(** The deliveries that come, and those of them the provider deals with. *)
Definition delivered (m : custody_move) : option delivery_id :=
  match m with CDeliver _ _ msg => delivery msg | CMove _ => None end.
Definition taken (m : custody_move) : option delivery_id :=
  match m with CDeliver _ _ msg => if dealt_with msg then delivery msg else None | CMove _ => None end.

Lemma taken_delivered m t : taken m = Some t → delivered m = Some t.
Proof. destruct m as [l source msg|m]; [|done]. cbn. by destruct (dealt_with msg). Qed.

(** Deliveries come to objects there are, and requests for one identifier do
    not overlap. *)
Definition orderly (s : requests (E := E)) (m : custody_move) : Prop :=
  match m with CDeliver l _ _ => is_Some (details (st s.2) !! l) | CMove m => allowed s.1 m end.
Fixpoint all_orderly (cap : Z) (ms : list custody_move) (s : requests) : Prop :=
  match ms with [] => True | m :: ms => orderly s m ∧ all_orderly cap ms (custody_apply cap s m) end.

(** One move: the identifiers that are held are drawn ones, and a delivery that
    comes for the first time, under a new identifier, is settled or held. *)
Definition custody_step (m : custody_move) (s s' : requests (E := E)) : Prop :=
  ∃ lg1, log s'.2 = log s.2 ++ lg1 ∧
    ∀ ids, (∀ l id, has l id (st s.2) → id ∈ ids) → NoDup (ids ++ drawn lg1) → sound s.1 (st s.2) →
      (∀ l id, has l id (st s'.2) → id ∈ ids ++ drawn lg1) ∧ sound s'.1 (st s'.2) ∧
      ∀ t came n, stage t came n s.1 (st s.2) → (delivered m = Some t → came = false) →
        stage t (came || bool_decide (taken m = Some t)) (n + settles t lg1) s'.1 (st s'.2).

Lemma custody_step_move cap m s : allowed s.1 m → custody_step (CMove m) s (custody_apply cap s (CMove m)).
Proof.
  destruct s as [rs w]. cbn [custody_apply fst snd]. intros Ha.
  assert (∃ lg, log (move_apply (rs, w) m).2 = log w ++ lg) as [lg Hl].
  { destruct m as [o|i]; [exists []; cbn; by rewrite app_nil_r|]. cbn [move_apply fst snd].
    destruct (rs !! i) as [[o|o l a|l id|]|]; cbn [request_step]; try (exists []; cbn; by rewrite app_nil_r).
    - exists []. rewrite app_nil_r. by destruct (look_up_run o w) as [->|[[why ->]|(l & bd & a & -> & _)]].
    - destruct (settle_found_settles (0%nat, 0) o l a w) as (lg & Hl & _). exists lg.
      by destruct (settle_found o l a w) as [[[]|why|] w1]. }
  exists lg. split; [done|]. intros ids Hids _ Hs. split; [|split].
  - intros l id Hh. apply elem_of_app. left. by apply (Hids l), (move_thins rs w m).
  - by destruct (sound_step_move rs w m Hs Ha) as (lg' & _ & Hs' & _).
  - intros t came n Hst _. cbn. rewrite orb_false_r.
    destruct (sound_step_move rs w m Hs Ha) as (lg' & Hl' & _ & Hst'). rewrite Hl in Hl'.
    apply app_inv_head in Hl' as ->. by apply Hst'.
Qed.

(** Rejecting a delivery that has come too often. *)
Lemma stage_reject t came n k d rs b :
  k = b2z (bool_decide (d = Some t)) → stage t came n rs b → (d = Some t → came = false) →
  stage t (came || bool_decide (d = Some t)) (n + k) rs b.
Proof.
  intros -> Hs Hr. case_bool_decide as Hd; cbn [b2z].
  - rewrite (Hr Hd) in *. destruct Hs as [-> Hno]. right. split; [done|]. intros l id Hh. by destruct (Hno l id).
  - by rewrite orb_false_r, Z.add_0_r.
Qed.

(** Entering a delivery under an identifier that is not in use. *)
Lemma stage_enter t came n rs b b' l id d :
  sound rs b → ¬ has l id b → stage t came n rs b → (d = Some t → came = false) →
  (∀ l' id', holds t l' id' b' ↔ holds t l' id' b ∨ (l', id') = (l, id) ∧ d = Some t) →
  stage t (came || bool_decide (d = Some t)) n rs b'.
Proof.
  intros [_ Hf] Hno Hs Hr Hh.
  assert (∀ i, rs !! i ≠ Some (Settled l id)) as Hfree.
  { intros i Hi. by apply (list.Forall_lookup_1 _ _ _ _ Hf) in Hi. }
  case_bool_decide as Hd.
  - rewrite (Hr Hd) in *. destruct Hs as [-> Hnone]. left. split; [done|]. split.
    + exists l, id. intros l' id'. rewrite Hh. split; [|by right]. intros [Hx|[Hx _]]; [by destruct (Hnone l' id')|done].
    + intros i l' id' Hi [Hx|[[= -> ->] _]]%Hh; [by apply (Hnone l' id')|by apply (Hfree i)].
  - rewrite orb_false_r. assert (∀ l' id', holds t l' id' b' ↔ holds t l' id' b) as Hh'
      by (intros l' id'; rewrite Hh; split; [by intros [Hx|[_ Hx]]|by left]).
    unfold stage in *. destruct came; [destruct Hs as [(Hn & (l0 & id0 & Hx) & Hns)|(Hn & Hx)]|].
    + left. split; [done|]. split; [exists l0, id0; intros l' id'; by rewrite Hh'|].
      intros i l' id' Hi Hx'%Hh'. by apply (Hns i l' id').
    + right. split; [done|]. intros l' id' Hx'%Hh'. by apply Hx.
    + destruct Hs as [Hn Hns]. split; [done|]. intros l' id' Hx'%Hh'. by apply (Hns l' id').
Qed.

(** Adding an entry under a new identifier leaves the others where they are. *)
Lemma sound_add rs l id a bd b :
  details b !! l = Some bd → ¬ has l id b → sound rs b →
  sound rs (set_details (<[l := add_active id a bd]> (details b)) b).
Proof.
  intros Hl Hno [Hd Hf]. split; [done|]. eapply list.Forall_impl; [exact Hf|].
  assert (∀ l' id', has l' id' b →
    ∃ bd', <[l := add_active id a bd]> (details b) !! l' = Some bd' ∧
      ∀ bd0, details b !! l' = Some bd0 → Get id' (activeMessages bd') = Get id' (activeMessages bd0)) as Hkeep.
  { intros l' id' (bd0 & Hl0 & Hid0). destruct (decide (l' = l)) as [->|Hne].
    - exists (add_active id a bd). split; [apply lookup_insert_eq|]. intros bd1 Hl1.
      assert (bd1 = bd) as -> by congruence. assert (bd0 = bd) as -> by congruence.
      unfold add_active. replace (activeMessages (set_activeMessages _ bd))
        with (Add id a (activeMessages bd)) by (by destruct bd).
      rewrite Get_Add, decide_False; [done|]. intros ->. apply Hno. by exists bd.
    - exists bd0. rewrite lookup_insert_ne by done. split; [done|]. intros bd1 Hl1. by simplify_eq. }
  intros [|o l' a'|l' id'|]; try done; cbn [entry_there].
  - intros (bd0 & a0 & Hl0 & Hid0 & Hk). destruct (Hkeep l' (op_id o)) as (bd' & Hl' & Hsame); [by exists bd0; rewrite Hid0|].
    exists bd', a0. by rewrite (Hsame bd0 Hl0).
  - intros (bd0 & Hl0 & Hid0). destruct (Hkeep l' id') as (bd' & Hl' & Hsame); [by exists bd0|].
    exists bd'. by rewrite (Hsame bd0 Hl0).
Qed.

Lemma sound_same rs b b' : same_active b b' → sound rs b → sound rs b'.
Proof.
  intros Hs [Hd Hf]. split; [done|]. eapply list.Forall_impl; [exact Hf|]. intros r. by apply entry_there_same.
Qed.

Lemma custody_step_deliver cap l source msg s :
  is_Some (details (st s.2) !! l) → custody_step (CDeliver l source msg) s (custody_apply cap s (CDeliver l source msg)).
Proof.
  destruct s as [rs w]. intros [bd Hl]. cbn [custody_apply fst snd] in *. unfold custody_step.
  cbn [fst snd delivered taken]. destruct (dealt_with msg) eqn:Hdw.
  2:{ destruct (queue_message_lost cap l source msg w Hdw) as (lg & Hlog & Hset & Hst). exists lg. split; [done|].
      rewrite Hst. intros ids Hids _ Hs. split; [intros l' id' Hh; apply elem_of_app; left; by apply (Hids l')|].
      split; [done|]. intros t came n Hstage _.
      rewrite Hset, Z.add_0_r, bool_decide_eq_false_2 by done. by rewrite orb_false_r. }
  assert (DeliveryTag msg ≠ 0 ∧ (tracing_enabled = false ∨ Headers msg ≠ None)) as [Htag Htr].
  { unfold dealt_with in Hdw. apply andb_true_iff in Hdw as [Ht%negb_true_iff%Z.eqb_neq Hh]. split; [done|].
    apply orb_true_iff in Hh as [Hh%negb_true_iff|Hh%bool_decide_eq_true]; [by left|right]. intros Hn.
    rewrite Hn in Hh. by destruct Hh. }
  destruct (queue_message_run cap l source msg bd w Hl Htag Htr) as (uuid & m' & lg1 & w' & Hr & Hm & Hlog & Hd & Hc).
  unfold run_state. rewrite Hr. cbn [snd]. exists lg1. split; [done|]. rewrite Hd.
  destruct (maxAcquiredCountHit cap (Headers msg)).
  - destruct Hc as [Hst Hset]. rewrite Hst. intros ids Hids _ Hs. split.
    + intros l' id' Hh. apply elem_of_app. left. by apply (Hids l').
    + split; [done|]. intros t came n. apply stage_reject, Hset.
  - destruct Hc as [Hset Hsame]. intros ids Hids (_ & Hnew & _)%list.NoDup_app Hs.
    assert (¬ has l uuid (st w)) as Hno by (intros Hh; apply (Hnew uuid); [by apply (Hids l)|by left]).
    split; [|split].
    + intros l' id' Hh. apply elem_of_app.
      destruct (has_add l uuid _ bd (st w) l' id' Hl (has_same _ _ _ _ Hsame Hh)) as [Hh'|[= _ ->]];
        [left; by apply (Hids l')|right; by left].
    + eapply sound_same; [exact Hsame|]. by apply sound_add.
    + intros t came n Hst Hr'. rewrite Hset, Z.add_0_r.
      apply (stage_enter t came n rs (st w) (st w') l uuid); [done..|].
      intros l' id'. rewrite <- Hm, <- (holds_add t l uuid m' bd (st w) l' id' Hl Hno). by apply holds_iff_same.
Qed.

Lemma custody_step_apply cap m s : orderly s m → custody_step m s (custody_apply cap s m).
Proof. destruct m as [l source msg|m]; [apply custody_step_deliver|apply custody_step_move]. Qed.

Lemma custody_log cap ms s : all_orderly cap ms s → ∃ lg, log (custody_run cap ms s).2 = log s.2 ++ lg.
Proof.
  revert s. induction ms as [|m ms IH]; intros s Hok; [exists []; by rewrite app_nil_r|]. destruct Hok as [Hm Hok].
  destruct (custody_step_apply cap m s Hm) as (lg1 & Hl1 & _). destruct (IH _ Hok) as [lg2 Hl2].
  exists (lg1 ++ lg2). cbn [custody_run foldl]. unfold custody_run in *. by rewrite Hl2, Hl1, app_assoc.
Qed.

Lemma custody_history cap ms s ids came n t :
  all_orderly cap ms s → NoDup (omap delivered ms) → sound s.1 (st s.2) → (∀ l id, has l id (st s.2) → id ∈ ids) →
  stage t came n s.1 (st s.2) → (t ∈ omap delivered ms → came = false) →
  ∃ lg, log (custody_run cap ms s).2 = log s.2 ++ lg ∧
    (NoDup (ids ++ drawn lg) →
     stage t (came || bool_decide (t ∈ omap taken ms)) (n + settles t lg)
       (custody_run cap ms s).1 (st (custody_run cap ms s).2)).
Proof.
  revert s ids came n. induction ms as [|m ms IH]; intros s ids came n Hok Hnd Hs Hids Hst Hcame.
  { exists []. cbn. rewrite app_nil_r, orb_false_r, Z.add_0_r. by split. }
  destruct Hok as [Hm Hok]. cbn [custody_run foldl].
  destruct (custody_step_apply cap m s Hm) as (lg1 & Hl1 & Hstep).
  assert (∀ x, delivered m = Some x → x ∈ omap delivered (m :: ms)) as Hin by (intros x Hx; cbn; rewrite Hx; by left).
  assert (NoDup (omap delivered ms) ∧ ∀ x, delivered m = Some x → x ∉ omap delivered ms) as [Hnd' Hfirst].
  { cbn in Hnd. destruct (delivered m) as [x|]; [|by split; [|done]]. apply list.NoDup_cons in Hnd as [Hx Hnd].
    split; [done|]. by intros y [= <-]. }
  destruct (decide (NoDup (ids ++ drawn lg1))) as [Hfresh|Hstale].
  - destruct (Hstep ids Hids Hfresh Hs) as (Hids1 & Hs1 & Hst1).
    destruct (IH (custody_apply cap s m) (ids ++ drawn lg1) (came || bool_decide (taken m = Some t)) (n + settles t lg1)
      Hok Hnd' Hs1 Hids1) as (lg2 & Hl2 & Hr2).
    + apply Hst1; [done|]. intros Ht. by apply Hcame, Hin.
    + intros Ht. apply orb_false_iff. split.
      * apply Hcame. cbn. destruct (delivered m); [by right|done].
      * apply bool_decide_eq_false. intros Htk%taken_delivered. by apply (Hfirst t).
    + exists (lg1 ++ lg2). unfold custody_run in *. split; [by rewrite Hl2, Hl1, app_assoc|].
      rewrite drawn_app, settles_app. intros Hnodup.
      replace (came || bool_decide (t ∈ omap taken (m :: ms)))
        with (came || bool_decide (taken m = Some t) || bool_decide (t ∈ omap taken ms)).
      { rewrite Z.add_assoc. apply Hr2. by rewrite <- app_assoc. }
      rewrite <- orb_assoc. f_equal. apply eq_bool_prop_intro. rewrite orb_True, !bool_decide_spec. cbn.
      destruct (taken m); set_solver.
  - assert (∃ lg2, log (custody_run cap ms (custody_apply cap s m)).2 = log (custody_apply cap s m).2 ++ lg2) as [lg2 Hl2].
    { by apply custody_log. }
    exists (lg1 ++ lg2). unfold custody_run in *. split; [by rewrite Hl2, Hl1, app_assoc|].
    rewrite drawn_app, app_assoc. by intros [? _]%list.NoDup_app.
Qed.

(** C3: Every delivery is accounted for. From a state in which nothing is held
    and no request is going on, let deliveries come, each once, to connections
    there are, and let clients acknowledge, reject, retry and dead-letter, the
    steps of their handlers interleaving in any way, except that two requests
    for one identifier do not overlap; and let the identifiers that are drawn be
    different. Then a delivery that has a tag and, with tracing on, headers is
    in one of two cases once it has come: either one call that acknowledges or
    rejects it has returned, with or without an error, and it is held nowhere,
    but where a request is about to delete it; or no such call has returned and
    it is held in exactly one place, where no request is about to delete it.
    Any other delivery, and one that has not come, is neither settled nor held. *)
Theorem delivery_accounted cap ms w t :
  (∀ l id, ¬ has l id (st w)) → all_orderly cap ms ([], w) → NoDup (omap delivered ms) →
  let '(rs', w') := custody_run cap ms ([], w) in
  ∃ lg, log w' = log w ++ lg ∧
    (NoDup (drawn lg) →
     stage t (bool_decide (t ∈ omap taken ms)) (accepts t lg + refusals t lg) rs' (st w')).
Proof.
  intros Hempty Hok Hnd.
  assert (stage t false 0 [] (st w)) as Hst.
  { split; [done|]. intros l id (bd & m & Hl & Hm & _). apply (Hempty l id). exists bd. by rewrite Hm. }
  destruct (custody_history cap ms ([], w) [] false 0 t Hok Hnd (sound_nil _) ltac:(by intros l id Hh%Hempty) Hst
    ltac:(done)) as (lg & Hl & Hs).
  destruct (custody_run cap ms ([], w)) as [rs' w']. cbn [fst snd] in *. exists lg. split; [done|].
  rewrite <- settles_split. exact Hs.
Qed.
End custody.

(** ** Witnesses *)

Section witnesses.
#[local] Instance no_json : Json := {| Unmarshal _ := ([], None) |}.
#[local] Instance no_tracing : Tracing := {| tracing_enabled := false; trace_headers _ := ("", "") |}.

(** An outside that draws a new identifier every time. *)
Definition fresh_shim : Oracle Shim nat := λ c n,
  match c return outcome (shim_reply c) * nat with
  | KUUID => (Ret ("m" +:+ itoa (Z.of_nat n)), S n)
  | c => ok_shim c n
  end.

Lemma fresh_returns : @Effects.Returns Shim nat fresh_shim.
Proof. intros c e. destruct c; by eexists _, _. Qed.

Definition numbered (t : Z) : amqp091Message := {|
  delivery := Some (3%nat, t); Body := []; DeliveryMode := 1; ContentType := ""; ContentEncoding := "";
  Headers := None; DeliveryTag := t |}.

(** Two deliveries come, under the identifiers "m10" and "m12"; the first is
    acknowledged while the second comes. A third one has no tag. *)
Definition demo_moves : list custody_move :=
  [CDeliver 0 zero_Source (numbered 7); CMove (MAsk (OpAck demo_peer "m10")); CMove (MStep 0);
   CDeliver 0 zero_Source (numbered 8); CMove (MStep 0); CDeliver 0 zero_Source (numbered 0); CMove (MStep 0)].

Lemma delivery_accounted_witness (MR := default_range) (O := fresh_shim) :
  let w' := (custody_run 20 demo_moves ([], demo_world ∅)).2 in
  accepts (3%nat, 7) (log w') + refusals (3%nat, 7) (log w') = 1 ∧ (∀ l id, ¬ holds (3%nat, 7) l id (st w')) ∧
  accepts (3%nat, 8) (log w') = 0.
Proof.
  assert (∀ l id, ¬ has l id (st (demo_world ∅))) as H1.
  { intros l id (bd & Hl & Hid). cbn in Hl. apply lookup_singleton_Some in Hl as [<- <-]. by destruct Hid. }
  assert (all_orderly 20 demo_moves ([], demo_world ∅)) as H2.
  { repeat first [exact I | split; [first [by eexists | by repeat constructor]|]]. }
  assert (NoDup (omap delivered demo_moves)) as H3 by (apply (bool_decide_eq_true_1 _); vm_compute; reflexivity).
  pose proof (delivery_accounted (R := fresh_returns) 20 demo_moves (demo_world ∅) (3%nat, 7) H1 H2 H3) as Hs.
  assert (Forall (λ r, r = Over) (custody_run 20 demo_moves ([], demo_world ∅)).1) as Hover
    by (vm_compute; repeat constructor).
  assert (accepts (3%nat, 7) (log (custody_run 20 demo_moves ([], demo_world ∅)).2) = 1 ∧
    refusals (3%nat, 7) (log (custody_run 20 demo_moves ([], demo_world ∅)).2) = 0 ∧
    accepts (3%nat, 8) (log (custody_run 20 demo_moves ([], demo_world ∅)).2) = 0) as (Hacc & Href & Hacc8)
    by (vm_compute; by split).
  assert ((3%nat, 7) ∈ omap taken demo_moves) as Htk by (apply (bool_decide_eq_true_1 _); vm_compute; reflexivity).
  assert (NoDup (drawn (log (custody_run 20 demo_moves ([], demo_world ∅)).2))) as Hfresh
    by (apply (bool_decide_eq_true_1 _); vm_compute; reflexivity).
  rewrite bool_decide_eq_true_2 in Hs by exact Htk. subst O MR.
  destruct (custody_run 20 demo_moves ([], demo_world ∅)) as [rs' w'] eqn:Hr. cbn [fst snd] in *.
  destruct Hs as (lg & Hl & Hx). change (log (demo_world ∅)) with (@nil (event Shim)) in Hl.
  cbn [app] in Hl. subst lg. specialize (Hx Hfresh). rewrite Hacc, Href in *. split; [done|]. split; [|done].
  destruct (stage_over _ _ _ _ Hover Hx) as [[_ Hno]|[? _]]; [exact Hno|done].
Defined.
End witnesses.

End Custody.
