(* ===== verification/StreamWindow.v ===== *)
(** * The prefetch window of a stream subscription

    A stream subscription counts the messages it has handed out in a latch;
    the callbacks of a message take one off. Here the handler of
    BrokerSubscribe, the acknowledgements of BrokerAck and the latch of
    BlockingLatch are put together: whatever the clients do, no more messages
    of a subscription are outstanding than its prefetch count. *)

From Stdlib Require Import Ascii String.
From stdpp Require Import base gmap strings list fin_maps option.
From Stdlib Require Import ZArith Lia.
From S2P Require Import Prelude Effects GoStrings Api ConcurrentMap BlockingLatch BlockingPool ClientIds Provider Compression Stream Amqp BrokerState BrokerDeclare BrokerAck BrokerPublish BrokerSubscribe.

Module StreamWindow.
Import Amqp ConcurrentMap BrokerState BrokerDeclare BrokerAck BrokerSubscribe.
Open Scope Z_scope.
Open Scope list_scope.

(** Outstanding messages of the subscription with latch [n], in one table. *)
Definition of_latch (n : nat) (kv : string * (option delivery_id + nat)) : Prop := kv.2 = inr n.
#[global] Instance of_latch_dec n kv : Decision (of_latch n kv).
Proof. unfold of_latch. apply _. Defined.

Definition pend_keys (n : nat) (m : gmap string (option delivery_id + nat)) : Z :=
  Z.of_nat (size (filter (of_latch n) m)).
Definition pending (n : nat) (bd : BrokerDetails) : Z := pend_keys n (act_key <$> activeMessages bd).

Definition sized (m : Z) (latch : BlockingLatch.BlockingLatch) : Prop :=
  BlockingLatch.max latch = m ∧ m < 2 ^ 64.

(** The window of latch [n] and size [m], whose subscription belongs to the
    object [l]. *)
Definition window (n l : nat) (m : Z) (b : broker) : Prop :=
  ∃ latch bd, latches b !! n = Some latch ∧ details b !! l = Some bd ∧ is_Some (StreamConnection bd) ∧
    pending n bd <= BlockingLatch.count latch <= BlockingLatch.max latch ∧
    sized m latch ∧
    ∀ l' bd', l' ≠ l → details b !! l' = Some bd' → pending n bd' = 0.

(** ** Counting *)

Lemma pend_keys_nonneg n m : 0 <= pend_keys n m.
Proof. unfold pend_keys. lia. Qed.

Lemma pend_keys_delete n uid m :
  pend_keys n (delete uid m) = pend_keys n m - b2z (bool_decide (m !! uid = Some (inr n))).
Proof.
  unfold pend_keys. rewrite map_filter_delete, map_size_delete.
  destruct (m !! uid) as [k|] eqn:Hid.
  - destruct (decide (k = inr n)) as [->|Hk].
    + rewrite bool_decide_eq_true_2 by done.
      assert (filter (of_latch n) m !! uid = Some (inr n)) as Hf by (by apply map_lookup_filter_Some).
      rewrite Hf. assert (size (filter (of_latch n) m) ≠ 0%nat) as Hs.
      { intros Hs%map_size_empty_inv. by rewrite Hs in Hf. }
      cbn [b2z]. lia.
    + rewrite bool_decide_eq_false_2 by congruence.
      rewrite (proj2 (map_lookup_filter_None (of_latch n) m uid)); [cbn; lia|].
      right. intros y Hy Hl. unfold of_latch in Hl. cbn in Hl. congruence.
  - rewrite bool_decide_eq_false_2 by done.
    rewrite (proj2 (map_lookup_filter_None (of_latch n) m uid)); [cbn; lia|by left].
Qed.

Lemma pend_keys_insert n uid k m :
  pend_keys n (<[uid := k]> m) <= pend_keys n m + b2z (bool_decide (k = inr n)).
Proof.
  rewrite <- insert_delete_eq. pose proof (pend_keys_delete n uid m) as Hd.
  assert (0 <= b2z (bool_decide (m !! uid = Some (inr n)))) by (case_bool_decide; cbn; lia).
  enough (pend_keys n (<[uid := k]> (delete uid m)) <= pend_keys n (delete uid m) + b2z (bool_decide (k = inr n)))
    by lia.
  unfold pend_keys. rewrite map_filter_insert. destruct (decide (of_latch n (uid, k))) as [Hk|Hk].
  - unfold of_latch in Hk. cbn in Hk. rewrite bool_decide_eq_true_2 by done. rewrite map_size_insert.
    cbn [b2z]. destruct (filter _ _ !! uid); unfold id; cbn; lia.
  - rewrite bool_decide_eq_false_2 by done. rewrite delete_delete_eq. cbn [b2z]. lia.
Qed.

Lemma pending_delete n uid bd :
  pending n (delete_active uid bd) =
    pending n bd - b2z (bool_decide (act_key <$> Get uid (activeMessages bd) = Some (inr n))).
Proof.
  unfold pending, delete_active, Delete, Get.
  replace (activeMessages (set_activeMessages _ bd)) with (delete uid (activeMessages bd)) by (by destruct bd).
  by rewrite fmap_delete, pend_keys_delete, lookup_fmap.
Qed.

Lemma pending_add n uid a bd :
  pending n (add_active uid a bd) <= pending n bd + b2z (bool_decide (act_key a = inr n)).
Proof.
  unfold pending, add_active, Add.
  replace (activeMessages (set_activeMessages _ bd)) with (<[uid := a]> (activeMessages bd)) by (by destruct bd).
  rewrite fmap_insert. apply pend_keys_insert.
Qed.

Lemma pending_nonneg n bd : 0 <= pending n bd.
Proof. apply pend_keys_nonneg. Qed.

(** ** Steps of the state that keep the window *)

(** Nothing the window depends on changes. *)
Definition calm (b b' : broker) : Prop := latches b = latches b' ∧ same_active b b'.

#[global] Instance calm_refl : Reflexive calm.
Proof. by split. Qed.
#[global] Instance calm_trans : Transitive calm.
Proof. intros b1 b2 b3 [H1 H2] [H3 H4]. split; [congruence|by etrans]. Qed.
#[global] Instance calm_frame : Frame calm.
Proof. split; [exact _..|]. intros l f b Hf. split; [done|]. by apply frame_upd. Qed.

Lemma calm_upd l f b :
  (∀ bd, active_keys (f bd) = active_keys bd) → calm b (set_details (alter f l (details b)) b).
Proof. intros Hf. split; [done|by apply same_active_upd]. Qed.

Lemma window_calm n l m b b' : calm b b' → window n l m b → window n l m b'.
Proof.
  intros [Hla Hs] (latch & bd & H1 & H2 & H3 & H4 & H5 & H6). exists latch.
  assert (∀ l', (λ bd, (pending n bd, StreamConnection bd)) <$> details b !! l' =
                (λ bd, (pending n bd, StreamConnection bd)) <$> details b' !! l') as Hp.
  { intros l'. specialize (Hs l').
    assert (∀ o : option BrokerDetails, (λ bd, (pending n bd, StreamConnection bd)) <$> o =
              (λ k, (pend_keys n k.1, k.2)) <$> (active_keys <$> o)) as Hk by (by intros []).
    by rewrite !Hk, Hs. }
  pose proof (Hp l) as Hl. rewrite H2 in Hl. destruct (details b' !! l) as [bd'|] eqn:Hl'; [|done].
  cbn in Hl. injection Hl as Hpe Hco. exists bd'.
  split_and!; [by rewrite <- Hla|done|by rewrite <- Hco|rewrite <- Hpe; lia|lia|done|].
  - intros l' bd2 Hne Hl2. specialize (Hp l'). rewrite Hl2 in Hp.
    destruct (details b !! l') as [bd1|] eqn:Hl1; [|done]. cbn in Hp. injection Hp as Hp _.
    rewrite <- Hp. by apply (H6 l').
Qed.

(** Changing one table so that no more is outstanding in it. *)
Lemma window_shrink n l m l' f b :
  (∀ bd, details b !! l' = Some bd → pending n (f bd) <= pending n bd ∧
         StreamConnection (f bd) = StreamConnection bd) →
  window n l m b → window n l m (set_details (alter f l' (details b)) b).
Proof.
  intros Hf (latch & bd & H1 & H2 & H3 & H4 & H5 & H6). exists latch.
  destruct (decide (l' = l)) as [->|Hne].
  - destruct (Hf bd H2) as [Hp Hc]. exists (f bd).
    split_and!; [done|by rewrite details_upd, H2|by rewrite Hc|lia|lia|done|].
    intros l2 bd2 Hn2. rewrite details_upd_ne by done. by apply H6.
  - exists bd. split_and!; [done|by rewrite details_upd_ne|done|lia|lia|done|].
    intros l2 bd2 Hn2. destruct (decide (l' = l2)) as [<-|Hne2].
    + rewrite details_upd. destruct (details b !! l') as [bd1|] eqn:Hl1; [|done]. intros [= <-].
      destruct (Hf bd1 eq_refl) as [Hp _]. pose proof (H6 l' bd1 Hn2 Hl1).
      pose proof (pending_nonneg n (f bd1)). lia.
    + rewrite details_upd_ne by done. by apply H6.
Qed.

Lemma window_delete n l m l' uid b :
  window n l m b → window n l m (set_details (alter (delete_active uid) l' (details b)) b).
Proof.
  apply window_shrink. intros bd _. rewrite pending_delete. split; [|by destruct bd].
  case_bool_decide; cbn; lia.
Qed.

Lemma window_add_other n l m l' uid a b :
  act_key a ≠ inr n → window n l m b →
  window n l m (set_details (alter (add_active uid a) l' (details b)) b).
Proof.
  intros Ha. apply window_shrink. intros bd _. split; [|by destruct bd].
  pose proof (pending_add n uid a bd) as Hp. rewrite bool_decide_eq_false_2 in Hp by done. cbn in Hp. lia.
Qed.

(** The window looks at no other latch. *)
Lemma window_latches n l m b b' :
  details b' = details b → latches b' !! n = latches b !! n → window n l m b → window n l m b'.
Proof. intros Hd Hla (latch & bd & Hw). exists latch, bd. by rewrite Hd, Hla. Qed.

Definition dec_latch (k : nat) (b : broker) : broker :=
  set_latches (alter BlockingLatch.Decrement k (latches b)) b.

(** Taking a message of a subscription off its latch and off the table. *)
Lemma window_settle n l m l' uid sm bd' b :
  details b !! l' = Some bd' → Get uid (activeMessages bd') = Some (ActStream sm) →
  window n l m b →
  window n l m (set_details (alter (delete_active uid) l' (details (dec_latch (saLatch sm) b)))
                (dec_latch (saLatch sm) b)).
Proof.
  intros Hl' Hid Hw. destruct (decide (saLatch sm = n)) as [Hn|Hn].
  2: { apply window_delete. apply (window_latches n l m b); [done| |exact Hw]. cbn. by rewrite lookup_alter_ne. }
  destruct Hw as (latch & bd & H1 & H2 & H3 & H4 & H5 & H6).
  pose proof (pending_delete n uid bd') as Hp. rewrite Hid in Hp. cbn in Hp. rewrite Hn in Hp.
  rewrite bool_decide_eq_true_2 in Hp by done. cbn in Hp.
  pose proof (pending_nonneg n (delete_active uid bd')) as Hnn.
  assert (l' = l) as ->. { destruct (decide (l' = l)) as [|Hne]; [done|]. pose proof (H6 l' bd' Hne Hl'). lia. }
  assert (bd' = bd) as -> by congruence.
  exists (BlockingLatch.Decrement latch), (delete_active uid bd).
  assert (BlockingLatch.count (BlockingLatch.Decrement latch) = BlockingLatch.count latch - 1) as Hc.
  { destruct H5 as [? ?]. cbn. apply uint_small. lia. }
  split_and!.
  - cbn. by rewrite Hn, lookup_alter_eq, H1.
  - cbn. by rewrite lookup_alter_eq, H2.
  - by destruct bd.
  - rewrite Hc. lia.
  - rewrite Hc. cbn. lia.
  - done.
  - intros l2 bd2 Hn2. cbn. rewrite lookup_alter_ne by done. by apply H6.
Qed.

(** Taking a slot and putting the message into the table. *)
Lemma window_take n l m l' k uid sm latch latch' b :
  (k = n → l' = l) → saLatch sm = k → latches b !! k = Some latch →
  BlockingLatch.increment_turn latch = (BlockingLatch.TReturn true, latch') →
  let b1 := set_latches (<[k := latch']> (latches b)) b in
  window n l m b → window n l m (set_details (alter (add_active uid (ActStream sm)) l' (details b1)) b1).
Proof.
  intros Hk <- Hla Hinc b1 Hw. destruct (decide (saLatch sm = n)) as [<-|Hne].
  2: { apply window_add_other; [cbn; congruence|].
       apply (window_latches n l m b); [done| |exact Hw]. cbn. by rewrite lookup_insert_ne. }
  rewrite (Hk eq_refl) in *. clear Hk. destruct Hw as (latch0 & bd & H1 & H2 & H3 & H4 & H5 & H6).
  assert (latch0 = latch) as -> by congruence. unfold BlockingLatch.increment_turn in Hinc.
  destruct (Z.ltb_spec (BlockingLatch.count latch) (BlockingLatch.max latch)) as [Hlt|Hge].
  2: { destruct (BlockingLatch.ctx_done latch); by simplify_eq. }
  injection Hinc as <-. pose proof (pending_nonneg (saLatch sm) bd) as Hnn.
  assert (uint 64 (BlockingLatch.count latch + 1) = BlockingLatch.count latch + 1) as Hu
    by (destruct H5 as [? ?]; apply uint_small; lia).
  eexists _, (add_active uid (ActStream sm) bd). split_and!.
  - cbn. apply lookup_insert_eq.
  - cbn. by rewrite lookup_alter_eq, H2.
  - by destruct bd.
  - cbn. rewrite Hu. pose proof (pending_add (saLatch sm) uid (ActStream sm) bd) as Hp.
    rewrite bool_decide_eq_true_2 in Hp by done. cbn in Hp. lia.
  - cbn. rewrite Hu. lia.
  - done.
  - intros l2 bd2 Hn2. cbn. rewrite lookup_alter_ne by done. by apply H6.
Qed.

(** ** Steps of the program that keep the window *)

Section steps.
Context {E : Type} `{Oracle Shim E} `{MR : MapRange} `{Json} `{Select} `{Tracing} `{Gzip}.
Implicit Types w : world Shim E broker.

Variable maxAcquiredCount : Z.

(** What happens at the provider: a message of a stream subscription arrives
    (object, latch, consumer), a delivery of a queue arrives, or a client
    settles a message. *)
Inductive client_op :=
  | OpStream (l k consumer : nat) (source : Source) (consumerName : string) (msg : Stream.wireMessage)
  | OpQueue (l : nat) (source : Source) (msg : amqp091Message)
  | OpSettle (o : settle_op).

Definition client_apply (o : client_op) (w : world Shim E broker) : world Shim E broker :=
  match o with
  | OpStream l k c source name msg => snd (handleMessages l k c source name msg w)
  | OpQueue l source msg => snd (queue_message maxAcquiredCount l source msg w)
  | OpSettle o => settle_apply o w
  end.

Definition client_run (os : list client_op) (w : world Shim E broker) : world Shim E broker :=
  foldl (λ w o, client_apply o w) w os.

(** The latch [n] is that of a subscription of the object [l]. *)
Definition belongs (n l : nat) (o : client_op) : Prop :=
  match o with OpStream l' k _ _ _ _ => k = n → l' = l | _ => True end.

Abbreviation keeps_window n l m := (keeps (stable (window n l m))).

Lemma keeps_calm {A} n l m (p : bprog E A) : keeps calm p → keeps_window n l m p.
Proof. intros Hk w. intros Hw. by eapply window_calm; [apply Hk|]. Qed.

Lemma keeps_declaring {A} n l m (p : bprog E A) : declaring p → keeps_window n l m p.
Proof. intros [_ Hk]. apply keeps_calm, Hk. exact _. Qed.

Lemma call_st c w : st (snd (call (E := E) c w)) = st w.
Proof. by rewrite call_run. Qed.

Lemma window_call n l m c : keeps_window n l m (call (E := E) c).
Proof. intros w Hw. by rewrite call_st. Qed.

Ltac window_the_call :=
  match goal with |- keeps _ ?p => match p with call ?c => exact (window_call _ _ _ c) end end.

Lemma window_upd n l m l' f :
  (∀ b, window n l m b → window n l m (set_details (alter f l' (details b)) b)) →
  keeps_window n l m (upd_bd (E := E) l' f).
Proof. intros Hf. apply keeps_writes. exact Hf. Qed.

Lemma window_counters n l m l' f :
  (∀ bd, active_keys (f bd) = active_keys bd) → keeps_window n l m (upd_bd (E := E) l' f).
Proof. intros Hf. apply keeps_calm, keeps_writes. intros b. by apply calm_upd. Qed.

(** [latch.Increment()] takes a slot, or changes nothing. *)
Lemma latch_increment_cases k w :
  (∃ latch latch', latches (st w) !! k = Some latch ∧
     BlockingLatch.increment_turn latch = (BlockingLatch.TReturn true, latch') ∧
     latch_increment k w = (Ret true, set_st (set_latches (<[k := latch']> (latches (st w))) (st w)) w)) ∨
  (∃ o w', latch_increment k w = (o, w') ∧ calm (st w) (st w') ∧ o ≠ Ret true).
Proof.
  unfold latch_increment. rewrite reads_bind. cbn [id].
  destruct (latches (st w) !! k) as [latch|] eqn:Hla; [|right; by eexists _, w].
  destruct (BlockingLatch.increment_turn latch) as [[[|]|] latch'] eqn:Hinc.
  - left. by exists latch, latch'.
  - right. eexists _, _. split; [done|]. split; [|done]. split; [|done].
    unfold BlockingLatch.increment_turn in Hinc. repeat case_match; simplify_eq. cbn.
    by rewrite insert_id.
  - right. by eexists _, w.
Qed.

Lemma window_handle n l m l' k c source name msg :
  (k = n → l' = l) → keeps_window n l m (handleMessages (E := E) l' k c source name msg).
Proof.
  intros Hk. unfold handleMessages. apply keeps_bind; [exact _|window_the_call|]. intros uuid.
  apply keeps_bind; [exact _|window_the_call|]. intros offset.
  apply keeps_bind; [exact _|intros w Hw; exact Hw|]. intros [hdrs data].
  intros w Hw. set (rest := λ ok : bool, if negb ok then mret () else _).
  destruct (latch_increment_cases k w) as [(latch & latch' & Hla & Hinc & Hrun)|(o & w1 & Hrun & Hc & Ho)].
  - rewrite (bind_run _ _ _ _ _ Hrun). unfold rest, negb. clear rest Hrun.
    unfold mbind, prog_bind.
    match goal with |- context [upd_bd l' (add_active uuid (ActStream ?s))] => set (sm := s) end.
    set (w1 := set_st _ w).
    assert (window n l m (st (snd (upd_bd l' (add_active uuid (ActStream sm)) w1)))) as H1'.
    { exact (window_take n l m l' k uuid sm latch latch' (st w) Hk eq_refl Hla Hinc Hw). }
    rewrite upd_bd_run in *. revert H1'. generalize (set_st (set_details (alter (add_active uuid
      (ActStream sm)) l' (details (st w1))) (st w1)) w1). intros w2 Hw2. cbn [snd] in Hw2.
    set (d := KDeliver _). pose proof (call_st d w2) as Hst.
    destruct (call d w2) as [[[]|why|] w3]; cbn [snd] in *; [|by rewrite Hst..].
    apply window_counters; [by intros []|]. by rewrite Hst.
  - apply (window_calm _ _ _ _ _ Hc) in Hw. unfold mbind, prog_bind. rewrite Hrun.
    destruct o as [[|]|why|]; [done|exact Hw..].
Qed.

Lemma window_queue n l m l' source msg :
  keeps_window n l m (queue_message (E := E) maxAcquiredCount l' source msg).
Proof.
  unfold queue_message. destruct (DeliveryTag msg =? 0); [by keeps_solve|].
  apply keeps_bind; [exact _|window_the_call|]. intros uuid.
  apply keeps_bind; [exact _|unfold traced; by keeps_solve|]. intros [hdrs msg'].
  destruct (maxAcquiredCountHit maxAcquiredCount (Headers msg')).
  { apply keeps_bind; [exact _|window_the_call|]. intros _. by keeps_solve. }
  apply keeps_bind; [exact _|apply window_upd; intros b; by apply window_add_other|]. intros _.
  apply keeps_bind; [exact _|window_the_call|]. intros _. apply window_counters. by intros [].
Qed.

(** The callers of [with_details] work on the object of some client. *)
Lemma window_with_details n l m ctx (body : nat → bprog E (option Error)) w :
  (∀ l', window n l m (st (snd (body l' w)))) → window n l m (st w) →
  window n l m (st (snd (with_details ctx body w))).
Proof.
  intros Hb Hw. unfold with_details. destruct (getBrokerDetails_cases ctx w) as [[l'|err] Hr];
    rewrite (bind_run _ _ _ _ _ Hr); [apply Hb|exact Hw].
Qed.

Lemma get_bd_cases l w :
  (∃ bd, details (st w) !! l = Some bd ∧ get_bd (E := E) l w = (Ret bd, w)) ∨
  (∃ why, get_bd (E := E) l w = (Panic why, w)).
Proof.
  destruct (details (st w) !! l) as [bd|] eqn:Hl; [left; exists bd; split; [done|by apply get_bd_run]|].
  right. unfold get_bd. rewrite reads_bind. cbn [id]. rewrite Hl. by eexists.
Qed.

Lemma window_Nack n l m ctx uid w :
  window n l m (st w) → window n l m (st (snd (Nack ctx uid w))).
Proof.
  intros Hw. apply window_with_details; [|done]. intros l'.
  destruct (get_bd_cases l' w) as [(bd & Hl & Hr)|(why & Hr)];
    [rewrite (bind_run _ _ _ _ _ Hr)|by rewrite (bind_stuck _ _ _ _ _ Hr)].
  destruct (Get uid (activeMessages bd)) as [[msg|sm]|] eqn:Hid; [| |done].
  - unfold mbind, prog_bind. pose proof (call_st (KNack msg false) w) as Hst.
    destruct (call (KNack msg false) w) as [[r|why|] w1]; cbn [snd] in *; [|by rewrite Hst..].
    apply (window_delete n l m l' uid). by rewrite Hst.
  - exact (window_settle n l m l' uid sm bd (st w) Hl Hid Hw).
Qed.

Lemma window_DeadLetter n l m ctx uid w :
  window n l m (st w) → window n l m (st (snd (DeadLetter ctx uid w))).
Proof.
  intros Hw. apply window_with_details; [|done]. intros l'.
  destruct (get_bd_cases l' w) as [(bd & Hl & Hr)|(why & Hr)];
    [rewrite (bind_run _ _ _ _ _ Hr)|by rewrite (bind_stuck _ _ _ _ _ Hr)].
  destruct (Get uid (activeMessages bd)) as [[msg|sm]|] eqn:Hid; [|done..].
  unfold mbind, prog_bind. pose proof (call_st (KNack msg false) w) as Hst.
  destruct (call (KNack msg false) w) as [[r|why|] w1]; cbn [snd] in *; [|by rewrite Hst..].
  apply (window_delete n l m l' uid). by rewrite Hst.
Qed.

Lemma calm_retry_amqp l src uid delay rm : keeps calm (retry_amqp (E := E) l src uid delay rm).
Proof.
  assert (∀ f, (∀ bd, active_keys (f bd) = active_keys bd) → keeps calm (upd_bd (E := E) l f)) as Hupd.
  { intros f Hf. apply keeps_writes. intros b. by apply calm_upd. }
  unfold retry_amqp. apply keeps_bind; [exact _|apply declaring_get_bd; exact _|]. intros bd.
  apply keeps_bind; [exact _| |].
  { destruct (RetryChannel bd); [by keeps_solve|]. unfold on_iface.
    apply keeps_bind; [exact _|unfold call; destruct (Connection bd); by keeps_solve|].
    intros [ch|err]; [|by keeps_solve]. apply keeps_bind; [exact _|apply Hupd; by intros []|].
    intros _. by keeps_solve. }
  intros [ch|err]; [|by keeps_solve]. apply keeps_recover; [exact _| |].
  2: { intros _. apply keeps_bind; [exact _|apply Hupd; by intros []|]. intros _. by keeps_solve. }
  unfold retry_send. cbv zeta.
  apply keeps_bind; [exact _|apply declaring_declareExchange; exact _|]. intros _.
  apply keeps_bind; [exact _|apply declaring_declareQueue; exact _|]. intros _.
  apply keeps_bind; [exact _|apply declaring_declareBinding; exact _|]. intros [err|]; [by keeps_solve|].
  apply keeps_bind; [exact _|apply Hupd, active_keys_share|]. intros _. unfold call.
  apply keeps_bind; [exact _|by keeps_solve|]. intros err. destruct (err : error); by keeps_solve.
Qed.

Lemma window_Retry n l m ctx src uid delay w :
  window n l m (st w) → window n l m (st (snd (Retry ctx src uid delay w))).
Proof.
  intros Hw. unfold Retry. destruct (getBrokerDetails_cases ctx w) as [[l'|err] Hr];
    rewrite (bind_run _ _ _ _ _ Hr); [|exact Hw]. destruct src as [src|]; [|exact Hw]. cbv zeta.
  destruct (get_bd_cases l' w) as [(bd & Hl & Hr')|(why & Hr')];
    [rewrite (bind_run _ _ _ _ _ Hr')|by rewrite (bind_stuck _ _ _ _ _ Hr')].
  destruct (Get uid (activeMessages bd)) as [[msg|sm]|] eqn:Hid; [| |done].
  - pose proof (calm_retry_amqp l' (set_SourceName (sourceName src) src) uid delay msg w) as Hc.
    unfold mbind, prog_bind. destruct (retry_amqp l' _ uid delay msg w) as [[[r|]|why|] w1]; cbn [snd] in *;
      apply (window_calm _ _ _ _ _ Hc) in Hw; [exact Hw| |exact Hw..].
    by apply (window_delete n l m l' uid).
  - by apply (window_delete n l m l' uid).
Qed.

Lemma window_Ack `{!Returns E} n l m ctx uid w :
  window n l m (st w) → window n l m (st (snd (Ack ctx uid w))).
Proof.
  intros Hw. unfold Ack.
  assert (∀ p : bprog E (option Error), window n l m (st (snd (p w))) →
    window n l m (st (snd (recover p (λ _, mret None) w)))) as Hrec.
  { intros p. unfold recover. by destruct (p w) as [[r|why|] w1]. }
  apply Hrec. apply window_with_details; [|done]. intros l'.
  destruct (get_bd_cases l' w) as [(bd & Hl & Hr)|(why & Hr)];
    [rewrite (bind_run _ _ _ _ _ Hr)|by rewrite (bind_stuck _ _ _ _ _ Hr)].
  destruct (Get uid (activeMessages bd)) as [[msg|sm]|] eqn:Hid; [| |done].
  - destruct (call_returns (KAck msg) w) as (r & e & _ & Hc). rewrite (bind_run _ _ _ _ _ Hc).
    by apply (window_delete n l m l' uid).
  - pose proof (window_settle n l m l' uid sm bd (st w) Hl Hid Hw) as Hdone.
    unfold stream_ack, decrement_latch. rewrite !bind_assoc, writes_bind.
    fold (dec_latch (saLatch sm) (st w)). set (w1 := set_st _ w).
    destruct (saConsumer sm) as [c|]; [|exact Hdone].
    destruct (call_returns (KConsumerOffset c) w1) as (o & e & _ & Hc).
    rewrite !bind_assoc, (bind_run _ _ _ _ _ Hc). set (w2 := {| st := st w1; env := e; log := _ |}).
    rewrite !bind_assoc, (bind_run (get_bd l') _ _ _ _ (get_bd_run l' bd w2 Hl)).
    destruct (StreamConnection bd) as [s|] eqn:Hs; cbn [on_iface].
    + match goal with |- context [call ?k] => destruct (call_returns k w2) as (r & e2 & _ & Hc2) end.
      rewrite !bind_assoc, (bind_run _ _ _ _ _ Hc2). exact Hdone.
    + (* no stream connection: the message is not one of this subscription *)
      change (window n l m (dec_latch (saLatch sm) (st w))). apply (window_latches n l m (st w)); [done| |exact Hw].
      cbn. rewrite lookup_alter_ne; [done|]. intros Hn. destruct Hw as (latch & bd0 & H1' & H2' & [s Hs'] & H4' & H5' & H6').
      pose proof (pending_delete n uid bd) as Hp. rewrite Hid in Hp. cbn in Hp. rewrite Hn in Hp.
      rewrite bool_decide_eq_true_2 in Hp by done. cbn in Hp.
      pose proof (pending_nonneg n (delete_active uid bd)).
      destruct (decide (l' = l)) as [->|Hne]; [congruence|]. pose proof (H6' l' bd Hne Hl). lia.
Qed.

Lemma window_apply `{!Returns E} n l m o w :
  belongs n l o → window n l m (st w) → window n l m (st (client_apply o w)).
Proof.
  intros Hb Hw. destruct o as [l' k c source name msg|l' source msg|[ctx uid|ctx uid|ctx src uid delay|ctx uid]].
  - by apply (window_handle n l m).
  - by apply (window_queue n l m).
  - by apply window_Ack.
  - by apply window_Nack.
  - by apply window_Retry.
  - by apply window_DeadLetter.
Qed.

(** ** Properties *)

(** C23: A stream client never has more unsettled messages of a subscription
    than the prefetch count it asked for: from the moment the subscription has
    its latch, whatever messages arrive, for it or for others, and whatever
    clients acknowledge, reject, retry or dead-letter, in any order. *)
Theorem stream_window_bounded `{!Returns E} prefetch l bd os w :
  details (st w) !! l = Some bd → is_Some (StreamConnection bd) →
  (∀ l' bd', details (st w) !! l' = Some bd' → pending (nextAddr (st w)) bd' = 0) →
  Forall (belongs (nextAddr (st w)) l) os →
  let n := nextAddr (st w) in
  let w' := client_run os (set_st (new_latch prefetch (st w)) w) in
  ∃ bd', details (st w') !! l = Some bd' ∧ pending n bd' <= uint 64 prefetch.
Proof.
  intros Hl Hs Hfresh Hos n w'.
  assert (0 <= uint 64 prefetch < 2 ^ 64) as Hu by (apply Z.mod_pos_bound; lia).
  assert (window n l (uint 64 prefetch) (st w')) as (latch & bd' & _ & Hl' & _ & Hp & [Hm _] & _).
  2: { exists bd'. split; [done|]. lia. }
  subst w'. assert (window n l (uint 64 prefetch) (st (set_st (new_latch prefetch (st w)) w))) as Hw.
  { exists (BlockingLatch.NewBlockingLatch false (uint 64 prefetch)), bd. cbn [set_st st].
    split_and!; try done.
    - cbn. apply lookup_insert_eq.
    - cbn. pose proof (Hfresh l bd Hl) as Hz. fold n in Hz. lia.
    - cbn. rewrite uint_small; lia.
    - unfold sized. cbn. rewrite (uint_small 64 (uint 64 prefetch)); lia.
    - intros l' bd' _ Hl'. by apply (Hfresh l'). }
  revert Hw. generalize (set_st (new_latch prefetch (st w)) w). intros w0 Hw0. fold n in Hos.
  clearbody n. clear -Hos Hw0 Returns0. revert w0 Hw0. induction Hos as [|o os Ho Hos IH]; intros w0 Hw0; [done|].
  cbn. apply IH. by apply window_apply.
Qed.
End steps.
Section witnesses.
#[local] Instance demo_json : Json := {| Unmarshal _ := ([], None) |}.
#[local] Instance demo_select : Select := true.
#[local] Instance no_tracing : Tracing := {| tracing_enabled := false; trace_headers _ := ("", "") |}.
#[local] Instance no_gzip : Gzip := {| gz_write b := (b, None); gz_read b := (b, None) |}.

Definition demo_wire : Stream.wireMessage := Stream.toStreamMessage {|
  Compression.SBody := [Byte.x01]; Compression.SContentType := ""; Compression.SContentEncoding := "";
  Compression.SHeaders := None; Compression.SPublishID := 0 |}.

(** Two messages arrive at a window of one, and one is acknowledged. *)
Definition demo_ops : list client_op :=
  [OpStream 0 1 5 zero_Source "c" demo_wire; OpStream 0 1 5 zero_Source "c" demo_wire;
   OpSettle (OpAck demo_peer "9f7c")].

Lemma stream_window_bounded_witness (MR := default_range) (O := ok_shim) :
  ∃ bd', pending 1 bd' <= 1 ∧
    details (st (client_run 20 demo_ops (set_st (new_latch 1 (demo_broker ∅)) (demo_world ∅)))) !! 0%nat = Some bd'.
Proof.
  destruct (stream_window_bounded (Returns0 := ok_returns) 20 1 0 (demo_details ∅) demo_ops (demo_world ∅))
    as (bd' & Hl & Hp).
  - reflexivity.
  - by eexists.
  - intros l' bd' Hl'. cbn in Hl'. apply lookup_singleton_Some in Hl' as [_ <-]. reflexivity.
  - repeat constructor.
  - exists bd'. split; [exact Hp|exact Hl].
Defined.
End witnesses.

End StreamWindow.
