(* ===== verification/Server.v ===== *)
(** * [internal/server/server.go]: connections of clients, and the unary calls

    The server keeps the configuration of every connected client under its
    identifier, and hands every request to the provider that configuration
    names. The provider is known to it as the Go interface
    [provider.Provider]: here its methods are calls of the interface [Srv],
    together with the gRPC streams the server sends on and with what it asks of
    the operating system. *)

From Stdlib Require Import Ascii String.
From Stdlib Require Import ZArith Lia SpecFloat.
From stdpp Require Import base gmap strings list fin_maps option.
From S2P Require Import Prelude Effects GoStrings Api ConcurrentMap ClientIds Provider.

Module Server.
Import ConcurrentMap.
Open Scope Z_scope.
Open Scope list_scope.

(** ** The outside of the server *)

(** A provider object is an address, and is the first argument of its methods.
    [Subscribe] and [Publish] run beside the handler that calls them: their
    calls stand for the start of the method. *)
Inductive srv_call :=
  (* provider.Provider *)
  | PConnect (p : nat) (ctx : ClientIds.peer) (cf : ConnectionConfiguration) (tlsSkipVerify : bool)
  | PDisconnect (p : nat) (ctx : ClientIds.peer)
  | PClientExists (p : nat) (clientIdentifier : string)
  | PWaitForConnect (p : nat) (ctx : ClientIds.peer)
  | PSubscribe (p : nat) (ctx : ClientIds.peer) (source : Source)
  | PSupportedSourceOptions (p : nat)
  | PPublish (p : nat) (ctx : ClientIds.peer)
  | PPublishOne (p : nat) (ctx : ClientIds.peer) (msg : Message)
  | PAck (p : nat) (ctx : ClientIds.peer) (msgid : string)
  | PNack (p : nat) (ctx : ClientIds.peer) (msgid : string)
  | PRetry (p : nat) (ctx : ClientIds.peer) (source : option Source) (msgid : string) (delay : Z)
  | PDeadLetter (p : nat) (ctx : ClientIds.peer) (source : option Source) (msgid : string)
  | PSourceStats (p : nat) (ctx : ClientIds.peer) (source : Source)
  (* the streams of gRPC *)
  | SSendConsume (r : ConsumeResponse)
  | SSendPublish (r : MessageResponse)
  | SSendHealth (stream : nat) (h : Health)
  (* the process *)
  | SGetenv (key : string)
  | SSleepRandom (sleepMin sleepMax : Z)
  | SNow
  | SUUID.

Definition srv_reply (c : srv_call) : Type :=
  match c with
  | PConnect _ _ _ _ | PPublishOne _ _ _ | PAck _ _ _ | PNack _ _ _ | PDeadLetter _ _ _ _ => option Error
  | PRetry _ _ _ _ _ => option Source * option Error     (* the source, which it renames *)
  | PDisconnect _ _ | PSubscribe _ _ _ | PPublish _ _ | SSleepRandom _ _ => ()
  | PClientExists _ _ | PWaitForConnect _ _ => bool
  | PSupportedSourceOptions _ => list string
  | PSourceStats _ _ _ => SourceStats
  | SSendConsume _ | SSendPublish _ | SSendHealth _ _ => error
  | SGetenv _ | SUUID => string
  | SNow => Z
  end.

Definition Srv : Interface := {| icall := srv_call; ireply := srv_reply |}.

Abbreviation sev := (existT (P := λ c : icall Srv, outcome (ireply Srv c))).

(** The table of client identifiers is one for the process, so that the
    provider sees it too: it is part of the outside, read and written through
    this class. *)
Class Process (E : Type) := {
  ids : E → gmap string string;
  set_ids : gmap string string → E → E
}.

(** ** The state *)

Record server := {
  connectionMap : gmap string ConnectionConfiguration;
  registry : Provider.registry nat
}.

Definition set_connectionMap (m : gmap string ConnectionConfiguration) (s : server) : server := {|
  connectionMap := m; registry := registry s |}.
Definition set_registry (r : Provider.registry nat) (s : server) : server := {|
  connectionMap := connectionMap s; registry := r |}.

Abbreviation sprog E := (prog (world Srv E server)).

Definition EnvMaxConnectRetries : string := "MAX_RECONNECT_RETRIES".
Definition EnvMaxConnectDelay : string := "MAX_RECONNECT_DELAY".

Section server.
Context {E : Type} `{Oracle Srv E} `{Process E} `{MapRange}.

Definition call (c : srv_call) : sprog E (srv_reply c) := ext (I := Srv) c.

(** ** Clients and providers *)

Definition GetClientIdentifier (ctx : ClientIds.peer) : sprog E (string * error) := λ w,
  (Ret (ClientIds.GetClientIdentifier ctx (ids (env w))), w).

Definition SetClientIdentifier (ctx : ClientIds.peer) (name : string) : sprog E (string * error) := λ w,
  let '(r, m) := ClientIds.SetClientIdentifier ctx name (ids (env w)) in
  (Ret r, {| st := st w; env := set_ids m (env w); log := log w |}).

Definition GetProvider (providerType : string) : sprog E (option nat * error) := λ w,
  let '(o, r) := Provider.GetProvider providerType (registry (st w)) in
  (o, set_st (set_registry r (st w)) w).

(** A method of a provider, which may be nil. *)
Definition on_prov {A} (prov : option nat) (f : nat → sprog E A) : sprog E A :=
  match prov with
  | Some p => f p
  | None => panic "invalid memory address or nil pointer dereference"
  end.

(** The provider of the caller; without one there is an error to report. *)
Definition findProvider (ctx : ClientIds.peer) : sprog E (option nat * option Error) :=
  i ← GetClientIdentifier ctx;
  match i with
  | (_, Some err) => mret (None, Some (mkFatal err))
  | (clientIdentifier, None) =>
      s ← reads id;
      match Get clientIdentifier (connectionMap s) with
      | None => mret (None, Some (mkFatal "Failed to find connection information."))
      | Some cf =>
          r ← GetProvider (ProviderName cf);
          let '(prov, _) := (r : option nat * error) in
          mret (prov, None)
      end
  end.

Definition clientExists (ctx : ClientIds.peer) : sprog E bool :=
  i ← GetClientIdentifier ctx;
  match i with
  | (_, Some _) => mret false
  | (clientIdentifier, None) =>
      s ← reads id; mret (bool_decide (is_Some (Get clientIdentifier (connectionMap s))))
  end.

(** ** Connecting *)

Definition config_int (key : string) (def : Z) : sprog E Z :=
  val ← call (SGetenv key);
  match ClientIds.GetConfig (λ _, val) key (ClientIds.CInt def) with
  | ClientIds.CInt z => mret z
  | _ => panic "interface conversion: interface {} is not int"
  end.

(** No error, or one without a message. *)
Definition connected (errMsg : option Error) : bool := String.eqb (GetErrorMessage errMsg) "".

(** The loop, with the number of tries that are left; [errMsg] is the error of
    the last one. *)
Fixpoint connect_tries (tries : nat) (prov : option nat) (ctx : ClientIds.peer)
    (cf : ConnectionConfiguration) (tlsSkipVerify : bool) (maxSleep : Z) (errMsg : option Error) :
    sprog E (option Error) :=
  match tries with
  | O => mret errMsg
  | S tries' =>
      errMsg ← on_prov prov (λ p, call (PConnect p ctx cf tlsSkipVerify));
      if connected errMsg then mret errMsg
      else
        call (SSleepRandom 1000 maxSleep);;
        connect_tries tries' prov ctx cf tlsSkipVerify maxSleep errMsg
  end.

Definition connect_response (success : bool) (err : option Error) : ConnectResponse :=
  {| ConnectSuccess := success; ConnectError := err |}.

(** From the lookup of the identifier in [connectionMap] on. *)
Definition connect_client (prov : option nat) (ctx : ClientIds.peer) (cf : ConnectionConfiguration)
    (tlsSkipVerify : bool) (clientIdentifier : string) : sprog E (ConnectResponse * error) :=
  s ← reads id;
  match Get clientIdentifier (connectionMap s) with
  | Some _ => mret (connect_response true None, None)
  | None =>
      maxRetries ← config_int EnvMaxConnectRetries 5;
      maxSleep ← config_int EnvMaxConnectDelay 5000;
      errMsg ← connect_tries (Z.to_nat maxRetries) prov ctx cf tlsSkipVerify maxSleep None;
      if connected errMsg then
        writes (λ s, set_connectionMap (Add clientIdentifier cf (connectionMap s)) s);;
        mret (connect_response true errMsg, None)
      else mret (connect_response false errMsg, Some (GetErrorMessage errMsg))
  end.

(** The caller's identifier; one is made up for a caller without. *)
Definition client_identifier (ctx : ClientIds.peer) (clientName clientAddr : string) :
    sprog E (string * error) :=
  i ← GetClientIdentifier ctx;
  match i with
  | (_, Some _) => SetClientIdentifier ctx (if String.eqb clientName "" then clientAddr else clientName)
  | _ => mret i
  end.

Definition brokerConnect (ctx : ClientIds.peer) (cf : ConnectionConfiguration) (tlsSkipVerify : bool) :
    sprog E (ConnectResponse * error) :=
  r ← GetProvider (ProviderName cf);
  match r with
  | (_, Some er) => mret (connect_response false (Some (mkFatal er)), Some er)
  | (prov, None) =>
      match ClientIds.GetClientAddr ctx with
      | (_, Some err) => mret (connect_response false None, Some err)
      | (clientAddr, None) =>
          i ← client_identifier ctx (ClientName cf) clientAddr;
          match i with
          | (_, Some err) => mret (connect_response false None, Some err)
          | (clientIdentifier, None) => connect_client prov ctx cf tlsSkipVerify clientIdentifier
          end
      end
  end.

(** [Connect] of the two servers, each with its TLS setting. *)
Record ProducerServer := { ProducerTLSSkipVerify : bool }.
Record ConsumerServer := { ConsumerTLSSkipVerify : bool }.

Definition ProducerConnect (s : ProducerServer) (ctx : ClientIds.peer) (cf : ConnectionConfiguration) :=
  brokerConnect ctx cf (ProducerTLSSkipVerify s).
Definition ConsumerConnect (s : ConsumerServer) (ctx : ClientIds.peer) (cf : ConnectionConfiguration) :=
  brokerConnect ctx cf (ConsumerTLSSkipVerify s).

(** ** Disconnecting *)

Definition brokerDisconnect (ctx : ClientIds.peer) : sprog E () :=
  i ← GetClientIdentifier ctx;
  match i with
  | (_, Some _) => mret ()
  | (clientIdentifier, None) =>
      s ← reads id;
      match Get clientIdentifier (connectionMap s) with
      | None => mret ()
      | Some cf =>
          r ← GetProvider (ProviderName cf);
          let '(prov, _) := (r : option nat * error) in
          on_prov prov (λ p, call (PDisconnect p ctx));;
          writes (λ s, set_connectionMap (Delete clientIdentifier (connectionMap s)) s)
      end
  end.

(** [Disconnect] of the two servers never fails. *)
Definition Disconnect (ctx : ClientIds.peer) : sprog E error := brokerDisconnect ctx;; mret None.

(** ** Forgetting the clients the provider has dropped *)

Definition trim_one (connID : string) : sprog E () :=
  s ← reads id;
  match Get connID (connectionMap s) with
  | Some cf =>
      r ← GetProvider (ProviderName cf);
      match r with
      | (_, Some _) => mret ()
      | (prov, None) =>
          exist ← on_prov prov (λ p, call (PClientExists p connID));
          if (exist : bool) then mret ()
          else writes (λ s, set_connectionMap (Delete connID (connectionMap s)) s)
      end
  | None => writes (λ s, set_connectionMap (Delete connID (connectionMap s)) s)
  end.

Definition TrimConnectionList : sprog E () :=
  s ← reads id; for_each (GetList (connectionMap s)) trim_one.

(** The ticks of [ConnectionWatcher], until its context is done. *)
Fixpoint ConnectionWatcher (ticks : nat) : sprog E () :=
  match ticks with
  | O => mret ()
  | S ticks' => TrimConnectionList;; ConnectionWatcher ticks'
  end.

(** ** Unary calls *)

Definition publish_response (err : option Error) : MessageResponse := {|
  ResponseSuccess := match err with None => true | Some _ => false end; ResponseError := err |}.

Definition one_subject (msg : Message) : bool :=
  Nat.eqb (length (GetSubjects (MessageAddress msg))) 1.
Definition subject_error : Error := mkError "exactly one subject allowed in an Address with Publish".

Definition PublishOne (ctx : ClientIds.peer) (msg : Message) : sprog E (MessageResponse * error) :=
  r ← findProvider ctx;
  match r with
  | (None, findErr) =>
      mret ({| ResponseSuccess := false; ResponseError := findErr |}, Some (GetErrorMessage findErr))
  | (Some p, _) =>
      if negb (one_subject msg) then
        mret (publish_response (Some subject_error), Some (Message_ subject_error))
      else
        pubErr ← call (PPublishOne p ctx msg);
        mret (publish_response pubErr, Message_ <$> (pubErr : option Error))
  end.

(** It only logs what the provider returns. *)
Definition getSourceStats (ctx : ClientIds.peer) (source : Source) (p : nat) : sprog E SourceStats :=
  call (PSourceStats p ctx source).

Definition error_stats (e : option Error) : SourceStats := {|
  StatsError := e; MessageCount := 0; ConsumerCount := 0; LastOffset := 0; CurrentOffset := 0;
  StatsName := ""; PublishRate := S754_zero false; DeliverRate := S754_zero false |}.

Definition SourceStats (ctx : ClientIds.peer) (source : Source) : sprog E (Api.SourceStats * error) :=
  r ← findProvider ctx;
  match r with
  | (None, findErr) => mret (error_stats findErr, Some (GetErrorMessage findErr))
  | (Some p, _) => stats ← getSourceStats ctx source p; mret (stats, None)
  end.

Fixpoint stats_of (ctx : ClientIds.peer) (p : nat) (sources : list Source) : sprog E (list Api.SourceStats) :=
  match sources with
  | [] => mret []
  | source :: rest =>
      stats ← getSourceStats ctx source p;
      more ← stats_of ctx p rest;
      mret (stats :: more)
  end.

Definition SourceStatsGroup (ctx : ClientIds.peer) (sources : list Source) :
    sprog E (SourceStatsCollection * error) :=
  r ← findProvider ctx;
  match r with
  | (None, findErr) =>
      mret ({| CollectionError := findErr; CollectionStats := [] |}, Some (GetErrorMessage findErr))
  | (Some p, _) =>
      l ← stats_of ctx p sources;
      mret ({| CollectionError := None; CollectionStats := l |}, None)
  end.

(** ** The defaults of a source *)

Definition SetSourceDefaults (source : Source) : Source :=
  let source := if PrefetchCount source <? 1 then set_PrefetchCount 1 source else source in
  if AutoDelete source then
    match Options source !! "Expires" with
    | Some _ => source
    | None => set_Options (<["Expires" := "300000"]> (Options source)) source
    end
  else source.

End server.

(** ** Lemmas *)

Section lemmas.
Context {E : Type} `{Oracle Srv E} `{Process E} `{MR : MapRange}.
Implicit Types w : world Srv E server.

(** The provider [p] is the one of type [t]. *)
Definition provides (t : string) (p : nat) (s : server) : Prop :=
  Get t (Provider.registeredProviders (registry s)) = Some p.

Lemma GetProvider_run t p w : provides t p (st w) → GetProvider t w = (Ret (Some p, None), w).
Proof.
  intros Hp. unfold GetProvider. rewrite (Provider.GetProvider_cached _ _ _ Hp).
  by destruct w as [[] ? ?].
Qed.

Lemma srv_call_run c w :
  call c w = (fst (answer (I := Srv) c (env w)),
              {| st := st w; env := snd (answer (I := Srv) c (env w));
                 log := log w ++ [sev c (fst (answer (I := Srv) c (env w)))] |}).
Proof. unfold call, ext. by destruct (answer _ _). Qed.

Lemma GetClientIdentifier_bind {B} ctx (k : string * error → sprog E B) w :
  (GetClientIdentifier ctx ≫= k) w = k (ClientIds.GetClientIdentifier ctx (ids (env w))) w.
Proof. done. Qed.

(** The caller is a connected client with provider [p]. *)
Definition session (ctx : ClientIds.peer) (p : nat) (w : world Srv E server) : Prop :=
  ∃ cid cf, ClientIds.GetClientIdentifier ctx (ids (env w)) = (cid, None) ∧
            Get cid (connectionMap (st w)) = Some cf ∧ provides (ProviderName cf) p (st w).

Lemma findProvider_run ctx p w : session ctx p w → findProvider ctx w = (Ret (Some p, None), w).
Proof.
  intros (cid & cf & Hid & Hcf & Hp). unfold findProvider.
  rewrite GetClientIdentifier_bind, Hid, reads_bind. cbn [id]. rewrite Hcf.
  by rewrite (bind_run _ _ _ _ _ (GetProvider_run _ _ _ Hp)).
Qed.

Lemma findProvider_none ctx w :
  (∀ cid cf, ClientIds.GetClientIdentifier ctx (ids (env w)) = (cid, None) →
             Get cid (connectionMap (st w)) ≠ Some cf) →
  ∃ err, findProvider ctx w = (Ret (None, Some (mkFatal err)), w).
Proof.
  intros Hno. unfold findProvider. rewrite GetClientIdentifier_bind.
  destruct (ClientIds.GetClientIdentifier ctx (ids (env w))) as [cid [err|]] eqn:Hid; [by exists err|].
  rewrite reads_bind. cbn [id]. destruct (Get cid (connectionMap (st w))) as [cf|] eqn:Hcf; [|by eexists].
  by destruct (Hno cid cf).
Qed.

(** The number the value [s] of an environment variable stands for. *)
Definition config_value (key : string) (def : Z) (s : string) : Z :=
  match ClientIds.GetConfig (λ _, s) key (ClientIds.CInt def) with
  | ClientIds.CInt z => z
  | _ => def
  end.

Lemma config_int_run key def w s e :
  answer (I := Srv) (SGetenv key) (env w) = (Ret s, e) →
  config_int key def w =
    (Ret (config_value key def s), {| st := st w; env := e; log := log w ++ [sev (SGetenv key) (Ret s)] |}).
Proof.
  intros Ha. unfold config_int, config_value. erewrite bind_run by (rewrite srv_call_run, Ha; done). cbn [fst snd].
  by destruct (ClientIds.GetConfig_int (λ _, s) key def) as [z ->].
Qed.

(** *** The retry loop *)

(** The answers of the provider to the tries in a log. *)
Definition connect_reply (e : event Srv) : option (option Error) :=
  match e with
  | existT c o =>
      (match c return outcome (srv_reply c) → option (option Error) with
       | PConnect _ _ _ _ => λ o, match o with Ret r => Some r | _ => None end
       | _ => λ _, None
       end) o
  end.
Definition connect_replies (lg : list (event Srv)) : list (option Error) := omap connect_reply lg.

(** The answer to the client, given the answers to the tries. *)
Definition verdict (rs : list (option Error)) : option Error := default None (list.last rs).

(** At most [n] tries, all but the last one refused, and stopped early only by
    a success. *)
Definition tried (n : nat) (rs : list (option Error)) : Prop :=
  (length rs <= n)%nat ∧ (∀ i r, rs !! i = Some r → (S i < length rs)%nat → connected r = false) ∧
  ((length rs < n)%nat → rs ≠ [] ∧ connected (verdict rs) = true).

Lemma connect_tries_S n p ctx cf skip maxSleep err w :
  connect_tries (S n) (Some p) ctx cf skip maxSleep err w =
  (errMsg ← call (PConnect p ctx cf skip);
   if connected errMsg then mret errMsg
   else call (SSleepRandom 1000 maxSleep);; connect_tries n (Some p) ctx cf skip maxSleep errMsg) w.
Proof. done. Qed.

Lemma srv_call_returns `{!Returns Srv E} c w :
  ∃ r e, answer (I := Srv) c (env w) = (Ret r, e) ∧
    call c w = (Ret r, {| st := st w; env := e; log := log w ++ [sev c (Ret r)] |}).
Proof. destruct (returns c (env w)) as (r & e & He). exists r, e. by rewrite srv_call_run, He. Qed.

Lemma connect_replies_app l1 l2 : connect_replies (l1 ++ l2) = connect_replies l1 ++ connect_replies l2.
Proof. apply omap_app. Qed.

Lemma connect_tries_run `{!Returns Srv E} n p ctx cf skip maxSleep err w :
  ∃ w' lg, connect_tries n (Some p) ctx cf skip maxSleep err w =
      (Ret (default err (list.last (connect_replies lg))), w') ∧
    st w' = st w ∧ log w' = log w ++ lg ∧
    (length (connect_replies lg) <= n)%nat ∧
    (∀ i r, connect_replies lg !! i = Some r → (S i < length (connect_replies lg))%nat → connected r = false) ∧
    ((length (connect_replies lg) < n)%nat →
      connect_replies lg ≠ [] ∧ connected (verdict (connect_replies lg)) = true).
Proof.
  revert w err. induction n as [|n IH]; intros w err.
  { exists w, []. rewrite app_nil_r. cbn. split_and!; try done; lia. }
  rewrite connect_tries_S.
  destruct (srv_call_returns (PConnect p ctx cf skip) w) as (r & e & _ & Hc).
  rewrite (bind_run _ _ _ _ _ Hc). destruct (connected r) eqn:Hr.
  { eexists _, [sev (PConnect p ctx cf skip) (Ret r)]. split; [done|]. split; [done|]. split; [done|]. cbn. split_and!; [lia| |by intros _].
    intros [|i] r' Hi Hlt; lia. }
  set (w1 := {| st := st w; env := e; log := _ |}).
  destruct (srv_call_returns (SSleepRandom 1000 maxSleep) w1) as ([] & e2 & _ & Hs).
  rewrite (bind_run _ _ _ _ _ Hs). set (w2 := {| st := st w1; env := e2; log := _ |}).
  destruct (IH w2 r) as (w' & lg & Hw' & Hst & Hlog & Hle & Hall & Hstop).
  set (lg' := sev (PConnect p ctx cf skip) (Ret r) :: sev (SSleepRandom 1000 maxSleep) (Ret ()) :: lg).
  assert (connect_replies lg' = r :: connect_replies lg) as Hcr by done.
  exists w', lg'. rewrite Hcr, Hw'. clear Hcr. set (rs := connect_replies lg) in *. clearbody rs.
  split; [rewrite list.last_cons; by destruct (list.last rs)|]. split; [done|].
  split; [rewrite Hlog; cbn; by rewrite <- !app_assoc|]. cbn [length]. split; [lia|]. split.
  - intros [|i] r' Hi Hlt; cbn in Hi; [by simplify_eq|]. apply (Hall i r' Hi). lia.
  - intros Hlt. destruct (Hstop ltac:(lia)) as [Hne Hv]. split; [done|]. unfold verdict in *.
    rewrite list.last_cons. destruct (list.last rs) eqn:Hl; [done|]. by apply last_None in Hl.
Qed.

End lemmas.

(** ** Properties *)

Section properties.
Context {E : Type} `{Oracle Srv E} `{Process E} `{MR : MapRange}.
Implicit Types w : world Srv E server.

(** The number of tries a value of [MAX_RECONNECT_RETRIES] asks for. *)
Definition retries (s : string) : nat := Z.to_nat (config_value EnvMaxConnectRetries 5 s).

(** C14: Connecting a client the server does not know: its provider is asked at
    most as often as MAX_RECONNECT_RETRIES says, and no more once it has
    accepted. The client is told the answer to the last try, success being no
    error or one without a message, and the server remembers its configuration
    exactly on success. *)
Theorem connect_retries `{!Returns Srv E} p ctx cf skip cid w s e :
  Get cid (connectionMap (st w)) = None →
  answer (I := Srv) (SGetenv EnvMaxConnectRetries) (env w) = (Ret s, e) →
  let '(o, w') := connect_client (Some p) ctx cf skip cid w in
  ∃ lg, log w' = log w ++ lg ∧ tried (retries s) (connect_replies lg) ∧
    let r := verdict (connect_replies lg) in
    o = Ret (connect_response (connected r) r, if connected r then None else Some (GetErrorMessage r)) ∧
    connectionMap (st w') =
      if connected r then <[cid := cf]> (connectionMap (st w)) else connectionMap (st w).
Proof.
  intros Hg Ha. unfold connect_client. rewrite reads_bind. cbn [id]. rewrite Hg.
  rewrite (bind_run _ _ _ _ _ (config_int_run EnvMaxConnectRetries 5 w s e Ha)). fold (retries s).
  set (w1 := {| st := st w; env := e; log := _ |}).
  destruct (srv_call_returns (SGetenv EnvMaxConnectDelay) w1) as (s2 & e2 & Ha2 & _).
  rewrite (bind_run _ _ _ _ _ (config_int_run EnvMaxConnectDelay 5000 w1 s2 e2 Ha2)).
  set (w2 := {| st := st w1; env := e2; log := _ |}).
  destruct (connect_tries_run (retries s) p ctx cf skip
    (config_value EnvMaxConnectDelay 5000 s2) None w2) as (w3 & lg & Hw3 & Hst & Hlog & Htried).
  rewrite (bind_run _ _ _ _ _ Hw3). fold (verdict (connect_replies lg)).
  set (lg0 := sev (SGetenv EnvMaxConnectRetries) (Ret s) :: sev (SGetenv EnvMaxConnectDelay) (Ret s2) :: lg).
  assert (connect_replies lg0 = connect_replies lg) as Hcr by done.
  assert (log w3 = log w ++ lg0) as Hlog3 by (rewrite Hlog; cbn; by rewrite <- !app_assoc).
  clearbody lg0. change (tried (retries s) (connect_replies lg)) in Htried.
  destruct (connected (verdict (connect_replies lg))) eqn:Hc;
    (exists lg0; rewrite Hcr; split; [done|split; [exact Htried|]]; cbv zeta; rewrite Hc;
     split; [done|]; cbn; by rewrite Hst).
Qed.
End properties.

(** ** A concrete outside, for running the model

    A provider in memory that accepts every client, in a process with no
    environment; [over] replaces the outcome of the calls it answers. *)
Definition memory : Type := gmap string string * gset string.

#[global] Instance memory_process : Process memory := {| ids := fst; set_ids m e := (m, snd e) |}.

Definition memory_srv (over : ∀ c : srv_call, option (outcome (srv_reply c))) : Oracle Srv memory :=
  λ c e,
    let cid ctx := fst (ClientIds.GetClientIdentifier ctx (fst e)) in
    let new := match c with
               | PConnect _ ctx _ _ => (fst e, {[ cid ctx ]} ∪ snd e)
               | PDisconnect _ ctx => (fst e, snd e ∖ {[ cid ctx ]})
               | _ => e
               end in
    match over c with
    | Some o => (o, e)
    | None =>
        (match c return outcome (srv_reply c) with
         | PConnect _ _ _ _ => Ret None | PPublishOne _ _ _ => Ret None
         | PAck _ _ _ => Ret None | PNack _ _ _ => Ret None | PDeadLetter _ _ _ _ => Ret None
         | PRetry _ _ source _ _ => Ret (source, None)
         | PDisconnect _ _ => Ret () | PSubscribe _ _ _ => Ret () | PPublish _ _ => Ret ()
         | SSleepRandom _ _ => Ret ()
         | PClientExists _ cid => Ret (bool_decide (cid ∈ snd e))
         | PWaitForConnect _ _ => Ret true
         | PSupportedSourceOptions _ => Ret ["MessageTTL"; "DeadLetterAddress"; "Expires"]
         | PSourceStats _ _ _ => Ret zero_SourceStats
         | SSendConsume _ => Ret None | SSendPublish _ => Ret None | SSendHealth _ _ => Ret None
         | SGetenv _ => Ret "" | SUUID => Ret "9f7c" | SNow => Ret 0
         end, new)
    end.

Definition ok_srv : Oracle Srv memory := memory_srv (λ _, None).

Lemma ok_srv_returns : @Returns Srv memory ok_srv.
Proof. intros c e. destruct c; by eexists _, _. Qed.

(** The registry after the first client has connected, and a server on it. *)
Definition demo_registry : Provider.registry nat := {|
  Provider.registeredProviderTypes := {[ "amqp091" := λ _, Some 0%nat ]};
  Provider.registeredProviders := {[ "amqp091" := 0%nat ]}; Provider.providerVault := {[ "amqp091" := 0%nat ]};
  Provider.onces := [true]; Provider.created := 1 |}.

Definition demo_peer : ClientIds.peer := Some "10.0.0.7:4711".
Definition demo_config : ConnectionConfiguration := {|
  Host := "rabbit"; Port := 5672; ProviderName := "amqp091"; Tenant := "";
  Creds := None; Tls := false; ClientName := "c"; AdminPort := 0 |}.

Definition demo_server (known : gmap string ConnectionConfiguration) : server := {|
  connectionMap := known; registry := demo_registry |}.

(** The peer is the client "c-1", with or without a session. *)
Definition demo_world (known : gmap string ConnectionConfiguration) : world Srv memory server :=
  {| st := demo_server known; env := ({[ "10.0.0.7:4711" := "c-1" ]}, dom known); log := [] |}.

(** A provider that refuses every client. *)
Definition refusing_srv : Oracle Srv memory :=
  memory_srv (λ c, match c with PConnect _ _ _ _ => Some (Ret (Some (mkError "refused"))) | _ => None end).
Lemma refusing_srv_returns : @Returns Srv memory refusing_srv.
Proof. intros c e. destruct c; by eexists _, _. Qed.

Lemma connect_retries_witness (O := refusing_srv) :
  ∃ lg, tried 5 (connect_replies lg) ∧
    run_result (connect_client (Some 0%nat) demo_peer demo_config false "c-1") (demo_world ∅) =
      Ret (connect_response false (Some (mkError "refused")), Some "refused").
Proof.
  pose proof (connect_retries (Returns0 := refusing_srv_returns) 0 demo_peer demo_config false "c-1"
    (demo_world ∅) "" (env (demo_world ∅)) eq_refl eq_refl) as Hr.
  assert (run_result (connect_client (Some 0%nat) demo_peer demo_config false "c-1") (demo_world ∅) =
      Ret (connect_response false (Some (mkError "refused")), Some "refused")) as Ho by reflexivity.
  rewrite Ho. unfold run_result in Ho.
  destruct (connect_client (Some 0%nat) demo_peer demo_config false "c-1" (demo_world ∅)) as [o w'].
  destruct Hr as (lg & _ & Ht & _). exists lg. split; [exact Ht|reflexivity].
Defined.

(** When the configuration asks for no try at all, a client is told that it is
    connected although its provider was never asked. *)
Lemma connect_without_trying {E : Type} `{Oracle Srv E} p ctx cf skip maxSleep (w : world Srv E server) :
  connect_tries 0 p ctx cf skip maxSleep None w = (Ret None, w) ∧ connected None = true.
Proof. done. Qed.

End Server.
