(* ===== verification/Sessions.v ===== *)
(** * Sessions: what the server promises about connected clients

    An abstract specification of the clients of the server: which are known to
    it, and which of them the provider holds. The class [Roster] states what
    the server relies on from a provider; against it, connecting,
    disconnecting and trimming are shown to implement the specification. *)

From Stdlib Require Import Ascii String.
From stdpp Require Import base gmap strings list fin_maps fin_sets option relations.
From Stdlib Require Import ZArith Lia.
From S2P Require Import Prelude Effects GoStrings Api ConcurrentMap ClientIds Provider Server.

Module Sessions.
Import ConcurrentMap Server.
Open Scope Z_scope.
Open Scope list_scope.

(** ** The interface between the server and a provider *)

(** The provider [p] keeps a set of clients. [Connect] enters the caller
    exactly when it reports no error, [Disconnect] removes it, [ClientExists]
    answers for the set, and nothing the server asks changes it otherwise. The
    laws hold in the states the provider calls [healthy], which its calls
    keep. *)
Class Roster (p : nat) (E : Type) `{Oracle Srv E, Process E} := {
  roster : E → gset string;
  healthy : E → Prop;
  ids_set m e : ids (set_ids m e) = m;
  roster_set m e : roster (set_ids m e) = roster e;
  healthy_set m e : healthy e → healthy (set_ids m e);
  roster_exists cid e : healthy e → ∃ e',
    answer (I := Srv) (PClientExists p cid) e = (Ret (bool_decide (cid ∈ roster e)), e') ∧
    roster e' = roster e ∧ ids e' = ids e ∧ healthy e';
  roster_connect ctx cf skip cid e : healthy e →
    ClientIds.GetClientIdentifier ctx (ids e) = (cid, None) → ∃ r e',
    answer (I := Srv) (PConnect p ctx cf skip) e = (Ret r, e') ∧
    roster e' = match r with None => {[cid]} ∪ roster e | Some _ => roster e end ∧
    ids e' = ids e ∧ healthy e';
  roster_disconnect ctx cid e : healthy e →
    ClientIds.GetClientIdentifier ctx (ids e) = (cid, None) → ∃ e',
    answer (I := Srv) (PDisconnect p ctx) e = (Ret (), e') ∧
    roster e' = roster e ∖ {[cid]} ∧ ids e' = ids e ∧ healthy e';
  roster_process c e : healthy e →
    (∃ k, c = SGetenv k) ∨ (∃ a b, c = SSleepRandom a b) → ∃ r e',
    answer (I := Srv) c e = (Ret r, e') ∧ roster e' = roster e ∧ ids e' = ids e ∧ healthy e'
}.

(** ** The specification *)

Record sessions := { known : gmap string ConnectionConfiguration; live : gset string }.

(** What can happen to the sessions: a client connects, and is told whether it
    worked; it disconnects; the server forgets the dead; the provider drops a
    client on its own. *)
Inductive session_event :=
  | EvConnect (cid : string) (cf : ConnectionConfiguration) (success : bool)
  | EvDisconnect (cid : string)
  | EvTrim
  | EvDrop (cid : string).

Inductive session_step : sessions → session_event → sessions → Prop :=
  | step_again s cid cf :
      is_Some (known s !! cid) → session_step s (EvConnect cid cf true) s
  | step_accepted s cid cf :
      known s !! cid = None →
      session_step s (EvConnect cid cf true) {| known := <[cid := cf]> (known s); live := {[cid]} ∪ live s |}
  | step_refused s cid cf :
      known s !! cid = None → session_step s (EvConnect cid cf false) s
  | step_blank s cid cf :   (* refused without a message, or not tried at all *)
      known s !! cid = None →
      session_step s (EvConnect cid cf true) {| known := <[cid := cf]> (known s); live := live s |}
  | step_disconnect s cid :
      is_Some (known s !! cid) →
      session_step s (EvDisconnect cid) {| known := delete cid (known s); live := live s ∖ {[cid]} |}
  | step_stranger s cid :
      known s !! cid = None → session_step s (EvDisconnect cid) s
  | step_trim s :
      session_step s EvTrim {| known := filter (λ kv, kv.1 ∈ live s) (known s); live := live s |}
  | step_drop s cid :
      session_step s (EvDrop cid) {| known := known s; live := live s ∖ {[cid]} |}.

(** The provider holds no client the server does not know. *)
Definition no_orphans (s : sessions) : Prop := live s ⊆ dom (known s).

Lemma no_orphans_step s e s' : session_step s e s' → no_orphans s → no_orphans s'.
Proof.
  unfold no_orphans. intros Hs Hn. destruct Hs; cbn; try done; try set_solver.
  intros cid Hc. specialize (Hn cid Hc). apply elem_of_dom in Hn as [cf Hcf].
    apply elem_of_dom. exists cf. by apply map_lookup_filter_Some.
Qed.

(** ** The implementation *)

Inductive server_op :=
  | OpConnect (ctx : ClientIds.peer) (cf : ConnectionConfiguration) (tlsSkipVerify : bool)
  | OpDisconnect (ctx : ClientIds.peer)
  | OpTrim.

Section refinement.
Context {p : nat} {E : Type} `{Roster p E} `{MR : MapRange}.
Implicit Types w : world Srv E server.

(** The answer is what [Connect] tells the client. *)
Definition apply_op (o : server_op) : sprog E bool :=
  match o with
  | OpConnect ctx cf skip => r ← brokerConnect ctx cf skip; mret (ConnectSuccess (fst r))
  | OpDisconnect ctx => brokerDisconnect ctx;; mret true
  | OpTrim => TrimConnectionList;; mret true
  end.

(** The abstract state of a server. *)
Definition abstract w : sessions := {| known := connectionMap (st w); live := roster (p := p) (env w) |}.

(** Every client's configuration names the provider [p], the provider is
    well, and the registry has it. *)
Definition served w : Prop :=
  healthy (p := p) (env w) ∧
  ∀ cid cf, Get cid (connectionMap (st w)) = Some cf → provides (ProviderName cf) p (st w).

Lemma config_int_ok key def w : healthy (p := p) (env w) → ∃ z w', config_int key def w = (Ret z, w') ∧
  st w' = st w ∧ roster (p := p) (env w') = roster (env w) ∧ ids (env w') = ids (env w) ∧
  healthy (p := p) (env w').
Proof.
  intros Hh. destruct (roster_process (SGetenv key) (env w) Hh) as (s & e & Ha & Hr & Hi & Hh').
  { left. by eexists. }
  eexists _, _. split; [exact (config_int_run key def w s e Ha)|done].
Qed.

(** The loop leaves the provider with the client exactly when the last try
    reported no error. *)
Lemma connect_tries_ok n ctx cf skip maxSleep cid w :
  healthy (p := p) (env w) → ClientIds.GetClientIdentifier ctx (ids (env w)) = (cid, None) →
  ∃ r w', connect_tries n (Some p) ctx cf skip maxSleep None w = (Ret r, w') ∧ st w' = st w ∧
    ids (env w') = ids (env w) ∧ healthy (p := p) (env w') ∧
    (roster (p := p) (env w') = {[cid]} ∪ roster (env w) ∧ connected r = true ∨
     roster (p := p) (env w') = roster (env w)).
Proof.
  generalize (None : option Error). revert w. induction n as [|n IH]; intros w err Hh Hid.
  { exists err, w. split_and!; try done. by right. }
  rewrite connect_tries_S.
  destruct (roster_connect ctx cf skip cid (env w) Hh Hid) as (r & e & Ha & Hr & Hi & Hh').
  erewrite bind_run by (rewrite srv_call_run, Ha; done). cbn [fst snd].
  set (w1 := {| st := st w; env := e; log := _ |}).
  destruct (connected r) eqn:Hc.
  - exists r, w1. split_and!; try done. destruct r; [by right|by left].
  - destruct r as [er|]; [|done].
    destruct (roster_process (SSleepRandom 1000 maxSleep) e Hh') as ([] & e2 & Ha2 & Hr2 & Hi2 & Hh2).
    { right. by eexists _, _. }
    erewrite bind_run by (rewrite srv_call_run; cbn [env w1]; rewrite Ha2; done). cbn [fst snd].
    set (w2 := {| st := st w1; env := e2; log := _ |}).
    destruct (IH w2 (Some er)) as (r' & w' & Hw' & Hst & Hi' & Hh3 & Hro); [done|cbn; congruence|].
    exists r', w'. rewrite Hw'. cbn in Hst, Hi', Hro. split_and!; try done; [congruence|].
    rewrite Hr2, Hr in Hro. exact Hro.
Qed.

(** [connect_client] is a step of the specification. *)
Lemma connect_client_step ctx cf skip cid w :
  served w → provides (ProviderName cf) p (st w) →
  ClientIds.GetClientIdentifier ctx (ids (env w)) = (cid, None) →
  ∃ r er w', connect_client (Some p) ctx cf skip cid w = (Ret (r, er), w') ∧ served w' ∧
    session_step (abstract w) (EvConnect cid cf (ConnectSuccess r)) (abstract w') ∧
    registry (st w') = registry (st w).
Proof.
  intros [Hh Hs] Hp Hid. unfold connect_client. rewrite reads_bind. cbn [id].
  destruct (Get cid (connectionMap (st w))) as [cf0|] eqn:Hg.
  { eexists _, _, w. split; [done|]. split; [done|]. split; [|done]. apply step_again. by eexists. }
  destruct (config_int_ok EnvMaxConnectRetries 5 w Hh) as (n & w1 & Hw1 & Hst1 & Hr1 & Hi1 & Hh1).
  rewrite (bind_run _ _ _ _ _ Hw1).
  destruct (config_int_ok EnvMaxConnectDelay 5000 w1 Hh1) as (d & w2 & Hw2 & Hst2 & Hr2 & Hi2 & Hh2).
  rewrite (bind_run _ _ _ _ _ Hw2).
  destruct (connect_tries_ok (Z.to_nat n) ctx cf skip d cid w2 Hh2) as (r & w3 & Hw3 & Hst3 & Hi3 & Hh3 & Hro);
    [congruence|].
  rewrite (bind_run _ _ _ _ _ Hw3).
  assert (st w3 = st w) as Hst by congruence.
  assert (roster (p := p) (env w2) = roster (env w)) as Hro2 by congruence. rewrite Hro2 in Hro.
  destruct (connected r) eqn:Hc.
  - eexists _, _, _. split; [done|]. split; [|split].
    + split; [exact Hh3|]. cbn. intros cid' cf'. rewrite Hst, Get_Add. case_decide; [intros [= <-]; done|].
      apply Hs.
    + unfold abstract. cbn. rewrite Hst. unfold Get in Hg. destruct Hro as [[-> _]| ->].
      * by apply (step_accepted {| known := connectionMap (st w); live := roster (env w) |}).
      * by apply (step_blank {| known := connectionMap (st w); live := roster (env w) |}).
    + cbn. by rewrite Hst.
  - destruct Hro as [[_ [=]]|Hro]. eexists _, _, w3. split; [done|]. split; [|split; [|by rewrite Hst]].
    + split; [exact Hh3|]. by rewrite Hst.
    + unfold abstract. rewrite Hst, Hro.
      by apply (step_refused {| known := connectionMap (st w); live := roster (env w) |}).
Qed.

(** Whom a context that connects speaks for: its identifier, which is made now
    when it has none. *)
Definition identified (ctx : ClientIds.peer) (cf : ConnectionConfiguration) (ids : gmap string string) :
    string * gmap string string :=
  match ClientIds.GetClientIdentifier ctx ids with
  | (cid, None) => (cid, ids)
  | _ =>
      let '(r, m) := ClientIds.SetClientIdentifier ctx
        (if String.eqb (ClientName cf) "" then fst (ClientIds.GetClientAddr ctx) else ClientName cf) ids in
      (fst r, m)
  end.

Lemma client_identifier_run ctx cf addr w :
  ClientIds.GetClientAddr ctx = (addr, None) →
  let '(cid, m) := identified ctx cf (ids (env w)) in
  ∃ w', client_identifier ctx (ClientName cf) addr w = (Ret (cid, None), w') ∧ st w' = st w ∧
        (env w' = env w ∧ m = ids (env w) ∨ env w' = set_ids m (env w)) ∧
        ClientIds.GetClientIdentifier ctx m = (cid, None).
Proof.
  intros Ha. unfold identified, client_identifier. rewrite GetClientIdentifier_bind.
  destruct (ClientIds.GetClientIdentifier ctx (ids (env w))) as [cid [err|]] eqn:Hid.
  - unfold SetClientIdentifier, ClientIds.SetClientIdentifier. rewrite Ha. cbn [fst].
    eexists. split; [done|]. split; [done|]. split; [by right|].
    unfold ClientIds.GetClientIdentifier. by rewrite Ha, Get_Add, decide_True.
  - exists w. split_and!; try done. by left.
Qed.

Lemma served_same w w' : st w' = st w → healthy (p := p) (env w') → served w → served w'.
Proof. intros Hst Hh [_ Hs]. split; [done|]. by rewrite Hst. Qed.

Lemma provides_registry t s s' : registry s' = registry s → provides t p s → provides t p s'.
Proof. unfold provides. by intros ->. Qed.

(** *** [TrimConnectionList] *)

Lemma trim_one_run cid w : served w →
  ∃ w', trim_one cid w = (Ret (), w') ∧ served w' ∧ roster (p := p) (env w') = roster (env w) ∧
    ids (env w') = ids (env w) ∧ registry (st w') = registry (st w) ∧
    connectionMap (st w') =
      (if decide (cid ∈ roster (p := p) (env w)) then connectionMap (st w) else delete cid (connectionMap (st w))).
Proof.
  intros Hs. pose proof Hs as [Hh Hp]. unfold trim_one. rewrite reads_bind. cbn [id].
  destruct (Get cid (connectionMap (st w))) as [cf|] eqn:Hg.
  2: { eexists. split; [done|]. unfold Get in Hg. cbn.
       assert (Delete cid (connectionMap (st w)) = connectionMap (st w)) as Hd by (by apply delete_id).
       rewrite Hd. replace (set_connectionMap (connectionMap (st w)) (st w)) with (st w) by (by destruct w as [[]]).
       split_and!; try done. by case_decide. }
  rewrite (bind_run _ _ _ _ _ (GetProvider_run _ _ _ (Hp _ _ Hg))). cbn [on_prov].
  destruct (roster_exists cid (env w) Hh) as (e & Ha & Hr & Hi & Hh').
  erewrite bind_run by (rewrite srv_call_run, Ha; done). cbn [fst snd].
  case_bool_decide as Hin; [rewrite decide_True by done|rewrite decide_False by done].
  - eexists. by split_and!.
  - eexists. split; [done|]. split_and!; try done. split; [done|]. cbn. intros cid' cf'.
    rewrite Get_Delete. case_decide; [done|]. apply Hp.
Qed.

Lemma trim_loop_run l w : served w →
  ∃ w', for_each l trim_one w = (Ret (), w') ∧ served w' ∧ roster (p := p) (env w') = roster (env w) ∧
    ids (env w') = ids (env w) ∧ registry (st w') = registry (st w) ∧
    connectionMap (st w') =
      filter (λ kv, kv.1 ∉ l ∨ kv.1 ∈ roster (p := p) (env w)) (connectionMap (st w)).
Proof.
  revert w. induction l as [|cid l IH]; intros w Hs.
  { exists w. split; [done|]. split; [done|]. split_and!; try done.
    symmetry. apply map_filter_id. intros i x _. left. cbn. set_solver. }
  cbn [for_each]. destruct (trim_one_run cid w Hs) as (w1 & Hw1 & Hs1 & Hr1 & Hi1 & Hg1 & Hm1).
  rewrite (bind_run _ _ _ _ _ Hw1).
  destruct (IH w1 Hs1) as (w' & Hw' & Hs' & Hr' & Hi' & Hg' & Hm').
  exists w'. split; [done|]. split; [done|]. split_and!; [congruence..|]. rewrite Hm', Hm1, Hr1.
  apply map_eq. intros k. apply option_eq. intros x. rewrite !map_lookup_filter_Some. cbn.
  case_decide as Hin; [|rewrite lookup_delete_Some]; destruct (decide (k = cid)) as [->|Hk]; set_solver.
Qed.

Lemma trim_step w : served w →
  ∃ w', TrimConnectionList w = (Ret (), w') ∧ served w' ∧ registry (st w') = registry (st w) ∧
        session_step (abstract w) EvTrim (abstract w').
Proof.
  intros Hs. unfold TrimConnectionList. rewrite reads_bind. cbn [id].
  destruct (trim_loop_run (GetList (connectionMap (st w))) w Hs) as (w' & Hw' & Hs' & Hr & _ & Hg & Hm).
  exists w'. split_and!; try done. unfold abstract. rewrite Hr, Hm.
  replace (filter _ (connectionMap (st w))) with
    (filter (λ kv, kv.1 ∈ roster (p := p) (env w)) (connectionMap (st w))).
  { apply (step_trim {| known := connectionMap (st w); live := roster (env w) |}). }
  apply map_filter_ext. intros k x Hk. cbn. split; [by right|]. intros [Hn|?]; [|done].
  destruct Hn. apply elem_of_GetList. by eexists.
Qed.

(** *** [brokerDisconnect] *)

Lemma disconnect_step ctx w : served w →
  ∃ w', brokerDisconnect ctx w = (Ret (), w') ∧ served w' ∧ registry (st w') = registry (st w) ∧
    match ClientIds.GetClientIdentifier ctx (ids (env w)) with
    | (cid, None) => session_step (abstract w) (EvDisconnect cid) (abstract w')
    | _ => abstract w' = abstract w
    end.
Proof.
  intros Hs. pose proof Hs as [Hh Hp]. unfold brokerDisconnect. rewrite GetClientIdentifier_bind.
  destruct (ClientIds.GetClientIdentifier ctx (ids (env w))) as [cid [err|]] eqn:Hid; [by exists w|].
  rewrite reads_bind. cbn [id]. destruct (Get cid (connectionMap (st w))) as [cf|] eqn:Hg.
  2: { exists w. split_and!; try done. by apply step_stranger. }
  rewrite (bind_run _ _ _ _ _ (GetProvider_run _ _ _ (Hp _ _ Hg))). cbn [on_prov].
  destruct (roster_disconnect ctx cid (env w) Hh Hid) as (e & Ha & Hr & Hi & Hh').
  erewrite bind_run by (rewrite srv_call_run, Ha; done). cbn [fst snd].
  eexists. split; [done|]. split; [|split; [done|]].
  - split; [done|]. cbn. intros cid' cf'. rewrite Get_Delete. case_decide; [done|]. apply Hp.
  - unfold abstract. cbn. rewrite Hr.
    apply (step_disconnect {| known := connectionMap (st w); live := roster (env w) |}). by eexists.
Qed.

(** *** [brokerConnect] *)

Lemma connect_step ctx cf skip w : served w → provides (ProviderName cf) p (st w) →
  ∃ r er w', brokerConnect ctx cf skip w = (Ret (r, er), w') ∧ served w' ∧
    registry (st w') = registry (st w) ∧
    match ClientIds.GetClientAddr ctx with
    | (_, None) => session_step (abstract w)
                     (EvConnect (fst (identified ctx cf (ids (env w)))) cf (ConnectSuccess r)) (abstract w')
    | _ => abstract w' = abstract w ∧ ConnectSuccess r = false
    end.
Proof.
  intros Hs Hp. unfold brokerConnect. rewrite (bind_run _ _ _ _ _ (GetProvider_run _ _ _ Hp)).
  destruct (ClientIds.GetClientAddr ctx) as [addr [err|]] eqn:Ha; [by eexists _, _, w|].
  pose proof (client_identifier_run ctx cf addr w Ha) as Hc.
  destruct (identified ctx cf (ids (env w))) as [cid m]. destruct Hc as (w1 & Hw1 & Hst & Henv & Hid).
  rewrite (bind_run _ _ _ _ _ Hw1).
  assert (healthy (p := p) (env w1) ∧ roster (p := p) (env w1) = roster (env w) ∧ ids (env w1) = m)
    as (Hh1 & Hr1 & Hi1).
  { destruct Henv as [[-> ->]| ->]; [by destruct Hs|].
    split_and!; [by apply healthy_set, Hs|by apply roster_set|by apply ids_set]. }
  destruct (connect_client_step ctx cf skip cid w1) as (r & er & w' & Hw' & Hs' & Hstep & Hg);
    [by apply (served_same w)|by rewrite Hst|by rewrite Hi1|].
  exists r, er, w'. split; [done|]. split; [done|]. split; [by rewrite Hg, Hst|].
  replace (abstract w) with (abstract w1); [done|]. unfold abstract. by rewrite Hst, Hr1.
Qed.

(** The event an operation stands for, given its answer; none when the caller
    has no address or no identifier. *)
Definition op_event (o : server_op) (r : bool) w : option session_event :=
  match o with
  | OpConnect ctx cf _ =>
      match ClientIds.GetClientAddr ctx with
      | (_, None) => Some (EvConnect (fst (identified ctx cf (ids (env w)))) cf r)
      | _ => None
      end
  | OpDisconnect ctx =>
      match ClientIds.GetClientIdentifier ctx (ids (env w)) with
      | (cid, None) => Some (EvDisconnect cid)
      | _ => None
      end
  | OpTrim => Some EvTrim
  end.

Definition op_ok (o : server_op) w : Prop :=
  match o with OpConnect _ cf _ => provides (ProviderName cf) p (st w) | _ => True end.

(** The step an operation makes. *)
Lemma op_refines o w : served w → op_ok o w →
  ∃ r w', apply_op o w = (Ret r, w') ∧ served w' ∧ registry (st w') = registry (st w) ∧
    match op_event o r w with
    | Some e => session_step (abstract w) e (abstract w')
    | None => abstract w' = abstract w
    end.
Proof.
  intros Hs Hok. destruct o as [ctx cf skip|ctx|]; cbn [apply_op op_event].
  - destruct (connect_step ctx cf skip w Hs Hok) as (r & er & w' & Hw' & Hs' & Hg & Hstep).
    rewrite (bind_run _ _ _ _ _ Hw'). eexists _, w'. split; [done|]. split; [done|]. split; [done|].
    destruct (ClientIds.GetClientAddr ctx) as [addr [err|]]; [by destruct Hstep|done].
  - destruct (disconnect_step ctx w Hs) as (w' & Hw' & Hs' & Hg & Hstep).
    rewrite (bind_run _ _ _ _ _ Hw'). eexists _, w'. split; [done|]. split; [done|]. split; [done|].
    destruct (ClientIds.GetClientIdentifier ctx (ids (env w))) as [cid [err|]]; done.
  - destruct (trim_step w Hs) as (w' & Hw' & Hs' & Hg & Hstep).
    rewrite (bind_run _ _ _ _ _ Hw'). by eexists _, w'.
Qed.

(** A sequence of operations, with the answers. *)
Fixpoint apply_ops (os : list server_op) : sprog E (list bool) :=
  match os with
  | [] => mret []
  | o :: rest => r ← apply_op o; rs ← apply_ops rest; mret (r :: rs)
  end.

(** It returns, and leaves no client with the provider that the server does
    not know. *)
Lemma ops_refine os w : served w → Forall (λ o, op_ok o w) os → no_orphans (abstract w) →
  ∃ rs w', apply_ops os w = (Ret rs, w') ∧ served w' ∧ no_orphans (abstract w').
Proof.
  revert w. induction os as [|o os IH]; intros w Hs Hok Hno; [by exists [], w|].
  apply Forall_cons_iff in Hok as [Ho Hok]. cbn [apply_ops].
  destruct (op_refines o w Hs Ho) as (r & w1 & Hw1 & Hs1 & Hreg & Hstep).
  rewrite (bind_run _ _ _ _ _ Hw1). destruct (IH w1 Hs1) as (rs & w2 & Hw2 & Hs2 & Hno2).
  - eapply Forall_impl; [exact Hok|]. intros [ctx cf skip|ctx|]; [|done..]. by apply provides_registry.
  - destruct (op_event o r w) as [e|]; [by eapply no_orphans_step|by rewrite Hstep].
  - rewrite (bind_run _ _ _ _ _ Hw2). by eexists _, w2.
Qed.

(** ** Properties *)

(** C2: Every operation on connections implements the specification of
    sessions: it returns, and the server's table together with the provider's
    clients makes the step of a connect, a disconnect or a trim. A client that
    is connected is not connected again, one that the provider accepts is known
    to both, one that disconnects is known to neither, and a trim keeps exactly
    the clients the provider still has. *)
Theorem server_refines_sessions o w : served w → op_ok o w →
  ∃ r w', apply_op o w = (Ret r, w') ∧ served w' ∧ registry (st w') = registry (st w) ∧
    match op_event o r w with
    | Some e => session_step (abstract w) e (abstract w')
    | None => abstract w' = abstract w
    end.
Proof. apply op_refines. Qed.

End refinement.

(** ** The provider in memory keeps the laws *)

#[global] Instance memory_roster (p : nat) : @Roster p memory ok_srv memory_process.
Proof.
  refine {| roster := snd; healthy _ := True |}.
  - done.
  - done.
  - done.
  - intros cid e _. by exists e.
  - intros ctx cf skip cid e _ Hid. exists None, (fst e, {[cid]} ∪ snd e).
    unfold answer, ok_srv, memory_srv. cbn in *. by rewrite Hid.
  - intros ctx cid e _ Hid. exists (fst e, snd e ∖ {[cid]}).
    unfold answer, ok_srv, memory_srv. cbn in *. by rewrite Hid.
  - intros c e _ [[k ->]|(a & b & ->)]; by eexists _, e.
Defined.

Lemma server_refines_sessions_witness (O := ok_srv) (MR := default_range) :
  ∃ r w', apply_op (OpConnect demo_peer demo_config false) (demo_world ∅) = (Ret r, w') ∧
    session_step (abstract (p := 0) (demo_world ∅)) (EvConnect "c-1" demo_config r) (abstract (p := 0) w').
Proof.
  destruct (server_refines_sessions (p := 0) (OpConnect demo_peer demo_config false) (demo_world ∅))
    as (r & w' & Hw' & _ & _ & Hs).
  - split; [exact I|]. intros cid cf Hc. unfold ConcurrentMap.Get in Hc. cbn in Hc. by rewrite lookup_empty in Hc.
  - reflexivity.
  - exists r, w'. split; [exact Hw'|exact Hs].
Defined.

End Sessions.
