(* ===== verification/Consume.v ===== *)
(** * [internal/server/server.go]: the [Consume] stream

    [Consume] runs a loop that receives from the client, and beside it one
    goroutine that hands the provider's messages to the client, one that runs
    the provider's [Subscribe], and one for every acknowledgement. The variables
    they share are the record [consume]; an event is a step of one of them, so
    a list of events is a schedule, and the theorems hold for all of them. The
    goroutine of an acknowledgement is one step here; how the provider calls of
    several interleave is the subject of [Settling]. *)

From Stdlib Require Import Ascii String.
From stdpp Require Import base gmap strings list fin_maps option.
From Stdlib Require Import ZArith Lia.
From S2P Require Import Prelude Effects GoStrings Api ConcurrentMap ClientIds Provider Server.

Module Consume.
Import ConcurrentMap Server.
Open Scope Z_scope.
Open Scope list_scope.

(** ** The shared variables *)

(** Where the goroutine that subscribes is. *)
Inductive sub_state := SubNone | SubWaiting | SubRunning | SubDone.

#[export] Instance sub_state_eq_dec : EqDecision sub_state.
Proof. solve_decision. Defined.

(** [acks] are the goroutines of acknowledgements that have not run yet;
    [stops] those that wait to send on [stopForLoop]; [finished] is what
    [Consume] has returned. *)
Record consume := mkConsume {
  source : option Source;
  isSubscribing : bool;
  returnError : error;
  acks : list MessageConsumed;
  delivering : bool;
  subscription : sub_state;
  stops : nat;
  finished : option error
}.

Definition consume_init : consume := mkConsume None false None [] false SubNone 0 None.

Definition set_source (v : option Source) (c : consume) : consume :=
  let 'mkConsume _ b d e f g h i := c in mkConsume v b d e f g h i.
Definition set_isSubscribing (v : bool) (c : consume) : consume :=
  let 'mkConsume a _ d e f g h i := c in mkConsume a v d e f g h i.
Definition set_returnError (v : error) (c : consume) : consume :=
  let 'mkConsume a b _ e f g h i := c in mkConsume a b v e f g h i.
Definition set_acks (v : list MessageConsumed) (c : consume) : consume :=
  let 'mkConsume a b d _ f g h i := c in mkConsume a b d v f g h i.
Definition set_delivering (v : bool) (c : consume) : consume :=
  let 'mkConsume a b d e _ g h i := c in mkConsume a b d e v g h i.
Definition set_subscription (v : sub_state) (c : consume) : consume :=
  let 'mkConsume a b d e f _ h i := c in mkConsume a b d e f v h i.
Definition set_stops (v : nat) (c : consume) : consume :=
  let 'mkConsume a b d e f g _ i := c in mkConsume a b d e f g v i.
Definition set_finished (v : option error) (c : consume) : consume :=
  let 'mkConsume a b d e f g h _ := c in mkConsume a b d e f g h v.

(** [Consume] returns [returnError]. *)
Definition finish (c : consume) : consume := set_finished (Some (returnError c)) c.

(** [if *stopFor != nil { *stopFor <- true }] *)
Definition request_stop (c : consume) : consume :=
  match finished c with None => set_stops (S (stops c)) c | Some _ => c end.

Section consume.
Context {E : Type} `{Oracle Srv E} `{Process E} `{MapRange}.

(** ** What the client sends *)

Definition error_message (errMsg : string) : ConsumeResponse :=
  ConsumeResponse_Msg {|
    Uuid := ""; Headers := ∅; Body := []; MessageAddress := None; Persistent := false;
    MessageError := Some (mkError errMsg); Confirm := false; PublishId := 0; PublisherName := "" |}.

Definition unsupported_options (valid : list string) (source : Source) : list string :=
  filter (λ o, o ∉ valid) (map_range (Options source)).*1.

(** A source: the first one starts the subscription. *)
Definition recv_source (p : nat) (src : Source) (c : consume) : sprog E consume :=
  if isSubscribing c then
    call (SSendConsume (error_message "Only one source message allowed per subscribe"));; mret c
  else
    let src := SetSourceDefaults src in
    let c := set_source (Some src) c in
    valid ← call (PSupportedSourceOptions p);
    let unsupported := unsupported_options valid src in
    if bool_decide (unsupported = []) then
      mret (set_subscription SubWaiting (set_delivering true (set_isSubscribing true c)))
    else
      let errMsg := "provider does not support the following source options: " +:+ show_strings unsupported in
      call (SSendConsume (error_message errMsg));;
      mret (set_finished (Some (Some errMsg)) c).

(** What [Recv] returns: an error, or a message that may be nil. *)
Definition recv (p : nat) (r : option Consume + string) (c : consume) : sprog E consume :=
  match r with
  | inr err => mret (finish (set_returnError (Some err) c))
  | inl None => mret c
  | inl (Some (Consume_Src src)) => recv_source p src c
  | inl (Some (Consume_Ack a)) => mret (set_acks (acks c ++ [a]) c)
  | inl (Some Consume_None) => mret c
  end.

(** ** The goroutine of an acknowledgement *)

(** The provider is asked; the result is the source afterwards, which a retry
    renames, and the error. *)
Definition settle (p : nat) (ctx : ClientIds.peer) (source : option Source) (a : MessageConsumed) :
    sprog E (option Source * option Error) :=
  let id := AckUuid a in
  if String.eqb id "" then mret (source, Some (mkError "Uuid not set when acking/nacking"))
  else if AckNack a && (0 <? RequeueDelay a) then
    r ← call (PRetry p ctx source id (RequeueDelay a));
    let '(source, ackerr) := (r : option Source * option Error) in
    match ackerr with
    | None => mret (source, None)
    | Some _ => ackerr ← call (PNack p ctx id); mret (source, ackerr)
    end
  else if AckNack a then
    ackerr ← (match GetOptions source !! "DeadLetterAddress" with
              | Some _ => call (PDeadLetter p ctx source id)
              | None => mret None
              end);
    match GetOptions source !! "DeadLetterAddress", (ackerr : option Error) with
    | Some _, None => mret (source, None)
    | _, _ => ackerr ← call (PNack p ctx id); mret (source, ackerr)
    end
  else
    ackerr ← call (PAck p ctx id); mret (source, ackerr).

Definition consumed_response (a : MessageConsumed) (ackerr : option Error) : ConsumeResponse :=
  ConsumeResponse_ConsumedResponse {|
    ConsumedUuid := AckUuid a;
    ConsumedSuccess := match ackerr with None => true | Some _ => false end;
    ConsumedError := ackerr |}.

Definition ack_message (p : nat) (ctx : ClientIds.peer) (source : option Source) (a : MessageConsumed) :
    sprog E (option Source) :=
  r ← settle p ctx source a;
  let '(source, ackerr) := (r : option Source * option Error) in
  call (SSendConsume (consumed_response a ackerr));;
  mret source.

(** ** The goroutines of the subscription *)

(** A message from the provider; one without an address gets the source's. *)
Definition addressed (m : Message) (source : option Source) : Message :=
  match MessageAddress m with
  | Some _ => m
  | None => {| Uuid := Uuid m; Headers := Headers m; Body := Body m;
               MessageAddress := GetSourceAddress source; Persistent := Persistent m;
               MessageError := MessageError m; Confirm := Confirm m; PublishId := PublishId m;
               PublisherName := PublisherName m |}
  end.

(** The goroutine ends when it cannot send, or panics. *)
Definition deliver (m : Message) (c : consume) : sprog E consume :=
  recover
    (err ← call (SSendConsume (ConsumeResponse_Msg (addressed m (source c))));
     match (err : error) with
     | None => mret c
     | Some e => mret (set_delivering false (request_stop (set_returnError (Some e) c)))
     end)
    (λ _, mret (set_delivering false c)).

(** [WaitForConnect], and the call of [Subscribe]. A panic is recovered and
    ends the goroutine. *)
Definition start_subscribe (p : nat) (ctx : ClientIds.peer) (c : consume) : sprog E consume :=
  recover
    (connected ← call (PWaitForConnect p ctx);
     if (connected : bool) then
       call (PSubscribe p ctx (default zero_Source (source c)));;
       mret (set_subscription SubRunning c)
     else
       mret (set_subscription SubDone (request_stop (set_returnError (Some "could not connect to broker") c))))
    (λ _, mret (set_subscription SubDone c)).

Definition declare_response (err : option Error) : ConsumeResponse :=
  ConsumeResponse_DeclareOnlyResponse {|
    DeclareSuccess := match err with None => true | Some _ => false end; DeclareError := err |}.

(** [Subscribe] has returned. *)
Definition subscribed (err : option Error) (c : consume) : sprog E consume :=
  let c := match err with Some e => set_returnError (Some (Message_ e)) c | None => c end in
  recover
    ((if GetDeclareOnly (source c) then call (SSendConsume (declare_response err));; mret () else mret ());;
     mret (set_subscription SubDone (request_stop c)))
    (λ _, mret (set_subscription SubDone c)).

(** ** Schedules *)

Inductive consume_event :=
  | CRecv (r : option Consume + string)       (* the loop receives from the client *)
  | CDone                                     (* the context is done *)
  | CStop                                     (* the loop is told to stop *)
  | CAck (i : nat)                            (* an acknowledgement's goroutine runs *)
  | CDeliver (m : Message)                    (* a message of the provider arrives *)
  | CWait                                     (* the subscribing goroutine runs *)
  | CSubscribed (err : option Error)          (* [Subscribe] returns *)
  | CSubscribePanic.                          (* [Subscribe] panics *)

(** A step that is not possible changes nothing. *)
Definition consume_turn (p : nat) (ctx : ClientIds.peer) (e : consume_event) (c : consume) :
    sprog E consume :=
  match e, finished c with
  | CRecv r, None => recv p r c
  | CDone, None => mret (finish c)
  | CStop, None => match stops c with O => mret c | S n => mret (finish (set_stops n c)) end
  | CAck i, _ =>
      match acks c !! i with
      | Some a => source ← ack_message p ctx (source c) a;
                  mret (set_acks (delete i (acks c)) (set_source source c))
      | None => mret c
      end
  | CDeliver m, _ => if delivering c then deliver m c else mret c
  | CWait, _ => if bool_decide (subscription c = SubWaiting) then start_subscribe p ctx c else mret c
  | CSubscribed err, _ => if bool_decide (subscription c = SubRunning) then subscribed err c else mret c
  | CSubscribePanic, _ =>
      mret (if bool_decide (subscription c = SubRunning) then set_subscription SubDone c else c)
  | _, Some _ => mret c
  end.

Fixpoint consume_run (p : nat) (ctx : ClientIds.peer) (es : list consume_event) (c : consume) :
    sprog E consume :=
  match es with
  | [] => mret c
  | e :: rest => c' ← consume_turn p ctx e c; consume_run p ctx rest c'
  end.

(** The whole stream; without an identifier or a provider it ends at once. *)
Definition Consume (ctx : ClientIds.peer) (es : list consume_event) : sprog E consume :=
  i ← GetClientIdentifier ctx;
  match i with
  | (_, Some err) =>
      call (SSendConsume (ConsumeResponse_Error (mkFatal err)));;
      mret (set_finished (Some (Some err)) consume_init)
  | (_, None) =>
      r ← findProvider ctx;
      match r with
      | (Some p, _) => consume_run p ctx es consume_init
      | (None, Some findErr) =>
          call (SSendConsume (ConsumeResponse_Error findErr));;
          mret (set_finished (Some (Some (Message_ findErr))) consume_init)
      | (None, None) => panic "invalid memory address or nil pointer dereference"
      end
  end.

End consume.

(** ** Lemmas: every acknowledgement is answered once *)

(** The client's acknowledgements of [u], those that wait, and the answers. *)
Definition of_uuid (u : string) (a : MessageConsumed) : bool := String.eqb (AckUuid a) u.
Definition asks (u : string) (e : consume_event) : bool :=
  match e with CRecv (inl (Some (Consume_Ack a))) => of_uuid u a | _ => false end.
Definition answers_to (u : string) (c : srv_call) : bool :=
  match c with
  | SSendConsume (ConsumeResponse_ConsumedResponse r) => String.eqb (ConsumedUuid r) u
  | _ => false
  end.
Definition answers (u : string) (e : event Srv) : bool := answers_to u (projT1 e).
Definition waiting (u : string) (c : consume) : Z := count_if (of_uuid u) (acks c).

(** Calls that answer no acknowledgement, and starts of the provider's
    [Subscribe]. *)
Definition no_answer (c : icall Srv) : Prop :=
  match c with SSendConsume (ConsumeResponse_ConsumedResponse _) => False | _ => True end.

Lemma no_answer_count u lg : Forall (λ e : event Srv, no_answer (projT1 e)) lg → count_if (answers u) lg = 0.
Proof.
  intros Hl. apply count_if_zero. revert Hl. apply Forall_impl. intros [c o]. unfold answers. cbn.
  by destruct c as [| | | | | | | | | | | | | [] | | | | | |].
Qed.

Section lemmas.
Context {E : Type} `{Oracle Srv E} `{Process E} `{MR : MapRange}.
Implicit Types w : world Srv E server.

(** The step leaves the waiting acknowledgements alone, and does not start a
    finished stream again. *)
Definition steady (c c' : consume) : Prop :=
  acks c' = acks c ∧ (finished c' = None → finished c = None).

Lemma steady_request_stop c : acks (request_stop c) = acks c ∧ finished (request_stop c) = finished c.
Proof. unfold request_stop. by destruct c as [? ? ? ? ? ? ? []]. Qed.

(** The events that touch no acknowledgement. *)
Definition is_ack_event (e : consume_event) : bool :=
  match e with CAck _ | CRecv (inl (Some (Consume_Ack _))) => true | _ => false end.

Lemma turn_other p ctx e c :
  is_ack_event e = false →
  emits no_answer (consume_turn (E := E) p ctx e c) ∧ yields (steady c) (consume_turn (E := E) p ctx e c).
Proof.
  intros He. split.
  - destruct e as [[[[src|a|]|]|err]| | |i|m| |err|]; try done; cbn [consume_turn];
      unfold recv, recv_source, deliver, start_subscribe, subscribed, call; emits_solve; try done.
  - assert (∀ c', steady c' c' ∧ steady c' (request_stop c')) as Hc.
    { intros c'. destruct (steady_request_stop c'). by split; split; [done|..|congruence]. }
    destruct e as [[[[src|a|]|]|err]| | |i|m| |err|]; try done; cbn [consume_turn];
      unfold recv, recv_source, deliver, start_subscribe, subscribed; yields_solve;
      try (destruct (steady_request_stop c)); try apply Hc;
      destruct c as [? ? ? ? ? ? ? fin]; cbn in *; try done; try (by destruct fin).
    all: try destruct err; try case_bool_decide; by destruct fin.
Qed.

(** The answer to an acknowledgement, and the calls before it. *)
Lemma emits_settle p ctx src a : emits no_answer (settle (E := E) p ctx src a).
Proof. unfold settle, call. emits_solve; done. Qed.

Lemma ack_message_run p ctx src a w src' w' :
  ack_message p ctx src a w = (Ret src', w') →
  ∃ lg, log w' = log w ++ lg ∧ ∀ u, count_if (answers u) lg = b2z (of_uuid u a).
Proof.
  unfold ack_message. destruct (emits_settle p ctx src a w) as (lg1 & Hl1 & Hno).
  unfold mbind, prog_bind. destruct (settle p ctx src a w) as [[[s err]|why|] w1]; [|done|done].
  cbn [snd] in Hl1. rewrite srv_call_run.
  destruct (answer (I := Srv) (SSendConsume (consumed_response a err)) (env w1)) as [[r|why|] e1]; [|done|done].
  intros [= <- <-]. exists (lg1 ++ [sev (SSendConsume (consumed_response a err)) (Ret r)]).
  split; [cbn; by rewrite Hl1, app_assoc|]. intros u. rewrite count_if_app, count_if_cons, count_if_nil.
  rewrite (no_answer_count u lg1 Hno). unfold answers. cbn. unfold of_uuid. by destruct (String.eqb _ _).
Qed.

(** One step: what is answered and what still waits is what waited before and
    what is asked now. *)
Lemma turn_conserved p ctx e c w c' w' u :
  consume_turn p ctx e c w = (Ret c', w') →
  ∃ lg, log w' = log w ++ lg ∧ (finished c' = None → finished c = None) ∧
    count_if (answers u) lg + waiting u c' =
      waiting u c + match finished c with None => b2z (asks u e) | Some _ => 0 end.
Proof.
  intros Hw. destruct (is_ack_event e) eqn:He.
  2: { destruct (turn_other p ctx e c He) as [Hem Hy]. destruct (Hem w) as (lg & Hlg & Hno).
       destruct (Hy w c' w' Hw) as [Ha Hf]. rewrite Hw in Hlg. exists lg. split; [done|]. split; [done|].
       rewrite (no_answer_count u lg Hno). unfold waiting. rewrite Ha.
       replace (asks u e) with false by (by destruct e as [[[[| |]|]|]| | | | | | |]).
       cbn. destruct (finished c); lia. }
  destruct e as [[[[src|a|]|]|err]| | |i|m| |err|]; try done; cbn [consume_turn asks] in *.
  - destruct (finished c) eqn:Hf.
    + injection Hw as <- <-. exists []. rewrite app_nil_r, Hf, count_if_nil. split_and!; [done..|]. cbv iota. lia.
    + injection Hw as <- <-. exists []. rewrite app_nil_r. split; [done|]. split; [done|].
      unfold waiting. replace (acks (set_acks (acks c ++ [a]) c)) with (acks c ++ [a]) by (by destruct c).
      rewrite count_if_app, count_if_cons, !count_if_nil. lia.
  - destruct (acks c !! i) as [a|] eqn:Hi.
    + unfold mbind, prog_bind in Hw.
      destruct (ack_message p ctx (source c) a w) as [[src'|why|] w1] eqn:Hm; [|done|done].
      injection Hw as <- <-. destruct (ack_message_run p ctx (source c) a w src' w1 Hm) as (lg & Hlg & Hc).
      exists lg. split; [done|]. split; [by destruct c|]. unfold waiting. rewrite Hc.
      replace (acks (set_acks (delete i (acks c)) (set_source src' c))) with (delete i (acks c)) by (by destruct c).
      rewrite (count_if_delete _ _ _ _ Hi). destruct (finished c); cbn; lia.
    + injection Hw as <- <-. exists []. rewrite app_nil_r, count_if_nil. split_and!; [done..|]. destruct (finished c); cbn [b2z]; lia.
Qed.

Lemma run_conserved p ctx es c w c' w' u :
  consume_run p ctx es c w = (Ret c', w') →
  ∃ lg, log w' = log w ++ lg ∧ (finished c' = None → finished c = None) ∧
    count_if (answers u) lg + waiting u c' <= waiting u c + count_if (asks u) es ∧
    (finished c' = None → count_if (answers u) lg + waiting u c' = waiting u c + count_if (asks u) es).
Proof.
  revert c w. induction es as [|e es IH]; intros c w Hw.
  { injection Hw as <- <-. exists []. rewrite app_nil_r, !count_if_nil. split_and!; try done; lia. }
  cbn [consume_run] in Hw. unfold mbind, prog_bind in Hw.
  destruct (consume_turn p ctx e c w) as [[c1|why|] w1] eqn:Ht; [|done|done].
  destruct (turn_conserved p ctx e c w c1 w1 u Ht) as (lg1 & Hl1 & Hf1 & Hc1).
  destruct (IH c1 w1 Hw) as (lg2 & Hl2 & Hf2 & Hle & Heq).
  exists (lg1 ++ lg2). split; [by rewrite Hl2, Hl1, app_assoc|]. rewrite count_if_app, count_if_cons.
  split; [tauto|]. split.
  - destruct (finished c), (asks u e); cbn in *; lia.
  - intros Hf. specialize (Heq Hf). rewrite (Hf1 (Hf2 Hf)) in Hc1. lia.
Qed.
(** *** One subscription *)

(** The subscriptions a state can still lead to. *)
Definition budget (c : consume) : Z :=
  b2z (negb (isSubscribing c)) + b2z (bool_decide (subscription c = SubWaiting)).
Definition is_subscribe (e : event Srv) : bool :=
  match projT1 e with PSubscribe _ _ _ => true | _ => false end.
Definition no_subscribe (c : icall Srv) : Prop := match c with PSubscribe _ _ _ => False | _ => True end.

Lemma no_subscribe_count lg :
  Forall (λ e : event Srv, no_subscribe (projT1 e)) lg → count_if is_subscribe lg = 0.
Proof.
  intros Hl. apply count_if_zero. revert Hl. apply Forall_impl. intros [c o]. unfold is_subscribe. cbn.
  by destruct c.
Qed.

Lemma budget_nonneg c : 0 <= budget c.
Proof. unfold budget. destruct (isSubscribing c); case_bool_decide; cbn; lia. Qed.

Lemma budget_request_stop c : budget (request_stop c) = budget c.
Proof. unfold request_stop. by destruct c as [? ? ? ? ? ? ? []]. Qed.

(** Only the subscribing goroutine starts a subscription. *)
Lemma turn_no_subscribe p ctx e c :
  e ≠ CWait →
  emits no_subscribe (consume_turn (E := E) p ctx e c) ∧
  yields (λ c', budget c' <= budget c) (consume_turn (E := E) p ctx e c).
Proof.
  intros He. split.
  - destruct e as [[[[src|a|]|]|err]| | |i|m| |err|]; try done; cbn [consume_turn];
      unfold recv, recv_source, ack_message, settle, deliver, subscribed, call; emits_solve; try done.
  - destruct e as [[[[src|a|]|]|err]| | |i|m| |err|]; try done; cbn [consume_turn];
      unfold recv, recv_source, ack_message, deliver, subscribed; yields_solve;
      unfold budget, request_stop, finish; destruct c as [? [] ? ? ? ? ? []]; cbn in *; try done;
      try destruct err; cbn; repeat case_bool_decide; cbn; try lia; try done; congruence.
Qed.

Lemma start_subscribe_log p ctx c w :
  ∃ lg, log (snd (start_subscribe p ctx c w)) = log w ++ lg ∧ count_if is_subscribe lg <= 1.
Proof.
  unfold start_subscribe, recover, mbind, prog_bind. rewrite srv_call_run.
  destruct (answer (I := Srv) (PWaitForConnect p ctx) (env w)) as [[b|why|] e1]; cbn [fst snd].
  - destruct b; [|by eexists]. rewrite srv_call_run. cbn [env st log].
    destruct (answer (I := Srv) (PSubscribe p ctx _) e1) as [[[]|why|] e2]; cbn [fst snd log];
      rewrite <- app_assoc; by eexists.
  - by eexists.
  - by eexists.
Qed.

Lemma start_subscribe_yields p ctx c :
  yields (λ c', subscription c' ≠ SubWaiting ∧ isSubscribing c' = isSubscribing c)
    (start_subscribe (E := E) p ctx c).
Proof.
  unfold start_subscribe. yields_solve; try (by destruct c). unfold request_stop.
  by destruct c as [? ? ? ? ? ? ? []].
Qed.

Lemma turn_budget p ctx e c w c' w' :
  consume_turn p ctx e c w = (Ret c', w') →
  ∃ lg, log w' = log w ++ lg ∧ count_if is_subscribe lg + budget c' <= budget c.
Proof.
  intros Hw. assert (e = CWait ∨ e ≠ CWait) as [->|He] by (destruct e; auto; by right).
  - cbn [consume_turn] in Hw.
    assert ((if bool_decide (subscription c = SubWaiting) then start_subscribe p ctx c else mret c) w
            = (Ret c', w')) as Hw' by (by destruct (finished c)).
    clear Hw. case_bool_decide as Hs; [|injection Hw' as <- <-; exists []; rewrite app_nil_r, count_if_nil;
      split; [done|lia]].
    destruct (start_subscribe_log p ctx c w) as (lg & Hl & Hc). rewrite Hw' in Hl.
    exists lg. split; [done|]. destruct (start_subscribe_yields p ctx c w c' w' Hw') as [Hn Hi]. unfold budget. rewrite Hi.
    rewrite (bool_decide_eq_false_2 _ Hn), (bool_decide_eq_true_2 _ Hs). cbn [b2z]. lia.
  - destruct (turn_no_subscribe p ctx e c He) as [Hem Hy]. destruct (Hem w) as (lg & Hlg & Hno).
    rewrite Hw in Hlg. exists lg. split; [done|]. rewrite (no_subscribe_count lg Hno).
    specialize (Hy w c' w' Hw). cbn in Hy. lia.
Qed.

Lemma run_budget p ctx es c w c' w' :
  consume_run p ctx es c w = (Ret c', w') →
  ∃ lg, log w' = log w ++ lg ∧ count_if is_subscribe lg + budget c' <= budget c.
Proof.
  revert c w. induction es as [|e es IH]; intros c w Hw.
  { injection Hw as <- <-. exists []. rewrite app_nil_r, count_if_nil. split; [done|lia]. }
  cbn [consume_run] in Hw. unfold mbind, prog_bind in Hw.
  destruct (consume_turn p ctx e c w) as [[c1|why|] w1] eqn:Ht; [|done|done].
  destruct (turn_budget p ctx e c w c1 w1 Ht) as (lg1 & Hl1 & Hc1).
  destruct (IH c1 w1 Hw) as (lg2 & Hl2 & Hc2).
  exists (lg1 ++ lg2). split; [by rewrite Hl2, Hl1, app_assoc|]. rewrite count_if_app. lia.
Qed.

(** *** Rejecting a message *)

(** What is tried before the message is rejected outright. *)
Definition first_choice (p : nat) (ctx : ClientIds.peer) (src : option Source) (a : MessageConsumed) :
    option srv_call :=
  if 0 <? RequeueDelay a then Some (PRetry p ctx src (AckUuid a) (RequeueDelay a))
  else if GetOptions src !! "DeadLetterAddress" then Some (PDeadLetter p ctx src (AckUuid a))
  else None.

(** The provider has answered a call without an error. *)
Definition accepted (e : event Srv) : bool :=
  match e with
  | existT c o =>
      (match c return outcome (srv_reply c) → bool with
       | PRetry _ _ _ _ _ => λ o, match o with Ret (_, None) => true | _ => false end
       | PNack _ _ _ => λ o, match o with Ret None => true | _ => false end
       | PDeadLetter _ _ _ _ => λ o, match o with Ret None => true | _ => false end
       | _ => λ _, false
       end) o
  end.

End lemmas.

(** ** Properties *)

Section properties.
Context {E : Type} `{Oracle Srv E} `{Process E} `{MR : MapRange}.
Implicit Types w : world Srv E server.

(** C4: Whatever the schedule, every acknowledgement the client sends is
    answered at most once, under its own identifier; as long as the stream is
    open none is lost: those that have not been answered are those whose
    goroutine has not run yet. *)
Theorem consume_answers_once p ctx es w c w' u :
  consume_run p ctx es consume_init w = (Ret c, w') →
  ∃ lg, log w' = log w ++ lg ∧
    count_if (answers u) lg + waiting u c <= count_if (asks u) es ∧
    (finished c = None → count_if (answers u) lg + waiting u c = count_if (asks u) es).
Proof.
  intros Hw. destruct (run_conserved p ctx es consume_init w c w' u Hw) as (lg & Hl & _ & Hle & Heq).
  exists lg. split; [done|]. cbn in Hle, Heq. split; [exact Hle|exact Heq].
Qed.
(** On one stream the provider is asked to subscribe at most once, however
    many sources the client sends and whatever the schedule. *)
Theorem consume_subscribes_once p ctx es w c w' :
  consume_run p ctx es consume_init w = (Ret c, w') →
  ∃ lg, log w' = log w ++ lg ∧ count_if is_subscribe lg <= 1.
Proof.
  intros Hw. destruct (run_budget p ctx es consume_init w c w' Hw) as (lg & Hl & Hc).
  exists lg. split; [done|]. pose proof (budget_nonneg c).
  change (budget consume_init) with 1 in Hc. lia.
Qed.

(** How a message is rejected. With a delay a retry is tried first,
    otherwise, when the source has a dead letter address, dead-lettering;
    only if that fails, or there is neither, the message is rejected outright.
    The client is told of a success exactly when the last of these calls
    succeeded. *)
Theorem reject_falls_back `{!Returns Srv E} p ctx src a w :
  AckUuid a ≠ "" → AckNack a = true →
  ∃ src' ackerr w' lg, settle p ctx src a w = (Ret (src', ackerr), w') ∧ log w' = log w ++ lg ∧
    (ackerr = None ↔ ∃ e, list.last lg = Some e ∧ accepted e = true) ∧
    match first_choice p ctx src a, lg with
    | Some c, [e] => projT1 e = c ∧ accepted e = true
    | Some c, [e; e'] => projT1 e = c ∧ accepted e = false ∧ projT1 e' = PNack p ctx (AckUuid a)
    | None, [e] => projT1 e = PNack p ctx (AckUuid a)
    | _, _ => False
    end.
Proof.
  intros Hu Hn. unfold settle, first_choice. rewrite Hn, (proj2 (String.eqb_neq _ _) Hu). cbn [andb].
  assert (∀ v (s : option Source), ∃ r v', (ackerr ← call (PNack p ctx (AckUuid a)); mret (s, ackerr)) v = (Ret (s, r), v') ∧
    log v' = log v ++ [sev (PNack p ctx (AckUuid a)) (Ret r)]) as Hnack.
  { intros v s. destruct (srv_call_returns (PNack p ctx (AckUuid a)) v) as (r & e & _ & Hc).
    rewrite (bind_run _ _ _ _ _ Hc). by eexists _, _. }
  destruct (0 <? RequeueDelay a).
  - destruct (srv_call_returns (PRetry p ctx src (AckUuid a) (RequeueDelay a)) w) as ([src' r] & e & _ & Hc).
    rewrite (bind_run _ _ _ _ _ Hc). set (w1 := {| st := st w; env := e; log := _ |}).
    destruct r as [err|].
    + destruct (Hnack w1 src') as (r & w' & Hw' & Hl). eexists src', r, w', [_; _]. rewrite Hw'.
      split; [done|]. split; [rewrite Hl; cbn; by rewrite <- app_assoc|]. split; [|by split_and!].
      cbn. split; [intros ->; by eexists|intros (e' & [= <-] & Ha); by destruct r].
    + eexists src', None, w1, [_]. split; [done|]. split; [done|]. split; [|done]. cbn.
      split; [by eexists|done].
  - destruct (GetOptions src !! "DeadLetterAddress") as [dla|].
    + destruct (srv_call_returns (PDeadLetter p ctx src (AckUuid a)) w) as (r & e & _ & Hc).
      rewrite (bind_run _ _ _ _ _ Hc). set (w1 := {| st := st w; env := e; log := _ |}).
      destruct (r : option Error) as [err|].
      * destruct (Hnack w1 src) as (r' & w' & Hw' & Hl). eexists src, r', w', [_; _]. rewrite Hw'.
        split; [done|]. split; [rewrite Hl; cbn; by rewrite <- app_assoc|]. split; [|by split_and!].
        cbn. split; [intros ->; by eexists|intros (e' & [= <-] & Ha); by destruct r'].
      * eexists src, None, w1, [_]. split; [done|]. split; [done|]. split; [|done]. cbn.
        split; [by eexists|done].
    + rewrite bind_ret_l. destruct (Hnack w src) as (r & w' & Hw' & Hl). eexists src, r, w', [_].
      rewrite Hw'. split; [done|]. split; [done|]. split; [|done]. cbn.
      split; [intros ->; by eexists|intros (e' & [= <-] & Ha); by destruct r].
Qed.
End properties.

(** ** Witnesses *)

Section witnesses.
Definition demo_ack (nack : bool) : MessageConsumed :=
  {| AckUuid := "m1"; AckNack := nack; RequeueDelay := 0 |}.
Definition demo_source : Source := set_Options {[ "DeadLetterAddress" := "dead" ]} zero_Source.

(** A source, its subscription, a second source, an acknowledgement that runs
    and one that still waits. *)
Definition demo_schedule : list consume_event :=
  [CRecv (inl (Some (Consume_Src demo_source))); CWait; CRecv (inl (Some (Consume_Src demo_source)));
   CRecv (inl (Some (Consume_Ack (demo_ack false)))); CRecv (inl (Some (Consume_Ack (demo_ack true))));
   CAck 0].

Definition demo_end : consume :=
  mkConsume (Some (SetSourceDefaults demo_source)) true None [demo_ack true] true SubRunning 0 None.

Lemma demo_schedule_run (O := ok_srv) (MR := default_range) :
  run_result (consume_run 0 demo_peer demo_schedule consume_init) (demo_world ∅) = Ret demo_end.
Proof. vm_compute. reflexivity. Qed.

Lemma consume_answers_once_witness (O := ok_srv) (MR := default_range) :
  ∃ lg, log (run_state (consume_run 0 demo_peer demo_schedule consume_init) (demo_world ∅)) = [] ++ lg ∧
        count_if (answers "m1") lg + waiting "m1" demo_end = 2.
Proof.
  destruct (consume_answers_once 0 demo_peer demo_schedule (demo_world ∅) demo_end _ "m1"
    (run_intro _ _ _ demo_schedule_run)) as (lg & Hl & _ & Heq).
  exists lg. split; [exact Hl|]. rewrite (Heq eq_refl). reflexivity.
Defined.

Lemma consume_subscribes_once_witness (O := ok_srv) (MR := default_range) :
  ∃ lg, log (run_state (consume_run 0 demo_peer demo_schedule consume_init) (demo_world ∅)) = [] ++ lg ∧
        count_if is_subscribe lg <= 1.
Proof.
  exact (consume_subscribes_once 0 demo_peer demo_schedule (demo_world ∅) demo_end _
    (run_intro _ _ _ demo_schedule_run)).
Defined.

Lemma reject_falls_back_witness
    (O := memory_srv (λ c, match c with PDeadLetter _ _ _ _ => Some (Ret (Some (mkError "no"))) | _ => None end)) :
  ∃ w', settle 0 demo_peer (Some demo_source) (demo_ack true) (demo_world ∅) =
    (Ret (Some demo_source, None), w').
Proof.
  assert (@Returns Srv memory O) as Hr.
  { intros c e. destruct c; by eexists _, _. }
  destruct (reject_falls_back (Returns0 := Hr) 0 demo_peer (Some demo_source) (demo_ack true) (demo_world ∅)
    ltac:(discriminate) eq_refl) as (src & err & w' & lg & Hs & _).
  exists w'. rewrite Hs. f_equal. exact (f_equal fst (eq_sym Hs)).
Defined.
End witnesses.

End Consume.
