(* ===== verification/Publish.v ===== *)
(** * [internal/server/server.go]: the [Publish] stream

    [Publish] calls the provider's [Publish] again and again while a goroutine
    of its own (here: a helper) receives from the client and passes the
    messages on, over two unbuffered channels that are made for every
    iteration. The loop, the helpers of all iterations and the provider are
    steps of one machine; a list of events is a schedule. *)

From Stdlib Require Import Ascii String.
From stdpp Require Import base gmap strings list fin_maps option.
From Stdlib Require Import ZArith Lia.
From S2P Require Import Prelude Effects GoStrings Api ConcurrentMap ClientIds Provider Server.

Module Publish.
Import ConcurrentMap Server.
Open Scope Z_scope.
Open Scope list_scope.

(** ** The shared variables *)

(** A helper waits for the client, offers a message to the provider (or takes
    an error instead), waits for the provider's answer, or has ended. *)
Inductive helper := HRecv | HSelect (m : Message) | HWaiting (m : Message) | HDone.

(** The loop is inside the provider's [Publish], waits to hand its error to the
    helper, is about to look after that, or has returned. *)
Inductive loop := MPublishing | MSending (err : Error) | MSent (err : Error) | MDone (r : error).

(** The last helper is the one whose channels the provider has. *)
Record publish := mkPublish {
  helpers : list helper;
  main : loop;
  stopPublish : bool;
  returnError : error
}.

Definition publish_init : publish := mkPublish [] MPublishing false None.

Definition set_helper (i : nat) (h : helper) (c : publish) : publish :=
  mkPublish (<[i := h]> (helpers c)) (main c) (stopPublish c) (returnError c).
Definition set_main (m : loop) (c : publish) : publish :=
  mkPublish (helpers c) m (stopPublish c) (returnError c).
Definition stop (c : publish) : publish := mkPublish (helpers c) (main c) true (returnError c).
Definition set_return (e : error) (c : publish) : publish :=
  mkPublish (helpers c) (main c) (stopPublish c) e.
Definition new_helper (c : publish) : publish :=
  mkPublish (helpers c ++ [HRecv]) MPublishing (stopPublish c) (returnError c).

(** In the first call of the provider's [Publish]. *)
Definition first_iteration : publish := new_helper publish_init.

(** The helper of the current iteration. *)
Definition current (c : publish) : nat := pred (length (helpers c)).

Definition EOF : string := "EOF".

Section publish.
Context {E : Type} `{Oracle Srv E} `{Process E} `{MapRange}.

(** ** The helper *)

(** The response to the client; [last] says that the helper ends with it. *)
Definition respond (i : nat) (resp : MessageResponse) (last : bool) (c : publish) : sprog E publish :=
  err ← call (SSendPublish resp);
  mret (match (err : error) with
        | Some e =>
            let c := stop (set_helper i HDone c) in
            if String.eqb e EOF then c else set_return (Some e) c
        | None => set_helper i (if last then HDone else HRecv) c
        end).

Definition failure (err : option Error) : MessageResponse :=
  {| ResponseSuccess := false; ResponseError := err |}.

(** [stream.Recv] returns to a helper. *)
Definition received (i : nat) (r : Message + string) (c : publish) : sprog E publish :=
  match r with
  | inr e => mret (set_return (if String.eqb e EOF then None else Some e) (stop (set_helper i HDone c)))
  | inl msg =>
      if one_subject msg then mret (set_helper i (HSelect msg) c)
      else respond i (failure (Some subject_error)) false c
  end.

(** The helper receives from the error channel: as the answer to a message it
    has passed on, or instead of passing one on. *)
Definition answered (i : nat) (err : option Error) (c : publish) : sprog E publish :=
  match helpers c !! i with
  | Some (HSelect _) => respond i (failure err) true c
  | Some (HWaiting _) => respond i (publish_response err) false c
  | _ => mret c
  end.

(** ** The loop *)

(** The end of the loop: an error is also sent to the client. *)
Definition finish (c : publish) : sprog E publish :=
  match returnError c with
  | Some e => call (SSendPublish (failure (Some (mkError e))));; mret (set_main (MDone (Some e)) c)
  | None => mret (set_main (MDone None) c)
  end.

(** The next iteration. *)
Definition iterate (p : nat) (ctx : ClientIds.peer) (c : publish) : sprog E publish :=
  exist ← clientExists ctx;
  if (exist : bool) then call (PPublish p ctx);; mret (new_helper c) else finish c.

(** The end of an iteration. *)
Definition again (p : nat) (ctx : ClientIds.peer) (c : publish) : sprog E publish :=
  if stopPublish c then finish c else iterate p ctx c.

(** After the provider's error has been handed over. *)
Definition after_error (p : nat) (ctx : ClientIds.peer) (c : publish) : sprog E publish :=
  exist ← clientExists ctx;
  if (exist : bool) then
    connected ← call (PWaitForConnect p ctx);
    if (connected : bool) then iterate p ctx c else again p ctx c
  else again p ctx (stop c).

(** ** Schedules *)

Inductive publish_event :=
  | ERecv (i : nat) (r : Message + string)   (* [Recv] returns to helper [i] *)
  | ETimeout (i : nat)                       (* its 30 seconds are over *)
  | ETake                                    (* the provider takes the message *)
  | EReply (err : option Error)              (* the provider sends on the error channel *)
  | EReturn (err : option Error)             (* the provider's [Publish] returns *)
  | EHandOver                                (* the loop's error is received *)
  | EContinue.                               (* the loop goes on after that *)

Definition timeout_error : Error := mkError "failed to send message to provider for publishing".

(** A step that is not possible changes nothing. *)
Definition publish_turn (p : nat) (ctx : ClientIds.peer) (e : publish_event) (c : publish) :
    sprog E publish :=
  match e, main c with
  | ERecv i r, _ => match helpers c !! i with Some HRecv => received i r c | _ => mret c end
  | ETimeout i, _ =>
      match helpers c !! i with
      | Some (HSelect _) => respond i (failure (Some timeout_error)) true c
      | _ => mret c
      end
  | ETake, MPublishing =>
      match helpers c !! current c with
      | Some (HSelect m) => mret (set_helper (current c) (HWaiting m) c)
      | _ => mret c
      end
  | EReply err, MPublishing => answered (current c) err c
  | EReturn None, MPublishing => again p ctx c
  | EReturn (Some err), MPublishing => mret (set_main (MSending err) c)
  | EHandOver, MSending err =>
      match helpers c !! current c with
      | Some (HSelect _) | Some (HWaiting _) => answered (current c) (Some err) (set_main (MSent err) c)
      | _ => mret c
      end
  | EContinue, MSent _ => after_error p ctx c
  | _, _ => mret c
  end.

Fixpoint publish_run (p : nat) (ctx : ClientIds.peer) (es : list publish_event) (c : publish) :
    sprog E publish :=
  match es with
  | [] => mret c
  | e :: rest => c' ← publish_turn p ctx e c; publish_run p ctx rest c'
  end.

Definition Publish (ctx : ClientIds.peer) (es : list publish_event) : sprog E publish :=
  i ← GetClientIdentifier ctx;
  match i with
  | (_, Some err) =>
      call (SSendPublish (failure (Some (mkFatal err))));;
      mret (set_main (MDone (Some err)) publish_init)
  | (_, None) =>
      r ← findProvider ctx;
      match r with
      | (Some p, _) => c ← iterate p ctx publish_init; publish_run p ctx es c
      | (None, Some findErr) =>
          call (SSendPublish (failure (Some findErr)));;
          mret (set_main (MDone (Some (Message_ findErr))) publish_init)
      | (None, None) => panic "invalid memory address or nil pointer dereference"
      end
  end.

End publish.

(** ** Lemmas: every message is answered once *)

Definition is_response (e : event Srv) : bool :=
  match projT1 e with SSendPublish _ => true | _ => false end.

(** The helper has a message whose response is due. *)
Definition owes (h : helper) : bool := match h with HSelect _ | HWaiting _ => true | _ => false end.
Definition due (c : publish) : Z := count_if owes (helpers c).

(** The response that ends a stream with an error. *)
Definition farewell (c : publish) : Z := match main c with MDone (Some _) => 1 | _ => 0 end.

(** The event gives a helper of [c] a message of the client. *)
Definition arrives (c : publish) (e : publish_event) : bool :=
  match e with
  | ERecv i (inl _) => match helpers c !! i with Some HRecv => true | _ => false end
  | _ => false
  end.

Section lemmas.
Context {E : Type} `{Oracle Srv E} `{Process E} `{MR : MapRange}.
Implicit Types w : world Srv E server.

(** [m], run in the state [c], sends as many responses as the balance of [c]
    and of the state it returns say, [n] messages having arrived. *)
Definition balanced (c : publish) (n : Z) (m : sprog E publish) : Prop :=
  ∀ w c' w', m w = (Ret c', w') →
  ∃ lg, log w' = log w ++ lg ∧
    count_if is_response lg + due c' + farewell c = due c + farewell c' + n.

Lemma balanced_ret c c' n : due c' + farewell c = due c + farewell c' + n → balanced c n (mret c').
Proof.
  intros Hb w ? ? [= <- <-]. exists []. rewrite app_nil_r, count_if_nil. split; [done|lia].
Qed.

Lemma due_set_helper i h h' c :
  helpers c !! i = Some h → due (set_helper i h' c) = due c - b2z (owes h) + b2z (owes h').
Proof. intros Hi. unfold due. cbn. by apply count_if_insert. Qed.

Lemma balanced_respond i h resp last c n :
  helpers c !! i = Some h → n = b2z (negb (owes h)) → balanced c n (respond i resp last c).
Proof.
  intros Hi -> w c' w'. unfold respond, mbind, prog_bind. rewrite srv_call_run.
  destruct (answer (I := Srv) (SSendPublish resp) (env w)) as [[err|why|] e]; [|done|done].
  intros [= <- <-]. exists [sev (SSendPublish resp) (Ret err)]. split; [done|].
  rewrite count_if_cons, count_if_nil. cbn [is_response projT1 b2z].
  pose proof (due_set_helper i h HDone c Hi) as Hd.
  pose proof (due_set_helper i h (if last then HDone else HRecv) c Hi) as Hd'.
  assert (owes (if last then HDone else HRecv) = false) as Ho by (by destruct last).
  rewrite Ho in Hd'. destruct (err : error) as [er|].
  - assert (due (if String.eqb er EOF then stop (set_helper i HDone c)
                 else set_return (Some er) (stop (set_helper i HDone c))) = due (set_helper i HDone c)) as Hs
      by (by destruct (String.eqb er EOF)).
    rewrite Hs, Hd. destruct (String.eqb er EOF), (owes h); unfold farewell; cbn; lia.
  - rewrite Hd'. destruct (owes h); unfold farewell; cbn; lia.
Qed.

Lemma balanced_bind {A} c n (m : sprog E A) (f : A → sprog E publish) :
  emits (λ x : icall Srv, is_response (sev x Block) = false) m →
  (∀ a, balanced c n (f a)) → balanced c n (m ≫= f).
Proof.
  intros Hm Hf w c' w' Hw. destruct (Hm w) as (lg1 & Hl1 & Hno). unfold mbind, prog_bind in Hw.
  destruct (m w) as [[a|why|] w1]; [|done|done]. cbn [snd] in Hl1. destruct (Hf a w1 c' w' Hw) as (lg2 & Hl2 & Hc).
  exists (lg1 ++ lg2). split; [by rewrite Hl2, Hl1, app_assoc|]. rewrite count_if_app.
  rewrite (proj2 (count_if_zero is_response lg1)); [lia|]. revert Hno. apply Forall_impl. by intros [x o].
Qed.

Lemma emits_clientExists ctx :
  emits (λ x : icall Srv, is_response (sev x Block) = false) (clientExists (E := E) ctx).
Proof.
  unfold clientExists. apply emits_bind; [intros w; exists []; by rewrite app_nil_r|].
  intros [cid [err|]]; emits_solve; done.
Qed.

Lemma publish_balanced_finish c : farewell c = 0 → balanced c 0 (finish c).
Proof.
  intros Hf. unfold finish. destruct (returnError c) as [e|] eqn:Hr.
  - intros w c' w'. unfold mbind, prog_bind. rewrite srv_call_run.
    destruct (answer (I := Srv) (SSendPublish _) (env w)) as [[err|why|] e1]; [|done|done].
    intros [= <- <-]. eexists [_]. split; [done|]. rewrite count_if_cons, count_if_nil, Hf.
    unfold farewell, due. cbn. lia.
  - apply balanced_ret. rewrite Hf. unfold farewell, due. cbn. lia.
Qed.

Lemma balanced_iterate p ctx c : farewell c = 0 → balanced c 0 (iterate p ctx c).
Proof.
  intros Hf. unfold iterate. apply balanced_bind; [apply emits_clientExists|].
  intros [|]; [|by apply publish_balanced_finish]. apply balanced_bind; [unfold call; by emits_solve|].
  intros _. apply balanced_ret. rewrite Hf. unfold farewell, due, new_helper. cbn [helpers main].
  rewrite count_if_app, count_if_cons, count_if_nil. cbn [owes b2z]. lia.
Qed.

Lemma balanced_again p ctx c : farewell c = 0 → balanced c 0 (again p ctx c).
Proof.
  intros Hf. unfold again. destruct (stopPublish c); [by apply publish_balanced_finish|by apply balanced_iterate].
Qed.

Lemma balanced_from c c0 n m :
  due c = due c0 → farewell c = farewell c0 → balanced c n m → balanced c0 n m.
Proof. intros Hd Hf Hm w c' w' Hw. destruct (Hm w c' w' Hw) as (lg & Hl & Hc). exists lg. split; [done|lia]. Qed.

Lemma balanced_turn p ctx e c :
  balanced c (b2z (arrives c e)) (publish_turn (E := E) p ctx e c).
Proof.
  destruct e as [i [msg|er]|i| |err|[err|]| |]; cbn [publish_turn arrives].
  - destruct (helpers c !! i) as [[]|] eqn:Hi; try (apply balanced_ret; cbn; lia).
    unfold received. destruct (one_subject msg).
    + apply balanced_ret. rewrite (due_set_helper _ _ _ _ Hi). unfold farewell. cbn. lia.
    + by apply (balanced_respond i HRecv).
  - destruct (helpers c !! i) as [[]|] eqn:Hi; try (apply balanced_ret; cbn; lia).
    unfold received. apply balanced_ret. pose proof (due_set_helper _ _ HDone _ Hi) as Hd.
    unfold due, farewell in *. cbn in *. lia.
  - destruct (helpers c !! i) as [[| | |]|] eqn:Hi; try (apply balanced_ret; cbn; lia).
    by apply (balanced_respond i (HSelect m)).
  - destruct (main c) eqn:Hm; try (apply balanced_ret; cbn; lia).
    destruct (helpers c !! current c) as [[| | |]|] eqn:Hi; try (apply balanced_ret; cbn; lia).
    apply balanced_ret. rewrite (due_set_helper _ _ _ _ Hi). unfold farewell. cbn. lia.
  - destruct (main c) eqn:Hm; try (apply balanced_ret; cbn; lia). unfold answered.
    destruct (helpers c !! current c) as [[| | |]|] eqn:Hi; try (apply balanced_ret; cbn; lia);
      by eapply balanced_respond.
  - destruct (main c) eqn:Hm; apply balanced_ret; unfold farewell, due; cbn; rewrite ?Hm; lia.
  - destruct (main c) eqn:Hm; try (apply balanced_ret; cbn; lia). apply balanced_again.
    unfold farewell. by rewrite Hm.
  - destruct (main c) eqn:Hm; try (apply balanced_ret; cbn; lia).
    destruct (helpers c !! current c) as [[| | |]|] eqn:Hi; try (apply balanced_ret; cbn; lia);
      (apply (balanced_from (set_main (MSent err) c)); [done|unfold farewell; by rewrite Hm|];
       unfold answered; cbn [helpers set_main]; rewrite Hi; by eapply balanced_respond).
  - destruct (main c) eqn:Hm; try (apply balanced_ret; cbn; lia). unfold after_error.
    assert (farewell c = 0) as Hf by (unfold farewell; by rewrite Hm).
    apply balanced_bind; [apply emits_clientExists|]. intros [|].
    + apply balanced_bind; [unfold call; by emits_solve|]. intros [|]; [by apply balanced_iterate|].
      by apply balanced_again.
    + apply (balanced_from (stop c)); [done|done|]. by apply balanced_again.
Qed.

(** The messages of the client that arrive in a run. *)
Fixpoint arrivals (p : nat) (ctx : ClientIds.peer) (es : list publish_event) (c : publish) w : Z :=
  match es with
  | [] => 0
  | e :: rest =>
      b2z (arrives c e) +
      match publish_turn p ctx e c w with
      | (Ret c', w') => arrivals p ctx rest c' w'
      | _ => 0
      end
  end.

Lemma run_balanced p ctx es c w c' w' :
  publish_run p ctx es c w = (Ret c', w') →
  ∃ lg, log w' = log w ++ lg ∧
    count_if is_response lg + due c' + farewell c = due c + farewell c' + arrivals p ctx es c w.
Proof.
  revert c w. induction es as [|e es IH]; intros c w Hw.
  { injection Hw as <- <-. exists []. rewrite app_nil_r, count_if_nil. split; [done|]. cbn. lia. }
  cbn [publish_run arrivals] in *. unfold mbind, prog_bind in Hw.
  destruct (publish_turn p ctx e c w) as [[c1|why|] w1] eqn:Ht; [|done|done].
  destruct (balanced_turn p ctx e c w c1 w1 Ht) as (lg1 & Hl1 & Hc1).
  destruct (IH c1 w1 Hw) as (lg2 & Hl2 & Hc2).
  exists (lg1 ++ lg2). split; [by rewrite Hl2, Hl1, app_assoc|]. rewrite count_if_app. lia.
Qed.

(** *** Sends that succeed *)

Definition sends : Prop := ∀ resp e, ∃ e', answer (I := Srv) (SSendPublish resp) e = (Ret None, e').

Lemma respond_run i resp last c w : sends →
  ∃ w', respond i resp last c w = (Ret (set_helper i (if last then HDone else HRecv) c), w') ∧
        st w' = st w ∧ log w' = log w ++ [sev (SSendPublish resp) (Ret None)].
Proof.
  intros Hs. destruct (Hs resp (env w)) as [e He]. unfold respond.
  erewrite bind_run by (rewrite srv_call_run, He; done). by eexists.
Qed.

Lemma lookup_set_helper i h c : (i < length (helpers c))%nat → helpers (set_helper i h c) !! i = Some h.
Proof. intros Hi. cbn. by apply list_lookup_insert_eq. Qed.

Lemma run_step p ctx e es c w c1 w1 :
  publish_turn p ctx e c w = (Ret c1, w1) → publish_run p ctx (e :: es) c w = publish_run p ctx es c1 w1.
Proof. intros Ht. cbn [publish_run]. by rewrite (bind_run _ _ _ _ _ Ht). Qed.

End lemmas.

(** ** Properties *)

Section properties.
Context {E : Type} `{Oracle Srv E} `{Process E} `{MR : MapRange}.
Implicit Types w : world Srv E server.

(** C9: Whatever the schedule, the client gets one response for every message
    that a helper has received from it, whether it is published or refused,
    except for those a helper still holds; and beyond that only a stream that
    ends with an error sends one response more. The end of the client's stream
    is not answered, as [client-publish-consume.md] has it, and not
    [connection-message-lifecycle.md], which draws a response per error and a
    final one. *)
Theorem publish_answers_once p ctx es w c w' :
  publish_run p ctx es first_iteration w = (Ret c, w') →
  ∃ lg, log w' = log w ++ lg ∧
    count_if is_response lg + due c = arrivals p ctx es first_iteration w + farewell c.
Proof.
  intros Hw. destruct (run_balanced p ctx es first_iteration w c w' Hw) as (lg & Hl & Hc).
  exists lg. split; [done|]. change (due first_iteration) with 0 in Hc.
  change (farewell first_iteration) with 0 in Hc. lia.
Qed.

(** A message that asks for confirmation puts the stream out of step. The
    provider answers it twice; the helper takes the second answer for one about
    the next message, tells the client that this message failed (even when the
    answer is that all is well), and ends: the provider never gets the next
    message. *)
Theorem publish_out_of_step p ctx c w m1 m2 unsupported result :
  sends (E := E) → main c = MPublishing → helpers c !! current c = Some HRecv →
  one_subject m1 = true → one_subject m2 = true →
  let i := current c in
  ∃ c' w', publish_run p ctx [ERecv i (inl m1); ETake; EReply (Some unsupported); ERecv i (inl m2);
                              EReply result] c w = (Ret c', w') ∧
    log w' = log w ++ [sev (SSendPublish (failure (Some unsupported))) (Ret None);
                       sev (SSendPublish (failure result)) (Ret None)] ∧
    helpers c' !! i = Some HDone ∧ main c' = MPublishing.
Proof.
  intros Hs Hm Hi H1 H2 i.
  assert (∀ h c0, current (set_helper i h c0) = current c0) as Hcur
    by (intros; unfold current; cbn; by rewrite length_insert).
  assert ((i < length (helpers c))%nat) as Hlt by (by eapply lookup_lt_Some).
  rewrite (run_step p ctx _ _ c w (set_helper i (HSelect m1) c) w).
  2: { cbn [publish_turn]. fold i in Hi. rewrite Hi. unfold received. by rewrite H1. }
  rewrite (run_step p ctx _ _ _ w (set_helper i (HWaiting m1) (set_helper i (HSelect m1) c)) w).
  2: { cbn [publish_turn main set_helper]. rewrite Hm, (Hcur (HSelect m1) c). fold i.
       by rewrite (lookup_set_helper i _ c). }
  set (c2 := set_helper i (HWaiting m1) _).
  assert (current c2 = i) as Hc2 by (unfold c2; by rewrite !Hcur).
  assert ((i < length (helpers c2))%nat) as Hlt2 by (unfold c2; cbn; by rewrite !length_insert).
  assert (helpers c2 !! i = Some (HWaiting m1)) as Hi2.
  { unfold c2. apply lookup_set_helper. cbn. by rewrite length_insert. }
  destruct (respond_run i (publish_response (Some unsupported)) false c2 w Hs) as (w1 & Hw1 & Hst1 & Hl1).
  rewrite (run_step p ctx _ _ c2 w (set_helper i HRecv c2) w1).
  2: { cbn [publish_turn]. replace (main c2) with MPublishing by done. rewrite Hc2. unfold answered.
       by rewrite Hi2. }
  rewrite (run_step p ctx _ _ _ w1 (set_helper i (HSelect m2) (set_helper i HRecv c2)) w1).
  2: { cbn [publish_turn]. rewrite (lookup_set_helper i HRecv c2 Hlt2). unfold received. by rewrite H2. }
  set (c4 := set_helper i (HSelect m2) _).
  assert (current c4 = i) as Hc4 by (unfold c4; by rewrite !Hcur).
  assert ((i < length (helpers c4))%nat) as Hlt4 by (unfold c4; cbn; by rewrite !length_insert).
  assert (helpers c4 !! i = Some (HSelect m2)) as Hi4.
  { unfold c4. apply lookup_set_helper. cbn. by rewrite length_insert. }
  destruct (respond_run i (failure result) true c4 w1 Hs) as (w2 & Hw2 & Hst2 & Hl2).
  rewrite (run_step p ctx _ _ c4 w1 (set_helper i HDone c4) w2).
  2: { cbn [publish_turn]. replace (main c4) with MPublishing by done. rewrite Hc4. unfold answered.
       by rewrite Hi4. }
  exists (set_helper i HDone c4), w2. split; [done|]. split; [by rewrite Hl2, Hl1, <- app_assoc|].
  split; [by apply lookup_set_helper|done].
Qed.
(** A helper of an earlier iteration keeps receiving from the client, on
    channels nobody listens to: neither the provider nor the loop ever touches
    what it holds, and after 30 seconds the client is told that publishing
    failed. *)
Lemma stale_helper_alone p ctx e i c w c' w' :
  (e = ETake ∨ (∃ err, e = EReply err) ∨ e = EHandOver) → i ≠ current c →
  publish_turn p ctx e c w = (Ret c', w') → helpers c' !! i = helpers c !! i.
Proof.
  assert (∀ h c0, helpers c0 = helpers c → i ≠ current c → helpers (set_helper (current c) h c0) !! i = helpers c !! i)
    as Hset.
  { intros h c0 Hh Hi. cbn. rewrite list_lookup_insert_ne by done. by rewrite Hh. }
  assert (∀ resp last c0, helpers c0 = helpers c → i ≠ current c → ∀ v c1 v', respond (current c) resp last c0 v = (Ret c1, v') →
    helpers c1 !! i = helpers c !! i) as Hresp.
  { intros resp last c0 Hh Hi v c1 v'. unfold respond, mbind, prog_bind. rewrite srv_call_run.
    destruct (answer (I := Srv) (SSendPublish resp) (env v)) as [[err|why|] e1]; [|done|done].
    intros [= <- _]. pose proof (Hset HDone c0 Hh Hi). pose proof (Hset (if last then HDone else HRecv) c0 Hh Hi).
    destruct (err : error) as [er|]; [by destruct (String.eqb er EOF)|done]. }
  intros [->|[[err ->]| ->]] Hi; cbn [publish_turn]; destruct (main c) eqn:Hm; try (by intros [= <- _]).
  - destruct (helpers c !! current c) as [[]|]; intros [= <- _]; try done. by apply Hset.
  - unfold answered. destruct (helpers c !! current c) as [[]|]; try (by intros [= <- _]); by apply Hresp.
  - unfold answered. cbn [helpers set_main].
    destruct (helpers c !! current c) as [[]|]; try (by intros [= <- _]); by apply Hresp.
Qed.

Lemma stale_helper_fails p ctx c w i m :
  sends (E := E) → helpers c !! i = Some HRecv → one_subject m = true →
  ∃ w', publish_run p ctx [ERecv i (inl m); ETimeout i] c w =
          (Ret (set_helper i HDone (set_helper i (HSelect m) c)), w') ∧
        log w' = log w ++ [sev (SSendPublish (failure (Some timeout_error))) (Ret None)].
Proof.
  intros Hs Hi Hm. assert ((i < length (helpers c))%nat) as Hlen by (by eapply lookup_lt_Some).
  rewrite (run_step p ctx _ _ c w (set_helper i (HSelect m) c) w).
  2: { cbn [publish_turn]. rewrite Hi. unfold received. by rewrite Hm. }
  destruct (respond_run i (failure (Some timeout_error)) true (set_helper i (HSelect m) c) w Hs) as (w1 & Hw1 & _ & Hl1).
  rewrite (run_step p ctx _ _ (set_helper i (HSelect m) c) w (set_helper i HDone (set_helper i (HSelect m) c)) w1).
  2: { cbn [publish_turn]. rewrite lookup_set_helper by done. exact Hw1. }
  by exists w1.
Qed.
End properties.

(** ** Witnesses *)

Section witnesses.
Definition demo_message (subjects : list string) : Message := {|
  Uuid := ""; Headers := ∅; Body := []; MessageAddress := Some (mkAddress "orders" subjects Address_TOPIC false None);
  Persistent := false; MessageError := None; Confirm := true; PublishId := 0; PublisherName := "" |}.

(** A message that is published, one with two subjects, one that is offered,
    and the end of the provider's call. *)
Definition demo_schedule : list publish_event :=
  [ERecv 0 (inl (demo_message ["a"])); ETake; EReply None; ERecv 0 (inl (demo_message ["a"; "b"]));
   ERecv 0 (inl (demo_message ["c"])); EReturn (Some (mkError "gone")); EHandOver; EContinue].

Definition demo_end : publish := mkPublish [HDone; HRecv] MPublishing false None.

Lemma publish_answers_once_witness (O := ok_srv) :
  ∃ lg, log (run_state (publish_run 0 demo_peer demo_schedule first_iteration)
               (demo_world {[ "c-1" := demo_config ]})) = [] ++ lg ∧
        count_if is_response lg + due demo_end = 3.
Proof.
  assert (run_result (publish_run 0 demo_peer demo_schedule first_iteration)
            (demo_world {[ "c-1" := demo_config ]}) = Ret demo_end) as Hr by (vm_compute; reflexivity).
  destruct (publish_answers_once 0 demo_peer demo_schedule (demo_world {[ "c-1" := demo_config ]}) demo_end _
    (run_intro _ _ _ Hr)) as (lg & Hl & Hc).
  exists lg. split; [exact Hl|]. rewrite Hc. vm_compute. reflexivity.
Defined.

Lemma publish_out_of_step_witness (O := ok_srv) :
  ∃ c' w', publish_run 0 demo_peer [ERecv 0 (inl (demo_message ["a"])); ETake;
      EReply (Some (mkError "unsupported")); ERecv 0 (inl (demo_message ["b"])); EReply None]
      first_iteration (demo_world ∅) = (Ret c', w') ∧ helpers c' !! 0%nat = Some HDone.
Proof.
  destruct (publish_out_of_step 0 demo_peer first_iteration (demo_world ∅) (demo_message ["a"])
    (demo_message ["b"]) (mkError "unsupported") None) as (c' & w' & Hr & _ & Hd & _);
    [intros resp e; by eexists|reflexivity..|].
  exists c', w'. split; [exact Hr|exact Hd].
Defined.
End witnesses.

End Publish.
