(* ===== verification/Health.v ===== *)
(** * Process statistics and the health service

    [internal/util/safe_buffer.go], [internal/util/metrics.go] and the health
    part of [internal/server/server.go]: the ring buffer of measurements, the
    availability computed from it in IEEE arithmetic, the health messages, and
    the machine of the [Check] streams and of the goroutine that notifies
    them. *)

From Stdlib Require Import Ascii String.
From stdpp Require Import base gmap strings list fin_maps option.
From Stdlib Require Import ZArith Lia SpecFloat.
From S2P Require Import Prelude Effects GoStrings Api ConcurrentMap ClientIds Provider Server.

(** ** [SafeBuffer]: a ring of the last measurements *)

Module SafeBuffer.
Open Scope list_scope.

Section buffer.
Context {A : Type}.

(** The slots of the ring, from the current one on; an empty slot holds nil. *)
Abbreviation SafeBuffer := (list (option A)).

Definition NewSafeBuffer (size : nat) : SafeBuffer := replicate size None.

(** The current slot is written, and the ring moves on. *)
Definition Add (val : A) (sr : SafeBuffer) : SafeBuffer :=
  match sr with [] => [] | _ :: rest => rest ++ [Some val] end.

Definition GetMostRecent (sr : SafeBuffer) : option A := mjoin (list.last sr).

Definition GetData (sr : SafeBuffer) : list A := omap id sr.

(** What a buffer of size [n] holds after [vs]: the newest values, oldest
    first, behind the slots that are still empty. *)
Lemma adds_spec n vs :
  foldl (λ sr v, Add v sr) (NewSafeBuffer (S n)) vs =
    replicate (S n - length vs) None ++ (Some <$> drop (length vs - S n) vs).
Proof.
  induction vs as [|v vs IH] using rev_ind; [by rewrite drop_nil, app_nil_r|].
  rewrite foldl_app, IH, length_app. cbn [foldl length].
  destruct (decide (length vs < S n)%nat) as [Hlt|Hge].
  - replace (S n - length vs)%nat with (S (S n - (length vs + 1)))%nat by lia. cbn [replicate Add app].
    replace (length vs - S n)%nat with 0%nat by lia. replace (length vs + 1 - S n)%nat with 0%nat by lia.
    by rewrite !drop_0, fmap_app, app_assoc.
  - replace (S n - length vs)%nat with 0%nat by lia.
    replace (S n - (length vs + 1))%nat with 0%nat by lia. cbn [replicate app].
    destruct (drop (length vs - S n) vs) as [|x rest] eqn:Hd.
    { apply (f_equal length) in Hd. rewrite length_drop in Hd. cbn in Hd. lia. }
    cbn [fmap list_fmap Add].
    replace (length vs + 1 - S n)%nat with (S (length vs - S n)) by lia.
    rewrite drop_app_le by (apply (f_equal length) in Hd; rewrite length_drop in Hd; cbn in Hd; lia).
    rewrite fmap_app. f_equal. f_equal. symmetry. rewrite <- Nat.add_1_r, <- drop_drop, Hd. done.
Qed.

Lemma omap_id_app (k : nat) (l : list A) : omap id (replicate k None ++ (Some <$> l)) = l.
Proof. induction k as [|k IH]; [|done]. induction l as [|x l IH]; [done|]. cbn in *. by f_equal. Qed.

Lemma last_suffix (k : nat) (l : list A) : mjoin (list.last (replicate k None ++ (Some <$> l))) = list.last l.
Proof.
  destruct (list.last l) as [x|] eqn:Hl.
  - apply last_Some in Hl as [l' ->]. rewrite fmap_app. cbn [fmap list_fmap].
    by rewrite app_assoc, last_snoc.
  - apply last_None in Hl as ->. rewrite app_nil_r.
    destruct k as [|k]; [done|]. rewrite replicate_S_end. by rewrite last_snoc.
Qed.

(** C32: The ring buffer is the window of the last measurements: after any
    sequence of values it returns the newest ones, as many as it has slots, in
    the order they came, and its most recent value is the last one added. *)
Theorem buffer_last_values size vs :
  let sr := foldl (λ sr v, Add v sr) (NewSafeBuffer (S size)) vs in
  GetData sr = drop (length vs - S size) vs ∧ GetMostRecent sr = list.last vs.
Proof.
  intros sr. subst sr. rewrite adds_spec. unfold GetData, GetMostRecent.
  rewrite omap_id_app, last_suffix. split; [done|].
  destruct (decide (length vs - S size < length vs)%nat) as [Hlt|Hge].
  - rewrite <- (f_equal list.last (take_drop (length vs - S size) vs)), last_app.
    destruct (list.last (drop (length vs - S size) vs)) eqn:Hl; [done|].
    apply last_None, (f_equal length) in Hl. rewrite length_drop in Hl. cbn in Hl. lia.
  - destruct vs; [done|]. cbn in Hge. lia.
Qed.

End buffer.
End SafeBuffer.

(** ** [metrics.go] *)

Module Metrics.
Import SafeBuffer.
Open Scope Z_scope.
Open Scope list_scope.

(** [float64] is binary64 and [float32] binary32; conversions round to
    nearest, ties to even. *)
Definition float64_of (z : Z) : spec_float := binary_normalize 53 1024 z 0 false.
Definition div64 : spec_float → spec_float → spec_float := SFdiv 53 1024.
Definition sub64 : spec_float → spec_float → spec_float := SFsub 53 1024.
Definition float32_of (x : spec_float) : spec_float :=
  match x with
  | S754_finite s m e => binary_normalize 24 128 (if s then Z.neg m else Z.pos m) e s
  | _ => x
  end.
Definition zero : spec_float := S754_zero false.

(** [Duration.Seconds] *)
Definition Seconds (d : Z) : spec_float :=
  SFadd 53 1024 (float64_of (Z.quot d 1000000000))
    (div64 (float64_of (Z.rem d 1000000000)) (float64_of 1000000000)).

(** [Time.Sub] saturates. *)
Definition time_sub (t u : Z) : Z := Z.max (- 2 ^ 63) (Z.min (2 ^ 63 - 1) (t - u)).

(** [float32(-1.0)], and the [float32] nearest to 0.1. *)
Definition unknown : spec_float := float32_of (float64_of (-1)).
Definition cpuAvailabilityThreshold : spec_float := S754_finite false 13421773 (-27).
Definition memoryAvailabilityThreshold : spec_float := cpuAvailabilityThreshold.

Definition historySeconds : nat := 60.
Definition historyIntervalSeconds : nat := 5.

(** The package's variables. *)
Record metrics := {
  cpuMillicoreHistory : list (option Z);
  memHistory : list (option Z);
  maxMemory : spec_float;
  cpuMillicoreLimit : Z
}.

Definition initial : metrics := {|
  cpuMillicoreHistory := NewSafeBuffer (historySeconds / historyIntervalSeconds);
  memHistory := NewSafeBuffer (historySeconds / historyIntervalSeconds);
  maxMemory := zero; cpuMillicoreLimit := 0 |}.

Definition setMaxMemory (mem : spec_float) (s : metrics) : metrics := {|
  cpuMillicoreHistory := cpuMillicoreHistory s; memHistory := memHistory s; maxMemory := mem;
  cpuMillicoreLimit := cpuMillicoreLimit s |}.
Definition setCPUMillicoreLimit (millicores : Z) (s : metrics) : metrics := {|
  cpuMillicoreHistory := cpuMillicoreHistory s; memHistory := memHistory s; maxMemory := maxMemory s;
  cpuMillicoreLimit := millicores |}.
Definition addMemoryHistory (mem : Z) (s : metrics) : metrics := {|
  cpuMillicoreHistory := cpuMillicoreHistory s; memHistory := Add mem (memHistory s);
  maxMemory := maxMemory s; cpuMillicoreLimit := cpuMillicoreLimit s |}.
Definition addCPUHistory (cpu : Z) (s : metrics) : metrics := {|
  cpuMillicoreHistory := Add cpu (cpuMillicoreHistory s); memHistory := memHistory s;
  maxMemory := maxMemory s; cpuMillicoreLimit := cpuMillicoreLimit s |}.

(** [1 - avg / limit], not less than 0. *)
Definition availability (avg limit : spec_float) : spec_float :=
  let a := sub64 (float64_of 1) (div64 avg limit) in
  float32_of (if SFltb a zero then zero else a).

Definition average (total : Z) (data : list Z) : spec_float :=
  div64 (float64_of total) (float64_of (Z.of_nat (length data))).

Definition memoryAvailability (s : metrics) : spec_float :=
  let memData := GetData (memHistory s) in
  if (length memData =? 0)%nat then unknown
  else
    let memTotal := foldl (λ t mem, uint 64 (t + mem)) 0 memData in
    if SFltb zero (maxMemory s) then availability (average memTotal memData) (maxMemory s)
    else unknown.

Definition cpuAvailability (s : metrics) : spec_float :=
  let cpuData := GetData (cpuMillicoreHistory s) in
  if (length cpuData =? 0)%nat then unknown
  else if cpuMillicoreLimit s <=? 0 then unknown
  else
    let cpuMillicoreTotal := foldl (λ t usage, int64 (t + usage)) 0 cpuData in
    availability (average cpuMillicoreTotal cpuData) (float64_of (cpuMillicoreLimit s)).

Record ProcessStats := { CPUAvailability : spec_float; MemoryAvailability : spec_float }.

Definition GetProcessStats (s : metrics) : ProcessStats :=
  {| CPUAvailability := cpuAvailability s; MemoryAvailability := memoryAvailability s |}.

Definition IsUnhealthyUsage (ps : ProcessStats) : bool :=
  if SFleb zero (CPUAvailability ps) && SFltb (CPUAvailability ps) cpuAvailabilityThreshold then true
  else if SFleb zero (MemoryAvailability ps) && SFltb (MemoryAvailability ps) memoryAvailabilityThreshold
  then true
  else false.

(** *** Lemmas *)

(** Rounding keeps the sign. *)
Lemma round_aux_sign prec emax m e l :
  SFltb (binary_round_aux prec emax false m e l) zero = false.
Proof.
  unfold binary_round_aux. destruct (shr_fexp _ _ _ _ _) as [r e1].
  destruct (shr_fexp _ _ _ _ _) as [r2 e2]. destruct (shr_m r2); [done| |done].
  by destruct (Z.leb _ _).
Qed.

Lemma float32_nonneg x : SFltb x zero = false → SFltb (float32_of x) zero = false.
Proof.
  destruct x as [s|s| |s m e]; try done. destruct s; [done|]. intros _. cbn [float32_of].
  unfold binary_normalize, binary_round. destruct (shl_align _ _ _). apply round_aux_sign.
Qed.

Lemma availability_nonneg avg limit : SFltb (availability avg limit) zero = false.
Proof.
  unfold availability. apply float32_nonneg. cbv zeta.
  by destruct (SFltb (sub64 (float64_of 1) (div64 avg limit)) zero) eqn:Hs.
Qed.

(** A reported availability is unknown or not negative. *)
Lemma reported_nonneg s :
  (cpuAvailability s = unknown ∨ SFltb (cpuAvailability s) zero = false) ∧
  (memoryAvailability s = unknown ∨ SFltb (memoryAvailability s) zero = false).
Proof.
  unfold cpuAvailability, memoryAvailability. split.
  - destruct (length _ =? 0)%nat; [by left|]. destruct (_ <=? 0); [by left|]. right. apply availability_nonneg.
  - destruct (length _ =? 0)%nat; [by left|]. destruct (SFltb zero _); [|by left].
    right. apply availability_nonneg.
Qed.

End Metrics.

(** ** The health service *)

Module Health.
Import ConcurrentMap Server Metrics.
Open Scope Z_scope.
Open Scope list_scope.

(** [cpuAndMemoryHealthSet] *)
Definition cpuAndMemoryHealthSet (ps : ProcessStats) (status : HealthStatus) : HealthStatus :=
  if IsUnhealthyUsage ps then
    {| HealthUuid := HealthUuid status; HealthTime := HealthTime status; HealthCode := HealthStatus_UNHEALTHY;
       CpuAvailability := CpuAvailability status; Api.MemoryAvailability := Api.MemoryAvailability status |}
  else status.

(** A status with the process's availability, and its time. *)
Definition status_of (uuid : string) (time : option Z) (code : HealthStatus_Code) (ps : ProcessStats) :
    HealthStatus := {|
  HealthUuid := uuid; HealthTime := time; HealthCode := code;
  CpuAvailability := CPUAvailability ps; Api.MemoryAvailability := MemoryAvailability ps |}.

Definition at_time (time : Z) (s : HealthStatus) : HealthStatus := {|
  HealthUuid := HealthUuid s; HealthTime := Some time; HealthCode := HealthCode s;
  CpuAvailability := CpuAvailability s; Api.MemoryAvailability := Api.MemoryAvailability s |}.

(** What the monitor is doing: nothing, walking over the clients it has still
    to notify, or sending to a channel. *)
Inductive monitor :=
  | MIdle
  | MWalk (code : HealthStatus_Code) (rest : list string)
  | MSend (code : HealthStatus_Code) (ch : nat) (rest : list string).

(** How far a [Check] stream is: it has registered its channel; it serves its
    client, and receives from its channel; it is done, because its context is or
    because its first message could not be sent, but is still registered; it is
    registered no more, but its channel is open; its channel is closed. *)
Inductive stage := Registered | Serving | Done | Leaving | Ended.
#[global] Instance stage_eq_dec : EqDecision stage.
Proof. solve_decision. Defined.

(** A [Check] stream is the number of its channel: [checks] has the client
    address of every stream and its stage. *)
Record health := {
  healthNotifiers : gmap string nat;
  checks : list (string * stage);
  watching : monitor
}.

Definition health_init : health := {| healthNotifiers := NewConcurrentMap; checks := []; watching := MIdle |}.

Definition set_watching (m : monitor) (h : health) : health :=
  {| healthNotifiers := healthNotifiers h; checks := checks h; watching := m |}.

(** [notifyHealth] with a new channel. *)
Definition notifyHealth (clientAddr : string) (h : health) : health := {|
  healthNotifiers := Add clientAddr (length (checks h)) (healthNotifiers h);
  checks := checks h ++ [(clientAddr, Registered)]; watching := watching h |}.

(** Stream [n], of this client, has come to a stage. *)
Definition set_stage (n : nat) (clientAddr : string) (t : stage) (h : health) : health := {|
  healthNotifiers := healthNotifiers h; checks := <[n := (clientAddr, t)]> (checks h); watching := watching h |}.

(** The two calls of the deferred function of [Check]. *)
Definition unregister (n : nat) (clientAddr : string) (h : health) : health :=
  set_stage n clientAddr Leaving {|
    healthNotifiers := snd (DeleteIfEqual clientAddr n (healthNotifiers h));
    checks := checks h; watching := watching h |}.
Definition close_channel (n : nat) (clientAddr : string) (h : health) : health := set_stage n clientAddr Ended h.

Section health.
Context {E : Type} `{Oracle Srv E} `{MapRange}.

Definition MakeInternalHealthMsg (s : metrics) (code : HealthStatus_Code) : sprog E Health :=
  now ← call SNow;
  mret (Health_Status (status_of "" (Some now) code (GetProcessStats s))).

Definition MakeHealthMsg (s : metrics) (uuid : string) : sprog E Health :=
  let ps := GetProcessStats s in
  let hs := cpuAndMemoryHealthSet ps (status_of uuid None HealthStatus_OK ps) in
  now ← call SNow;
  mret (Health_Status (at_time now hs)).

(** The first message of a stream. *)
Definition initial_health (s : metrics) : sprog E Health :=
  uuid ← call SUUID;
  now ← call SNow;
  let ps := GetProcessStats s in
  mret (Health_Status (cpuAndMemoryHealthSet ps (status_of uuid (Some now) HealthStatus_OK ps))).

(** ** Schedules *)

Inductive health_event :=
  | HCheck (ctx : ClientIds.peer)       (* a client opens a [Check] stream *)
  | HStart (n : nat)                    (* stream [n] sends its first message *)
  | HRecv (n : nat) (m : Health)        (* stream [n] receives *)
  | HDone (n : nat)                     (* stream [n] sees that its context is done *)
  | HUnregister (n : nat)               (* stream [n] removes its registration *)
  | HClose (n : nat)                    (* stream [n] closes its channel *)
  | HCode (code : HealthStatus_Code)    (* the monitor receives a code *)
  | HNext                               (* the monitor looks the next client up *)
  | HSend.                              (* the monitor sends *)

(** What a stream does first: without an address it ends there. *)
Definition open_check (ctx : ClientIds.peer) (h : health) : health :=
  match ClientIds.GetClientAddr ctx with
  | (_, Some _) => h
  | (clientAddr, None) => notifyHealth clientAddr h
  end.

(** The goroutine [MonitorHealthChan]: it looks the next client up. *)
Definition monitor_next (h : health) : health :=
  match watching h with
  | MWalk code [] => set_watching MIdle h
  | MWalk code (clientAddr :: rest) =>
      match Get clientAddr (healthNotifiers h) with
      | Some ch => set_watching (MSend code ch rest) h
      | None => set_watching (MWalk code rest) h
      end
  | _ => h
  end.

(** It sends on an unbuffered channel: while the stream does not receive, and
    its channel is open, the monitor waits, and nothing happens. *)
Definition monitor_send (s : metrics) (h : health) : sprog E health :=
  match watching h with
  | MSend code ch rest =>
      match checks h !! ch with
      | Some (_, Serving) =>   (* the stream receives the code and passes it on *)
          msg ← MakeInternalHealthMsg s code;
          call (SSendHealth ch msg);;
          mret (set_watching (MWalk code rest) h)
      | Some (_, Ended) => panic "send on closed channel"
      | _ => mret h
      end
  | _ => mret h
  end.

(** A step that is not possible changes nothing. *)
Definition health_turn (s : metrics) (e : health_event) (h : health) : sprog E health :=
  match e with
  | HCheck ctx => mret (open_check ctx h)
  | HStart n =>
      match checks h !! n with
      | Some (clientAddr, Registered) =>
          msg ← initial_health s;
          err ← call (SSendHealth n msg);
          mret (set_stage n clientAddr (match (err : error) with Some _ => Done | None => Serving end) h)
      | _ => mret h
      end
  | HRecv n m =>
      match checks h !! n, m with
      | Some (_, Serving), Health_Check uuid =>
          msg ← MakeHealthMsg s uuid; call (SSendHealth n msg);; mret h
      | _, _ => mret h
      end
  | HDone n =>
      mret match checks h !! n with
           | Some (clientAddr, Serving) => set_stage n clientAddr Done h
           | _ => h
           end
  | HUnregister n =>
      mret match checks h !! n with
           | Some (clientAddr, Done) => unregister n clientAddr h
           | _ => h
           end
  | HClose n =>
      mret match checks h !! n with
           | Some (clientAddr, Leaving) => close_channel n clientAddr h
           | _ => h
           end
  | HCode code =>
      match watching h with
      | MIdle => mret (set_watching (MWalk code (GetList (healthNotifiers h))) h)
      | _ => mret h
      end
  | HNext => mret (monitor_next h)
  | HSend => monitor_send s h
  end.

Fixpoint health_run (s : metrics) (es : list health_event) (h : health) : sprog E health :=
  match es with
  | [] => mret h
  | e :: rest => h' ← health_turn s e h; health_run s rest h'
  end.

End health.

(** *** Lemmas *)

(** The stream has not removed its registration. *)
Definition registered (t : stage) : bool := match t with Registered | Serving | Done => true | _ => false end.

(** Stream [n] is this client's, has not removed its registration, and is the
    last one its client has opened. *)
Definition newest (h : health) (clientAddr : string) (n : nat) : Prop :=
  (∃ t, checks h !! n = Some (clientAddr, t) ∧ registered t = true) ∧
  ∀ m t, (n < m)%nat → checks h !! m ≠ Some (clientAddr, t).

(** The notifier of a client is the channel of its newest stream. *)
Definition notified (h : health) : Prop :=
  ∀ clientAddr n, Get clientAddr (healthNotifiers h) = Some n ↔ newest h clientAddr n.

Lemma notified_watching m h : notified h → notified (set_watching m h).
Proof. done. Qed.

Lemma notified_init : notified health_init.
Proof. intros a n. split; [done|]. intros [(t & Hn & _) _]; apply lookup_lt_Some in Hn; cbn in Hn; lia. Qed.

Lemma notified_notifyHealth clientAddr h : notified h → notified (notifyHealth clientAddr h).
Proof.
  intros Hh a n. unfold newest. cbn [notifyHealth healthNotifiers checks]. rewrite Get_Add.
  destruct (decide (a = clientAddr)) as [->|Hne].
  - split.
    + intros [= <-]. split; [exists Registered; split; [by apply list_lookup_middle|done]|].
      intros m t Hlt Hm. apply lookup_lt_Some in Hm. rewrite length_app in Hm. cbn in Hm. lia.
    + intros [(t & Hn & _) Hl]. f_equal. destruct (decide (length (checks h) < n)%nat) as [Hlt|].
      { apply lookup_lt_Some in Hn; rewrite length_app in Hn; cbn in Hn; lia. }
      destruct (decide (n < length (checks h))%nat) as [Hlt|]; [|lia].
      by destruct (Hl _ Registered Hlt); apply list_lookup_middle.
  - rewrite (Hh a n). unfold newest.
    assert (∀ i t, (checks h ++ [(clientAddr, Registered)]) !! i = Some (a, t) ↔ checks h !! i = Some (a, t)) as Heq.
    { intros i t. rewrite lookup_app_Some, list_lookup_singleton_Some. naive_solver. }
    setoid_rewrite Heq. done.
Qed.

(** A stream that comes to another stage stays its client's. *)
Lemma set_stage_lookup n clientAddr t0 t h a i t' :
  checks h !! n = Some (clientAddr, t0) →
  checks (set_stage n clientAddr t h) !! i = Some (a, t') ↔
    if decide (i = n) then a = clientAddr ∧ t' = t else checks h !! i = Some (a, t').
Proof.
  intros Hn. cbn [set_stage checks]. assert (n < length (checks h))%nat as Hlt by (by eapply lookup_lt_Some).
  case_decide as Hi; [subst i; rewrite list_lookup_insert_eq by done; naive_solver|].
  by rewrite list_lookup_insert_ne by done.
Qed.

Lemma set_stage_newest n clientAddr t0 t h a n' :
  checks h !! n = Some (clientAddr, t0) → (n' ≠ n ∨ registered t = registered t0) →
  newest (set_stage n clientAddr t h) a n' ↔ newest h a n'.
Proof.
  intros Hn Ht. unfold newest. setoid_rewrite (λ i t', set_stage_lookup n clientAddr t0 t h a i t' Hn).
  f_equiv.
  - case_decide as Hi; [subst n'|done]. destruct Ht as [|Ht]; [done|].
    split; [intros (t' & (-> & ->) & Hr); exists t0; by rewrite <- Ht|].
    intros (t' & Ht' & Hr). exists t. rewrite Hn in Ht'. injection Ht' as <- <-. by rewrite Ht.
  - split; intros Hl m t' Hm Hmt.
    + destruct (decide (m = n)) as [->|Hmn].
      * apply (Hl n t Hm). rewrite Hn in Hmt. injection Hmt as <- <-. by destruct (decide (n = n)).
      * apply (Hl m t' Hm). by destruct (decide (m = n)).
    + destruct (decide (m = n)) as [->|Hmn]; [destruct Hmt as [-> _]; by apply (Hl n t0 Hm)|by apply (Hl m t' Hm)].
Qed.

Lemma notified_stage n clientAddr t0 t h :
  checks h !! n = Some (clientAddr, t0) → registered t = registered t0 → notified h →
  notified (set_stage n clientAddr t h).
Proof.
  intros Hn Ht Hh a n'. rewrite (set_stage_newest n clientAddr t0 t h a n' Hn) by (by right). apply Hh.
Qed.

Lemma notified_unregister n clientAddr t0 h :
  checks h !! n = Some (clientAddr, t0) → notified h → notified (unregister n clientAddr h).
Proof.
  intros Hn Hh a n'. unfold unregister.
  set (h1 := {| healthNotifiers := _ |}). change (healthNotifiers (set_stage _ _ _ h1)) with (healthNotifiers h1).
  assert (∀ a n, newest h1 a n ↔ newest h a n) as Hsame by done.
  destruct (decide (n' = n)) as [->|Hne].
  - split; [|intros [(t & Ht & Hr) _]; apply (set_stage_lookup n clientAddr t0 Leaving h1 a n t Hn) in Ht;
      rewrite decide_True in Ht by done; by destruct Ht as [_ ->]].
    unfold h1. cbn [healthNotifiers]. rewrite DeleteIfEqual_spec. case_decide as Hd; cbn [snd]; intros Hg.
    + rewrite Get_Delete in Hg. case_decide; [done|]. apply Hh in Hg as [(t & Ht & _) _]. congruence.
    + destruct (proj1 (Hh a n) Hg) as [(t & Ht & _) _]. congruence.
  - rewrite (set_stage_newest n clientAddr t0 Leaving h1 a n' Hn) by (by left). rewrite Hsame, <- (Hh a n').
    unfold h1. cbn [healthNotifiers]. rewrite DeleteIfEqual_spec. case_decide as Hd; cbn [snd]; [|done].
    rewrite Get_Delete. case_decide as Ha; [|done]. subst a. split; [done|]. intros Hg. congruence.
Qed.

(** ** Properties *)

Section properties.
Context {E : Type} `{Oracle Srv E} `{MapRange} `{!Returns Srv E}.
Implicit Types w : world Srv E server.

(** The monitor is about to send to a channel that is closed. *)
Definition to_closed (h : health) : Prop :=
  ∃ code ch rest clientAddr, watching h = MSend code ch rest ∧ checks h !! ch = Some (clientAddr, Ended).

(** The registrations are right, and the monitor has a stream's channel in hand. *)
Definition sane (h : health) : Prop :=
  notified h ∧ ∀ code ch rest, watching h = MSend code ch rest → is_Some (checks h !! ch).

Lemma call_step {A} c (k : srv_reply c → sprog E A) (Q : outcome A → Prop) w :
  (∀ r w', Q (fst (k r w'))) → Q (fst ((call c ≫= k) w)).
Proof.
  intros Hk. destruct (srv_call_returns c w) as (r & e & _ & Hc). rewrite (bind_run _ _ _ _ _ Hc). apply Hk.
Qed.

Ltac step_calls :=
  repeat (rewrite ?bind_assoc;
    match goal with |- ?Q (fst ((call ?c ≫= ?k) ?w)) => apply (call_step c k Q w); intros ? ?; cbv beta end;
    rewrite ?bind_ret_l).

Lemma sane_stage n clientAddr t0 t h :
  checks h !! n = Some (clientAddr, t0) → registered t = registered t0 → sane h → sane (set_stage n clientAddr t h).
Proof.
  intros Hn Ht [Hh Hs]. split; [by eapply notified_stage|]. intros code ch rest Hw. cbn [set_stage checks].
  apply lookup_lt_is_Some. rewrite length_insert. by apply lookup_lt_is_Some, (Hs code ch rest).
Qed.

Lemma sane_unregister n clientAddr t0 h :
  checks h !! n = Some (clientAddr, t0) → sane h → sane (unregister n clientAddr h).
Proof.
  intros Hn [Hh Hs]. split; [by eapply notified_unregister|]. intros code ch rest Hw. cbn [unregister set_stage checks].
  apply lookup_lt_is_Some. rewrite length_insert. by apply lookup_lt_is_Some, (Hs code ch rest).
Qed.

Lemma sane_open ctx h : sane h → sane (open_check ctx h).
Proof.
  intros [Hh Hs]. unfold open_check. destruct (ClientIds.GetClientAddr ctx) as [a [err|]]; [done|].
  split; [by apply notified_notifyHealth|]. intros code ch rest Hw. cbn [notifyHealth checks].
  destruct (Hs code ch rest Hw) as [x Hx]. exists x. by apply lookup_app_l_Some.
Qed.

Lemma sane_next h : sane h → sane (monitor_next h).
Proof.
  intros [Hh Hs]. unfold monitor_next. destruct (watching h) as [|code [|a rest]|] eqn:Hw;
    [by split; [|rewrite Hw]|by split| |by split; [|rewrite Hw]].
  destruct (Get a (healthNotifiers h)) as [n|] eqn:Hg; [|done]. split; [done|].
  intros ??? [= <- <- <-]. apply Hh in Hg as [(t & Ht & _) _]. by eexists.
Qed.

(** How a step of the machine can end. *)
Definition ends_sane (e : health_event) (h : health) (o : outcome health) : Prop :=
  match o with
  | Ret h' => sane h'
  | Panic why => why = "send on closed channel" ∧ e = HSend ∧ to_closed h
  | Block => False
  end.

Lemma health_turn_sane s e h w : sane h → ends_sane e h (fst (health_turn s e h w)).
Proof.
  intros Hh. destruct e as [ctx|n|n m|n|n|n|code| |]; cbn [health_turn].
  - by apply sane_open.
  - destruct (checks h !! n) as [[a []]|] eqn:Hn; try done. unfold initial_health. step_calls.
    match goal with |- context [set_stage n a ?t h] => apply (sane_stage n a Registered t h Hn); [|done]; by case_match end.
  - destruct (checks h !! n) as [[a []]|]; destruct m; try done. unfold MakeHealthMsg. cbv zeta. by step_calls.
  - destruct (checks h !! n) as [[a []]|] eqn:Hn; try done. by apply (sane_stage n a Serving).
  - destruct (checks h !! n) as [[a []]|] eqn:Hn; try done. by apply (sane_unregister n a Done).
  - destruct (checks h !! n) as [[a []]|] eqn:Hn; try done. by apply (sane_stage n a Leaving).
  - destruct (watching h); [|done..]. by destruct Hh.
  - by apply sane_next.
  - unfold monitor_send. destruct (watching h) as [|?|code ch rest] eqn:Hw; [done..|].
    destruct (checks h !! ch) as [[a []]|] eqn:Hc; try done.
    + unfold MakeInternalHealthMsg. step_calls. by destruct Hh.
    + split; [done|]. split; [done|]. by exists code, ch, rest, a.
Qed.

Lemma health_run_sane s es h w :
  sane h →
  match health_run s es h w with
  | (Ret h', _) => sane h'
  | (Panic why, _) => why = "send on closed channel" ∧
      ∃ es1 es2 h1 w1, es = es1 ++ HSend :: es2 ∧ health_run s es1 h w = (Ret h1, w1) ∧ to_closed h1
  | (Block, _) => False
  end.
Proof.
  revert h w. induction es as [|e es IH]; intros h w Hh; [done|]. cbn [health_run].
  pose proof (health_turn_sane s e h w Hh) as Ht. unfold mbind at 1, prog_bind at 1.
  destruct (health_turn s e h w) as [[h'|why|] w'] eqn:He; cbn [fst ends_sane] in Ht; [|..].
  - specialize (IH h' w' Ht). destruct (health_run s es h' w') as [[h2|why|] w2]; [done| |done].
    destruct IH as (-> & es1 & es2 & h1 & w1 & -> & Hr & Hc). split; [done|].
    exists (e :: es1), es2, h1, w1. split; [done|]. split; [|done]. cbn [health_run]. by rewrite (bind_run _ _ _ _ _ He).
  - destruct Ht as (-> & -> & Hc). split; [done|]. by exists [], es, h, w.
  - done.
Qed.

(** The monitor has passed the code on to the stream, and goes on. *)
Definition passed (code : HealthStatus_Code) (rest : list string) (o : outcome health) : Prop :=
  ∃ h, o = Ret h ∧ watching h = MWalk code rest.

(** What becomes of the monitor's send, by the stage of the stream. *)
Lemma send_serving s code ch rest a h w :
  watching h = MSend code ch rest → checks h !! ch = Some (a, Serving) →
  passed code rest (fst (health_run s [HSend] h w)).
Proof.
  intros Hw Hc. cbn [health_run health_turn]. unfold monitor_send. rewrite Hw, Hc. unfold MakeInternalHealthMsg.
  step_calls. by eexists.
Qed.

Lemma send_ended s code ch rest a h w :
  watching h = MSend code ch rest → checks h !! ch = Some (a, Ended) →
  fst (health_run s [HSend] h w) = Panic "send on closed channel".
Proof. intros Hw Hc. cbn [health_run health_turn]. unfold monitor_send. by rewrite Hw, Hc. Qed.

(** The steps a stream makes on its own until it receives or has closed its
    channel. *)
Definition own_steps (n : nat) (t : stage) : list health_event :=
  match t with
  | Registered => [HStart n; HUnregister n; HClose n]
  | Done => [HUnregister n; HClose n]
  | Leaving => [HClose n]
  | _ => []
  end.

Lemma health_run_turn s e es h h' w w' :
  health_turn s e h w = (Ret h', w') → health_run s (e :: es) h w = health_run s es h' w'.
Proof. intros Hr. cbn [health_run]. by rewrite (bind_run _ _ _ _ _ Hr). Qed.

(** The first message of a stream, and where it leads. *)
Lemma start_run s n a h w :
  checks h !! n = Some (a, Registered) →
  ∃ t w', health_turn s (HStart n) h w = (Ret (set_stage n a t h), w') ∧ (t = Serving ∨ t = Done).
Proof.
  intros Hn. cbn [health_turn]. rewrite Hn. unfold initial_health. rewrite bind_assoc.
  destruct (srv_call_returns SUUID w) as (u & e1 & _ & Hu). rewrite (bind_run _ _ _ _ _ Hu), bind_assoc.
  match goal with |- context [(call SNow ≫= _) ?w1] => destruct (srv_call_returns SNow w1) as (now & e2 & _ & Hnow) end.
  rewrite (bind_run _ _ _ _ _ Hnow). cbv zeta. rewrite bind_ret_l.
  match goal with |- context [(call ?c ≫= _) ?w1] => destruct (srv_call_returns c w1) as (err & e3 & _ & Hs) end.
  rewrite (bind_run _ _ _ _ _ Hs). eexists _, _. split; [reflexivity|]. destruct (err : error); [by right|by left].
Qed.

Lemma own_steps_end s code ch rest a t h w :
  watching h = MSend code ch rest → checks h !! ch = Some (a, t) →
  passed code rest (fst (health_run s (own_steps ch t ++ [HSend]) h w)) ∨
  fst (health_run s (own_steps ch t ++ [HSend]) h w) = Panic "send on closed channel".
Proof.
  intros Hw Hc.
  assert (∀ t h' b, checks h' !! ch = Some (a, b) → checks (set_stage ch a t h') !! ch = Some (a, t)) as Hset.
  { intros t' h' b Hb. apply list_lookup_insert_eq. by eapply lookup_lt_Some. }
  assert (∀ h w, watching h = MSend code ch rest → checks h !! ch = Some (a, Leaving) →
    fst (health_run s [HClose ch; HSend] h w) = Panic "send on closed channel") as Hleave.
  { intros h' w' Hw' Hc'. rewrite (health_run_turn s (HClose ch) [HSend] h' (close_channel ch a h') w' w')
      by (cbn [health_turn]; by rewrite Hc').
    apply (send_ended s code ch rest a); [done|by eapply Hset]. }
  assert (∀ h w, watching h = MSend code ch rest → checks h !! ch = Some (a, Done) →
    fst (health_run s [HUnregister ch; HClose ch; HSend] h w) = Panic "send on closed channel") as Hdone.
  { intros h' w' Hw' Hc'. rewrite (health_run_turn s (HUnregister ch) _ h' (unregister ch a h') w' w')
      by (cbn [health_turn]; by rewrite Hc').
    apply Hleave; [done|]. unfold unregister. by eapply (Hset Leaving). }
  assert (∀ h w, watching h = MSend code ch rest → checks h !! ch = Some (a, Serving) →
    passed code rest (fst (health_run s [HUnregister ch; HClose ch; HSend] h w))) as Hserve.
  { intros h' w' Hw' Hc'. rewrite (health_run_turn s (HUnregister ch) _ h' h' w' w') by (cbn [health_turn]; by rewrite Hc').
    rewrite (health_run_turn s (HClose ch) _ h' h' w' w') by (cbn [health_turn]; by rewrite Hc').
    by eapply send_serving. }
  destruct t; cbn [own_steps app].
  - destruct (start_run s ch a h w Hc) as (t & w1 & Hr & Ht). rewrite (health_run_turn s _ _ _ _ _ _ Hr).
    destruct Ht as [-> | ->]; [left; apply Hserve|right; apply Hdone]; try done; by eapply Hset.
  - left. by eapply send_serving.
  - right. by apply Hdone.
  - right. by apply Hleave.
  - right. by eapply send_ended.
Qed.

(** C20: Whatever clients open and end their health streams, fail to be sent to
    and are notified, in any interleaving with the monitor, whose send waits for
    the stream to receive: the channel registered for a client is that of the
    newest stream the client has opened, until that stream removes it, and an
    older stream that ends later never does. When the monitor has a channel in
    hand, it either passes its code on, to a stream that serves; or it waits,
    and the steps that the stream takes next of its own accord, whatever its
    client answers, bring it to serve or to close the channel, which ends the
    wait; or the channel is closed, and the monitor panics. There is no other
    panic. *)
Theorem notified_stream s es w :
  match health_run s es health_init w with
  | (Ret h, w') =>
      (∀ clientAddr n, Get clientAddr (healthNotifiers h) = Some n ↔ newest h clientAddr n) ∧
      ∀ code ch rest, watching h = MSend code ch rest →
        ∃ clientAddr t, checks h !! ch = Some (clientAddr, t) ∧
          match t with
          | Serving => passed code rest (fst (health_run s [HSend] h w'))
          | Ended => fst (health_run s [HSend] h w') = Panic "send on closed channel"
          | _ => health_run s [HSend] h w' = (Ret h, w') ∧
              (passed code rest (fst (health_run s (own_steps ch t ++ [HSend]) h w')) ∨
               fst (health_run s (own_steps ch t ++ [HSend]) h w') = Panic "send on closed channel")
          end
  | (Panic why, _) => why = "send on closed channel" ∧
      ∃ es1 es2 h1 w1, es = es1 ++ HSend :: es2 ∧ health_run s es1 health_init w = (Ret h1, w1) ∧ to_closed h1
  | (Block, _) => False
  end.
Proof.
  assert (sane health_init) as Hi by (by split; [apply notified_init|]).
  pose proof (health_run_sane s es health_init w Hi) as Hr.
  destruct (health_run s es health_init w) as [[h|why|] w']; [|done..].
  destruct Hr as [Hh Hs]. split; [done|]. intros code ch rest Hw. destruct (Hs code ch rest Hw) as [[a t] Hc].
  exists a, t. split; [done|].
  assert (t ∈ [Registered; Done; Leaving] → health_run s [HSend] h w' = (Ret h, w')) as Hwait.
  { intros Ht. cbn [health_run health_turn]. unfold monitor_send. rewrite Hw, Hc. by destruct t; [|set_solver..]. }
  pose proof (own_steps_end s code ch rest a t h w' Hw Hc) as Hown.
  destruct t; first [by eapply send_serving | by eapply send_ended | split; [apply Hwait; set_solver|done]].
Qed.

(** Below a threshold, but known. *)
Definition low (x threshold : spec_float) : bool := SFleb zero x && SFltb x threshold.

(** A health check is answered with its own uuid, a time, and unhealthy
    exactly when one of the availabilities it reports is known and under its
    threshold; an availability is unknown or at least zero, and it is unknown
    without measurements or without a limit. *)
Theorem health_reported s uuid w :
  ∃ hs w', MakeHealthMsg s uuid w = (Ret (Health_Status hs), w') ∧
    HealthUuid hs = uuid ∧ HealthTime hs ≠ None ∧
    HealthCode hs =
      (if low (CpuAvailability hs) cpuAvailabilityThreshold ||
          low (Api.MemoryAvailability hs) memoryAvailabilityThreshold
       then HealthStatus_UNHEALTHY else HealthStatus_OK) ∧
    (∀ x, x = CpuAvailability hs ∨ x = Api.MemoryAvailability hs → x = unknown ∨ SFltb x zero = false) ∧
    (SafeBuffer.GetData (cpuMillicoreHistory s) = [] ∨ cpuMillicoreLimit s <= 0 →
      CpuAvailability hs = unknown) ∧
    (SafeBuffer.GetData (memHistory s) = [] ∨ SFltb zero (maxMemory s) = false →
      Api.MemoryAvailability hs = unknown).
Proof.
  unfold MakeHealthMsg. cbv zeta. destruct (srv_call_returns SNow w) as (now & e & _ & Hc).
  rewrite (bind_run _ _ _ _ _ Hc). eexists _, _. split; [done|].
  destruct (reported_nonneg s) as [Hcpu Hmem].
  assert (∀ P : HealthStatus → Prop,
    P (at_time now (status_of uuid None (if IsUnhealthyUsage (GetProcessStats s) then HealthStatus_UNHEALTHY
         else HealthStatus_OK) (GetProcessStats s))) →
    P (at_time now (cpuAndMemoryHealthSet (GetProcessStats s)
        (status_of uuid None HealthStatus_OK (GetProcessStats s))))) as Heq.
  { intros P. unfold cpuAndMemoryHealthSet. by destruct (IsUnhealthyUsage _). }
  apply Heq. cbn [at_time status_of HealthUuid HealthTime HealthCode CpuAvailability Api.MemoryAvailability].
  split; [done|]. split; [done|]. split.
  { unfold IsUnhealthyUsage, low.
    by destruct (SFleb zero (CPUAvailability _) && _), (SFleb zero (MemoryAvailability _) && _). }
  cbn [GetProcessStats CPUAvailability MemoryAvailability]. split; [by intros x [->| ->]|].
  unfold cpuAvailability, memoryAvailability. split.
  - intros [->|Hle]; [done|]. destruct (length _ =? 0)%nat; [done|]. by rewrite (proj2 (Z.leb_le _ _) Hle).
  - intros [->|Hle]; [done|]. destruct (length _ =? 0)%nat; [done|]. cbv zeta. by rewrite Hle.
Qed.

End properties.

(** Two streams of one client: the older one ends and the newer one is still
    registered, and the monitor waits for it to serve. *)
Lemma notified_stream_witness (O := ok_srv) (MR := default_range)
  (es := [HCheck demo_peer; HStart 0; HCheck demo_peer; HDone 0; HUnregister 0; HClose 0; HCode HealthStatus_OK; HNext]) :
  ∃ h w', health_run initial es health_init (demo_world ∅) = (Ret h, w') ∧ newest h "10.0.0.7:4711" 1 ∧
    health_run initial [HSend] h w' = (Ret h, w') ∧
    (passed HealthStatus_OK [] (fst (health_run initial ([HStart 1; HUnregister 1; HClose 1] ++ [HSend]) h w')) ∨
     fst (health_run initial ([HStart 1; HUnregister 1; HClose 1] ++ [HSend]) h w') = Panic "send on closed channel").
Proof.
  pose proof (notified_stream (Returns0 := ok_srv_returns) initial es (demo_world ∅)) as Hr.
  assert (∃ h w', health_run initial es health_init (demo_world ∅) = (Ret h, w') ∧
    Get "10.0.0.7:4711" (healthNotifiers h) = Some 1%nat ∧ watching h = MSend HealthStatus_OK 1 [] ∧
    checks h !! 1%nat = Some ("10.0.0.7:4711", Registered)) as (h & w' & Hh & Hg & Hw & Hc).
  { eexists _, _. split; [reflexivity|]. split; [vm_compute; reflexivity|]. split; vm_compute; reflexivity. }
  subst O. rewrite Hh in Hr. destruct Hr as [Hn Hs]. destruct (Hs _ _ _ Hw) as (a & t & Hat & Ht).
  rewrite Hc in Hat. injection Hat as <- <-. exists h, w'. split; [exact Hh|]. split; [by apply Hn|exact Ht].
Defined.

(** A process that uses all of its memory. *)
Definition exhausted : metrics := addMemoryHistory 1000 (setMaxMemory (float64_of 1000) initial).

Lemma health_reported_witness (O := ok_srv) :
  ∃ hs w', MakeHealthMsg exhausted "u" (demo_world ∅) = (Ret (Health_Status hs), w') ∧
    HealthCode hs = HealthStatus_UNHEALTHY ∧ CpuAvailability hs = unknown.
Proof.
  destruct (health_reported (Returns0 := ok_srv_returns) exhausted "u" (demo_world ∅))
    as (hs & w' & Hr & _ & _ & _ & _ & Hcpu & _).
  exists hs, w'. split; [done|]. split; [|apply Hcpu; by left].
  assert (∃ w'', run_result (MakeHealthMsg exhausted "u") (demo_world ∅) = Ret (Health_Status w'') ∧
    HealthCode w'' = HealthStatus_UNHEALTHY) as (hs' & Hr' & Hc) by (by eexists).
  subst O. unfold run_result in Hr'. rewrite Hr in Hr'. cbn in Hr'. by simplify_eq.
Defined.

(** The client whose stream ends while the monitor is about to notify it takes
    the whole server down: nothing recovers in the monitor's goroutine. *)
Lemma monitor_panics (O := ok_srv) (MR := default_range) :
  fst (health_run initial
    [HCheck demo_peer; HStart 0; HCode HealthStatus_OK; HNext; HDone 0; HUnregister 0; HClose 0; HSend] health_init (demo_world ∅)) =
  Panic "send on closed channel".
Proof. vm_compute. reflexivity. Qed.

End Health.
