(* ===== verification/DeliveryPath.v ===== *)
(** * A delivery from the broker to the client

    The delivery loop of a queue ([connectors/amqp091/amqp091.go],
    [BrokerSubscribe]) under the consume stream of the server
    ([server/server.go], [Consume]): what the loop hands over are the messages
    that arrive at the stream, among everything else that happens to it. *)

From Stdlib Require Import Ascii String.
From stdpp Require Import base gmap strings list fin_maps option.
From Stdlib Require Import ZArith Lia.
From S2P Require Import Prelude Effects GoStrings Api ConcurrentMap BlockingPool ClientIds Provider Compression Stream Amqp BrokerState BrokerDeclare BrokerAck BrokerSubscribe Server Consume.

Module DeliveryPath.
Import Server.
Open Scope Z_scope.
Open Scope list_scope.

(** ** The stream *)

(** A message as the client sees it: its identifier, its headers and its
    body. Messages that only carry an error are not counted. *)
Definition content (m : Message) : option (string * gmap string string * bytes) :=
  match MessageError m with None => Some (Uuid m, Headers m, Body m) | Some _ => None end.

Definition sent_to_client (e : event Srv) : option (string * gmap string string * bytes) :=
  match projT1 e with Server.SSendConsume (ConsumeResponse_Msg m) => content m | _ => None end.

(** The messages that arrive at the stream in a schedule. *)
Definition arriving (es : list Consume.consume_event) : list (string * gmap string string * bytes) :=
  omap (λ e, match e with Consume.CDeliver m => content m | _ => None end) es.

Lemma arriving_cons e es : arriving (e :: es) = arriving [e] ++ arriving es.
Proof. unfold arriving. by rewrite <- omap_app. Qed.

Section stream.
Context {E : Type} `{Oracle Srv E} `{Server.Process E} `{MR : MapRange}.
Implicit Types w : world Srv E Server.server.

(** Calls that are no message to the client. *)
Definition no_message (c : icall Srv) : Prop :=
  match c with Server.SSendConsume (ConsumeResponse_Msg m) => MessageError m ≠ None | _ => True end.

Lemma no_message_sent lg : Forall (λ e : event Srv, no_message (projT1 e)) lg → omap sent_to_client lg = [].
Proof.
  induction lg as [|[c o] lg IH]; [done|]. intros [Hc Hl]%list.Forall_cons. cbn [omap list_omap].
  rewrite (IH Hl). unfold sent_to_client, content. cbn in *.
  destruct c; try done. match goal with r : ConsumeResponse |- _ => destruct r end; try done.
  unfold no_message in Hc. by destruct (MessageError _).
Qed.

(** The call is no message to the client, or one that was sent without an
    error. *)
Definition taken (e : event Srv) : bool :=
  let 'existT c o := e in
  match c return outcome (srv_reply c) → bool with
  | Server.SSendConsume (ConsumeResponse_Msg _) => λ o, match o with Ret None => true | _ => false end
  | _ => λ _, true
  end o.

(** The subscription has started, and messages are still delivered or not. *)
Definition subscribed (d : bool) (c : Consume.consume) : Prop :=
  Consume.isSubscribing c = true ∧ Consume.delivering c = d.

Definition is_delivery (e : Consume.consume_event) : bool :=
  match e with Consume.CDeliver _ => true | _ => false end.

Lemma request_stop_subscribed d c : subscribed d (Consume.request_stop c) ↔ subscribed d c.
Proof. unfold Consume.request_stop, subscribed. by destruct c as [? ? ? ? ? ? ? []]. Qed.

(** Everything but a delivery sends no message and leaves the delivering
    goroutine alone. *)
Lemma other_turn p ctx e c d :
  is_delivery e = false → subscribed d c →
  emits no_message (Consume.consume_turn (E := E) p ctx e c) ∧
  yields (subscribed d) (Consume.consume_turn (E := E) p ctx e c).
Proof.
  intros He [Hs Hd]. split.
  - destruct e as [[[[src|a|]|]|err]| | |i|m| |err|]; try done; cbn [Consume.consume_turn];
      unfold Consume.recv, Consume.recv_source, Consume.ack_message, Consume.settle, Consume.start_subscribe,
        Consume.subscribed, Server.call; rewrite ?Hs; emits_solve; try done.
  - destruct e as [[[[src|a|]|]|err]| | |i|m| |err|]; try done; cbn [Consume.consume_turn];
      unfold Consume.recv, Consume.recv_source, Consume.ack_message, Consume.start_subscribe, Consume.subscribed;
      rewrite ?Hs; yields_solve; rewrite ?request_stop_subscribed; unfold subscribed, Consume.finish;
      destruct c as [? ? ? ? ? ? ? []]; cbn in *; subst; try done;
      try (by destruct err); by case_bool_decide.
Qed.

(** A delivery while the goroutine runs. *)
Lemma delivery_turn p ctx m c w :
  subscribed true c →
  ∃ lg, log (snd (Consume.consume_turn p ctx (Consume.CDeliver m) c w)) = log w ++ lg ∧
    omap sent_to_client lg = arriving [Consume.CDeliver m] ∧
    match fst (Consume.consume_turn p ctx (Consume.CDeliver m) c w) with
    | Ret c' => ∃ d, subscribed d c' ∧ (forallb taken lg = true → d = true)
    | _ => True
    end.
Proof.
  intros [Hs Hd]. assert (Consume.consume_turn p ctx (Consume.CDeliver m) c w = Consume.deliver m c w) as ->.
  { cbn [Consume.consume_turn]. rewrite Hd. by destruct (Consume.finished c). }
  unfold Consume.deliver, recover. unfold mbind, prog_bind. rewrite Server.srv_call_run.
  set (msg := Consume.addressed m (Consume.source c)).
  assert (content msg = content m) as Hc by (unfold msg, Consume.addressed; by destruct (MessageAddress m)).
  assert (∀ o, omap sent_to_client [existT (P := λ c : icall Srv, outcome (ireply Srv c))
    (Server.SSendConsume (ConsumeResponse_Msg msg)) o] = arriving [Consume.CDeliver m]) as Hsent.
  { intros o. unfold arriving. cbn [omap list_omap sent_to_client projT1]. unfold sent_to_client. cbn [projT1].
    by rewrite Hc. }
  destruct (answer (I := Srv) (Server.SSendConsume (ConsumeResponse_Msg msg)) (env w)) as [[[err|]|why|] e1];
    cbn [fst snd log]; eexists; (split; [reflexivity|]); (split; [apply Hsent|]); cbn.
  - exists false. split; [|done]. unfold subscribed, Consume.request_stop. by destruct c as [? ? ? ? ? ? ? []].
  - by exists true.
  - exists false. split; [|done]. by destruct c.
  - done.
Qed.

(** Once messages are not delivered any more, none is. *)
Lemma stopped_turn p ctx e c :
  subscribed false c →
  emits no_message (Consume.consume_turn (E := E) p ctx e c) ∧
  yields (subscribed false) (Consume.consume_turn (E := E) p ctx e c).
Proof.
  intros Hs. destruct (is_delivery e) eqn:He; [|by apply other_turn]. destruct e; try done.
  cbn [Consume.consume_turn]. pose proof Hs as [_ Hd].
  destruct (Consume.finished c); rewrite ?Hd; (split; [apply emits_ret|by apply yields_ret]).
Qed.

Lemma stopped_run p ctx es c w :
  subscribed false c → ∃ lg, log (snd (Consume.consume_run p ctx es c w)) = log w ++ lg ∧ omap sent_to_client lg = [].
Proof.
  revert c w. induction es as [|e es IH]; intros c w Hs; [exists []; by rewrite app_nil_r|].
  destruct (stopped_turn p ctx e c Hs) as [Hem Hy]. destruct (Hem w) as (lg & Hl & Hno).
  apply no_message_sent in Hno. cbn [Consume.consume_run]. unfold mbind, prog_bind.
  destruct (Consume.consume_turn p ctx e c w) as [[c1|why|] w1] eqn:Ht; cbn [fst snd] in *; [|by exists lg..].
  destruct (IH c1 w1 (Hy w c1 w1 Ht)) as (lg2 & Hl2 & Hno2). exists (lg ++ lg2).
  split; [by rewrite Hl2, Hl, app_assoc|]. by rewrite omap_app, Hno, Hno2.
Qed.

(** The messages go out in the order in which they arrive, without a gap, and
    all of them if each is taken. *)
Lemma messages_in_order p ctx es c w :
  subscribed true c →
  ∃ lg, log (snd (Consume.consume_run p ctx es c w)) = log w ++ lg ∧ omap sent_to_client lg `prefix_of` arriving es ∧
    (is_ret (fst (Consume.consume_run p ctx es c w)) = true → forallb taken lg = true → omap sent_to_client lg = arriving es).
Proof.
  revert c w. induction es as [|e es IH]; intros c w Hs.
  { exists []. rewrite app_nil_r. split; [done|]. split; [by exists []|done]. }
  cbn [Consume.consume_run]. unfold mbind, prog_bind. rewrite arriving_cons.
  assert (∃ lg, log (snd (Consume.consume_turn p ctx e c w)) = log w ++ lg ∧
    omap sent_to_client lg = arriving [e] ∧
    match fst (Consume.consume_turn p ctx e c w) with
    | Ret c' => ∃ d, subscribed d c' ∧ (forallb taken lg = true → d = true)
    | _ => True
    end) as (lg & Hl & Hsent & Hnext).
  { destruct (is_delivery e) eqn:He; [destruct e; try done; by apply delivery_turn|].
    destruct (other_turn p ctx e c true He Hs) as [Hem Hy]. destruct (Hem w) as (lg & Hl & Hno).
    exists lg. split; [done|]. split; [rewrite (no_message_sent lg Hno); by destruct e|].
    destruct (Consume.consume_turn p ctx e c w) as [[c1|why|] w1] eqn:Ht; [|done..]. exists true. by split; [apply (Hy w c1 w1)|]. }
  destruct (Consume.consume_turn p ctx e c w) as [[c1|why|] w1]; cbn [fst snd] in *.
  - destruct Hnext as ([] & Hs1 & Htk).
    + destruct (IH c1 w1 Hs1) as (lg2 & Hl2 & Hp & Hall). exists (lg ++ lg2).
      split; [by rewrite Hl2, Hl, app_assoc|]. rewrite omap_app, Hsent, forallb_app.
      split; [by apply prefix_app|]. intros Hr [_ H2]%andb_prop. by rewrite Hall.
    + destruct (stopped_run p ctx es c1 w1 Hs1) as (lg2 & Hl2 & Hno). exists (lg ++ lg2).
      split; [by rewrite Hl2, Hl, app_assoc|]. rewrite omap_app, Hsent, Hno, forallb_app.
      split; [by apply prefix_app, prefix_nil|]. intros _ [H1 _]%andb_prop. by apply Htk in H1.
  - exists lg. split; [done|]. rewrite Hsent. split; [by exists (arriving es)|done].
  - exists lg. split; [done|]. rewrite Hsent. split; [by exists (arriving es)|done].
Qed.
End stream.

(** ** From the broker *)

Section path.
Context {E X : Type} `{O : Oracle Amqp.Shim E} `{R : !Amqp.Returns E} `{MR : MapRange} `{J : Json} `{T : Tracing}.
Context `{OX : Oracle Srv X} `{PX : Process X}.

(** The messages that the provider hands to the server. *)
Definition handed_over (e : event Amqp.Shim) : option Message :=
  match projT1 e with Amqp.KDeliver m => Some m | _ => None end.

(** The identifiers that the provider draws. *)
Definition draws (e : event Amqp.Shim) : option string :=
  let 'existT c o := e in
  match c return outcome (Amqp.shim_reply c) → option string with
  | Amqp.KUUID => λ o, match o with Ret uuid => Some uuid | _ => None end
  | _ => λ _, None
  end o.
Definition drawn : list (event Amqp.Shim) → list string := omap draws.

(** What is due to the client of the deliveries: those that have not come too
    often, under the identifiers that were drawn. *)
Definition due (cap : Z) (ms : list (string * Amqp.amqp091Message)) : list (string * gmap string string * bytes) :=
  omap (λ um, if Amqp.maxAcquiredCountHit cap (Amqp.Headers um.2) then None
              else Some (um.1, BrokerSubscribe.handed_headers um.2, Amqp.Body um.2)) ms.

Lemma handled_due cap source msg chunk :
  BrokerSubscribe.handled cap source msg chunk →
  ∃ uuid, drawn chunk = [uuid] ∧ omap content (omap handed_over chunk) = due cap [(uuid, msg)].
Proof.
  intros (uuid & [c o] & -> & Hc). exists uuid. cbn [projT1] in Hc. subst c. unfold drawn, BrokerSubscribe.handling, due in *.
  cbn [omap list_omap handed_over projT1 fst snd draws]. unfold handed_over. cbn [projT1].
  by destruct (Amqp.maxAcquiredCountHit cap (Amqp.Headers msg)).
Qed.

Lemma chunks_due cap source msgs chunks :
  Forall2 (BrokerSubscribe.handled cap source) msgs chunks →
  length (drawn (concat chunks)) = length msgs ∧
  omap content (omap handed_over (concat chunks)) = due cap (zip (drawn (concat chunks)) msgs).
Proof.
  induction 1 as [|msg chunk msgs chunks Hh Hall IH]; [done|]. destruct IH as (Hlen & Hd).
  destruct (handled_due cap source msg chunk Hh) as (uuid & Hdr & Hu). cbn [length concat].
  unfold drawn in *. rewrite !omap_app, Hdr, Hu, Hd. cbn [length app zip zip_with]. split; [by rewrite <- Hlen|].
  unfold due. by rewrite <- omap_app.
Qed.

Lemma arriving_contents es :
  arriving es = omap content (omap (λ e, match e with Consume.CDeliver m => Some m | _ => None end) es).
Proof.
  induction es as [|e es IH]; [done|]. unfold arriving in *. cbn [omap list_omap]. rewrite IH. by destruct e.
Qed.

(** C5: From the broker to the client, in order. A subscription to a queue hands
    every delivery to the server, in the order in which the broker sends them,
    with its body and its headers, each under an identifier it draws for it;
    only those that have come too often are left out, and only deliveries that
    carry a tag, and headers if tracing is on, are considered: the code drops
    one without a tag, and panics on the others. And whatever else happens on
    the stream of the server that these messages arrive at, in whatever
    interleaving, the client is sent a prefix of just these messages, each once,
    in that order and without a gap, and all of them if none of the messages
    sent to it is refused. *)
Theorem delivered_in_order cap l source msgs rest (w : world Amqp.Shim E BrokerState.broker)
    p ctx es c (ws : world Srv X server) :
  is_Some (BrokerState.details (st w) !! l) → Forall BrokerSubscribe.handleable msgs →
  subscribed true c →
  ∃ lg w', BrokerSubscribe.queue_loop cap l source (map (λ m, BrokerSubscribe.SMessage (Some m)) msgs ++ rest) w =
             BrokerSubscribe.queue_loop cap l source rest w' ∧ log w' = log w ++ lg ∧
    length (drawn lg) = length msgs ∧
    omap content (omap handed_over lg) = due cap (zip (drawn lg) msgs) ∧
    (omap (λ e, match e with Consume.CDeliver m => Some m | _ => None end) es = omap handed_over lg →
     ∃ lgs, log (snd (Consume.consume_run p ctx es c ws)) = log ws ++ lgs ∧
       omap sent_to_client lgs `prefix_of` due cap (zip (drawn lg) msgs) ∧
       (is_ret (fst (Consume.consume_run p ctx es c ws)) = true → forallb taken lgs = true →
        omap sent_to_client lgs = due cap (zip (drawn lg) msgs))).
Proof.
  intros Hl Hall Hc.
  destruct (BrokerSubscribe.deliveries_in_order cap l source msgs rest w Hl Hall) as (chunks & w' & Hr & Hlog & Hh & _).
  exists (concat chunks), w'. split; [exact Hr|]. split; [exact Hlog|].
  destruct (chunks_due cap source msgs chunks Hh) as (Hlen & Hd). split; [exact Hlen|]. split; [exact Hd|].
  intros Hes. destruct (messages_in_order p ctx es c ws Hc) as (lgs & Hls & Hp & Ha).
  rewrite arriving_contents, Hes, Hd in Hp, Ha. by exists lgs.
Qed.
End path.

(** ** Witness *)

Section witness.
#[local] Instance no_json : Json := {| Unmarshal _ := ([], None) |}.
#[local] Instance no_tracing : Tracing := {| tracing_enabled := false; trace_headers _ := ("", "") |}.

(** A subscription that is running. *)
Definition running : Consume.consume :=
  Consume.set_subscription Consume.SubRunning
    (Consume.set_delivering true (Consume.set_isSubscribing true Consume.consume_init)).

(** Two deliveries; an acknowledgement comes in between. *)
Definition demo_message : Message := {|
  Uuid := "9f7c"; Headers := ∅; Body := []; MessageAddress := None; Persistent := false;
  MessageError := None; Confirm := false; PublishId := 0; PublisherName := "" |}.
Definition demo_events : list Consume.consume_event :=
  [Consume.CDeliver demo_message; Consume.CAck 0; Consume.CDeliver demo_message].

Lemma delivered_in_order_witness (MR := default_range) (O := Amqp.ok_shim) (OX := ok_srv)
    (msgs := [BrokerAck.demo_message; BrokerAck.demo_message]) :
  ∃ lg w', BrokerSubscribe.queue_loop 20 0 zero_Source (map (λ m, BrokerSubscribe.SMessage (Some m)) msgs ++ [])
      (BrokerState.demo_world ∅) = BrokerSubscribe.queue_loop 20 0 zero_Source [] w' ∧ log w' = [] ++ lg ∧
    length (drawn lg) = 2%nat ∧ omap content (omap handed_over lg) = due 20 (zip (drawn lg) msgs) ∧
    (omap (λ e, match e with Consume.CDeliver m => Some m | _ => None end) demo_events = omap handed_over lg →
     ∃ lgs, log (snd (Consume.consume_run 0 Server.demo_peer demo_events running (Server.demo_world ∅))) = [] ++ lgs ∧
       omap sent_to_client lgs `prefix_of` due 20 (zip (drawn lg) msgs) ∧
       (is_ret (fst (Consume.consume_run 0 Server.demo_peer demo_events running (Server.demo_world ∅))) = true →
        forallb taken lgs = true → omap sent_to_client lgs = due 20 (zip (drawn lg) msgs))).
Proof.
  assert (Forall BrokerSubscribe.handleable msgs) as Hall by (repeat constructor; discriminate).
  exact (delivered_in_order (R := Amqp.ok_returns) 20 0 zero_Source msgs [] (BrokerState.demo_world ∅) 0
    Server.demo_peer demo_events running (Server.demo_world ∅) ltac:(by eexists) Hall ltac:(by split)).
Defined.

(** In that run the schedule is of what the provider hands over, and both
    messages are sent. *)
Example both_delivered (MR := default_range) (O := Amqp.ok_shim) (OX := ok_srv) :
  let lg := log (snd (BrokerSubscribe.queue_loop 20 0 zero_Source
    [BrokerSubscribe.SMessage (Some BrokerAck.demo_message); BrokerSubscribe.SMessage (Some BrokerAck.demo_message);
     BrokerSubscribe.SDone] (BrokerState.demo_world ∅))) in
  map Uuid (omap handed_over lg) = ["9f7c"; "9f7c"] ∧
  length (omap sent_to_client (log (snd (Consume.consume_run 0 Server.demo_peer demo_events running
    (Server.demo_world ∅))))) = 2%nat.
Proof. split; vm_compute; reflexivity. Qed.
End witness.

End DeliveryPath.
