(* ===== verification/BrokerStats.v ===== *)
(** * [connectors/amqp091/amqp091.go]: statistics of a source

    [SourceStats] asks the broker's management API, and for a stream the
    broker itself. Decoding JSON and what Go leaves open about conversions
    from floating point are asked for through the class [StatsJson]. *)

From Stdlib Require Import Ascii String.
From stdpp Require Import base gmap strings list fin_maps option.
From Stdlib Require Import ZArith Lia SpecFloat.
From S2P Require Import Prelude Effects GoStrings Api ConcurrentMap ClientIds Provider Stream Amqp BrokerState BrokerDeclare BrokerPublish BrokerSubscribe Health.

(** [rabbitMQManagementMetrics] *)
Record rabbitMQManagementMetrics := {
  PublishDetailsRate : spec_float;
  DeliverDetailsRate : spec_float;
  Consumers : spec_float;
  Messages : spec_float
}.

Definition zero_metrics : rabbitMQManagementMetrics := {|
  PublishDetailsRate := S754_zero false; DeliverDetailsRate := S754_zero false;
  Consumers := S754_zero false; Messages := S754_zero false |}.

(** [UnmarshalObject] decodes a body into a map, and gives the value of the
    key "consumers": [None] when it has none, [inr] when it is not a number.
    [UnmarshalMetrics] decodes it into the structure; when it fails, what it has
    stored already. [oob] is the integer of so many bits that a number out of
    range becomes. *)
Class StatsJson := {
  UnmarshalObject : string → option (spec_float + string) * error;
  UnmarshalMetrics : string → rabbitMQManagementMetrics * error;
  oob : Z → spec_float → Z
}.

(** The options of [SupportedSourceOptions]. *)
Definition supportedSourceOptions : list string :=
  ["MessageTTL"; "DeadLetterAddress"; "DeadLetterSubject"; "Expires"; "Offset"; "ConsumerGroup"].

Module BrokerStats.
Import Amqp BrokerState BrokerDeclare BrokerPublish BrokerSubscribe.
Open Scope Z_scope.
Open Scope list_scope.

(** The integer part of a finite number. *)
Definition truncate (x : spec_float) : option Z :=
  match x with
  | S754_zero _ => Some 0
  | S754_finite s m e =>
      let a := if 0 <=? e then Z.shiftl (Z.pos m) e else Z.shiftr (Z.pos m) (- e) in
      Some (if s then - a else a)
  | _ => None
  end.

(** Updates of the message that is built. *)
Definition with_error (e : Error) (s : SourceStats) : SourceStats := {|
  StatsError := Some e; MessageCount := MessageCount s; ConsumerCount := ConsumerCount s;
  LastOffset := LastOffset s; CurrentOffset := CurrentOffset s; StatsName := StatsName s;
  PublishRate := PublishRate s; DeliverRate := DeliverRate s |}.
Definition with_message_count (n : Z) (s : SourceStats) : SourceStats := {|
  StatsError := StatsError s; MessageCount := n; ConsumerCount := ConsumerCount s;
  LastOffset := LastOffset s; CurrentOffset := CurrentOffset s; StatsName := StatsName s;
  PublishRate := PublishRate s; DeliverRate := DeliverRate s |}.
Definition with_consumer_count (n : Z) (s : SourceStats) : SourceStats := {|
  StatsError := StatsError s; MessageCount := MessageCount s; ConsumerCount := n;
  LastOffset := LastOffset s; CurrentOffset := CurrentOffset s; StatsName := StatsName s;
  PublishRate := PublishRate s; DeliverRate := DeliverRate s |}.
Definition with_last_offset (n : Z) (s : SourceStats) : SourceStats := {|
  StatsError := StatsError s; MessageCount := MessageCount s; ConsumerCount := ConsumerCount s;
  LastOffset := n; CurrentOffset := CurrentOffset s; StatsName := StatsName s;
  PublishRate := PublishRate s; DeliverRate := DeliverRate s |}.
Definition with_current_offset (n : Z) (s : SourceStats) : SourceStats := {|
  StatsError := StatsError s; MessageCount := MessageCount s; ConsumerCount := ConsumerCount s;
  LastOffset := LastOffset s; CurrentOffset := n; StatsName := StatsName s;
  PublishRate := PublishRate s; DeliverRate := DeliverRate s |}.
Definition with_rates (pub del : spec_float) (s : SourceStats) : SourceStats := {|
  StatsError := StatsError s; MessageCount := MessageCount s; ConsumerCount := ConsumerCount s;
  LastOffset := LastOffset s; CurrentOffset := CurrentOffset s; StatsName := StatsName s;
  PublishRate := pub; DeliverRate := del |}.

Section stats.
Context {E : Type} `{Oracle Shim E} `{MapRange} `{StatsJson}.

(** [int32(x)] and [int64(x)] of a [float64]. *)
Definition to_int (bits : Z) (x : spec_float) : Z :=
  match truncate x with
  | Some n => if (- 2 ^ (bits - 1) <=? n) && (n <? 2 ^ (bits - 1)) then n else oob bits x
  | None => oob bits x
  end.

(** ** Streams *)

(** A consumer that has never stored an offset counts as zero. *)
Definition updateCurrentOffsetStat (l : nat) (source : Source) (stats : SourceStats) : bprog E SourceStats :=
  match getConsumerName source with
  | inr cErr => mret (with_error cErr stats)
  | inl consumerName =>
      bd ← get_bd l;
      r ← on_iface (StreamConnection bd) (λ s, call (KGetConsumerOffset s (SourceName source) consumerName));
      mret (with_current_offset (fst (r : Z * error)) stats)
  end.

Definition updateStreamOffsetStat (l : nat) (source : Source) (stats : SourceStats) : bprog E SourceStats :=
  bd ← get_bd l;
  r ← on_iface (StreamConnection bd) (λ s, call (KGetStreamOffset s (SourceName source)));
  match (r : Z * error) with
  | (_, Some err) => mret (with_error (mkError err) stats)
  | (streamOffset, None) => mret (with_last_offset streamOffset stats)
  end.

Definition updateStatsForStream (l : nat) (source : Source) (stats : SourceStats) : bprog E SourceStats :=
  stats ← updateCurrentOffsetStat l source stats; updateStreamOffsetStat l source stats.

(** ** The management API *)

Definition stats_urn (bd : BrokerDetails) (source : Source) : string :=
  "/api/queues/" +:+ vhost_of bd +:+ "/" +:+ query_escape (sourceName source).

(** What the body says whatever the type of the source. *)
Definition body_stats (body : string) (consumers : option (spec_float + string)) : bprog E SourceStats :=
  stats ← (match consumers with
           | None => mret zero_SourceStats
           | Some (inl n) => mret (with_consumer_count (to_int 32 n) zero_SourceStats)
           | Some (inr _) => panic "interface conversion: interface {} is not float64"
           end);
  match UnmarshalMetrics body with
  | (_, Some _) => mret stats
  | (m, None) =>
      mret (with_rates (Metrics.float32_of (PublishDetailsRate m)) (Metrics.float32_of (DeliverDetailsRate m)) stats)
  end.

Definition getStreamOrQueueStats (l : nat) (source : Source) : bprog E SourceStats :=
  bd ← get_bd l;
  r ← doManagementRequestWithoutMarshal l "GET" (stats_urn bd source);
  let '(body, err) := (r : string * error) in
  match UnmarshalObject body with
  | (_, Some marshErr) => mret (with_error (mkError marshErr) zero_SourceStats)
  | (consumers, None) =>
      stats ← body_stats body consumers;
      stats ← (match SourceType source with
               | Source_QUEUE => mret (with_message_count (to_int 64 (Messages (fst (UnmarshalMetrics body)))) stats)
               | Source_STREAM => updateStatsForStream l source stats
               | _ => mret stats
               end);
      mret (match err with Some e => with_error (mkError e) stats | None => stats end)
  end.

(** ** [SourceStats] *)

Definition SourceStats (ctx : ClientIds.peer) (source : Source) : bprog E Api.SourceStats :=
  if String.eqb (GetAddressName (SourceAddress source)) "" then
    mret (with_error (mkError "address name not defined") zero_SourceStats)
  else
    r ← getBrokerDetails ctx;
    match r with
    | inr err => mret (with_error (mkError err) zero_SourceStats)
    | inl l =>
        strConnErr ← (if bool_decide (SourceType source = Source_STREAM) then getStreamConnection l
                      else mret None);
        match strConnErr with
        | Some e => mret (with_error e zero_SourceStats)
        | None => getStreamOrQueueStats l source
        end
    end.

End stats.

(** ** Properties *)

Section properties.
Context {E : Type} `{Oracle Shim E} `{MR : MapRange} `{StatsJson}.
Implicit Types w : world Shim E broker.

(** The request for the statistics of a source. *)
Definition stats_request (bd : BrokerDetails) (source : Source) : shim_call :=
  let cf := connectionConfig bd in
  KHTTP "GET"
    ((if tlsEnabled bd then "https" else "http") +:+ "://" +:+ Host cf +:+ ":" +:+
     itoa (if AdminPort cf =? 0 then int32 (Port cf + 10000) else AdminPort cf) +:+ stats_urn bd source)
    (GetUsername (Creds cf)) (GetPassword (Creds cf)).

Lemma management_run l bd source w r e :
  details (st w) !! l = Some bd →
  answer (I := Shim) (stats_request bd source) (env w) = (Ret r, e) →
  ∃ body err, doManagementRequestWithoutMarshal l "GET" (stats_urn bd source) w =
      (Ret (body, err), {| st := st w; env := e; log := log w ++ [ev (stats_request bd source) (Ret r)] |}) ∧
    match (r : http_reply) with
    | HTTPResponse status b berr => body = b ∧ (err = None ↔ 200 <= status < 300 ∧ berr = None)
    | _ => body = "" ∧ err ≠ None
    end.
Proof.
  intros Hl Ha. unfold doManagementRequestWithoutMarshal.
  rewrite (bind_run _ _ _ _ _ (get_bd_run _ _ _ Hl)). cbv zeta.
  change (KHTTP _ _ _ _) with (stats_request bd source).
  erewrite bind_run by (rewrite call_run, Ha; done). cbn [fst snd].
  destruct (r : http_reply) as [err| |status b berr]; [by eexists _, _..|].
  destruct (Z.leb_spec 300 status); cbn [orb].
  { eexists _, _. split; [done|]. split; [done|]. split; [done|lia]. }
  destruct (Z.ltb_spec status 200).
  { eexists _, _. split; [done|]. split; [done|]. split; [done|lia]. }
  eexists _, _. split; [done|]. split; [done|]. naive_solver.
Qed.

(** The statistics of a queue come from one request to the management API,
    which is all that happens: the message count, the consumer count and the two
    rates are the API's numbers converted to the widths of the response, the
    offsets are zero, and there is an error exactly when the status is not a
    success or the body could not be read, the numbers being reported all the
    same. *)
Theorem queue_stats ctx l bd source w status body berr n m e :
  client_at ctx l (st w) → details (st w) !! l = Some bd →
  GetAddressName (SourceAddress source) ≠ "" → SourceType source = Source_QUEUE →
  answer (I := Shim) (stats_request bd source) (env w) = (Ret (HTTPResponse status body berr), e) →
  UnmarshalObject body = (Some (inl n), None) → UnmarshalMetrics body = (m, None) →
  ∃ stats, SourceStats ctx source w =
      (Ret stats, {| st := st w; env := e;
                     log := log w ++ [ev (stats_request bd source) (Ret (HTTPResponse status body berr))] |}) ∧
    (StatsError stats = None ↔ 200 <= status < 300 ∧ berr = None) ∧
    MessageCount stats = to_int 64 (Messages m) ∧ ConsumerCount stats = to_int 32 n ∧
    LastOffset stats = 0 ∧ CurrentOffset stats = 0 ∧
    PublishRate stats = Metrics.float32_of (PublishDetailsRate m) ∧
    DeliverRate stats = Metrics.float32_of (DeliverDetailsRate m).
Proof.
  intros Hc Hl Hn Ht Ha Ho Hm. unfold SourceStats. rewrite (proj2 (String.eqb_neq _ _) Hn).
  rewrite (bind_run _ _ _ _ _ (getBrokerDetails_run _ _ _ Hc)), bool_decide_eq_false_2, bind_ret_l by congruence.
  unfold getStreamOrQueueStats. rewrite (bind_run _ _ _ _ _ (get_bd_run _ _ _ Hl)).
  destruct (management_run l bd source w _ e Hl Ha) as (b & err & Hr & -> & Herr).
  rewrite (bind_run _ _ _ _ _ Hr), Ho. unfold body_stats. rewrite bind_assoc, bind_ret_l, Hm, bind_ret_l, Ht, bind_ret_l.
  cbn [fst]. eexists. split; [done|].
  destruct err; cbn; split_and!; try done; rewrite <- Herr; naive_solver.
Qed.

(** When the management API cannot be reached at all, the reason is not what
    the client is told: the empty body is decoded first, and its error is
    reported. *)
Lemma unreachable_unreported ctx l bd source w why marshErr e :
  client_at ctx l (st w) → details (st w) !! l = Some bd →
  GetAddressName (SourceAddress source) ≠ "" → SourceType source = Source_QUEUE →
  answer (I := Shim) (stats_request bd source) (env w) = (Ret (HTTPFailed why), e) →
  snd (UnmarshalObject "") = Some marshErr →
  run_result (SourceStats ctx source) w = Ret (with_error (mkError marshErr) zero_SourceStats).
Proof.
  intros Hc Hl Hn Ht Ha Ho. unfold run_result, SourceStats. rewrite (proj2 (String.eqb_neq _ _) Hn).
  rewrite (bind_run _ _ _ _ _ (getBrokerDetails_run _ _ _ Hc)), bool_decide_eq_false_2, bind_ret_l by congruence.
  unfold getStreamOrQueueStats. rewrite (bind_run _ _ _ _ _ (get_bd_run _ _ _ Hl)).
  destruct (management_run l bd source w _ e Hl Ha) as (b & err & Hr & -> & Herr).
  rewrite (bind_run _ _ _ _ _ Hr). destruct (UnmarshalObject "") as [? ?]. cbn in Ho. by subst.
Qed.

End properties.

(** ** Witnesses *)

(** Three messages, two consumers, and half a message a second each way. *)
Definition demo_metrics : rabbitMQManagementMetrics := {|
  PublishDetailsRate := S754_finite false 4503599627370496 (-53);
  DeliverDetailsRate := S754_finite false 4503599627370496 (-53);
  Consumers := Metrics.float64_of 2; Messages := Metrics.float64_of 3 |}.

#[local] Instance demo_stats_json : StatsJson := {|
  UnmarshalObject body :=
    if String.eqb body "" then (None, Some "unexpected end of JSON input")
    else (Some (inl (Metrics.float64_of 2)), None);
  UnmarshalMetrics body := (demo_metrics, None);
  oob bits _ := - 2 ^ (bits - 1) |}.

Definition demo_queue : Source := set_SourceName "orders" {|
  SourceName := "orders";
  SourceAddress := Some {| AddressName := "shop"; Subjects := []; AddressType := Address_TOPIC;
                           AddressAutoDelete := false; ParentAddress := None |};
  AutoDelete := false; Options := ∅; Exclusive := false; PrefetchCount := 1; Filters := [];
  SourceType := Source_QUEUE; DeclareOnly := false; SingleActiveConsumer := false |}.

Lemma queue_stats_witness (MR := default_range)
    (O := scripted (λ c, match c with
                         | KHTTP _ _ _ _ => Some (Ret (HTTPResponse 200 "{...}" None))
                         | _ => None
                         end)) :
  ∃ stats, run_result (SourceStats demo_peer demo_queue) (demo_world ∅) = Ret stats ∧
    MessageCount stats = 3 ∧ ConsumerCount stats = 2 ∧ StatsError stats = None.
Proof.
  destruct (queue_stats demo_peer 0 (demo_details ∅) demo_queue (demo_world ∅) 200 "{...}" None
    (Metrics.float64_of 2) demo_metrics 11%nat (demo_client _) eq_refl ltac:(done) eq_refl eq_refl eq_refl
    eq_refl) as (stats & Hr & He & Hm & Hn & _).
  exists stats. unfold run_result. subst O. rewrite Hr. split; [done|].
  rewrite Hm, Hn. split; [by vm_compute|]. split; [by vm_compute|]. apply He. split; [lia|done].
Defined.

End BrokerStats.
