(* ===== verification/BrokerTypes.v ===== *)
(** * The provider stays well typed

    All handlers of the AMQP provider, composed: whatever they are called with,
    however each of them ends, and whatever the outside answers, the addresses
    in the provider's tables lead to objects of the right client in a valid
    state, the latches its messages refer to exist, and no object changes its
    owner or its settings. *)

From Stdlib Require Import Ascii String.
From stdpp Require Import base gmap strings list fin_maps option.
From Stdlib Require Import ZArith Lia.
From S2P Require Import Prelude Effects GoStrings Api ConcurrentMap BlockingLatch BlockingPool ClientIds Provider Compression Stream Amqp BrokerState BrokerDeclare BrokerAck BrokerConnect BrokerPublish BrokerSubscribe Health BrokerStats.

Module BrokerTypes.
Import Amqp ConcurrentMap BrokerState BrokerDeclare BrokerAck BrokerConnect BrokerPublish BrokerSubscribe.
Open Scope Z_scope.
Open Scope list_scope.

(** ** The types *)

(** What an object is made with. *)
Definition identity (bd : BrokerDetails) : string * ConnectionConfiguration * bool :=
  (ClientIdentifier bd, connectionConfig bd, tlsSkipVerify bd).

Record typed (b : broker) : Prop := {
  typed_wf : wf b;
  typed_latch : ∀ l bd id s, details b !! l = Some bd →
    Get id (activeMessages bd) = Some (ActStream s) → is_Some (latches b !! saLatch s)
}.

(** How the provider can change. *)
Record evolves (b b' : broker) : Prop := {
  evolves_typed : typed b → typed b';
  evolves_fresh : (nextAddr b <= nextAddr b')%nat;
  evolves_identity : ∀ l bd, details b !! l = Some bd →
    ∃ bd', details b' !! l = Some bd' ∧ identity bd' = identity bd;
  evolves_latch : ∀ n, is_Some (latches b !! n) → is_Some (latches b' !! n)
}.

#[global] Instance evolves_refl : Reflexive evolves.
Proof. intros b. split; [done|done| |done]. intros l bd Hl. by exists bd. Qed.

#[global] Instance evolves_trans : Transitive evolves.
Proof.
  intros b1 b2 b3 [T1 F1 I1 L1] [T2 F2 I2 L2]. split; [by auto|by etrans| |by auto].
  intros l bd (bd' & Hl' & Hi')%I1. destruct (I2 _ _ Hl') as (bd'' & Hl'' & Hi''). exists bd''.
  split; [done|congruence].
Qed.

(** An update of one object that leaves its identity alone, keeps its state
    valid and adds no stream message. *)
Definition harmless (f : BrokerDetails → BrokerDetails) : Prop := ∀ bd,
  identity (f bd) = identity bd ∧ (valid_state (state bd) → valid_state (state (f bd))) ∧
  ∀ id s, Get id (activeMessages (f bd)) = Some (ActStream s) →
    ∃ id', Get id' (activeMessages bd) = Some (ActStream s).

Lemma evolves_upd_at l f b :
  (∀ bd, identity (f bd) = identity bd ∧ (valid_state (state bd) → valid_state (state (f bd)))) →
  (∀ bd id s, details b !! l = Some bd → Get id (activeMessages (f bd)) = Some (ActStream s) →
    (∃ id', Get id' (activeMessages bd) = Some (ActStream s)) ∨ is_Some (latches b !! saLatch s)) →
  evolves b (set_details (alter f l (details b)) b).
Proof.
  intros Hf Ha. split; [|done| |done].
  - intros [Hwf Hl]. split.
    + apply wf_upd; [|done]. intros bd. destruct (Hf bd) as [Hi Hv]. unfold identity in Hi. split; [congruence|done].
    + intros l' bd' id s Hbd' Hg. destruct (decide (l = l')) as [<-|Hne].
      * rewrite details_upd in Hbd'. destruct (details b !! l) as [bd|] eqn:Hbd; [|done]. cbn in Hbd'. simplify_eq.
        destruct (Ha bd id s eq_refl Hg) as [[id' Hg']|?]; [by eapply Hl|done].
      * rewrite details_upd_ne in Hbd' by done. by eapply Hl.
  - intros l' bd Hbd. destruct (decide (l = l')) as [<-|Hne].
    + exists (f bd). rewrite details_upd, Hbd. split; [done|apply Hf].
    + exists bd. by rewrite details_upd_ne.
Qed.

Lemma evolves_upd l f b : harmless f → evolves b (set_details (alter f l (details b)) b).
Proof.
  intros Hf. apply evolves_upd_at; [intros bd; by destruct (Hf bd) as (? & ? & ?)|].
  intros bd id s _ Hg. left. by eapply Hf.
Qed.

Lemma harmless_keeping f :
  (∀ bd, identity (f bd) = identity bd ∧ activeMessages (f bd) = activeMessages bd ∧
    (state (f bd) = state bd ∨ valid_state (state (f bd)))) → harmless f.
Proof.
  intros Hf bd. destruct (Hf bd) as (Hi & Ha & Hs). split; [done|]. split; [destruct Hs as [->|?]; done|].
  rewrite Ha. by eauto.
Qed.

#[global] Instance evolves_frame : Frame evolves.
Proof.
  split; [exact _..|]. intros l f b Hf. apply evolves_upd, harmless_keeping. intros bd.
  set (P := λ bd, (identity bd, activeMessages bd, state bd)).
  assert (∀ bd, P (forget_known bd) = P bd) as Hk by (by intros []).
  assert (P (f bd) = P bd) as Hp by (by rewrite <- (Hk (f bd)), Hf, Hk).
  injection Hp as ? ? ? ? ?. split_and!; [unfold identity; congruence|done|by left].
Qed.

(** [evolves] under an assumption that changes cannot break. *)
Definition evolves_from (P : broker → Prop) (b b' : broker) : Prop := P b → evolves b b'.

Class Lasts (P : broker → Prop) := lasts : ∀ b b', evolves b b' → P b → P b'.

#[global] Instance evolves_from_refl P : Reflexive (evolves_from P).
Proof. by intros b _. Qed.
#[global] Instance evolves_from_trans P `{!Lasts P} : Transitive (evolves_from P).
Proof. intros b1 b2 b3 H1 H2 HP. etrans; [by apply H1|]. apply H2. eapply lasts; [by apply H1|done]. Qed.

Definition has_latch (n : nat) (b : broker) : Prop := is_Some (latches b !! n).
Definition owned (l : nat) (cid : string) (b : broker) : Prop :=
  at_bd l (λ bd, ClientIdentifier bd = cid) b.

#[global] Instance has_latch_lasts n : Lasts (has_latch n).
Proof. intros b b' Hb. apply Hb. Qed.
#[global] Instance owned_lasts l cid : Lasts (owned l cid).
Proof.
  intros b b' Hb (bd & Hl & <-). destruct (evolves_identity _ _ Hb _ _ Hl) as (bd' & Hl' & Hi).
  exists bd'. split; [done|]. unfold identity in Hi. congruence.
Qed.

(** The other goroutines are handlers too. *)
Class OthersEvolve (E : Type) `{Others E} := others_evolve : ∀ e b, evolves b (interfere e b).

#[export] Instance alone_evolve E : @OthersEvolve E alone.
Proof. intros e b. apply evolves_refl. Qed.

(** ** The handlers *)

Section handlers.
Context {E : Type} `{Oracle Shim E} `{MR : MapRange} `{Json} `{Select} `{Tracing} `{Gzip} `{StatsJson}.
Context `{Others E} `{!OthersEvolve E}.

Lemma evolving_upd_bd l f : harmless f → keeps evolves (upd_bd (E := E) l f).
Proof. intros Hf. apply keeps_writes. intros b. by apply evolves_upd. Qed.
Lemma evolving_get_bd l : keeps evolves (get_bd (E := E) l).
Proof. unfold get_bd. by keeps_solve. Qed.
Lemma evolving_getBrokerDetails ctx : keeps evolves (getBrokerDetails (E := E) ctx).
Proof. unfold getBrokerDetails. by keeps_solve. Qed.
Lemma evolving_call c : keeps evolves (call (E := E) c).
Proof. exact (keeps_ext (I := Shim) evolves c). Qed.
Lemma evolving_yield : keeps evolves (yield (E := E)).
Proof. intros w. apply others_evolve. Qed.
Lemma evolving_on_iface {A} i (f : nat → bprog E A) : (∀ h, keeps evolves (f h)) → keeps evolves (on_iface i f).
Proof. intros Hf. unfold on_iface. destruct i; [apply Hf|by keeps_solve]. Qed.
Lemma evolving_declaring {A} (m : bprog E A) : declaring m → keeps evolves m.
Proof. intros [_ Hm]. apply Hm. exact _. Qed.

Lemma evolves_add_active l uuid a b :
  match a with ActAmqp _ => True | ActStream s => has_latch (saLatch s) b end →
  evolves b (set_details (alter (add_active uuid a) l (details b)) b).
Proof.
  intros Ha. apply evolves_upd_at; [intros []; by cbn|]. intros bd id s _ Hg.
  assert (activeMessages (add_active uuid a bd) = Add uuid a (activeMessages bd)) as Heq by (by destruct bd).
  rewrite Heq, Get_Add in Hg. case_decide; [right; simplify_eq; exact Ha|left; by eexists].
Qed.

Lemma evolving_add_amqp l uuid m : keeps evolves (upd_bd (E := E) l (add_active uuid (ActAmqp m))).
Proof. apply keeps_writes. intros b. by apply evolves_add_active. Qed.

(** What is known about the parts of the handlers, looked up by name. *)
Create HintDb evolving discriminated.
#[local] Hint Constants Opaque : evolving.

(** Updates of one field; the calls; then the constructs. *)
Ltac harmless_solve :=
  apply harmless_keeping; intros []; cbn; split_and!;
    first [done | by left | by (right; unfold valid_state; cbn; tauto)].
Ltac evolving_step :=
  match goal with
  | |- keeps evolves _ => solve [auto 1 with evolving nocore]
  | |- keeps evolves (upd_bd _ (add_active _ (ActAmqp _))) => apply evolving_add_amqp
  | |- keeps evolves (upd_bd _ _) => apply evolving_upd_bd; try harmless_solve
  | |- keeps evolves (get_bd _) => apply evolving_get_bd
  | |- keeps evolves (getBrokerDetails _) => apply evolving_getBrokerDetails
  | |- keeps evolves yield => apply evolving_yield
  | |- keeps evolves (on_iface _ _) => apply evolving_on_iface; intros ?
  | |- keeps evolves (with_conn _ _) => unfold with_conn
  | |- keeps evolves (with_details _ _) => unfold with_details
  | |- keeps evolves (declareExchange _ _) => apply evolving_declaring, declaring_declareExchange
  | |- keeps evolves (declareQueue _ _ _) => apply evolving_declaring, declaring_declareQueue
  | |- keeps evolves (declareBinding _ _ _) => apply evolving_declaring, declaring_declareBinding
  | |- keeps evolves (setupDeadLetter _ _) => apply evolving_declaring, declaring_setupDeadLetter
  | |- keeps evolves (loadExchanges _) => apply evolving_declaring, declaring_loadExchanges
  | |- keeps evolves (doManagementRequestWithoutMarshal _ _ _) => apply evolving_declaring, declaring_managementRequest
  | |- keeps evolves ?m => match m with call ?c => exact (keeps_ext (I := Shim) evolves c) end
  | |- _ => keeps_step
  end.
Ltac evolving := repeat (first [evolving_step | progress cbv zeta]).

Lemma evolving_updateLastPubSubEvent l : keeps evolves (updateLastPubSubEvent (E := E) l).
Proof. unfold updateLastPubSubEvent. evolving. Qed.
#[local] Hint Resolve evolving_updateLastPubSubEvent : evolving.
Lemma evolving_incrementStreamCount l : keeps evolves (incrementStreamCount (E := E) l).
Proof. unfold incrementStreamCount, updateLastPubSubEvent. evolving. Qed.
#[local] Hint Resolve evolving_incrementStreamCount : evolving.
Lemma evolving_decrementStreamCount l : keeps evolves (decrementStreamCount (E := E) l).
Proof. unfold decrementStreamCount, updateLastPubSubEvent. evolving. Qed.
#[local] Hint Resolve evolving_decrementStreamCount : evolving.

(** *** Settling *)

Lemma harmless_delete id : harmless (delete_active id).
Proof.
  intros bd. split; [by destruct bd|]. split; [by destruct bd|]. intros id' s Hg.
  assert (activeMessages (delete_active id bd) = Delete id (activeMessages bd)) as Ha by (by destruct bd).
  rewrite Ha, Get_Delete in Hg. case_decide; [done|]. by eexists.
Qed.

Lemma harmless_share id rm : harmless (share_headers id rm).
Proof.
  intros bd. split; [by destruct bd|]. split; [by destruct bd|]. intros id' s Hg. exists id'.
  assert (∀ m, activeMessages (set_activeMessages m bd) = m) as Ha by (by destruct bd).
  unfold share_headers, Get in *. rewrite Ha in Hg. destruct (decide (id = id')) as [<-|Hne].
  - rewrite lookup_alter_eq in Hg. destruct (activeMessages bd !! id) as [[]|]; cbn in Hg; congruence.
  - by rewrite lookup_alter_ne in Hg by done.
Qed.

Lemma evolves_latches b m :
  (∀ n, is_Some (latches b !! n) → is_Some (m !! n)) → evolves b (set_latches m b).
Proof.
  intros Hm. split; [|done| |done].
  - intros [[Hf Hc Hs] Hl]. split; [by split|]. intros l bd id s Hbd Hg. apply Hm. by eapply Hl.
  - intros l bd Hl. by exists bd.
Qed.

Lemma evolving_decrement_latch n : keeps evolves (decrement_latch (E := E) n).
Proof.
  apply keeps_writes. intros b. apply evolves_latches. intros n' [x Hx].
  destruct (decide (n = n')) as [<-|Hne]; [rewrite lookup_alter_eq, Hx|rewrite lookup_alter_ne by done]; by eexists.
Qed.
#[local] Hint Resolve evolving_decrement_latch : evolving.

Lemma evolving_Ack ctx id : keeps evolves (Ack (E := E) ctx id).
Proof.
  unfold Ack, stream_ack. evolving; apply harmless_delete.
Qed.
Lemma evolving_Nack ctx id : keeps evolves (Nack (E := E) ctx id).
Proof.
  unfold Nack, stream_nack. evolving; apply harmless_delete.
Qed.
Lemma evolving_DeadLetter ctx id : keeps evolves (DeadLetter (E := E) ctx id).
Proof. unfold DeadLetter. evolving; apply harmless_delete. Qed.
Lemma evolving_Retry ctx source id delay : keeps evolves (Retry (E := E) ctx source id delay).
Proof.
  unfold Retry, retry_amqp, retry_send. evolving; first [apply harmless_delete|apply harmless_share].
Qed.

(** *** Connections *)

Lemma evolving_wait_turns fuel start l : keeps evolves (wait_turns (E := E) fuel start l).
Proof.
  induction fuel as [|fuel IH]; cbn [wait_turns]; unfold time_since; evolving.
Qed.
#[local] Hint Resolve evolving_wait_turns : evolving.

Lemma harmless_reset : harmless reset_tables.
Proof. intros bd. split; [by destruct bd|]. split; [by destruct bd|]. intros id s. by destruct bd. Qed.

Lemma evolves_insecure v b : evolves b (set_insecure v b).
Proof.
  split; [|done| |done].
  - intros [[Hf Hc Hs] Hl]. split; [by split|done].
  - intros l bd Hl. by exists bd.
Qed.

Lemma evolving_connect_locked l : keeps evolves (connect_locked (E := E) l).
Proof.
  unfold connect_locked, prepare, dial. evolving; first [apply harmless_reset|apply evolves_insecure].
Qed.
#[local] Hint Resolve evolving_connect_locked : evolving.

Lemma evolving_connect l : keeps evolves (connect (E := E) l).
Proof.
  unfold connect, waitWhileConnecting. generalize 301%nat. intros fuel. evolving.
Qed.
#[local] Hint Resolve evolving_connect : evolving.

Lemma wf_alloc cid cf skip now b : wf b → wf (alloc (new_details cid cf skip now) b).
Proof.
  intros [Hf Hc Hs]. split; cbn.
  - intros l bd. rewrite lookup_insert. case_decide; [intros; lia|]. intros Hbd%Hf. lia.
  - intros cid' l (bd & Hbd & Hid)%Hc. exists bd. rewrite lookup_insert_ne; [done|]. apply Hf in Hbd. lia.
  - intros l bd. rewrite lookup_insert. case_decide; [|by apply Hs]. intros [= <-]. by left.
Qed.

Lemma evolves_alloc cid cf skip now b : typed b → evolves b (alloc (new_details cid cf skip now) b).
Proof.
  intros [Hwf Hl]. split; [|cbn; lia| |done].
  - intros _. split; [by apply wf_alloc|]. intros l bd id s. cbn. rewrite lookup_insert.
    case_decide; [by intros [= <-]|]. by apply Hl.
  - intros l bd Hbd. exists bd. cbn. rewrite lookup_insert_ne; [done|]. apply (wf_fresh _ Hwf) in Hbd. lia.
Qed.

Lemma wf_add_connection cid l b : owned l cid b → wf b → wf (set_connections (Add cid l (connections b)) b).
Proof.
  intros (bd & Hbd & Hid) [Hf Hc Hs]. split; cbn; [done| |done]. intros cid' l'. rewrite Get_Add.
  case_decide as Heq; [|apply Hc]. intros [= <-]. subst cid'. by exists bd.
Qed.

Lemma evolves_add_connection cid l b :
  owned l cid b → evolves b (set_connections (Add cid l (connections b)) b).
Proof.
  intros Ho. split; [|done| |done].
  - intros [Hwf Hl]. split; [by apply wf_add_connection|done].
  - intros l' bd' Hl'. by exists bd'.
Qed.

Lemma keeps_evolves_from P {A} (m : bprog E A) : keeps evolves m → keeps (evolves_from P) m.
Proof. intros Hm w _. apply Hm. Qed.

(** The program starts where [P] holds. *)
Lemma keeps_from P {A} (m : bprog E A) w :
  keeps (evolves_from P) m → P (st w) → evolves (st w) (st (snd (m w))).
Proof. intros Hm. apply Hm. Qed.

Lemma evolves_step {A B} (m : bprog E A) (f : A → bprog E B) w :
  evolves (st w) (st (snd (m w))) →
  (∀ a w', m w = (Ret a, w') → evolves (st w') (st (snd (f a w')))) →
  evolves (st w) (st (snd ((m ≫= f) w))).
Proof.
  intros Hm Hf. unfold mbind, prog_bind. destruct (m w) as [[a|why|] w'] eqn:Hw; cbn in *; [|done..].
  etrans; [exact Hm|]. by apply Hf.
Qed.

(** [Connect] is typed where the provider is: it makes the object of a client. *)
Lemma evolving_Connect ctx cf skip : keeps (evolves_from typed) (Connect (E := E) ctx cf skip).
Proof.
  intros w Hty. unfold Connect. rewrite reads_bind. cbn [id].
  destruct (ClientIds.GetClientIdentifier ctx (clientMap (st w))) as [cid [err|]]; [done|].
  apply evolves_step; [exact (evolving_call KNow w)|]. intros now w1 Hw1.
  assert (st w1 = st w) as Hst.
  { unfold call, ext in Hw1. destruct (answer _ _) as [o e]. by simplify_eq. }
  rewrite <- Hst in *. rewrite writes_bind.
  assert (owned (nextAddr (st w1)) cid (alloc (new_details cid cf skip now) (st w1))) as Hown.
  { eexists. cbn. split; [apply lookup_insert_eq|done]. }
  etrans; [by apply (evolves_alloc cid cf skip now)|].
  set (w2 := set_st _ w1).
  change (owned (nextAddr (st w1)) cid (st w2)) in Hown. change (alloc _ (st w1)) with (st w2).
  apply (keeps_from (owned (nextAddr (st w1)) cid)); [|done].
  apply keeps_bind; [exact _|apply keeps_evolves_from, evolving_connect|]. intros r.
  destruct (snd (r : bool * error)); [by keeps_solve|].
  apply keeps_bind; [exact _| |apply keeps_ret; exact _]. apply keeps_writes. intros b Hb. exact (evolves_add_connection _ _ _ Hb).
Qed.

Lemma evolves_delete_connection cid b : evolves b (set_connections (Delete cid (connections b)) b).
Proof.
  split; [|done| |done].
  - intros [Hwf Hl]. split; [by apply wf_disconnect|done].
  - intros l bd Hl. by exists bd.
Qed.

Lemma evolving_disconnectClientByIdentifier cid : keeps evolves (disconnectClientByIdentifier (E := E) cid).
Proof.
  unfold disconnectClientByIdentifier, send_shutdown, close_connections. evolving. apply evolves_delete_connection.
Qed.
#[local] Hint Resolve evolving_disconnectClientByIdentifier : evolving.
Lemma evolving_Disconnect ctx : keeps evolves (Disconnect (E := E) ctx).
Proof. unfold Disconnect. evolving. Qed.

Lemma evolving_reconnect fuel l : keeps evolves (reconnect (E := E) fuel l).
Proof.
  induction fuel as [|fuel IH]; cbn [reconnect]; evolving.
Qed.
#[local] Hint Resolve evolving_reconnect : evolving.
Lemma evolving_connectionWatcher fuel l events : keeps evolves (connectionWatcher (E := E) fuel l events).
Proof.
  induction events as [|e events IH]; cbn [connectionWatcher]; unfold watcher_turn; evolving.
Qed.

Lemma evolving_WaitForConnect ctx : keeps evolves (WaitForConnect (E := E) ctx).
Proof.
  assert (∀ fuel start l, keeps evolves (wait_connect_turns (E := E) fuel start ctx l)) as Hw.
  { intros fuel. induction fuel as [|fuel IH]; intros start l; cbn [wait_connect_turns];
      unfold time_since; evolving. }
  unfold WaitForConnect. generalize 151%nat. intros fuel. evolving.
Qed.

Lemma evolving_connectionCleaner ticks : keeps evolves (connectionCleaner (E := E) ticks).
Proof.
  induction ticks as [|ticks IH]; cbn [connectionCleaner]; unfold clean_tick, clean_one, time_since; evolving.
Qed.

(** *** Publishing *)

Lemma harmless_set_the_pool c p : harmless (set_the_pool c p).
Proof.
  apply harmless_keeping. intros bd. split_and!; [by destruct c, bd|by destruct c, bd|left; by destruct c, bd].
Qed.

Lemma evolving_gets {A} (f : world Shim E broker → A) : keeps evolves (gets f).
Proof. by intros w. Qed.
#[local] Hint Resolve evolving_gets : evolving.
Lemma evolving_set_pool l c p : keeps evolves (modify (set_pool_at (E := E) l c p)).
Proof. intros w. apply evolves_upd, harmless_set_the_pool. Qed.
#[local] Hint Resolve evolving_set_pool : evolving.

Lemma evolving_new_pub_channel l c : keeps evolves (new_pub_channel (E := E) l c).
Proof. unfold new_pub_channel. evolving. Qed.
#[local] Hint Resolve evolving_new_pub_channel : evolving.
Lemma evolving_validateChannel ch : keeps evolves (validateChannel (E := E) ch).
Proof. unfold validateChannel. evolving. Qed.
#[local] Hint Resolve evolving_validateChannel : evolving.

Lemma evolving_pool_get l c : keeps evolves (pool_get (E := E) l c).
Proof.
  unfold pool_get, BlockingPool.Get. generalize 8%nat, (BlockingPool.GStart (A := nat)). intros fuel.
  induction fuel as [|fuel IH]; intros p; [apply keeps_block; exact _|].
  cbn [BlockingPool.get_run]. apply keeps_bind; [exact _|apply evolving_gets|]. intros s.
  unfold BlockingPool.head_valid. destruct p; evolving.
Qed.
#[local] Hint Resolve evolving_pool_get : evolving.

Lemma evolving_give_back l c ch : keeps evolves (give_back (E := E) l c ch).
Proof.
  unfold give_back, pool_put, BlockingPool.Put. evolving.
Qed.
#[local] Hint Resolve evolving_give_back : evolving.

Lemma evolving_prepareAndSend msg l ch : keeps evolves (prepareAndSend (E := E) msg l ch).
Proof. unfold prepareAndSend. evolving. Qed.
#[local] Hint Resolve evolving_prepareAndSend : evolving.

Lemma evolving_getStreamConnection l : keeps evolves (getStreamConnection (E := E) l).
Proof. unfold getStreamConnection. evolving. Qed.
#[local] Hint Resolve evolving_getStreamConnection : evolving.

Lemma evolving_stream_closed l : keeps evolves (stream_closed (E := E) l).
Proof. unfold stream_closed. evolving. Qed.
#[local] Hint Resolve evolving_stream_closed : evolving.

Lemma evolving_PublishOne ctx msg : keeps evolves (PublishOne (E := E) ctx msg).
Proof.
  unfold PublishOne, publishOneQueue, publishOneStream. evolving.
  all: unfold streamPrepareAndSend; evolving.
Qed.

Lemma evolving_publish_loop l ch events : keeps evolves (publish_loop (E := E) l ch events).
Proof.
  induction events as [|e events IH]; cbn [publish_loop]; unfold publish_turn, notified; evolving.
Qed.
#[local] Hint Resolve evolving_publish_loop : evolving.

Lemma evolving_Publish ctx events : keeps evolves (Publish (E := E) ctx events).
Proof.
  unfold Publish, publish_stream. evolving.
Qed.

(** *** Subscribing *)

Variable maxAcquiredCount : Z.

Lemma evolving_queue_loop l source events :
  keeps evolves (queue_loop (E := E) maxAcquiredCount l source events).
Proof.
  induction events as [|e events IH]; cbn [queue_loop]; unfold queue_turn, queue_message, traced, notified; evolving.
Qed.
#[local] Hint Resolve evolving_queue_loop : evolving.

Lemma evolving_queueSubscribe ctx l source events :
  keeps evolves (queueSubscribe (E := E) maxAcquiredCount ctx l source events).
Proof.
  unfold queueSubscribe, queue_setup, queue_consume, recovered_loop. evolving.
Qed.
#[local] Hint Resolve evolving_queueSubscribe : evolving.

Lemma evolving_latch_increment n : keeps evolves (latch_increment (E := E) n).
Proof.
  unfold latch_increment. evolving. apply evolves_latches. intros n' Hn'.
  destruct (decide (n = n')) as [<-|Hne]; [rewrite lookup_insert_eq|by rewrite lookup_insert_ne]. by eexists.
Qed.

(** Once a slot of the latch is taken, the latch is there. *)
Lemma latch_increment_has n w ok w' :
  latch_increment (E := E) n w = (Ret ok, w') → has_latch n (st w').
Proof.
  unfold latch_increment. rewrite reads_bind. cbn [id]. destruct (latches (st w) !! n) as [latch|]; [|done].
  destruct (BlockingLatch.increment_turn latch) as [[ok'|] latch']; [|done]. rewrite writes_bind.
  intros [= _ <-]. unfold has_latch. cbn. rewrite lookup_insert_eq. by eexists.
Qed.

Lemma evolving_handleMessages l latch consumer source consumerName message :
  keeps evolves (handleMessages (E := E) l latch consumer source consumerName message).
Proof.
  unfold handleMessages. apply keeps_bind; [exact _|exact (evolving_call KUUID)|]. intros uuid.
  apply keeps_bind; [exact _|exact (evolving_call (KConsumerOffset consumer))|]. intros offset.
  apply keeps_bind; [exact _|by unfold of_outcome; intros w; destruct (Stream.decodeDelivery message offset)|].
  intros [hdrs data] w. apply evolves_step; [apply evolving_latch_increment|]. intros ok w' Hok.
  apply latch_increment_has in Hok. apply (keeps_from (has_latch latch)); [|done].
  destruct ok; cbn [negb]; [|apply keeps_ret; exact _]. cbv zeta.
  apply keeps_bind; [exact _| |intros _; apply keeps_evolves_from; evolving].
  apply keeps_writes. intros b Hb. by apply evolves_add_active.
Qed.
#[local] Hint Resolve evolving_handleMessages : evolving.

Lemma evolves_new_latch prefetch b : evolves b (new_latch prefetch b).
Proof.
  assert (∀ n, is_Some (latches b !! n) → is_Some (latches (new_latch prefetch b) !! n)) as Hn.
  { intros n Hn. cbn. rewrite lookup_insert. case_decide; [by eexists|done]. }
  split; [|cbn; lia| |exact Hn].
  - intros [[Hf Hc Hs] Hl]. split; [split|]; [|done..|].
    + intros l bd Hbd%Hf. cbn. lia.
    + intros l bd id s Hbd Hg. apply Hn. by eapply Hl.
  - intros l bd Hl. by exists bd.
Qed.

Lemma evolving_streamSubscribe l source messages :
  keeps evolves (streamSubscribe (E := E) l source messages).
Proof.
  unfold streamSubscribe, stream_declare, stream_consume. evolving. apply evolves_new_latch.
Qed.
#[local] Hint Resolve evolving_streamSubscribe : evolving.

Lemma evolving_Subscribe ctx source events messages :
  keeps evolves (Subscribe (E := E) maxAcquiredCount ctx source events messages).
Proof. unfold Subscribe. evolving. Qed.

(** *** Statistics *)

Lemma evolving_SourceStats ctx source : keeps evolves (BrokerStats.SourceStats (E := E) ctx source).
Proof.
  unfold BrokerStats.SourceStats, BrokerStats.getStreamOrQueueStats, BrokerStats.body_stats,
    BrokerStats.updateStatsForStream, BrokerStats.updateCurrentOffsetStat, BrokerStats.updateStreamOffsetStat.
  evolving.
Qed.

(** ** All handlers *)

(** The methods of the provider and the goroutines it starts, with what they
    receive while they run. *)
Inductive provider_op :=
  | OConnect (ctx : ClientIds.peer) (cf : ConnectionConfiguration) (skip : bool)
  | ODisconnect (ctx : ClientIds.peer)
  | OWaitForConnect (ctx : ClientIds.peer)
  | OSubscribe (ctx : ClientIds.peer) (source : Source) (events : list subscribe_event)
      (messages : list Stream.wireMessage)
  | OPublish (ctx : ClientIds.peer) (events : list publish_event)
  | OPublishOne (ctx : ClientIds.peer) (msg : Message)
  | OAck (ctx : ClientIds.peer) (msgid : string)
  | ONack (ctx : ClientIds.peer) (msgid : string)
  | ORetry (ctx : ClientIds.peer) (source : option Source) (msgid : string) (delay : Z)
  | ODeadLetter (ctx : ClientIds.peer) (msgid : string)
  | OSourceStats (ctx : ClientIds.peer) (source : Source)
  | OWatcher (fuel l : nat) (events : list watcher_event)
  | OCleaner (ticks : nat).

Definition provider_apply (o : provider_op) : bprog E () :=
  match o with
  | OConnect ctx cf skip => Connect ctx cf skip;; mret ()
  | ODisconnect ctx => Disconnect ctx
  | OWaitForConnect ctx => WaitForConnect ctx;; mret ()
  | OSubscribe ctx source events messages => Subscribe maxAcquiredCount ctx source events messages;; mret ()
  | OPublish ctx events => Publish ctx events;; mret ()
  | OPublishOne ctx msg => PublishOne ctx msg;; mret ()
  | OAck ctx msgid => Ack ctx msgid;; mret ()
  | ONack ctx msgid => Nack ctx msgid;; mret ()
  | ORetry ctx source msgid delay => Retry ctx source msgid delay;; mret ()
  | ODeadLetter ctx msgid => DeadLetter ctx msgid;; mret ()
  | OSourceStats ctx source => BrokerStats.SourceStats ctx source;; mret ()
  | OWatcher fuel l events => connectionWatcher fuel l events
  | OCleaner ticks => connectionCleaner ticks
  end.

(** A handler after the other, however each of them ends. *)
Definition provider_run (os : list provider_op) (w : world Shim E broker) : world Shim E broker :=
  foldl (λ w o, snd (provider_apply o w)) w os.

Lemma evolving_ignore {A} (m : bprog E A) : keeps evolves m → keeps evolves (m;; mret ()).
Proof. intros Hm. apply keeps_bind; [exact _|exact Hm|]. by intros ? ?. Qed.

Lemma provider_apply_evolves o w : typed (st w) → evolves (st w) (st (snd (provider_apply o w))).
Proof.
  intros Hty. destruct o; cbn [provider_apply].
  { apply evolves_step; [by apply evolving_Connect|]. by intros ? ? _. }
  all: revert w Hty; intros w _; match goal with |- evolves (st w) (st (snd (?m w))) =>
    enough (keeps evolves m) as Hm by exact (Hm w) end.
  - apply evolving_Disconnect.
  - apply evolving_ignore, evolving_WaitForConnect.
  - apply evolving_ignore, evolving_Subscribe.
  - apply evolving_ignore, evolving_Publish.
  - apply evolving_ignore, evolving_PublishOne.
  - apply evolving_ignore, evolving_Ack.
  - apply evolving_ignore, evolving_Nack.
  - apply evolving_ignore, evolving_Retry.
  - apply evolving_ignore, evolving_DeadLetter.
  - apply evolving_ignore, evolving_SourceStats.
  - apply evolving_connectionWatcher.
  - apply evolving_connectionCleaner.
Qed.

(** C33: Type preservation for the provider: after any sequence of its handlers
    from a well-typed state, with any broker behind it and however each of them
    ends, every entry of the table of connections leads to an object of that
    very client, every object is in one of the four states, and the latch of
    every stream message that waits for an acknowledgement exists; no object is
    lost, and none changes the client or the configuration it was made with. *)
Theorem provider_typed os w : typed (st w) →
  let b := st (provider_run os w) in
  (∀ cid l, Get cid (connections b) = Some l → ∃ bd, details b !! l = Some bd ∧ ClientIdentifier bd = cid) ∧
  (∀ l bd, details b !! l = Some bd → valid_state (state bd)) ∧
  (∀ l bd id s, details b !! l = Some bd → Get id (activeMessages bd) = Some (ActStream s) →
    is_Some (latches b !! saLatch s)) ∧
  (∀ l bd, details (st w) !! l = Some bd → ∃ bd', details b !! l = Some bd' ∧ identity bd' = identity bd).
Proof.
  intros Hty b. assert (typed b ∧ evolves (st w) b) as [[Hwf Hl] He].
  { subst b. revert w Hty. induction os as [|o os IH]; intros w Hty; [done|]. cbn [provider_run foldl].
    pose proof (provider_apply_evolves o w Hty) as He. destruct (IH (snd (provider_apply o w))) as [Ht Hr];
      [by apply He|]. split; [exact Ht|]. by etrans. }
  split; [apply Hwf|]. split; [apply Hwf|]. split; [apply Hl|]. apply He.
Qed.

End handlers.

(** ** Witnesses *)

Lemma demo_typed : typed (demo_broker ∅).
Proof.
  assert (∀ l bd, details (demo_broker ∅) !! l = Some bd → l = 0%nat ∧ bd = demo_details ∅) as Hd.
  { intros l bd. cbn. rewrite lookup_singleton_Some. by intros [<- <-]. }
  split; [split|].
  - intros l bd [-> _]%Hd. cbn. lia.
  - intros cid l Hc. unfold Get in Hc. cbn in Hc. apply lookup_singleton_Some in Hc as [<- <-]. by eexists.
  - intros l bd [_ ->]%Hd. right. by left.
  - by intros l bd id s [_ ->]%Hd.
Qed.

#[local] Instance demo_json : Json := {| Unmarshal _ := ([], None) |}.
#[local] Instance demo_select : Select := true.
#[local] Instance no_tracing : Tracing := {| tracing_enabled := false; trace_headers _ := ("", "") |}.
#[local] Instance no_gzip : Gzip := {| gz_write b := (b, None); gz_read b := (b, None) |}.
#[local] Instance no_stats : StatsJson := {|
  UnmarshalObject _ := (None, None); UnmarshalMetrics _ := (zero_metrics, None); oob _ _ := 0 |}.
#[local] Instance nobody : Others nat := alone.

(** The client connects anew, acknowledges a message nobody sent, and goes. *)
Lemma provider_typed_witness (MR := default_range) (O := ok_shim) :
  let b := st (provider_run 20
    [OConnect demo_peer demo_config false; OAck demo_peer "m1"; ODisconnect demo_peer] (demo_world ∅)) in
  size (details b) = 2%nat ∧ ∃ bd, details b !! 0%nat = Some bd ∧ ClientIdentifier bd = "c-1".
Proof.
  intros b. split; [vm_compute; reflexivity|].
  destruct (provider_typed 20
    [OConnect demo_peer demo_config false; OAck demo_peer "m1"; ODisconnect demo_peer] (demo_world ∅) demo_typed)
    as (_ & _ & _ & Hi).
  destruct (Hi 0%nat (demo_details ∅) eq_refl) as (bd & Hl & Hid). exists bd. split; [exact Hl|].
  injection Hid as ? ? ?. done.
Defined.

End BrokerTypes.
