(* ===== verification/PublishPath.v ===== *)
(** * A message from the client to the broker and its answer

    The publish stream of the server ([server/server.go], [Publish]) on top of
    that of the AMQP provider ([connectors/amqp091/amqp091.go],
    [BrokerPublish]), for a client that waits for the answer to a message
    before it sends the next, as the load client does. *)

From Stdlib Require Import Ascii String.
From stdpp Require Import base gmap strings list fin_maps option.
From Stdlib Require Import ZArith Lia.
From S2P Require Import Prelude Effects GoStrings Api ConcurrentMap BlockingPool ClientIds Provider Compression Stream Amqp BrokerState BrokerDeclare BrokerPublish Server Publish.

Module PublishPath.
Import Server Amqp BrokerState BrokerDeclare.
Open Scope Z_scope.
Open Scope list_scope.

(** What the provider hands back on the error channel. *)
Definition replies (lg : list (event Shim)) : list (option Error) :=
  omap (λ e : event Shim, match projT1 e with KErrChan r => Some r | _ => None end) lg.

(** The messages that went out, with the broker's answers. *)
Definition published_by (e : event Shim) : option (nat * string * string * amqp091Message * error) :=
  match e with
  | existT c o =>
      match c return outcome (shim_reply c) → option (nat * string * string * amqp091Message * error) with
      | KPublish ch x k m => λ o, match o with Ret err => Some (ch, x, k, m, err) | _ => None end
      | _ => λ _, None
      end o
  end.
Definition published (lg : list (event Shim)) := omap published_by lg.

Lemma published_app l1 l2 : published (l1 ++ l2) = published l1 ++ published l2.
Proof. apply omap_app. Qed.

(** ** The provider's side *)

Section provider.
Context {E : Type} `{O : Oracle Shim E} `{R : !Returns E} `{MR : MapRange} `{J : Json} `{Sel : Select}.
Implicit Types w : world Shim E broker.

(** [m] returns as long as the object at [l] has a connection, and leaves it. *)
Definition reliable {A} (l : nat) (m : bprog E A) : Prop :=
  ∀ w, BrokerPublish.connected_at l w → ∃ a w', m w = (Ret a, w') ∧ BrokerPublish.connected_at l w'.

Lemma reliable_ret {A} l (a : A) : reliable l (mret a).
Proof. intros w Hc. by exists a, w. Qed.
Lemma reliable_call l c : reliable l (call (E := E) c).
Proof. intros w Hc. destruct (call_returns c w) as (r & e & _ & ->). by eexists _, _. Qed.
Lemma reliable_bind {A B} l (m : bprog E A) (f : A → bprog E B) :
  reliable l m → (∀ a, reliable l (f a)) → reliable l (m ≫= f).
Proof.
  intros Hm Hf w Hc. destruct (Hm w Hc) as (a & w1 & Hr & Hc1). rewrite (bind_run _ _ _ _ _ Hr). by apply Hf.
Qed.
Lemma reliable_get_bd l : reliable l (get_bd (E := E) l).
Proof. intros w Hc. pose proof Hc as (bd & Hl & _). exists bd, w. by rewrite (get_bd_run _ _ _ Hl). Qed.
Lemma reliable_with_conn {A} l (f : nat → bprog E A) : (∀ c, reliable l (f c)) → reliable l (with_conn l f).
Proof.
  intros Hf w Hc. pose proof Hc as (bd & Hl & [c Hcn]). rewrite (BrokerPublish.with_conn_run l c bd) by done.
  by apply Hf.
Qed.
Lemma reliable_upd l f : (∀ bd, Connection (f bd) = Connection bd) → reliable l (upd_bd (E := E) l f).
Proof.
  intros Hf w Hc. rewrite upd_bd_run. eexists _, _. split; [done|]. apply at_bd_upd; [|done].
  intros bd. by rewrite Hf.
Qed.
Lemma reliable_for_range {A X} l (xs : list A) (body : A → bprog E (option X)) :
  (∀ x, reliable l (body x)) → reliable l (for_range xs body).
Proof.
  intros Hb. induction xs as [|x xs IH]; cbn; [apply reliable_ret|]. apply reliable_bind; [done|].
  intros [r|]; [apply reliable_ret|done].
Qed.

Ltac reliable_the_call :=
  match goal with |- reliable ?l ?m => match m with call ?c => exact (reliable_call l c) end end.

Lemma declareExchange_reliable a l : reliable l (declareExchange (E := E) a l).
Proof.
  unfold declareExchange. generalize (default zero_Address a). clear a.
  fix IH 1. intros [name subjects aType autoDelete parent]. cbn [declareExchange_].
  destruct (contains "amq." name); [apply reliable_ret|].
  apply reliable_bind; [apply reliable_with_conn; intros; reliable_the_call|].
  intros [ch|err]; [|apply reliable_ret]. apply reliable_bind; [apply reliable_get_bd|]. intros bd.
  apply reliable_bind.
  { destruct (exchangeKnown name bd); [apply reliable_ret|].
    destruct (addressTypeToAmqpType aType); [|apply reliable_ret]. apply reliable_bind; [reliable_the_call|].
    intros err. destruct (ignoreDeclareError err); [|apply reliable_ret].
    apply reliable_bind; [apply reliable_upd; by intros []|intros; apply reliable_ret]. }
  intros [err|]; [apply reliable_ret|]. destruct parent as [p|]; [|apply reliable_ret].
  apply reliable_bind; [apply reliable_get_bd|]. intros bd'. apply reliable_bind.
  - destruct (exchangeKnown (AddressName p) bd'); [apply reliable_ret|].
    apply reliable_bind; [apply IH|]. intros _. apply reliable_upd. by intros [].
  - intros _. apply reliable_bind; [|intros [err|]; apply reliable_ret]. apply reliable_for_range. intros x.
    apply reliable_bind; [reliable_the_call|]. intros. apply reliable_ret.
Qed.

Lemma quiet_declarations lg : Forall (λ e : event Shim, decl_call (projT1 e)) lg → published lg = [] ∧ replies lg = [].
Proof.
  induction lg as [|[c o] lg IH]; [done|]. intros [Hc Hlg]%list.Forall_cons. destruct (IH Hlg) as [Hp Hr].
  unfold published, replies in *. cbn [omap list_omap]. rewrite Hp, Hr. by destruct c.
Qed.

(** One message through the provider's loop. *)
Lemma provider_turn l ch m subject w :
  BrokerPublish.connected_at l w → GetSubjects (MessageAddress m) = [subject] → Confirm m = false →
  ∃ err lg w', BrokerPublish.publish_turn l ch (BrokerPublish.PMessage (Some m)) w = (Ret None, w') ∧
    log w' = log w ++ lg ∧ BrokerPublish.connected_at l w' ∧
    published lg = [(ch, GetAddressName (MessageAddress m), subject, BrokerPublish.amqp_message m, err)] ∧
    replies lg = [mkFatal <$> err].
Proof.
  intros Hc Hs Hcf. destruct (declareExchange_reliable (MessageAddress m) l w Hc) as (d & w1 & Hd & Hc1).
  destruct (proj1 (declaring_declareExchange (E := E) (MessageAddress m) l) w) as (pre & Hpre & Hall).
  rewrite Hd in Hpre. cbn [snd] in Hpre. destruct (quiet_declarations pre Hall) as [Hp Hr].
  destruct (call_returns (KPublish ch (GetAddressName (MessageAddress m)) subject (BrokerPublish.amqp_message m)) w1)
    as (err & e2 & _ & Hpub).
  set (w2 := {| st := st w1; env := e2; log := _ |}) in Hpub.
  assert (∃ w3, BrokerPublish.prepareAndSend m l ch w = (Ret (mkFatal <$> err), w3) ∧ log w3 = log w2 ∧
    BrokerPublish.connected_at l w3) as (w3 & Hsend & Hl3 & Hc3).
  { rewrite (BrokerPublish.prepareAndSend_run _ _ _ _ _ _ Hs), (bind_run _ _ _ _ _ Hd), (bind_run _ _ _ _ _ Hpub).
    destruct (err : error) as [er|]; [by exists w2|].
    destruct (reliable_upd l BrokerPublish.add_produced ltac:(by intros []) w2 Hc1) as ([] & w3 & Hu & Hc3).
    rewrite (bind_run _ _ _ _ _ Hu). exists w3. split; [done|]. split; [|done].
    rewrite upd_bd_run in Hu. by injection Hu as <-. }
  destruct (call_returns (KErrChan (mkFatal <$> (err : error))) w3) as (r & e4 & _ & He). 
  exists err, (pre ++ [ev (KPublish ch (GetAddressName (MessageAddress m)) subject (BrokerPublish.amqp_message m)) (Ret err);
                       ev (KErrChan (mkFatal <$> (err : error))) (Ret r)]). eexists.
  cbn [BrokerPublish.publish_turn]. rewrite Hcf, bind_ret_l, (bind_run _ _ _ _ _ Hsend), (bind_run _ _ _ _ _ He).
  split; [reflexivity|]. cbn [log]. split; [rewrite Hl3; subst w2; cbn [log]; by rewrite Hpre, <- !app_assoc|].
  split; [done|]. unfold replies in *. rewrite published_app, omap_app, Hp, Hr. done.
Qed.
End provider.

(** ** Both sides *)

(** The client takes its responses. *)
Class Receiving (X : Type) `{Oracle Srv X} :=
  receiving : ∀ r (x : X), ∃ x', answer (I := Srv) (SSendPublish r) x = (Ret None, x').

Section path.
Context {E X : Type} `{O : Oracle Shim E} `{R : !Returns E} `{MR : MapRange} `{J : Json} `{Sel : Select}.
Context `{OX : Oracle Srv X} `{Process X} `{RX : !Receiving X}.

(** The stream in the middle of an iteration: its state, the server's world and
    the provider's. *)
Definition both : Type := Publish.publish * world Srv X server * world Shim E broker.

(** What a run is, if it returns. *)
Definition returning {S A} (r : outcome A * S) : option (A * S) :=
  match r with (Ret a, s) => Some (a, s) | _ => None end.

(** One message: the helper receives it from the client and offers it; the
    provider's loop takes it and deals with it; and the server does with each
    reply what it does with a reply. *)
Definition pass_on (p : nat) (ctx : ClientIds.peer) (l ch : nat) (b : both) (m : Message) : option both :=
  let '(c, ws, wp) := b in
  '(c1, ws1) ← returning (Publish.publish_run p ctx
    [Publish.ERecv (Publish.current c) (inl m); Publish.ETake] c ws);
  match Publish.helpers c1 !! Publish.current c1 with
  | Some (Publish.HWaiting m') =>
      '(r, wp1) ← returning (BrokerPublish.publish_turn l ch (BrokerPublish.PMessage (Some m')) wp);
      match (r : option (option Error)) with
      | Some _ => None
      | None =>
          '(c2, ws2) ← returning (Publish.publish_run p ctx
            (map Publish.EReply (replies (drop (length (log wp)) (log wp1)))) c1 ws1);
          Some (c2, ws2, wp1)
      end
  | _ => None
  end.

Fixpoint pass_all (p : nat) (ctx : ClientIds.peer) (l ch : nat) (ms : list Message) (b : both) : option both :=
  match ms with
  | [] => Some b
  | m :: rest => b' ← pass_on p ctx l ch b m; pass_all p ctx l ch rest b'
  end.

(** The helper of the current iteration waits for the client. *)
Definition in_iteration (c : Publish.publish) : Prop :=
  Publish.main c = Publish.MPublishing ∧ Publish.helpers c !! Publish.current c = Some Publish.HRecv.

(** A message the stream is meant for: one subject, no confirmation. *)
Definition plain (m : Message) : Prop := one_subject m = true ∧ Confirm m = false.

(** The message as it goes out. *)
Definition outgoing (ch : nat) (m : Message) (err : error) : nat * string * string * amqp091Message * error :=
  (ch, GetAddressName (MessageAddress m), default "" (head (GetSubjects (MessageAddress m))),
   BrokerPublish.amqp_message m, err).

(** The response to a message the broker has answered with [err]. *)
Definition answer_to (err : error) : event Srv :=
  sev (SSendPublish (publish_response (mkFatal <$> err))) (Ret None).

Lemma set_helper_back i h c :
  Publish.helpers c !! i = Some h → Publish.set_helper i h c = c.
Proof. intros Hi. destruct c as [hs m sp re]. unfold Publish.set_helper. cbn in *. by rewrite list_insert_id. Qed.

Lemma set_helper_twice i h1 h2 c : Publish.set_helper i h2 (Publish.set_helper i h1 c) = Publish.set_helper i h2 c.
Proof. unfold Publish.set_helper. cbn. by rewrite list_insert_insert_eq. Qed.

(** The helper has the message, and the provider has taken it. *)
Lemma server_takes p ctx m c (ws : world Srv X server) :
  in_iteration c → one_subject m = true →
  Publish.publish_run p ctx [Publish.ERecv (Publish.current c) (inl m); Publish.ETake] c ws =
    (Ret (Publish.set_helper (Publish.current c) (Publish.HWaiting m) c), ws).
Proof.
  intros [Hm Hh] Hs. cbn [Publish.publish_run Publish.publish_turn]. rewrite Hh. unfold Publish.received.
  rewrite Hs, bind_ret_l. set (i := Publish.current c).
  assert (Publish.current (Publish.set_helper i (Publish.HSelect m) c) = i) as Hi.
  { unfold i, Publish.current. cbn. by rewrite length_insert. }
  rewrite Hi. assert (Publish.helpers (Publish.set_helper i (Publish.HSelect m) c) !! i = Some (Publish.HSelect m)) as Hl.
  { cbn. apply list_lookup_insert_eq. by eapply lookup_lt_Some. }
  cbn [Publish.main Publish.set_helper]. rewrite Hm. rewrite Hl, bind_ret_l. by rewrite set_helper_twice.
Qed.

(** A reply goes to the client, and the helper waits for the next message. *)
Lemma server_answers p ctx m err c (ws : world Srv X server) :
  in_iteration c →
  ∃ ws', Publish.publish_run p ctx [Publish.EReply err] (Publish.set_helper (Publish.current c) (Publish.HWaiting m) c) ws =
    (Ret c, ws') ∧ log ws' = log ws ++ [sev (SSendPublish (publish_response err)) (Ret None)].
Proof.
  intros [Hm Hh]. set (i := Publish.current c). cbn [Publish.publish_run Publish.publish_turn].
  cbn [Publish.main Publish.set_helper]. rewrite Hm.
  assert (Publish.current (Publish.set_helper i (Publish.HWaiting m) c) = i) as Hi.
  { unfold i, Publish.current. cbn. by rewrite length_insert. }
  unfold Publish.answered. rewrite Hi.
  assert (Publish.helpers (Publish.set_helper i (Publish.HWaiting m) c) !! i = Some (Publish.HWaiting m)) as Hl.
  { cbn. apply list_lookup_insert_eq. by eapply lookup_lt_Some. }
  rewrite Hl. unfold Publish.respond. destruct (receiving (publish_response err) (env ws)) as [x' Hx].
  eexists. rewrite bind_assoc. erewrite bind_run by (rewrite srv_call_run, Hx; done). rewrite bind_ret_l.
  rewrite set_helper_twice, set_helper_back by done. split; [done|]. done.
Qed.

Lemma pass_on_run p ctx l ch m c ws wp :
  in_iteration c → plain m → BrokerPublish.connected_at l wp →
  ∃ err ws' wp' lg, pass_on p ctx l ch (c, ws, wp) m = Some (c, ws', wp') ∧
    BrokerPublish.connected_at l wp' ∧ log ws' = log ws ++ [answer_to err] ∧
    log wp' = log wp ++ lg ∧ published lg = [outgoing ch m err].
Proof.
  intros Hc [Hs Hcf] Hconn. apply Nat.eqb_eq in Hs as Hlen.
  destruct (GetSubjects (MessageAddress m)) as [|subject []] eqn:Hsub; try done.
  destruct (provider_turn l ch m subject wp Hconn Hsub Hcf) as (err & lg & wp' & Hr & Hl & Hconn' & Hp & Hrep).
  destruct (server_answers p ctx m (mkFatal <$> err) c ws Hc) as (ws' & Ha & Hlog).
  exists err, ws', wp', lg. unfold pass_on. rewrite (server_takes p ctx m c ws Hc Hs). cbn [returning mbind option_bind].
  assert (Publish.current (Publish.set_helper (Publish.current c) (Publish.HWaiting m) c) = Publish.current c) as Hi.
  { unfold Publish.current at 1. cbn. by rewrite length_insert. }
  rewrite Hi. cbn [Publish.helpers Publish.set_helper]. rewrite list_lookup_insert_eq
    by (destruct Hc as [_ Hh]; by eapply lookup_lt_Some).
  rewrite Hr. cbn [returning mbind option_bind]. rewrite Hl, drop_app_length, Hrep. cbn [map].
  change (Publish.mkPublish _ _ _ _) with (Publish.set_helper (Publish.current c) (Publish.HWaiting m) c).
  rewrite Ha. cbn [returning mbind option_bind]. split; [done|]. split; [done|]. split; [done|].
  split; [done|]. rewrite Hp. unfold outgoing. by rewrite Hsub.
Qed.

(** C8: From the client to the broker and back, for a client that waits for each
    answer, and whose messages each have exactly one subject and ask for no
    confirmation: every message goes out to the broker exactly once, in the
    order in which the client sends them, to its exchange under its subject;
    and the client gets exactly one answer to each, in that order, which is a
    success precisely when the call that publishes this very message has
    returned no error, on a channel that does not wait for confirmations, and
    that error otherwise. The server and the provider are ready for the next
    message afterwards, whatever the answers are. A message that asks for
    confirmation is answered twice, and puts the stream out of step
    ([publish_confirm_twice], [publish_out_of_step]). *)
Theorem published_and_answered p ctx l ch ms c ws wp :
  in_iteration c → Forall plain ms → BrokerPublish.connected_at l wp →
  ∃ errs ws' wp' lg, pass_all p ctx l ch ms (c, ws, wp) = Some (c, ws', wp') ∧
    length errs = length ms ∧
    log wp' = log wp ++ lg ∧ published lg = zip_with (outgoing ch) ms errs ∧
    log ws' = log ws ++ map answer_to errs.
Proof.
  intros Hc. revert ws wp. induction ms as [|m ms IH]; intros ws wp Hall Hconn.
  { exists [], ws, wp, []. by rewrite !app_nil_r. }
  apply list.Forall_cons in Hall as [Hm Hall].
  destruct (pass_on_run p ctx l ch m c ws wp Hc Hm Hconn) as (err & ws1 & wp1 & lg1 & Hr1 & Hc1 & Hs1 & Hl1 & Hp1).
  destruct (IH ws1 wp1 Hall Hc1) as (errs & ws2 & wp2 & lg2 & Hr2 & Hlen & Hl2 & Hp2 & Hs2).
  exists (err :: errs), ws2, wp2, (lg1 ++ lg2). cbn [pass_all]. rewrite Hr1. cbn [mbind option_bind].
  split; [exact Hr2|]. split; [by cbn; rewrite Hlen|]. split; [by rewrite Hl2, Hl1, app_assoc|].
  rewrite published_app, Hp1, Hp2. split; [done|]. by rewrite Hs2, Hs1, <- app_assoc.
Qed.
End path.

(** ** Witness *)

Section witness.
#[local] Instance no_json : Json := {| Unmarshal _ := ([], None) |}.
#[local] Instance first_ready : Select := true.

Lemma ok_srv_receives : @Receiving memory ok_srv.
Proof. intros r x. by eexists. Qed.

(** A broker that refuses what goes to the exchange "full". *)
Definition full_shim : Oracle Shim nat :=
  scripted (λ c, match c with
                 | KPublish _ x _ _ => if String.eqb x "full" then Some (Ret (Some "exchange is full")) else None
                 | _ => None
                 end).
Lemma full_returns : @Effects.Returns Shim nat full_shim.
Proof.
  intros c e. destruct c; try (by eexists _, _). unfold answer, full_shim, scripted.
  destruct (String.eqb exchange "full"); by eexists _, _.
Qed.

Definition demo_publication (address : string) : Message := {|
  Uuid := ""; Api.Headers := ∅; Api.Body := []; MessageAddress := Some (mkAddress address ["new"] Address_TOPIC false None);
  Persistent := false; MessageError := None; Confirm := false; PublishId := 0; PublisherName := "" |}.

Lemma demo_ready : BrokerPublish.connected_at 0 (demo_world ∅).
Proof. exists (demo_details ∅). split; [reflexivity|by eexists]. Qed.

Lemma published_and_answered_witness (MR := default_range) (O := full_shim) (OX := ok_srv)
  (ms := [demo_publication "orders"; demo_publication "full"]) :
  ∃ errs ws' wp' lg,
    pass_all 0 Server.demo_peer 0 3 ms (Publish.first_iteration, Server.demo_world ∅, demo_world ∅) =
      Some (Publish.first_iteration, ws', wp') ∧
    length errs = 2%nat ∧ log wp' = [] ++ lg ∧ published lg = zip_with (outgoing 3) ms errs ∧
    log ws' = [] ++ map answer_to errs.
Proof.
  assert (in_iteration Publish.first_iteration) as H1 by (by split).
  assert (Forall plain ms) as H2 by (repeat constructor).
  destruct (published_and_answered (R := full_returns) (RX := ok_srv_receives) 0 Server.demo_peer 0 3 ms
    Publish.first_iteration (Server.demo_world ∅) (demo_world ∅) H1 H2 demo_ready)
    as (errs & ws' & wp' & lg & Hr & Hlen & Hl & Hp & Hs).
  exists errs, ws', wp', lg. split; [exact Hr|]. split; [exact Hlen|]. split; [exact Hl|]. split; [exact Hp|exact Hs].
Defined.

(** On the run of the witness the first is answered with a success and the
    second with the broker's error. *)
Example second_refused (MR := default_range) (O := full_shim) (OX := ok_srv) :
  (λ b : both, map (λ e, match projT1 e with SSendPublish r => ResponseSuccess r | _ => false end) (log b.1.2)) <$>
    pass_all 0 Server.demo_peer 0 3 [demo_publication "orders"; demo_publication "full"]
      (Publish.first_iteration, Server.demo_world ∅, demo_world ∅) = Some [true; false].
Proof. vm_compute. reflexivity. Qed.
End witness.
End PublishPath.
