(* ===== verification/AmqpProvider.v ===== *)
(** * The server on top of the AMQP provider

    The provider of [BrokerState] and its followers answers the calls of the
    server's interface [Srv], and keeps the promises of the class [Roster]; so
    what is proved of the server against the interface holds of the two
    together. *)

From Stdlib Require Import Ascii String.
From stdpp Require Import base gmap strings list fin_maps fin_sets option.
From Stdlib Require Import ZArith Lia.
From S2P Require Import Prelude Effects GoStrings Api ConcurrentMap BlockingLatch BlockingPool ClientIds Provider Compression Stream Amqp BrokerState BrokerDeclare BrokerAck BrokerConnect BrokerPublish BrokerSubscribe Server Sessions Consume Health BrokerStats BrokerTypes.

Module AmqpProvider.
Import Amqp ConcurrentMap BrokerState BrokerDeclare BrokerConnect BrokerTypes Server Sessions.
Open Scope Z_scope.
Open Scope list_scope.

(** The process: the provider with the broker behind it, and the rest of what
    the server calls. *)
Record process (E X : Type) := {
  provider : world Shim E broker;
  elsewhere : X
}.
Arguments Build_process {_ _}.
Arguments provider {_ _}.
Arguments elsewhere {_ _}.

Definition with_clientMap (m : gmap string string) (b : broker) : broker := {|
  details := details b; connections := connections b; nextAddr := nextAddr b; latches := latches b;
  clientMap := m; insecureSkipVerify := insecureSkipVerify b |}.

Section provider.
Context {E X : Type} `{Oracle Shim E} `{Oracle Srv X}.
Context `{MR : MapRange} `{Json} `{Select} `{Others E} `{StatsJson}.

(** A method of the provider. *)
Definition on_provider {A} (m : bprog E A) (e : process E X) : outcome A * process E X :=
  let '(o, w) := m (provider e) in (o, {| provider := w; elsewhere := elsewhere e |}).

Definition ask_elsewhere (c : srv_call) (e : process E X) : outcome (srv_reply c) * process E X :=
  let '(o, x) := answer (I := Srv) c (elsewhere e) in (o, {| provider := provider e; elsewhere := x |}).

(** There is one provider, whatever the address. *)
#[global] Instance amqp_srv : Oracle Srv (process E X) := λ c e,
  match c return outcome (srv_reply c) * process E X with
  | PConnect _ ctx cf skip => on_provider (Connect ctx cf skip) e
  | PDisconnect _ ctx => on_provider (BrokerConnect.Disconnect ctx) e
  | PClientExists _ cid => (Ret (ClientExists cid (st (provider e))), e)
  | PWaitForConnect _ ctx => on_provider (WaitForConnect ctx) e
  | PSubscribe _ _ _ => (Ret (), e)
  | PSupportedSourceOptions _ => (Ret supportedSourceOptions, e)
  | PPublish _ _ => (Ret (), e)
  | PPublishOne _ ctx msg => on_provider (BrokerPublish.PublishOne ctx msg) e
  | PAck _ ctx msgid => on_provider (BrokerAck.Ack ctx msgid) e
  | PNack _ ctx msgid => on_provider (BrokerAck.Nack ctx msgid) e
  | PRetry _ ctx source msgid delay => on_provider (BrokerAck.Retry ctx source msgid delay) e
  | PDeadLetter _ ctx _ msgid => on_provider (BrokerAck.DeadLetter ctx msgid) e
  | PSourceStats _ ctx source => on_provider (BrokerStats.SourceStats ctx source) e
  | SSendConsume r => ask_elsewhere (SSendConsume r) e
  | SSendPublish r => ask_elsewhere (SSendPublish r) e
  | SSendHealth n h => ask_elsewhere (SSendHealth n h) e
  | SGetenv key => ask_elsewhere (SGetenv key) e
  | SSleepRandom lo hi => ask_elsewhere (SSleepRandom lo hi) e
  | SNow => ask_elsewhere SNow e
  | SUUID => ask_elsewhere SUUID e
  end.

(** The table of client identifiers is the one the provider reads. *)
#[global] Instance amqp_process : Process (process E X) := {|
  ids e := clientMap (st (provider e));
  set_ids m e := {| provider := set_st (with_clientMap m (st (provider e))) (provider e);
                    elsewhere := elsewhere e |} |}.

End provider.

(** ** The provider keeps its promises *)

Section roster.
Context {E X : Type} `{Oracle Shim E} `{Oracle Srv X}.
Context `{MR : MapRange} `{Json} `{Select} `{Others E} `{StatsJson}.
Implicit Types w : world Shim E broker.

(** What [connect] does to an object whose entry it may have in no table. *)
Definition attempt (l : nat) (cid : string) (b b' : broker) : Prop :=
  connections b' = connections b ∧ clientMap b' = clientMap b ∧
  (quiescent b → quiescent b') ∧
  (at_bd l (λ bd, ClientIdentifier bd = cid ∧ shutdown bd = false) b →
   at_bd l (λ bd, ClientIdentifier bd = cid ∧ shutdown bd = false) b').

#[local] Instance attempt_refl l cid : Reflexive (attempt l cid).
Proof. by intros b. Qed.
#[local] Instance attempt_trans l cid : Transitive (attempt l cid).
Proof. intros b1 b2 b3 (?&?&?&?) (?&?&?&?). split_and!; [congruence..|by auto|by auto]. Qed.

Lemma quiescent_upd l f b :
  (∀ bd, ClientIdentifier (f bd) = ClientIdentifier bd ∧ shutdown (f bd) = shutdown bd ∧
         (valid_state (state bd) → valid_state (state (f bd)))) →
  quiescent b → quiescent (set_details (alter f l (details b)) b).
Proof.
  intros Hf [Hwf Hs]. split; [by apply wf_upd; [intros bd; destruct (Hf bd) as (?&?&?)|]|].
  intros cid l' bd Hc Hl. cbn in Hc. destruct (decide (l = l')) as [<-|Hne].
  - rewrite details_upd in Hl. destruct (details b !! l) as [bd0|] eqn:Hl0; [|done]. cbn in Hl. simplify_eq.
    destruct (Hf bd0) as (_ & -> & _). by eapply Hs.
  - rewrite details_upd_ne in Hl by done. by eapply Hs.
Qed.

Lemma attempt_upd l' f l cid b :
  (∀ bd, ClientIdentifier (f bd) = ClientIdentifier bd ∧ shutdown (f bd) = shutdown bd ∧
         (valid_state (state bd) → valid_state (state (f bd)))) →
  attempt l cid b (set_details (alter f l' (details b)) b).
Proof.
  intros Hf. split_and!; [done..|by apply quiescent_upd|]. intros (bd & Hl & Hid & Hs).
  destruct (decide (l' = l)) as [->|Hne].
  - exists (f bd). rewrite details_upd, Hl. split; [done|]. destruct (Hf bd) as (-> & -> & _). done.
  - exists bd. by rewrite details_upd_ne.
Qed.

#[local] Instance attempt_frame l cid : Frame (attempt l cid).
Proof.
  split; [exact _..|]. intros l' f b Hf. apply attempt_upd. intros bd.
  set (P := λ bd, (ClientIdentifier bd, shutdown bd, state bd)).
  assert (∀ bd, P (forget_known bd) = P bd) as Hk by (by intros []).
  assert (P (f bd) = P bd) as Hp by (by rewrite <- (Hk (f bd)), Hf, Hk).
  injection Hp as ? ? Hst. split_and!; [done..|]. by rewrite Hst.
Qed.

Lemma attempt_connect_locked l' l cid : keeps (attempt l cid) (connect_locked (E := E) l').
Proof.
  assert (∀ f, (∀ bd, ClientIdentifier (f bd) = ClientIdentifier bd ∧ shutdown (f bd) = shutdown bd ∧
      (valid_state (state bd) → valid_state (state (f bd)))) → keeps (attempt l cid) (upd_bd (E := E) l' f)) as Hupd.
  { intros f Hf. apply keeps_writes. intros b. by apply attempt_upd. }
  assert (∀ c, keeps (attempt l cid) (BrokerState.call (E := E) c)) as Hcall
    by (intros c; exact (keeps_ext (I := Shim) _ c)).
  assert (keeps (attempt l cid) (loadExchanges (E := E) l')) as Hload by (apply declaring_loadExchanges; exact _).
  assert (keeps (attempt l cid) (get_bd (E := E) l')) as Hget by (unfold get_bd; by keeps_solve).
  unfold connect_locked, prepare, dial.
  repeat first [exact Hget | exact Hload | apply Hcall | keeps_step | apply Hupd; intros []; cbn; split_and!;
    first [done | intros _; unfold valid_state; cbn; tauto]].
  - split_and!; [done..| |done]. intros [[] Hs]. split; [by split|done].
  - exact (Hcall (KNewConnection _ _)).
  - exact (Hcall (KConnect _)).
Qed.

Lemma quiescent_alloc cid cf skip now b :
  quiescent b → quiescent (alloc (new_details cid cf skip now) b).
Proof.
  intros [Hwf Hs]. split; [by apply wf_alloc|]. intros cid' l bd Hc. cbn. rewrite lookup_insert.
  case_decide; [by intros [= <-]|]. by eapply Hs.
Qed.

Lemma quiescent_add cid l b :
  at_bd l (λ bd, ClientIdentifier bd = cid ∧ shutdown bd = false) b → quiescent b →
  quiescent (set_connections (Add cid l (connections b)) b).
Proof.
  intros Hl [Hwf Hs]. split; [apply wf_add_connection; [|done]; by eapply at_bd_weaken; [|exact Hl]; intros bd []|].
  intros cid' l' bd. cbn. rewrite Get_Add. case_decide; [|by apply Hs]. intros [= <-] Hbd.
  destruct Hl as (bd' & Hbd' & _ & ?). congruence.
Qed.

(** [Connect] enters the client exactly when it returns no error. *)
Lemma Connect_run `{!Amqp.Returns E} ctx cf skip cid w :
  quiescent (st w) → ClientIds.GetClientIdentifier ctx (clientMap (st w)) = (cid, None) →
  ∃ r w', Connect ctx cf skip w = (Ret r, w') ∧
    dom (connections (st w')) =
      match r with None => {[cid]} ∪ dom (connections (st w)) | Some _ => dom (connections (st w)) end ∧
    clientMap (st w') = clientMap (st w) ∧ quiescent (st w').
Proof.
  intros Hq Hid. unfold Connect. rewrite reads_bind. cbn [id]. rewrite Hid.
  destruct (BrokerState.call_returns KNow w) as (now & e & _ & Hc). rewrite (bind_run _ _ _ _ _ Hc), writes_bind.
  cbn [st]. set (bd := new_details cid cf skip now). set (l := nextAddr (st w)).
  match goal with |- context [set_st ?b ?v] => set (w2 := set_st b v) end.
  assert (details (st w2) !! l = Some bd) as Hl by apply lookup_insert_eq.
  assert (connect l w2 = connect_locked l w2) as Heq.
  { unfold connect at 1. rewrite (bind_run _ _ _ _ _ (get_bd_run _ _ _ Hl)). change (clientDisconnect bd) with false. change (state bd =? Provider.CONNECTING) with false.
    cbv beta iota. by rewrite bind_ret_l. }
  destruct (attempt_connect_locked l l cid w2) as (Hco & Hcm & Hqu & Hat).
  specialize (Hqu (quiescent_alloc cid cf skip now (st w) Hq)).
  specialize (Hat ltac:(eexists; split; [exact Hl|done])).
  destruct (connect_run l bd w2 Hl eq_refl ltac:(done) ltac:(done)) as (conn & err & ? & ? & w3 & ? & _ & _ & _ & Hr).
  rewrite <- Heq in *. destruct (err : error) as [er|].
  - destruct Hr as [Hr _]. rewrite Hr in *. rewrite (bind_run _ _ _ _ _ Hr). eexists _, _. split; [done|].
    cbn in *. rewrite Hco. by split_and!.
  - destruct Hr as [Hr _]. rewrite Hr in *. rewrite (bind_run _ _ _ _ _ Hr); cbn [snd]; rewrite writes_bind. eexists _, _.
    split; [done|]. cbn in Hco, Hcm, Hqu, Hat. cbn [set_st st snd]. split_and!.
    + cbn. rewrite Hco. unfold Add. by rewrite dom_insert_L.
    + done.
    + by apply quiescent_add.
Qed.

Lemma disconnect_clientMap cid :
  keeps (λ b b', clientMap b' = clientMap b) (disconnectClientByIdentifier (E := E) cid).
Proof.
  set (R := λ b b' : broker, _).
  assert (Reflexive R) by done.
  assert (Transitive R) by (intros ? ? ? ? ?; unfold R in *; congruence).
  unfold disconnectClientByIdentifier, send_shutdown, close_connections, get_bd, upd_bd, BrokerState.call.
  keeps_solve; try done; exact (keeps_ext (I := Shim) R _).
Qed.

Lemma Disconnect_run `{!Amqp.Returns E} ctx cid w :
  quiescent (st w) → ClientIds.GetClientIdentifier ctx (clientMap (st w)) = (cid, None) →
  ∃ w', BrokerConnect.Disconnect ctx w = (Ret (), w') ∧
    dom (connections (st w')) = dom (connections (st w)) ∖ {[cid]} ∧
    clientMap (st w') = clientMap (st w) ∧ quiescent (st w').
Proof.
  intros [Hwf Hs] Hid. unfold BrokerConnect.Disconnect. rewrite reads_bind. cbn [id]. rewrite Hid.
  pose proof (disconnect_clientMap cid w) as Hcm.
  destruct (Get cid (connections (st w))) as [l|] eqn:Hc.
  - destruct (wf_conn _ Hwf _ _ Hc) as (bd & Hl & _).
    destruct (disconnect_run cid l bd w Hc Hl (Hs _ _ _ Hc Hl)) as (w' & lg & Hw' & _ & Hd & Hco & Hn & _).
    rewrite Hw' in *. cbn [snd] in Hcm. exists w'. split; [done|]. split; [by rewrite Hco; apply dom_delete_L|].
    split; [done|]. split; [by eapply wf_gone|]. intros cid' l' bd'. rewrite Hco, Get_Delete.
    case_decide as Hne; [done|]. intros Hc'. rewrite Hd. destruct (decide (l = l')) as [<-|Hll].
    + by destruct Hne; eapply wf_inj.
    + rewrite lookup_insert_ne by done. by eapply Hs.
  - exists w. unfold disconnectClientByIdentifier. rewrite reads_bind. cbn [id]. rewrite Hc.
    split; [done|]. split; [|done]. symmetry. apply difference_disjoint_L, disjoint_singleton_r.
    by apply not_elem_of_dom.
Qed.

Lemma quiescent_clientMap m b : quiescent b → quiescent (with_clientMap m b).
Proof. intros [[Hf Hc Hs] Hq]. by split; [split|]. Qed.

(** The clients are those of the table of connections; the provider is well
    when it is well formed and nobody it holds has been told to go. *)
#[global] Instance amqp_roster `{!Amqp.Returns E} `{!Effects.Returns Srv X} (p : nat) :
  Roster p (process E X).
Proof.
  refine {| roster e := dom (connections (st (provider e))); healthy e := quiescent (st (provider e)) |}.
  - done.
  - done.
  - intros m e. apply quiescent_clientMap.
  - intros cid e Hq. exists e. split; [|done]. unfold answer, amqp_srv, ClientExists. f_equal. f_equal.
    apply bool_decide_ext. symmetry. apply elem_of_dom.
  - intros ctx cf skip cid e Hq Hid.
    destruct (Connect_run ctx cf skip cid (provider e) Hq Hid) as (r & w' & Hr & Hd & Hcm & Hq').
    exists r, {| provider := w'; elsewhere := elsewhere e |}. split; [|by split_and!].
    unfold answer, amqp_srv, on_provider. by rewrite Hr.
  - intros ctx cid e Hq Hid.
    destruct (Disconnect_run ctx cid (provider e) Hq Hid) as (w' & Hr & Hd & Hcm & Hq').
    exists {| provider := w'; elsewhere := elsewhere e |}. split; [|by split_and!].
    unfold answer, amqp_srv, on_provider. by rewrite Hr.
  - intros c e Hq Hc. destruct (returns (I := Srv) c (elsewhere e)) as (r & x & Hx).
    exists r, {| provider := provider e; elsewhere := x |}. split; [|by split_and!].
    destruct Hc as [[k ->]|(a & b & ->)]; unfold answer, amqp_srv, ask_elsewhere; by rewrite Hx.
Defined.

(** ** Properties *)

Implicit Types s : world Srv (process E X) server.

(** The clients the provider has connections for, and those the server knows. *)
Definition held s : gset string := dom (connections (st (provider (env s)))).
Definition clients s : gset string := dom (connectionMap (st s)).

(** C34: The server on top of the AMQP provider: whatever clients connect,
    disconnect and are trimmed, whatever brokers answer the provider, every
    operation returns, and the provider never keeps a connection open for a
    client that the server does not know; the provider's own tables stay well
    formed. *)
Theorem no_orphan_connections `{!Amqp.Returns E} `{!Effects.Returns Srv X} p os s :
  quiescent (st (provider (env s))) →
  (∀ cid cf, Get cid (connectionMap (st s)) = Some cf → provides (ProviderName cf) p (st s)) →
  Forall (λ o, op_ok (p := p) o s) os → held s ⊆ clients s →
  ∃ rs s', apply_ops os s = (Ret rs, s') ∧ quiescent (st (provider (env s'))) ∧ held s' ⊆ clients s'.
Proof.
  intros Hq Hk Hok Hno. assert (served (p := p) s) as Hs by (split; [exact Hq|exact Hk]).
  destruct (ops_refine (p := p) os s Hs Hok Hno) as (rs & s' & Hs' & [Hq' _] & Hno').
  by exists rs, s'.
Qed.

Lemma on_provider_ret {A} (m : bprog E A) (e : process E X) r w :
  m (provider e) = (Ret r, w) → on_provider m e = (Ret r, {| provider := w; elsewhere := elsewhere e |}).
Proof. intros Hm. unfold on_provider. by rewrite Hm. Qed.

(** What the client is told when the broker's library answers an acknowledgement:
    nothing if that never returns. *)
Definition ack_verdict (o : outcome error) : option (bool * option Error) :=
  match o with
  | Ret None => Some (true, None)
  | Ret (Some err) => Some (false, Some (mkError err))
  | Panic _ => Some (true, None)
  | Block => None
  end.

Definition ack_response (a : MessageConsumed) (v : bool * option Error) : ConsumeResponse :=
  ConsumeResponse_ConsumedResponse {| ConsumedUuid := AckUuid a; ConsumedSuccess := v.1; ConsumedError := v.2 |}.

(** [Ack], whatever the library does. *)
Lemma Ack_outcome ctx id l bd m w o e :
  client_at ctx l (st w) → details (st w) !! l = Some bd → Get id (activeMessages bd) = Some (BrokerState.ActAmqp m) →
  answer (I := Shim) (KAck m) (env w) = (o, e) →
  BrokerAck.Ack ctx id w =
    (match ack_verdict o with Some v => Ret v.2 | None => Block end,
     {| st := if is_ret o then set_details (<[l := delete_active id bd]> (details (st w))) (st w) else st w;
        env := e; log := log w ++ [ev (KAck m) o] |}).
Proof.
  intros Hc Hl Hid Ha. destruct o as [err|why|].
  - rewrite (BrokerAck.Ack_run ctx id l bd m w err e Hc Hl Hid Ha). by destruct err.
  - unfold BrokerAck.Ack, recover. rewrite (with_details_some _ _ _ _ Hc). prog_unfold.
    by rewrite (get_bd_run _ _ _ Hl), Hid, call_run, Ha.
  - unfold BrokerAck.Ack, recover. rewrite (with_details_some _ _ _ _ Hc). prog_unfold.
    by rewrite (get_bd_run _ _ _ Hl), Hid, call_run, Ha.
Qed.

(** C35: An acknowledgement all the way, whatever the library of the broker does
    with it: a client acknowledges a delivery that its connection still holds,
    and nothing interferes. The provider passes exactly this delivery to the
    broker, in one call. If that call returns, the delivery is forgotten, and the
    client is answered with a success if there was no error, and with the error
    otherwise; if it panics, the client is answered with a success although the
    delivery is still held, as the panic is swallowed; if it never returns, the
    client is not answered. There is no other answer. *)
Theorem ack_reaches_broker `{RX : !Effects.Returns Srv X} p ctx source a l bd m o e s :
  AckNack a = false → AckUuid a ≠ "" →
  client_at ctx l (st (provider (env s))) → details (st (provider (env s))) !! l = Some bd →
  Get (AckUuid a) (activeMessages bd) = Some (BrokerState.ActAmqp m) →
  answer (I := Shim) (KAck m) (env (provider (env s))) = (o, e) →
  let w' := run_state (Consume.ack_message p ctx source a) s in
  log (provider (env w')) = log (provider (env s)) ++ [ev (KAck m) o] ∧
  at_bd l (λ bd', activeMessages bd' = if is_ret o then Delete (AckUuid a) (activeMessages bd) else activeMessages bd)
    (st (provider (env w'))) ∧
  match ack_verdict o with
  | Some v => run_result (Consume.ack_message p ctx source a) s = Ret source ∧
      ∃ sent, log w' = log s ++ [sev (PAck p ctx (AckUuid a)) (Ret v.2);
                                 sev (SSendConsume (ack_response a v)) (Ret sent)]
  | None => run_result (Consume.ack_message p ctx source a) s = Block ∧
      log w' = log s ++ [sev (PAck p ctx (AckUuid a)) Block]
  end.
Proof.
  intros Hn Hu Hc Hl Hg Ha. unfold run_state, run_result.
  pose proof (Ack_outcome ctx (AckUuid a) l bd m (provider (env s)) o e Hc Hl Hg Ha) as Hack.
  set (w1 := {| st := _ |}) in Hack.
  assert (at_bd l (λ bd', activeMessages bd' = if is_ret o then Delete (AckUuid a) (activeMessages bd) else activeMessages bd)
    (st w1)) as Hat.
  { unfold w1. cbn [st]. destruct (is_ret o); [|by exists bd].
    eexists. split; [apply lookup_insert_eq|]. by destruct bd. }
  unfold Consume.ack_message, Consume.settle. rewrite (proj2 (String.eqb_neq _ _) Hu), Hn. cbn [andb]. rewrite bind_assoc.
  assert (answer (I := Srv) (PAck p ctx (AckUuid a)) (env s) =
    (match ack_verdict o with Some v => Ret v.2 | None => Block end,
     {| provider := w1; elsewhere := elsewhere (env s) |})) as Hans
    by (unfold answer, amqp_srv, on_provider; by rewrite Hack).
  destruct (ack_verdict o) as [v|] eqn:Hv.
  2:{ unfold mbind, prog_bind. by rewrite srv_call_run, Hans. }
  erewrite bind_run by (rewrite srv_call_run, Hans; done). rewrite bind_ret_l.
  set (s1 := {| st := st s |}).
  assert (Consume.consumed_response a v.2 = ack_response a v) as ->
    by (destruct o as [[]| |]; simplify_eq/=; done).
  destruct (RX (SSendConsume (ack_response a v)) (elsewhere (env s))) as (sent & x & Hs).
  assert (answer (I := Srv) (SSendConsume (ack_response a v)) (env s1) =
    (Ret sent, {| provider := w1; elsewhere := x |})) as Hans2
    by (change (ask_elsewhere (SSendConsume (ack_response a v)) (env s1) = (Ret sent, {| provider := w1; elsewhere := x |}));
        unfold ask_elsewhere; cbn [env s1 elsewhere provider snd]; by rewrite Hs).
  erewrite bind_run by (rewrite srv_call_run, Hans2; done).
  cbn [fst snd mret prog_ret env provider log s1]. split; [done|]. split; [done|]. split; [done|].
  exists sent. by rewrite <- app_assoc.
Qed.

(** A client that asks for a retry on a stream where it has not subscribed
    panics the handler: there is no source to rename. Nothing recovers in the
    goroutine of an acknowledgement, so that the server dies. *)
Lemma retry_without_source p ctx a l s :
  AckNack a = true → 0 < RequeueDelay a → AckUuid a ≠ "" →
  client_at ctx l (st (provider (env s))) →
  ∃ why, fst (Consume.ack_message p ctx None a s) = Panic why.
Proof.
  intros Hn Hd Hu Hc. unfold Consume.ack_message, Consume.settle.
  rewrite (proj2 (String.eqb_neq _ _) Hu), Hn, (proj2 (Z.ltb_lt _ _) Hd). cbn [andb].
  assert (BrokerAck.Retry ctx None (AckUuid a) (RequeueDelay a) (provider (env s)) =
    (Panic "invalid memory address or nil pointer dereference", provider (env s))) as Hr.
  { unfold BrokerAck.Retry. by rewrite (bind_run _ _ _ _ _ (getBrokerDetails_run _ _ _ Hc)). }
  eexists. rewrite bind_assoc. erewrite bind_stuck; [done|]. rewrite srv_call_run.
  unfold answer, amqp_srv, on_provider at 1. rewrite Hr. done.
Qed.

End roster.

(** ** Witnesses *)

#[local] Instance demo_json : Json := {| Unmarshal _ := ([], None) |}.
#[local] Instance demo_select : Select := true.
#[local] Instance no_stats : StatsJson := {|
  UnmarshalObject _ := (None, None); UnmarshalMetrics _ := (zero_metrics, None); oob _ _ := 0 |}.
#[local] Instance nobody : Others nat := alone.

(** A server that knows [known], with one client at the provider. *)
Definition demo_process (known : gmap string ConnectionConfiguration) (act : gmap string active) :
    world Srv (process nat memory) server := {|
  st := demo_server known;
  env := {| provider := BrokerState.demo_world act; elsewhere := (∅, ∅) |};
  log := [] |}.

Lemma demo_quiescent act : quiescent (demo_broker act).
Proof.
  assert (∀ l bd, details (demo_broker act) !! l = Some bd → l = 0%nat ∧ bd = demo_details act) as Hd.
  { intros l bd. cbn. rewrite lookup_singleton_Some. by intros [<- <-]. }
  split; [split|].
  - intros l bd [-> _]%Hd. cbn. lia.
  - intros cid l Hc. unfold Get in Hc. cbn in Hc. apply lookup_singleton_Some in Hc as [<- <-]. by eexists.
  - intros l bd [_ ->]%Hd. right. by left.
  - by intros cid l bd _ [_ ->]%Hd.
Qed.

(** The client goes and comes back. *)
Lemma no_orphan_connections_witness (MR := default_range) (O := ok_shim) (OS := ok_srv)
    (s := demo_process {[ "c-1" := Server.demo_config ]} ∅)
    (os := [OpDisconnect Server.demo_peer; OpConnect Server.demo_peer Server.demo_config false]) :
  ∃ rs s', apply_ops os s = (Ret rs, s') ∧ held s' ⊆ clients s'.
Proof.
  destruct (no_orphan_connections (H5 := ok_returns) (H6 := ok_srv_returns) 0 os s)
    as (rs & s' & Hs' & _ & Hno).
  - apply demo_quiescent.
  - intros cid cf Hc. unfold Get in Hc. cbn in Hc. by apply lookup_singleton_Some in Hc as [<- <-].
  - repeat constructor.
  - vm_compute held. vm_compute clients. done.
  - exists rs, s'. split; [exact Hs'|exact Hno].
Defined.

Lemma ack_reaches_broker_witness (MR := default_range) (O := ok_shim) (OS := ok_srv)
    (s := demo_process {[ "c-1" := Server.demo_config ]} BrokerAck.demo_active)
    (a := {| AckUuid := "m1"; AckNack := false; RequeueDelay := 0 |}) :
  let w' := run_state (Consume.ack_message 0 Server.demo_peer None a) s in
  log (provider (env w')) = [ev (KAck BrokerAck.demo_message) (Ret None)] ∧
  ∃ sent, log w' = [sev (PAck 0 Server.demo_peer "m1") (Ret None);
                    sev (SSendConsume (ack_response a (true, None))) (Ret sent)].
Proof.
  destruct (ack_reaches_broker (RX := ok_srv_returns) 0 Server.demo_peer None a 0
    (demo_details BrokerAck.demo_active) BrokerAck.demo_message (Ret None) 11%nat s eq_refl ltac:(done)
    (demo_client _) eq_refl eq_refl eq_refl) as (Hl & _ & _ & Hs).
  split; [exact Hl|exact Hs].
Defined.

End AmqpProvider.
