(* ===== verification/Requests.v ===== *)
(** * [internal/server/prometheus/interceptors.go], [internal/metrics/]: what is measured

    The two interceptors that every request passes, the wrapper that counts the
    messages of a stream, and the statistics of the clients that are collected
    when the metrics are read. The sink is a library: here it is the list of the
    samples it is given, oldest first. *)

From Stdlib Require Import Ascii String.
From stdpp Require Import base gmap strings list fin_maps option.
From Stdlib Require Import ZArith Lia SpecFloat.
From S2P Require Import Prelude Effects GoStrings ConcurrentMap Provider RateLimiter.

Module Requests.
Import RateLimiter.
Open Scope Z_scope.
Open Scope list_scope.

(** ** The names ([internal/metrics/metrics.go]) *)

Definition metricNamespace : string := "arke".
Definition metricClient : string := "client".
Definition metricTotal : string := "total".

Definition ClientActMessageGauge : list string := [metricNamespace; metricClient; "active"; "messages"].
Definition ClientStreamsGauge : list string := [metricNamespace; metricClient; "streams"].
Definition ClientConsumedGauge : list string := [metricNamespace; metricClient; "consumed"].
Definition ClientProducedGauge : list string := [metricNamespace; metricClient; "produced"].
Definition RequestElapsedSummary : list string := [metricNamespace; "request"; "elapsed"].
Definition RequestTotalCounter : list string := [metricNamespace; "request"; metricTotal].
Definition RecvMsgCounter : list string := [metricNamespace; "recvmsg"; metricTotal].
Definition SendMsgCounter : list string := [metricNamespace; "sendmsg"; metricTotal].

(** [LabelSet] *)
Definition LabelSet : Type := list (string * string).
Definition NewLabelSet : LabelSet := [].
Definition AddLabel (name value : string) (metl : LabelSet) : LabelSet := metl ++ [(name, value)].

(** ** The sink *)

Inductive sample_kind := SCounter | SSummary (v : spec_float) | SGauge (v : spec_float).
Record sample := { metric : list string; sampled : sample_kind; labels : LabelSet }.

(** The state of a request: the sink, and whatever the handler works on. *)
Record monitored (S : Type) := { sink : list sample; inner : S }.
Arguments Build_monitored {_}.
Arguments sink {_}.
Arguments inner {_}.

(** ** The names of the methods *)

Definition Producer_Disconnect_FullMethodName : string := "/arke.Producer/Disconnect".
Definition Producer_PublishOne_FullMethodName : string := "/arke.Producer/PublishOne".
Definition Consumer_Disconnect_FullMethodName : string := "/arke.Consumer/Disconnect".
Definition Consumer_SourceStats_FullMethodName : string := "/arke.Consumer/SourceStats".
Definition Healthz_Check_FullMethodName : string := "/arke.Healthz/Check".

Definition methodMap : list (string * string) := [
  (Producer_Publish_FullMethodName, "arke.Producer.Publish");
  (Producer_Connect_FullMethodName, "arke.Producer.Connect");
  (Producer_Disconnect_FullMethodName, "arke.Producer.Disconnect");
  (Producer_PublishOne_FullMethodName, "arke.Producer.PublishOne");
  (Consumer_Consume_FullMethodName, "arke.Consumer.Consume");
  (Consumer_Connect_FullMethodName, "arke.Consumer.Connect");
  (Consumer_Disconnect_FullMethodName, "arke.Consumer.Disconnect");
  (Consumer_SourceStats_FullMethodName, "arke.Consumer.SourceStats");
  (Healthz_Check_FullMethodName, "arke.Healthz.Check");
  ("/grpc.health.v1.Health/Check", "grpc.health.v1.Health.Check") ].

Fixpoint lookup_method (m : list (string * string)) (fullMethod : string) : option string :=
  match m with
  | [] => None
  | (k, v) :: rest => if String.eqb fullMethod k then Some v else lookup_method rest fullMethod
  end.

(** The manipulation of strings the table saves. *)
Definition dotted (fullMethod : string) : string := replace_all (trim_prefix "/" fullMethod) "/" ".".

Definition method_label (fullMethod : string) : string :=
  match lookup_method methodMap fullMethod with
  | Some label => label
  | None => dotted fullMethod
  end.

Section requests.
Context {S : Type}.

Abbreviation mprog := (prog (monitored S)).

Definition emit (s : sample) : mprog () := modify (λ w, {| sink := sink w ++ [s]; inner := inner w |}).
Definition IncrCounterWithLabels (key : list string) (l : LabelSet) : mprog () :=
  emit {| metric := key; sampled := SCounter; labels := l |}.
Definition AddSampleWithLabels (key : list string) (v : spec_float) (l : LabelSet) : mprog () :=
  emit {| metric := key; sampled := SSummary v; labels := l |}.
Definition SetGaugeWithLabels (key : list string) (v : spec_float) (l : LabelSet) : mprog () :=
  emit {| metric := key; sampled := SGauge v; labels := l |}.

Definition status_of (err : error) : string := match err with None => "ok" | Some _ => "error" end.

(** ** The interceptors *)

(** The handler runs for [elapsed] milliseconds. *)
Definition UnaryInterceptor {A} (fullMethod : string) (elapsed : spec_float) (handler : mprog (A * error)) :
    mprog (A * error) :=
  let labelset := AddLabel "method" (method_label fullMethod) NewLabelSet in
  r ← handler;
  let labelset := AddLabel "status" (status_of (snd r)) labelset in
  AddSampleWithLabels RequestElapsedSummary elapsed labelset;;
  IncrCounterWithLabels RequestTotalCounter labelset;;
  mret r.

(** The wrapped stream counts what passes it. *)
Definition RecvMsg (method : string) (recv : mprog error) : mprog error :=
  err ← recv;
  IncrCounterWithLabels RecvMsgCounter
    (AddLabel "status" (status_of err) (AddLabel "method" method NewLabelSet));;
  mret err.

Definition SendMsg (method : string) (send : mprog error) : mprog error :=
  err ← send;
  IncrCounterWithLabels SendMsgCounter
    (AddLabel "status" (status_of err) (AddLabel "method" method NewLabelSet));;
  mret err.

(** The handler is given the wrapped stream, so that it is a program that
    counts. *)
Definition StreamInterceptor (fullMethod : string) (elapsed : spec_float) (handler : string → mprog error) :
    mprog error :=
  let fullMethod := dotted fullMethod in
  let labelset := AddLabel "method" fullMethod NewLabelSet in
  IncrCounterWithLabels RequestTotalCounter labelset;;
  err ← handler fullMethod;
  let labelset := AddLabel "status" (status_of err) labelset in
  AddSampleWithLabels RequestElapsedSummary elapsed labelset;;
  IncrCounterWithLabels RequestTotalCounter labelset;;
  mret err.

(** ** The statistics of the clients *)

(** [float32(z)] *)
Definition gauge (z : Z) : spec_float := binary_normalize 24 128 z 0 false.

Definition gather_client (client : Provider.ClientStats) : mprog () :=
  let labelset := AddLabel "ClientIdentifier" (replace_all (Provider.ID client) "." "-") NewLabelSet in
  SetGaugeWithLabels ClientActMessageGauge (gauge (Provider.ActiveMessages client)) labelset;;
  SetGaugeWithLabels ClientStreamsGauge (gauge (Provider.Streams client)) labelset;;
  SetGaugeWithLabels ClientConsumedGauge (gauge (Provider.Consumed client)) labelset;;
  SetGaugeWithLabels ClientProducedGauge (gauge (Provider.Produced client)) labelset.

(** [stats_of] is the provider's [Stats]. *)
Definition gatherClientStats {P} `{MapRange} (providers : gmap string P) (stats_of : P → Provider.Stats) :
    mprog () :=
  for_each (ConcurrentMap.GetList providers) (λ providerName,
    match ConcurrentMap.Get providerName providers with
    | Some prov => for_each (Provider.Clients (stats_of prov)) gather_client
    | None => mret ()
    end).

End requests.

(** ** The endpoint of the metrics *)

(** What is registered: two collectors of the library, and a collector for every
    metric under its name. *)
Inductive collector := BuildInfo | GoRuntime | Gauge (name : string) | Summary (name : string) | Counter (name : string).

Definition newArkeGauge (parts : list string) : collector := Gauge (join "_" parts).
Definition newArkeSample (parts : list string) : collector := Summary (join "_" parts).
Definition newArkeCounter (parts : list string) : collector := Counter (join "_" parts).

Definition registry : list collector :=
  [BuildInfo; GoRuntime;
   newArkeGauge ClientActMessageGauge; newArkeGauge ClientStreamsGauge;
   newArkeGauge ClientConsumedGauge; newArkeGauge ClientProducedGauge;
   newArkeSample RequestElapsedSummary; newArkeCounter RequestTotalCounter;
   newArkeCounter RecvMsgCounter; newArkeCounter SendMsgCounter].

Definition EnvPprofEnabled : string := "ARKE_PPROF_ENABLED".

Definition pprofEnabled (Getenv : string → string) : bool :=
  match parse_bool (Getenv EnvPprofEnabled) with Some enabled => enabled | None => false end.

(** A handler: the metrics, after the statistics of the clients have been
    gathered, or one of the profiler. *)
Inductive handler := GatherAndServe | PprofIndex | PprofCmdline | PprofProfile | PprofSymbol | PprofTrace.

Definition setupServer (Getenv : string → string) : list (string * handler) :=
  ("/metrics", GatherAndServe) ::
  (if pprofEnabled Getenv then
     [("/debug/pprof/", PprofIndex); ("/debug/pprof/cmdline", PprofCmdline); ("/debug/pprof/profile", PprofProfile);
      ("/debug/pprof/symbol", PprofSymbol); ("/debug/pprof/trace", PprofTrace)]
   else []).

(** ** Properties *)

Definition collector_name (c : collector) : option string :=
  match c with BuildInfo | GoRuntime => None | Gauge n | Summary n | Counter n => Some n end.

(** No name is registered twice, which would end the program. *)
Lemma registered_once : NoDup (omap collector_name registry).
Proof. apply (bool_decide_unpack _). by vm_compute. Qed.

(** The profiler is only served when the variable is a word for true. *)
Lemma pprof_off Getenv : parse_bool (Getenv EnvPprofEnabled) ≠ Some true → setupServer Getenv = [("/metrics", GatherAndServe)].
Proof. unfold setupServer, pprofEnabled. by destruct (parse_bool _) as [[]|]. Qed.

(** The table of method names is the manipulation of strings it saves: for
    every method, listed or not, the label is the path of the method without
    its leading slash and with dots for slashes, so that the unary and the stream
    interceptor label a method alike. *)
Theorem method_label_is_path fullMethod : method_label fullMethod = dotted fullMethod.
Proof.
  unfold method_label, methodMap. cbn [lookup_method].
  repeat match goal with
  | |- context [String.eqb fullMethod ?k] =>
      destruct (String.eqb_spec fullMethod k) as [->|_]; [vm_compute; reflexivity|]
  end.
  done.
Qed.

(** The samples of the counter of requests. *)
Definition is_request (s : sample) : bool := bool_decide (metric s = RequestTotalCounter).
Definition requests {S} (w : monitored S) : Z := count_if is_request (sink w).

(** The program only adds samples, and none of a request. *)
Definition counts_none {S A} (m : prog (monitored S) A) : Prop :=
  ∀ w, ∃ l, sink (snd (m w)) = sink w ++ l ∧ count_if is_request l = 0.

Lemma requests_incr {S} l (w : monitored S) :
  requests (snd (IncrCounterWithLabels RequestTotalCounter l w)) = requests w + 1.
Proof.
  unfold requests. cbn [IncrCounterWithLabels emit modify snd sink].
  by rewrite count_if_app, count_if_cons, count_if_nil.
Qed.

Lemma requests_sample {S} e l (w : monitored S) :
  requests (snd (AddSampleWithLabels RequestElapsedSummary e l w)) = requests w.
Proof.
  unfold requests. cbn [AddSampleWithLabels emit modify snd sink].
  rewrite count_if_app, count_if_cons, count_if_nil. change (is_request _) with false. cbn [b2z]. lia.
Qed.

Lemma requests_none {S A} (m : prog (monitored S) A) w : counts_none m → requests (snd (m w)) = requests w.
Proof. intros Hm. destruct (Hm w) as (l & Hl & Hc). unfold requests. rewrite Hl, count_if_app. lia. Qed.

(** What both interceptors do after the handler. *)
Lemma requests_after {S} e l (w : monitored S) :
  let w' := snd (IncrCounterWithLabels RequestTotalCounter l
                  (snd (AddSampleWithLabels RequestElapsedSummary e l w))) in
  requests w' = requests w + 1 ∧ ∃ more, sink w' = sink w ++ more.
Proof.
  intros w'. split; [subst w'; by rewrite requests_incr, requests_sample|].
  eexists. subst w'. cbn. by rewrite <- app_assoc.
Qed.

(** What is counted of a handler that returns, and counts no request
    itself: a unary call is counted once, and a stream twice, when it starts and
    again when it ends, the first time without a status. *)
Theorem requests_counted {S A} fullMethod elapsed (unary : prog (monitored S) (A * error))
    (stream : string → prog (monitored S) error) (w : monitored S) :
  counts_none unary → (∀ m, counts_none (stream m)) →
  (∀ r w', UnaryInterceptor fullMethod elapsed unary w = (Ret r, w') → requests w' = requests w + 1) ∧
  (∀ r w', StreamInterceptor fullMethod elapsed stream w = (Ret r, w') → requests w' = requests w + 2 ∧
     ∃ s, sink w' !! length (sink w) = Some s ∧ metric s = RequestTotalCounter ∧
          labels s = [("method", dotted fullMethod)]).
Proof.
  intros Hu Hs. split; intros r w'.
  - unfold UnaryInterceptor, mbind, prog_bind. pose proof (requests_none unary w Hu) as Hr.
    destruct (unary w) as [[[a err]|why|] w1]; [|done..]. intros [= _ <-]. cbn [snd] in Hr. rewrite <- Hr.
    apply (requests_after elapsed _ w1).
  - unfold StreamInterceptor, mbind, prog_bind.
    set (l := AddLabel "method" _ _). set (w1 := snd (IncrCounterWithLabels RequestTotalCounter l w)).
    change (IncrCounterWithLabels RequestTotalCounter l w) with (Ret (), w1). cbv beta iota.
    pose proof (requests_none _ w1 (Hs (dotted fullMethod))) as Hr.
    destruct (Hs (dotted fullMethod) w1) as (l2 & Hl2 & _).
    destruct (stream (dotted fullMethod) w1) as [[err|why|] w2]; [|done..]. cbn [snd] in *. intros [= _ <-].
    destruct (requests_after elapsed (AddLabel "status" (status_of err) l) w2) as (Ha & more & Hm).
    split; [etrans; [exact Ha|]; rewrite Hr; unfold w1; rewrite requests_incr; lia|].
    set (s := {| metric := RequestTotalCounter; sampled := SCounter; labels := l |}). exists s. split; [|done].
    enough ((sink w2 ++ more) !! length (sink w) = Some s) as He by (rewrite <- Hm in He; exact He).
    rewrite Hl2. unfold w1. cbn [IncrCounterWithLabels emit modify snd sink].
    rewrite <- !app_assoc. by apply list_lookup_middle.
Qed.

(** A handler that receives one message of a stream. *)
Lemma requests_counted_witness :
  let stream := λ m, RecvMsg (S := ()) m (mret None) in
  let '(o, w) := StreamInterceptor "/arke.Producer/Publish" (S754_zero false) stream
                   {| sink := []; inner := () |} in
  o = Ret None ∧ requests w = 2.
Proof.
  pose proof (requests_counted "/arke.Producer/Publish" (S754_zero false) (mret ((), None))
    (λ m, RecvMsg (S := ()) m (mret None)) {| sink := []; inner := () |}) as [_ Hs].
  - intros w. exists []. by rewrite app_nil_r.
  - intros m w. eexists [_]. by split.
  - split; [reflexivity|]. exact (proj1 (Hs None _ eq_refl)).
Defined.

End Requests.
