(* ===== verification/Flags.v ===== *)
(** * The flags of a command line

    [FlagSet.Parse] of the language's library, as the two programs that parse
    flags use it ([cmd/serve.go], [i18n/oslocale.go]): which flags are set, and
    how parsing ends. *)

From Stdlib Require Import Ascii String.
From stdpp Require Import base gmap strings list fin_maps option.
From Stdlib Require Import ZArith Lia.
From S2P Require Import Prelude GoStrings.

Module Flags.
Open Scope list_scope.

(** The name and the value of a flag that is written [-name=value]. *)
Definition flag_parts (name : string) : string * option string :=
  match name with
  | EmptyString => (name, None)
  | String a rest =>
      match cut_byte "=" rest with
      | Some (n, v) => (String a n, Some v)
      | None => (name, None)
      end
  end.

(** What an argument is: the end of the flags, a syntax error, or a flag. *)
Definition flag_of (s : string) : option (string + ()) :=
  match s with
  | String "-" (String "-" EmptyString) => None
  | String "-" (String "-" name) =>
      if String.eqb name "" || has_prefix "-" name || has_prefix "=" name then Some (inr ()) else Some (inl name)
  | String "-" EmptyString => None
  | String "-" name => if has_prefix "=" name then Some (inr ()) else Some (inl name)
  | _ => None
  end.

(** How parsing ends: without an error, with one, or because help is asked for,
    by a flag that is not defined otherwise. *)
Inductive parsed := Parsed | Failed | Help.
#[export] Instance parsed_eq_dec : EqDecision parsed.
Proof. solve_decision. Defined.

(** The flags that are set, in order, and how parsing ends. A boolean flag takes
    no argument of its own. *)
Fixpoint parse_flags (fuel : nat) (strings bools : list string) (args : list string) : list (string * string) * parsed :=
  match fuel, args with
  | S fuel, s :: rest =>
      match flag_of s with
      | None => ([], Parsed)
      | Some (inr _) => ([], Failed)
      | Some (inl name) =>
          let '(n, v) := flag_parts name in
          if existsb (String.eqb n) bools then
            let b := default "true" v in
            match parse_bool b with
            | Some _ => let '(l, ok) := parse_flags fuel strings bools rest in ((n, b) :: l, ok)
            | None => ([], Failed)
            end
          else if existsb (String.eqb n) strings then
            match v, rest with
            | Some v, _ => let '(l, ok) := parse_flags fuel strings bools rest in ((n, v) :: l, ok)
            | None, v :: rest => let '(l, ok) := parse_flags fuel strings bools rest in ((n, v) :: l, ok)
            | None, [] => ([], Failed)
            end
          else if String.eqb n "help" || String.eqb n "h" then ([], Help)
          else ([], Failed)
      end
  | _, _ => ([], Parsed)
  end.

Definition parse_args (strings bools args : list string) : list (string * string) * parsed :=
  parse_flags (length args) strings bools args.

(** The value of a flag: what it was set to last. *)
Definition value (n dflt : string) (l : list (string * string)) : string :=
  List.last (filter (λ nv, nv.1 = n) l).*2 dflt.

End Flags.
