(* ===== verification/Tracing.v ===== *)
(** * What the process asks of its host, and [internal/util/tracing/tracing.go]

    The calls that starting the server makes: the environment, files, keys, the
    network, what is registered with the server and the goroutines it starts
    ([Os]); and whether the process is traced, and where to ([Tracing]). *)

From Stdlib Require Import Ascii String.
From stdpp Require Import base gmap strings list fin_maps option.
From Stdlib Require Import ZArith Lia.
From S2P Require Import Prelude Effects GoStrings.

Module Os.

Inductive exporter_kind := ToStdout | ToGrpc (endpoint : string).

(** What is registered with the grpc server. *)
Inductive service :=
  | ProducerServer (tlsSkipVerify : bool)
  | ConsumerServer (tlsSkipVerify : bool)
  | HealthzServer
  | HealthServer
  | Reflection.

(** The goroutines that serving starts. *)
Inductive routine :=
  | StopOnInterrupt
  | MonitorHPA (hpaName : string)
  | MonitorHealthChan
  | GrpcServe
  | MetricsServe
  | StartClientCull
  | MuxServe.

(** An error of serving, [*net.OpError] or another. *)
Inductive serve_error := NetOpError (s : string) | OtherError (s : string).

(** [OsServeEnds] waits until the context ends or the multiplexer has stopped.
    Files are created under their cleaned path. *)
Inductive os_call :=
  | OsGetenv (key : string)
  | OsNewExporter (k : exporter_kind)
  | OsShutdownTracer
  | OsListen (network address : string)
  | OsLoadX509KeyPair (certFile certKey : string)
  | OsRegister (s : service)
  | OsGo (r : routine)
  | OsServeEnds
  | OsMuxClose
  | OsCreate (path : string)
  | OsClose (path : string)
  | OsStartCPUProfile (path : string)
  | OsStopCPUProfile
  | OsWriteHeapProfile (path : string).

Definition os_reply (c : os_call) : Type :=
  match c with
  | OsGetenv _ => string
  | OsServeEnds => () + option serve_error
  | OsRegister _ | OsGo _ | OsMuxClose | OsClose _ | OsStopCPUProfile => ()
  | _ => error
  end.

Definition Os : Interface := {| icall := os_call; ireply := os_reply |}.

(** The state is [tracingEnabled], the variable of the package. *)
Abbreviation os_world E := (Effects.world Os E bool).

Section os.
Context {E : Type} `{Oracle Os E}.
Abbreviation oprog := (prog (os_world E)).

Definition os (c : os_call) : oprog (os_reply c) := ext (I := Os) c.

(** A host that answers every call, and the same call always in the same way. *)
Class Steady (f : ∀ c, os_reply c) := steady : ∀ c e, answer (I := Os) c e = (Ret (f c), e).

(** [gives m x]: on such a host [m] always returns [x]. *)
Definition gives {A} (m : oprog A) (x : A) : Prop := ∀ w, ∃ w', m w = (Ret x, w').

Section gives.
Context `{!Steady f}.

Lemma gives_os c : gives (os c) (f c).
Proof. intros w. unfold os, ext. rewrite steady. by eexists. Qed.

Lemma gives_unit (m : oprog ()) x : gives m x → gives m ().
Proof. by destruct x. Qed.

Lemma gives_ret {A} (x : A) : gives (mret x) x.
Proof. intros w. by eexists. Qed.

Lemma gives_writes g : gives (writes g) ().
Proof. intros w. by eexists. Qed.

Lemma gives_bind {A B} (m : oprog A) (k : A → oprog B) x y : gives m x → gives (k x) y → gives (m ≫= k) y.
Proof.
  intros Hm Hk w. destruct (Hm w) as [w1 Hw]. destruct (Hk w1) as [w2 Hw2]. exists w2.
  unfold mbind, prog_bind. by rewrite Hw.
Qed.

Lemma gives_for_each {A} (l : list A) body : (∀ x, gives (body x) ()) → gives (for_each l body) ().
Proof.
  intros Hb. induction l as [|x l IH]; cbn; [apply gives_ret|]. by apply (gives_bind _ _ ()); [apply Hb|].
Qed.

Lemma gives_defer {A} (m : oprog A) d x : gives m x → gives d () → gives (defer m d) x.
Proof.
  intros Hm Hd w. destruct (Hm w) as [w1 Hw]. destruct (Hd w1) as [w2 Hw2]. exists w2.
  unfold defer. by rewrite Hw, Hw2.
Qed.

End gives.
End os.

(** One step of a program on a steady host. *)
Ltac gives_call :=
  match goal with
  | |- gives ?m _ =>
      match m with
      | os ?c => first [exact (gives_os c) | exact (gives_unit _ _ (gives_os c))]
      | mret _ => apply gives_ret
      | writes _ => apply gives_writes
      end
  end.
Ltac gives_step := cbn beta iota; first [gives_call | eapply gives_bind; [gives_call|cbn beta iota]].

End Os.

Module Tracing.
Import Os.

Definition EnvOtelSdkDisabled : string := "OTEL_SDK_DISABLED".
Definition EnvTelemetryExporter : string := "ARKE_TELEMETRY_EXPORTER".
Definition EnvOtelExporterOtlpEndpoint : string := "OTEL_EXPORTER_OTLP_ENDPOINT".

(** Tracing is on unless the variable is a word for true. *)
Definition telemetry_enabled (e : string) : bool :=
  if String.eqb e "" then true
  else match parse_bool e with Some disabled => negb disabled | None => true end.

Section tracing.
Context {E : Type} `{Oracle Os E}.
Abbreviation oprog := (prog (os_world E)).

Definition getTelemetryCollectorAddress : oprog string :=
  addr ← os (OsGetenv EnvOtelExporterOtlpEndpoint);
  mret (if String.eqb addr "" then "localhost:4317"%string else addr).

Definition getTelemetryEnabled : oprog bool :=
  e ← os (OsGetenv EnvOtelSdkDisabled);
  writes (λ _, telemetry_enabled e);;
  mret (telemetry_enabled e).

Definition Enabled : oprog bool := reads (λ b, b).

(** Whether there is a provider, and an error. *)
Definition InitTracerProvider : oprog (bool * error) :=
  enabled ← getTelemetryEnabled;
  if (enabled : bool) then
    kind ← os (OsGetenv EnvTelemetryExporter);
    err ← (if String.eqb kind "stdout" then os (OsNewExporter ToStdout)
           else
             otelAddr ← getTelemetryCollectorAddress;
             os (OsNewExporter (ToGrpc otelAddr)));
    match (err : error) with
    | Some e => mret (false, Some e)
    | None => mret (true, None)
    end
  else mret (false, None).

(** ** Properties *)

(** A server whose environment says nothing about tracing is traced. *)
Lemma traced_by_default : telemetry_enabled "" = true.
Proof. done. Qed.

Section steady.
Context `{!Steady f}.

(** The exporter the environment asks for. *)
Definition exporter : exporter_kind :=
  if String.eqb (f (OsGetenv EnvTelemetryExporter)) "stdout" then ToStdout
  else ToGrpc (if String.eqb (f (OsGetenv EnvOtelExporterOtlpEndpoint)) "" then "localhost:4317"%string
               else f (OsGetenv EnvOtelExporterOtlpEndpoint)).

Definition traced : bool := telemetry_enabled (f (OsGetenv EnvOtelSdkDisabled)).

(** What comes out. *)
Lemma init_tracer_gives :
  gives InitTracerProvider
    (if traced then (match f (OsNewExporter exporter) with None => true | Some _ => false end,
                     f (OsNewExporter exporter))
     else (false, None)).
Proof.
  unfold InitTracerProvider. eapply gives_bind.
  { unfold getTelemetryEnabled. do 3 gives_step. }
  fold traced. destruct traced; [|gives_step]. gives_step. unfold exporter.
  destruct (String.eqb _ "stdout").
  - gives_step. destruct (f (OsNewExporter _)); gives_step.
  - eapply gives_bind; [eapply gives_bind; [unfold getTelemetryCollectorAddress; do 2 gives_step|gives_step]|].
    destruct (f (OsNewExporter _)); gives_step.
Qed.

End steady.
End tracing.
End Tracing.
