(* ===== verification/ArkeServer.v ===== *)
(** * [pkg/arke/arke.go], [cmd/serve.go]: putting a server together

    The configuration of a server, from the environment to the listener: the
    builder, the parameters of the rate limiter, and how serving ends. The
    network, the key files and the environment are asked through [Os]. *)

From Stdlib Require Import Ascii String.
From stdpp Require Import base gmap strings list fin_maps option.
From Stdlib Require Import ZArith Lia.
From S2P Require Import Prelude Effects GoStrings ConcurrentMap ClientIds RateLimiter Tracing Flags.

Module ArkeServer.
Import RateLimiter Os.
Open Scope Z_scope.
Open Scope list_scope.

(** ** The parameters of the rate limiter *)

Definition Second : Z := 1000000000.

Record RateLimitParameters := {
  BucketSize : Z;
  RefillInterval : Z;      (* in nanoseconds, as the next *)
  MaxAgeStaleClient : Z;
  Enforced : bool
}.

Definition InvalidRateParameters : string := "arke-log-icu.warn.invalidRateParameters.log".

(** A product of durations wraps like any [int64]. *)
Definition GetRateLimitParameters (bucketSize refillIntervalSec maxAgeStaleClientSec enforced : string) :
    option RateLimitParameters * error :=
  match atoi bucketSize, atoi maxAgeStaleClientSec, atoi refillIntervalSec with
  | Some bs, Some maxAge, Some refill =>
      (Some {| BucketSize := bs; RefillInterval := int64 (refill * Second);
               MaxAgeStaleClient := int64 (maxAge * Second); Enforced := String.eqb enforced "true" |}, None)
  | _, _, _ => (None, Some InvalidRateParameters)
  end.

(** ** The builder *)

(** What a request passes on its way to the handler; a custom interceptor is a
    number. [IRateLimit] stands behind the selector [RateLimiter.LimitMethods],
    so that the other methods pass it untouched. *)
Inductive interceptor := IPrometheus | IRateLimit | ICustom (n : nat).

Inductive server_option :=
  | KeepaliveEnforcementPolicy (minTime : Z) (permitWithoutStream : bool)
  | KeepaliveParams (time timeout maxConnectionIdle : Z)
  | ChainUnaryInterceptor (l : list interceptor)
  | ChainStreamInterceptor (l : list interceptor).

Section arke.
Context `{TB : TokenBucket}.

Record Arke := mkArke {
  port : Z;
  certFile : string;
  certKey : string;
  hpaName : string;
  server : option (list server_option);
  tlsSkipVerify : bool;
  serverOptions : list server_option;
  tracerProvider : bool;
  ratelimiter : option ClientLimitManager;
  chainUnary : list interceptor;
  chainStream : list interceptor
}.

Definition set_port v a : Arke := let 'mkArke _ c d e f g h i j k l := a in mkArke v c d e f g h i j k l.
Definition set_certFile v a : Arke := let 'mkArke b _ d e f g h i j k l := a in mkArke b v d e f g h i j k l.
Definition set_certKey v a : Arke := let 'mkArke b c _ e f g h i j k l := a in mkArke b c v e f g h i j k l.
Definition set_hpaName v a : Arke := let 'mkArke b c d _ f g h i j k l := a in mkArke b c d v f g h i j k l.
Definition set_server v a : Arke := let 'mkArke b c d e _ g h i j k l := a in mkArke b c d e v g h i j k l.
Definition set_tlsSkipVerify v a : Arke := let 'mkArke b c d e f _ h i j k l := a in mkArke b c d e f v h i j k l.
Definition set_serverOptions v a : Arke := let 'mkArke b c d e f g _ i j k l := a in mkArke b c d e f g v i j k l.
Definition set_tracerProvider v a : Arke := let 'mkArke b c d e f g h _ j k l := a in mkArke b c d e f g h v j k l.
Definition set_ratelimiter v a : Arke := let 'mkArke b c d e f g h i _ k l := a in mkArke b c d e f g h i v k l.
Definition set_chainUnary v a : Arke := let 'mkArke b c d e f g h i j _ l := a in mkArke b c d e f g h i j v l.
Definition set_chainStream v a : Arke := let 'mkArke b c d e f g h i j k _ := a in mkArke b c d e f g h i j k v.

Definition Build (a : Arke) : Arke :=
  let opts := serverOptions a ++ [ChainUnaryInterceptor (chainUnary a); ChainStreamInterceptor (chainStream a)] in
  set_server (Some opts) (set_serverOptions opts a).

Definition add_interceptor (i : interceptor) (a : Arke) : Arke :=
  set_chainStream (chainStream a ++ [i]) (set_chainUnary (chainUnary a ++ [i]) a).

Definition WithPrometheus (a : Arke) : Arke := add_interceptor IPrometheus a.

Definition WithRateLimit (rlp : option RateLimitParameters) (a : Arke) : Arke :=
  match rlp with
  | None => a
  | Some rlp =>
      if (BucketSize rlp <=? 0) || (RefillInterval rlp <=? 0) || (MaxAgeStaleClient rlp <=? 0) then a
      else
        match NewClientLimitManager (BucketSize rlp) (RefillInterval rlp) (MaxAgeStaleClient rlp) (Enforced rlp) with
        | (_, Some _) => a
        | (rl, None) => add_interceptor IRateLimit (set_ratelimiter rl a)
        end
  end.

Definition WithTLSSkipVerify (v : bool) (a : Arke) : Arke := set_tlsSkipVerify v a.
Definition WithPort (v : Z) (a : Arke) : Arke := set_port v a.
Definition WithCertFilePath (path : string) (a : Arke) : Arke := set_certFile path a.
Definition WithCertKeyPath (path : string) (a : Arke) : Arke := set_certKey path a.
Definition WithHpaName (name : string) (a : Arke) : Arke := set_hpaName name a.
Definition WithUnaryInterceptor (n : nat) (a : Arke) : Arke := set_chainUnary (chainUnary a ++ [ICustom n]) a.
Definition WithStreamInterceptor (n : nat) (a : Arke) : Arke := set_chainStream (chainStream a ++ [ICustom n]) a.

Definition defaultKeepAliveParams : server_option := KeepaliveParams (20 * Second) (60 * Second) (300 * Second).
Definition defaultKeepAliveEnforcementPolicy : server_option := KeepaliveEnforcementPolicy (5 * Second) true.

Definition EnvPort : string := "ARKE_PORT".

Section serve.
Context {E : Type} `{Oracle Os E}.

Abbreviation oprog := (prog (os_world E)).

(** [None] is a fatal error, which ends the program. *)
Definition DefaultArkeServer : oprog (option Arke) :=
  let a := mkArke 50051 "" "" "arke" None false [] false None [] [] in
  r ← Tracing.InitTracerProvider;
  match (r : bool * error) with
  | (_, Some _) => mret None
  | (tp, None) =>
      portEnv ← os (OsGetenv EnvPort);
      match (if String.eqb portEnv "" then Some (port a) else atoi portEnv) with
      | None => mret None
      | Some port =>
          mret (Some (set_serverOptions [defaultKeepAliveEnforcementPolicy; defaultKeepAliveParams]
            (set_port port (set_tracerProvider tp a))))
      end
  end.

(** ** Listening *)

Inductive listen := Plain (address : string) | TLS (address certFile certKey : string).

(** The key pair, when both files are named. *)
Definition tlsConfig (a : Arke) : oprog (option (string * string) * error) :=
  if negb (String.eqb (certFile a) "") && negb (String.eqb (certKey a) "") then
    err ← os (OsLoadX509KeyPair (certFile a) (certKey a));
    match (err : error) with
    | Some e => mret (None, Some e)
    | None => mret (Some (certFile a, certKey a), None)
    end
  else mret (None, None).

Definition listener (a : Arke) : oprog (listen + string) :=
  let address := ":" +:+ itoa (port a) in
  err ← os (OsListen "tcp" address);
  match (err : error) with
  | Some e => mret (inr e)
  | None =>
      r ← tlsConfig a;
      match (r : option (string * string) * error) with
      | (Some (cert, key), None) => mret (inl (TLS address cert key))
      | _ => mret (inl (Plain address))
      end
  end.

(** ** Serving *)

(** What [Serve] returns: the context ended, or the multiplexer did. *)
Definition serve_result (ended : () + option serve_error) : option serve_error :=
  match ended with
  | inl () => None
  | inr (Some (NetOpError _)) => None
  | inr err => err
  end.

(** Services and goroutines in the order in which they are registered and
    started. *)
Definition services (a : Arke) : list service :=
  [ProducerServer (tlsSkipVerify a); ConsumerServer (tlsSkipVerify a); HealthzServer; HealthServer].
Definition serving (a : Arke) : list routine :=
  [GrpcServe; MetricsServe] ++ match ratelimiter a with Some _ => [StartClientCull] | None => [] end ++ [MuxServe].

(** The body of [Serve], without the signal handler and what is deferred. An
    error of listening is a [*net.OpError]. *)
Definition serve (a : Arke) : oprog (option serve_error) :=
  lis ← listener a;
  match (lis : listen + string) with
  | inr e => mret (Some (NetOpError e))
  | inl _ =>
      match server a with
      | None => panic "invalid memory address or nil pointer dereference"
      | Some _ =>
          for_each (services a) (λ s, os (OsRegister s));;
          os (OsGo (MonitorHPA (hpaName a)));;
          os (OsGo MonitorHealthChan);;
          os (OsRegister Reflection);;
          for_each (serving a) (λ r, os (OsGo r));;
          ended ← os OsServeEnds;
          match (ended : () + option serve_error) with inl () => os OsMuxClose | inr _ => mret () end;;
          mret (serve_result ended)
      end
  end.

Definition Serve (a : Arke) : oprog (option serve_error) :=
  os (OsGo StopOnInterrupt);;
  if tracerProvider a then defer (serve a) (os OsShutdownTracer;; mret ()) else serve a.

(** ** The program ([cmd/serve.go]) *)

Definition EnvCertFile : string := "ARKE_CERT_FILE".
Definition EnvCertKey : string := "ARKE_CERT_KEY".
Definition EnvRateLimitEnforced : string := "ARKE_RATE_LIMIT_ENFORCED".
Definition EnvRateLimitBucketSize : string := "ARKE_RATE_LIMIT_BUCKET_SIZE".
Definition EnvRateLimitMaxAge : string := "ARKE_RATE_LIMIT_MAX_AGE_STALE_CLIENTS".
Definition EnvRateLimitRefill : string := "ARKE_RATE_LIMIT_REFILL_SECONDS".

(** From the environment to the server that is run. *)
Definition configure (tls_skip_verify : bool) : oprog (option Arke) :=
  certFile ← os (OsGetenv EnvCertFile);
  certKey ← os (OsGetenv EnvCertKey);
  rateLimitEnforced ← os (OsGetenv EnvRateLimitEnforced);
  bsEnv ← os (OsGetenv EnvRateLimitBucketSize);
  maxAgeDuration ← os (OsGetenv EnvRateLimitMaxAge);
  refillDuration ← os (OsGetenv EnvRateLimitRefill);
  let rlp := fst (GetRateLimitParameters bsEnv refillDuration maxAgeDuration rateLimitEnforced) in
  a ← DefaultArkeServer;
  mret (match (a : option Arke) with
        | None => None
        | Some a => Some (Build (WithRateLimit rlp (WithPrometheus (WithCertKeyPath certKey (WithCertFilePath certFile
                      (WithTLSSkipVerify tls_skip_verify a))))))
        end).

Definition checkErr (err : option serve_error) : bool :=
  match err with
  | Some (NetOpError _) => false
  | Some (OtherError _) => true
  | None => false
  end.

(** How the program ends: a fatal error ends it at once, without what is
    deferred; the parser of the flags ends it by itself when it fails. *)
Inductive exit := Exit0 | Exit1 | Exit2.

(** The flags. *)
Definition serve_flags (args : list string) : list (string * string) * Flags.parsed :=
  Flags.parse_args ["cpuprofile"; "memprofile"] ["tls-skip-verify"] args.

(** The profile of the processor, when one is asked for; [false] is fatal. *)
Definition start_profile (cpuprofile : string) : oprog bool :=
  if String.eqb cpuprofile "" then mret true
  else
    err ← os (OsCreate cpuprofile);
    match (err : error) with
    | Some _ => mret false
    | None =>
        err ← os (OsStartCPUProfile cpuprofile);
        match (err : error) with Some _ => mret false | None => mret true end
    end.

(** The deferred functions: the profile of the memory, then the end of the
    other. *)
Definition stop_profiles (cpuprofile memprofile : string) : oprog exit :=
  written ← (if String.eqb memprofile "" then mret true
             else
               err ← os (OsCreate memprofile);
               match (err : error) with
               | Some _ => mret false
               | None =>
                   err ← os (OsWriteHeapProfile memprofile);
                   match (err : error) with Some _ => mret false | None => os (OsClose memprofile);; mret true end
               end);
  if (written : bool) then
    (if String.eqb cpuprofile "" then mret () else os OsStopCPUProfile;; os (OsClose cpuprofile));;
    mret Exit0
  else mret Exit1.

(** After the flags are parsed. *)
Definition run_parsed (cpuprofile memprofile : string) (tls_skip_verify : bool) : oprog exit :=
  started ← start_profile cpuprofile;
  if (started : bool) then
    svr ← configure tls_skip_verify;
    match (svr : option Arke) with
    | None => mret Exit1
    | Some svr =>
        err ← Serve svr;
        if checkErr err then mret Exit1 else stop_profiles cpuprofile memprofile
    end
  else mret Exit1.

Definition run (args : list string) : oprog exit :=
  let '(l, how) := serve_flags args in
  match how with
  | Flags.Failed => mret Exit2
  | Flags.Help => mret Exit0
  | Flags.Parsed =>
      run_parsed (Flags.value "cpuprofile" "" l) (Flags.value "memprofile" "" l)
        (default false (parse_bool (Flags.value "tls-skip-verify" "false" l)))
  end.

End serve.

(** ** Properties *)

(** The settings that turn the rate limiter on: three numbers that are positive
    as the integers they become. *)
Definition limiting (bs refill age : string) (b r g : Z) : Prop :=
  atoi bs = Some b ∧ atoi refill = Some r ∧ atoi age = Some g ∧
  0 < b ∧ 0 < int64 (r * Second) ∧ 0 < int64 (g * Second).

(** What the settings of the rate limiter do: with three numbers that are
    positive as the durations they become, the server gets a limiter with just
    these parameters, and its interceptor comes last, for unary calls and for
    streams, of those added so far; with anything else the server is left as it was,
    without a limiter. *)
Theorem rate_limit_configured bs refill age enf (a : Arke) :
  let a' := WithRateLimit (fst (GetRateLimitParameters bs refill age enf)) a in
  (∀ b r g, limiting bs refill age b r g →
    ratelimiter a' = Some {| clients := ∅; bucketSize := b; fillInterval := int64 (r * Second);
                             maxAgeStaleClients := int64 (g * Second); enforced := String.eqb enf "true" |} ∧
    chainUnary a' = chainUnary a ++ [IRateLimit] ∧ chainStream a' = chainStream a ++ [IRateLimit]) ∧
  ((¬ ∃ b r g, limiting bs refill age b r g) → a' = a).
Proof.
  intros a'. subst a'. unfold GetRateLimitParameters. split.
  - intros b r g (-> & -> & -> & Hb & Hr & Hg). cbn [fst WithRateLimit BucketSize RefillInterval MaxAgeStaleClient Enforced].
    unfold NewClientLimitManager.
    rewrite (proj2 (Z.leb_gt _ _) Hb), (proj2 (Z.leb_gt _ _) Hr), (proj2 (Z.leb_gt _ _) Hg). by destruct a.
  - intros Hno. destruct (atoi bs) as [b|] eqn:Hb; [|done]. destruct (atoi age) as [g|] eqn:Hg; [|done].
    destruct (atoi refill) as [r|] eqn:Hr; [|done].
    cbn [fst WithRateLimit BucketSize RefillInterval MaxAgeStaleClient Enforced].
    destruct (_ || _ || _) eqn:Hor; [done|]. destruct Hno. exists b, r, g.
    apply orb_false_iff in Hor as [[?%Z.leb_gt ?%Z.leb_gt]%orb_false_iff ?%Z.leb_gt]. by split_and!.
Qed.

(** Up to 9223372036 seconds the durations are what the settings say. *)
Lemma duration_exact r : 0 <= r <= 9223372036 → int64 (r * Second) = r * Second.
Proof. intros Hr. unfold int64, wrap, Second. rewrite Z.mod_small; lia. Qed.

(** Beyond, they wrap: a bucket that is to be refilled every 584 years is
    refilled every 290 milliseconds. *)
Lemma duration_wraps : int64 (18446744074 * Second) = 290448384.
Proof. reflexivity. Qed.

Section listening.
Context {E : Type} `{Oracle Os E}.
Implicit Types w : os_world E.

(** How the server listens, once the address is bound: with a certificate
    and a key that load, on TLS; without them in the clear; and in the clear as
    well when they are configured and do not load, without any error. *)
Theorem listener_kind (a : Arke) w e :
  answer (I := Os) (OsListen "tcp" (":" +:+ itoa (port a))) (env w) = (Ret None, e) →
  ((certFile a = "" ∨ certKey a = "") →
    run_result (listener a) w = Ret (inl (Plain (":" +:+ itoa (port a))))) ∧
  (certFile a ≠ "" → certKey a ≠ "" → ∀ loaded e',
    answer (I := Os) (OsLoadX509KeyPair (certFile a) (certKey a)) e = (Ret loaded, e') →
    run_result (listener a) w =
      Ret (inl (match (loaded : error) with
                | None => TLS (":" +:+ itoa (port a)) (certFile a) (certKey a)
                | Some _ => Plain (":" +:+ itoa (port a))
                end))).
Proof.
  intros Hl. unfold run_result, listener. cbv zeta. unfold os, tlsConfig. world_unfold. rewrite Hl. split.
  - intros [->| ->]; cbn; [done|]. by rewrite andb_false_r.
  - intros Hc Hk loaded e' Hload.
    rewrite (proj2 (String.eqb_neq _ _) Hc), (proj2 (String.eqb_neq _ _) Hk). cbn [negb andb].
    unfold os, ext. cbn [env]. rewrite Hload. by destruct (loaded : error).
Qed.

End listening.

(** An error of serving ends the program exactly when [Serve] returns it. *)
Lemma serve_fatal ended : checkErr (serve_result ended) = true ↔ ∃ s, ended = inr (Some (OtherError s)).
Proof. destruct ended as [[]|[[s|s]|]]; cbn; split; try done; [by intros [? ?]..| |by intros [? ?]]. by exists s. Qed.

(** ** How the program ends *)

Section ending.
Context {E : Type} `{Oracle Os E} `{!Steady f}.

(** The port of the environment, when it is a number. *)
Definition env_port : option Z :=
  if String.eqb (f (OsGetenv EnvPort)) "" then Some 50051 else atoi (f (OsGetenv EnvPort)).

(** A file that is written to in two steps. *)
Definition written (path : string) (write : string → error) : Prop :=
  path ≠ "" → (f (OsCreate path) : error) = None ∧ write path = None.

Lemma start_profile_gives cpu :
  ∃ ok, gives (start_profile cpu) ok ∧ (ok = true ↔ written cpu (λ p, f (OsStartCPUProfile p))).
Proof.
  unfold start_profile, written. destruct (String.eqb_spec cpu "") as [->|Hne].
  { exists true. split; [gives_step|]. done. }
  destruct (f (OsCreate cpu)) as [e|] eqn:Hc.
  - exists false. split; [gives_step; rewrite Hc; gives_step|]. split; [done|]. intros Hw. by destruct (Hw Hne).
  - destruct (f (OsStartCPUProfile cpu)) as [e|] eqn:Hs.
    + exists false. split; [gives_step; rewrite Hc; gives_step; rewrite Hs; gives_step|].
      split; [done|]. intros Hw. by destruct (Hw Hne).
    + exists true. split; [gives_step; rewrite Hc; gives_step; rewrite Hs; gives_step|]. done.
Qed.

Lemma stop_profiles_gives cpu mem :
  ∃ x, gives (stop_profiles cpu mem) x ∧ x ≠ Exit2 ∧ (x = Exit0 ↔ written mem (λ p, f (OsWriteHeapProfile p))).
Proof.
  assert (gives ((if String.eqb cpu "" then mret () else os OsStopCPUProfile;; os (OsClose cpu));; mret Exit0) Exit0)
    as Hend by (eapply gives_bind; [destruct (String.eqb cpu ""); repeat gives_step|gives_step]).
  unfold stop_profiles, written. destruct (String.eqb_spec mem "") as [->|Hne].
  { exists Exit0. split; [eapply gives_bind; [gives_step|exact Hend]|]. by split. }
  destruct (f (OsCreate mem)) as [e|] eqn:Hc.
  - exists Exit1. split; [eapply gives_bind; [gives_step; rewrite Hc; gives_step|gives_step]|].
    split; [done|]. split; [done|]. intros Hw. by destruct (Hw Hne).
  - destruct (f (OsWriteHeapProfile mem)) as [e|] eqn:Hs.
    + exists Exit1. split; [eapply gives_bind; [gives_step; rewrite Hc; gives_step; rewrite Hs; gives_step|gives_step]|].
      split; [done|]. split; [done|]. intros Hw. by destruct (Hw Hne).
    + exists Exit0. split; [|by split].
      eapply gives_bind; [gives_step; rewrite Hc; gives_step; rewrite Hs; gives_step; gives_step|exact Hend].
Qed.

Abbreviation exported := (f (OsNewExporter (Tracing.exporter (f := f))) : error).
Abbreviation traced := (Tracing.traced (f := f)).

(** Without a server: the port or the exporter of the traces is wrong. *)
Definition unconfigured : Prop := env_port = None ∨ traced = true ∧ exported ≠ None.

(** The server without settings. *)
Definition default_arke (tp : bool) (p : Z) : Arke :=
  set_serverOptions [defaultKeepAliveEnforcementPolicy; defaultKeepAliveParams]
    (set_port p (set_tracerProvider tp (mkArke 50051 "" "" "arke" None false [] false None [] []))).

Lemma default_port_gives tp :
  gives (portEnv ← os (OsGetenv EnvPort);
         match (if String.eqb portEnv "" then Some 50051 else atoi portEnv) with
         | None => mret None
         | Some p => mret (Some (default_arke tp p))
         end) (default_arke tp <$> env_port).
Proof. gives_step. fold env_port. destruct env_port; gives_step. Qed.

Lemma default_gives :
  ∃ o, gives DefaultArkeServer o ∧
    match o with
    | Some a => env_port = Some (port a) ∧ (traced = true → exported = None)
    | None => unconfigured
    end.
Proof.
  unfold DefaultArkeServer, unconfigured. pose proof (Tracing.init_tracer_gives (f := f)) as Hi. cbv zeta.
  pose proof default_port_gives as Hport.
  destruct traced; [destruct exported as [e|] eqn:Hx|].
  1: exists None; split; [eapply gives_bind; [exact Hi|gives_step]|by right].
  all: eexists; split; [eapply gives_bind; [exact Hi|apply Hport]|]; destruct env_port; [by split|by left].
Qed.

Lemma WithRateLimit_keeps rlp (a : Arke) : port (WithRateLimit rlp a) = port a.
Proof.
  unfold WithRateLimit. destruct rlp as [rlp|]; [|done]. destruct (_ || _ || _); [done|].
  destruct (NewClientLimitManager _ _ _ _) as [rl [e|]]; [done|]. by destruct a.
Qed.

Lemma configure_gives skip :
  ∃ o, gives (configure skip) o ∧
    match o with
    | Some a => env_port = Some (port a) ∧ server a ≠ None ∧ (traced = true → exported = None)
    | None => unconfigured
    end.
Proof.
  destruct default_gives as (o & Ho & Hd).
  eexists. split; [unfold configure; do 6 gives_step; eapply gives_bind; [exact Ho|gives_step]|].
  destruct o as [a|]; [|done]. destruct Hd as [-> Ht]. split_and!; [|by destruct (WithRateLimit _ _)|done].
  set (b := WithRateLimit _ _). assert (port b = port a) as Hb by (unfold b; rewrite WithRateLimit_keeps; by destruct a).
  rewrite <- Hb. by destruct b.
Qed.

(** Whether the address is bound. *)
Definition bound (a : Arke) : error := f (OsListen "tcp" (":" +:+ itoa (port a))).

Lemma listener_gives a :
  ∃ r, gives (listener a) r ∧ match bound a with Some e => r = inr e | None => ∃ l, r = inl l end.
Proof.
  unfold listener, bound. cbv zeta. destruct (f (OsListen _ _)) as [e|] eqn:He.
  - exists (inr e). split; [gives_step; rewrite He; gives_step|done].
  - assert (∃ r, gives (tlsConfig a) r) as [r Hr].
    { unfold tlsConfig. destruct (_ && _); [|eexists; gives_step].
      destruct (f (OsLoadX509KeyPair (certFile a) (certKey a))) as [e|] eqn:Hk; eexists; gives_step; rewrite Hk; gives_step. }
    destruct r as [[[cert key]|] [e|]]; eexists; (split; [gives_step; rewrite He; eapply gives_bind; [exact Hr|gives_step]|]);
      by eexists.
Qed.

Lemma Serve_gives a : server a ≠ None →
  gives (Serve a) (match bound a with Some e => Some (NetOpError e) | None => serve_result (f OsServeEnds) end).
Proof.
  intros Hs.
  assert (gives (serve a) (match bound a with Some e => Some (NetOpError e) | None => serve_result (f OsServeEnds) end))
    as Hserve.
  { unfold serve. destruct (listener_gives a) as (r & Hr & Hb). eapply gives_bind; [exact Hr|].
    destruct (bound a) as [e|]; [subst r; gives_step|]. destruct Hb as [l ->].
    destruct (server a) as [opts|]; [|done].
    eapply gives_bind; [apply gives_for_each; intros s; gives_step|]. do 3 gives_step.
    eapply gives_bind; [apply gives_for_each; intros s; gives_step|]. gives_step.
    apply (gives_bind _ _ ()); [destruct (f OsServeEnds : () + option serve_error) as [[]|e]; gives_step|gives_step]. }
  unfold Serve. gives_step. destruct (tracerProvider a); [|done].
  apply gives_defer; [done|]. do 2 gives_step.
Qed.

Lemma run_parsed_exit cpu mem skip w :
  ∃ x, run_result (run_parsed cpu mem skip) w = Ret x ∧ x ≠ Exit2 ∧
    (x = Exit1 ↔
      ¬ written cpu (λ p, f (OsStartCPUProfile p)) ∨ unconfigured ∨
      (∃ p s, env_port = Some p ∧ (f (OsListen "tcp" (":" +:+ itoa p)) : error) = None ∧
              f OsServeEnds = inr (Some (OtherError s))) ∨
      ¬ written mem (λ p, f (OsWriteHeapProfile p))).
Proof.
  destruct (start_profile_gives cpu) as (started & Hs & Hsw).
  destruct (configure_gives skip) as (o & Ho & Hc). destruct (stop_profiles_gives cpu mem) as (x & Hx & Hx2 & Hxw).
  set (ended := match o with
                | Some a => checkErr (match bound a with Some e => Some (NetOpError e) | None => serve_result (f OsServeEnds) end)
                | None => true
                end).
  assert (gives (run_parsed cpu mem skip) (if started then if ended then Exit1 else x else Exit1)) as Hrun.
  { unfold run_parsed. eapply gives_bind; [exact Hs|]. destruct started; [|gives_step]. eapply gives_bind; [exact Ho|].
    destruct o as [a|]; [|gives_step]. eapply gives_bind; [apply Serve_gives; apply Hc|]. fold ended.
    destruct ended; [gives_step|exact Hx]. }
  destruct (Hrun w) as [w' Hw]. eexists. split; [unfold run_result; by rewrite Hw|].
  assert (ended = true ↔ unconfigured ∨ ∃ p s, env_port = Some p ∧
            (f (OsListen "tcp" (":" +:+ itoa p)) : error) = None ∧ f OsServeEnds = inr (Some (OtherError s))) as Hend.
  { subst ended. destruct o as [a|]; [|split; [by left|done]]. destruct Hc as (Hp & _ & Ht). unfold unconfigured.
    rewrite Hp. unfold bound. destruct (f (OsListen "tcp" (":" +:+ itoa (port a)))) as [e|] eqn:He.
    - split; [done|]. intros [[?|[? ?]]|(p & s & [= <-] & Hl & _)]; [done|naive_solver|congruence].
    - rewrite serve_fatal. split.
      + intros [s Hs']. right. by exists (port a), s.
      + intros [[?|[? ?]]|(p & s & [= <-] & _ & Hs')]; [done|naive_solver|by exists s]. }
  split; [by destruct started, ended|].
  destruct started, ended, x; rewrite ?Hsw, ?Hxw in *; intuition congruence.
Qed.

(** C38: How the program ends by itself, on a host that answers the same question
    always in the same way. It ends with status two exactly when its flags cannot
    be parsed; with zero when they ask for help; and otherwise with one exactly
    when a profile that was asked for cannot be written, when the exporter of the
    traces cannot be made although tracing is on, when the port is not a number,
    and when the multiplexer stops with an error that is none of the network. An
    address that cannot be listened on is not among them: the program ends as if
    it had served. A panic in one of the goroutines of the server, which ends
    the process at any time, and signals are not part of this. *)
Theorem run_exit args w :
  let '(l, how) := serve_flags args in
  let cpu := Flags.value "cpuprofile" "" l in
  let mem := Flags.value "memprofile" "" l in
  ∃ x, run_result (run args) w = Ret x ∧
    (x = Exit2 ↔ how = Flags.Failed) ∧
    (how = Flags.Help → x = Exit0) ∧
    (x = Exit1 ↔ how = Flags.Parsed ∧
      (¬ written cpu (λ p, f (OsStartCPUProfile p)) ∨ unconfigured ∨
       (∃ p s, env_port = Some p ∧ (f (OsListen "tcp" (":" +:+ itoa p)) : error) = None ∧
               f OsServeEnds = inr (Some (OtherError s))) ∨
       ¬ written mem (λ p, f (OsWriteHeapProfile p)))).
Proof.
  unfold run. destruct (serve_flags args) as [l how]. destruct how.
  - destruct (run_parsed_exit (Flags.value "cpuprofile" "" l) (Flags.value "memprofile" "" l)
      (default false (parse_bool (Flags.value "tls-skip-verify" "false" l))) w) as (x & Hr & Hne & Hx).
    exists x. split; [exact Hr|]. split; [by split|]. split; [done|]. rewrite Hx. split; [by split|by intros [_ ?]].
  - exists Exit2. split; [done|]. split; [done|]. split; [done|]. split; [done|by intros [? _]].
  - exists Exit0. split; [done|]. split; [done|]. split; [done|]. split; [done|by intros [? _]].
Qed.

End ending.

End arke.

(** ** Witnesses *)

(** A key that does not load. *)
Definition no_keys : Oracle Os () := λ c e,
  match c with
  | OsGetenv _ => (Ret "", e)
  | OsLoadX509KeyPair _ _ => (Ret (Some "no such file"), e)
  | OsServeEnds => (Ret (inl ()), e)
  | OsNewExporter _ | OsShutdownTracer | OsListen _ _ | OsCreate _ | OsStartCPUProfile _ | OsWriteHeapProfile _ =>
      (Ret None, e)
  | OsRegister _ | OsGo _ | OsMuxClose | OsClose _ | OsStopCPUProfile => (Ret (), e)
  end.

Definition demo_arke `{TokenBucket} : Arke :=
  mkArke 50051 "/etc/cert.pem" "/etc/key.pem" "arke" None false [] false None [] [].

Lemma listener_kind_witness (O := no_keys) (B := IntBucket.int_bucket) :
  run_result (listener demo_arke) {| st := true; env := (); log := [] |} = Ret (inl (Plain ":50051")).
Proof.
  destruct (listener_kind demo_arke {| st := true; env := (); log := [] |} () eq_refl) as [_ Hr].
  exact (Hr ltac:(done) ltac:(done) (Some "no such file") () eq_refl).
Defined.

Lemma rate_limit_configured_witness (B := IntBucket.int_bucket) :
  chainUnary (WithRateLimit (fst (GetRateLimitParameters "10" "1" "60" "true")) demo_arke) = [IRateLimit] ∧
  WithRateLimit (fst (GetRateLimitParameters "10" "" "60" "true")) demo_arke = demo_arke.
Proof.
  split.
  - apply (proj1 (rate_limit_configured "10" "1" "60" "true" demo_arke) 10 1 60). vm_compute. by split_and!.
  - apply (proj2 (rate_limit_configured "10" "" "60" "true" demo_arke)).
    intros (b & r & g & _ & Hr & _). discriminate Hr.
Defined.

(** A host whose port is taken. *)
Definition taken (c : os_call) : os_reply c :=
  match c return os_reply c with
  | OsGetenv _ => ""%string
  | OsServeEnds => inl ()
  | OsListen _ _ => Some "address already in use"%string
  | OsNewExporter _ | OsShutdownTracer | OsLoadX509KeyPair _ _ | OsCreate _ | OsStartCPUProfile _ | OsWriteHeapProfile _ =>
      None
  | OsRegister _ | OsGo _ | OsMuxClose | OsClose _ | OsStopCPUProfile => ()
  end.
Definition taken_host : Oracle Os () := λ c e, (Ret (taken c), e).

Lemma run_exit_witness (O := taken_host) (B := IntBucket.int_bucket) :
  (∃ x, run_result (run ["--tls-skip-verify"]) {| st := false; env := (); log := [] |} = Ret x ∧ x = Exit0) ∧
  ∃ x, run_result (run ["-locale"; "de"]) {| st := false; env := (); log := [] |} = Ret x ∧ x = Exit2.
Proof.
  split.
  - destruct (run_exit (f := taken) (Steady0 := λ c e, eq_refl) ["--tls-skip-verify"]
      {| st := false; env := (); log := [] |}) as (x & Hx & H2 & _ & Hiff).
    exists x. split; [exact Hx|]. destruct x; [reflexivity|exfalso|discriminate (proj1 H2 eq_refl)].
    destruct (proj1 Hiff eq_refl) as [_ [Hp|[[Hp|[_ Hp]]|[(p & s & _ & Hl & _)|Hp]]]];
      [|discriminate Hp|by apply Hp|discriminate Hl|].
    + apply Hp. intros Hne. by destruct Hne.
    + apply Hp. intros Hne. by destruct Hne.
  - destruct (run_exit (f := taken) (Steady0 := λ c e, eq_refl) ["-locale"; "de"]
      {| st := false; env := (); log := [] |}) as (x & Hx & H2 & _).
    exists x. split; [exact Hx|]. by apply H2.
Defined.

End ArkeServer.
