(* ===== verification/Limits.v ===== *)
(** * [internal/util/cgroups.go], [internal/util/k8s.go]: the process and its host

    The limits a control group puts on the process, which the availability of
    [Health] is measured against, and the monitor that tells clients to go to a
    new replica. The files are what they contain, parsing a floating-point
    number and converting one out of range are the class [HostFloat], and the
    Kubernetes client is the list of the events it delivers. *)

From Stdlib Require Import Ascii String.
From stdpp Require Import base gmap strings list fin_maps option.
From Stdlib Require Import ZArith Lia SpecFloat.
From S2P Require Import Prelude Effects GoStrings Api ConcurrentMap ClientIds Provider Server Health BrokerStats.

(** [strconv.ParseFloat(_, 64)], and [int] of a number that does not fit. *)
Class HostFloat := {
  ParseFloat : string → option spec_float;
  int_oob : spec_float → Z
}.

(** ** Control groups *)

Module Cgroups.
Import Metrics.
Open Scope Z_scope.
Open Scope list_scope.

Inductive CgroupVersion := CgroupV1 | CgroupV2.

Definition cgroupV1CpuQuotaFile : string := "/sys/fs/cgroup/cpu/cpu.cfs_quota_us".
Definition cgroupV1MemLimitFile : string := "/sys/fs/cgroup/memory/memory.limit_in_bytes".
Definition cgroupV2CpuQuotaFile : string := "/sys/fs/cgroup/cpu.max".
Definition cgroupV2MemLimitFile : string := "/sys/fs/cgroup/memory.max".
Definition cgroupV2ControllerFile : string := "/sys/fs/cgroup/cgroup.controllers".

(** The first of [strings.Fields]. *)
Fixpoint first_word (s : string) : string :=
  match s with
  | EmptyString => EmptyString
  | String a s' => if is_space a then EmptyString else String a (first_word s')
  end.
Definition first_field (s : string) : option string :=
  let w := first_word (trim_left s) in if String.eqb w "" then None else Some w.

(** The package's variables, with [cgroupSyncOnce]. *)
Record host := { sync_done : bool; vars : metrics }.

Section limits.
Context `{HostFloat} (ReadFile : string → option string) (NumCPU : Z).

Definition detectCgroupVersion : CgroupVersion :=
  match ReadFile cgroupV2ControllerFile with Some _ => CgroupV2 | None => CgroupV1 end.

(** [int(x)] *)
Definition to_int64 (x : spec_float) : Z :=
  match BrokerStats.truncate x with
  | Some n => if (- 2 ^ 63 <=? n) && (n <? 2 ^ 63) then n else int_oob x
  | None => int_oob x
  end.

Definition read_memory (file : string) (m : metrics) : metrics :=
  match ReadFile file with
  | None => m
  | Some contents =>
      let contentStr := trim_space contents in
      if String.eqb contentStr "max" then setMaxMemory (float64_of (-1)) m
      else match ParseFloat contentStr with
           | Some maxmem => setMaxMemory maxmem m
           | None => setMaxMemory (float64_of (-1)) m
           end
  end.

Definition read_cpu (file : string) (m : metrics) : metrics :=
  match ReadFile file with
  | None => m
  | Some contents =>
      match first_field (trim_space contents) with
      | Some quota =>
          if negb (String.eqb quota "max") && negb (String.eqb quota "-1") then
            match ParseFloat quota with
            | Some cpuQuota => setCPUMillicoreLimit (to_int64 (div64 cpuQuota (float64_of 100))) m
            | None => setCPUMillicoreLimit (-1) m
            end
          else setCPUMillicoreLimit (NumCPU * 1000) m
      | None => setCPUMillicoreLimit (NumCPU * 1000) m
      end
  end.

Definition readCgroupLimits (h : host) : host :=
  if sync_done h then h
  else
    let v2 := match detectCgroupVersion with CgroupV2 => true | CgroupV1 => false end in
    let m := read_memory (if v2 then cgroupV2MemLimitFile else cgroupV1MemLimitFile) (vars h) in
    let m := read_cpu (if v2 then cgroupV2CpuQuotaFile else cgroupV1CpuQuotaFile) m in
    {| sync_done := true; vars := m |}.

(** *** Lemmas *)

(** The limits are read once. *)
Lemma readCgroupLimits_once h : readCgroupLimits (readCgroupLimits h) = readCgroupLimits h.
Proof. unfold readCgroupLimits at 2 3. destruct (sync_done h) eqn:Hs; [|done]. unfold readCgroupLimits. by rewrite Hs. Qed.

Lemma read_cpu_memory file m : maxMemory (read_cpu file m) = maxMemory m ∧ memHistory (read_cpu file m) = memHistory m.
Proof.
  unfold read_cpu. destruct (ReadFile file); [|done]. destruct (first_field _); [|done].
  destruct (_ && _); [|done]. by destruct (ParseFloat _).
Qed.

(** Without a memory limit, or with one that is not a number, the memory that
    is available is unknown, so that it never makes the process unhealthy. *)
Lemma no_memory_limit h contents :
  sync_done h = false → detectCgroupVersion = CgroupV2 →
  ReadFile cgroupV2MemLimitFile = Some contents →
  trim_space contents = "max" ∨ ParseFloat (trim_space contents) = None →
  memoryAvailability (vars (readCgroupLimits h)) = unknown.
Proof.
  intros Hs Hv Hr Hc. unfold readCgroupLimits. rewrite Hs, Hv. cbn [vars].
  destruct (read_cpu_memory cgroupV2CpuQuotaFile (read_memory cgroupV2MemLimitFile (vars h))) as [Hmax Hmem].
  assert (maxMemory (read_memory cgroupV2MemLimitFile (vars h)) = float64_of (-1)) as Hm.
  { unfold read_memory. rewrite Hr. cbv zeta. destruct Hc as [->| ->]; [done|]. by destruct (String.eqb _ _). }
  unfold memoryAvailability. rewrite Hmax, Hm. by destruct (length _ =? 0)%nat.
Qed.

(** Of the line of cpu.max only the first number counts: two files that set
    different periods for the same quota give the same limit. *)
Lemma cpu_period_ignored m file1 file2 contents1 contents2 :
  ReadFile file1 = Some contents1 → ReadFile file2 = Some contents2 →
  first_field (trim_space contents1) = first_field (trim_space contents2) →
  read_cpu file1 m = read_cpu file2 m.
Proof. intros H1 H2 Hf. unfold read_cpu. by rewrite H1, H2, Hf. Qed.

End limits.
End Cgroups.

(** ** The monitor of the replicas *)

Module Replicas.
Open Scope Z_scope.
Open Scope list_scope.

(** An event of the watch on the autoscalers; [None] carries another object. *)
Inductive watch_type := Modified | OtherType.
Record autoscaler := { hpaName : string; CurrentReplicas : Z }.
Definition watch_event : Type := watch_type * option autoscaler.

(** Where the loop stands: the replicas it has seen last, the codes it has
    sent, and whether it goes on. *)
Record hpa := { currentReplicaCount : Z; sent : list HealthStatus_Code; running : bool }.

Definition hpa_init : hpa := {| currentReplicaCount := -1; sent := []; running := true |}.

(** An event: another object panics the loop, which recovers and ends. *)
Definition hpa_step (arkeHpaName : string) (e : watch_event) (h : hpa) : hpa :=
  if negb (running h) then h
  else
    match e with
    | (_, None) => {| currentReplicaCount := currentReplicaCount h; sent := sent h; running := false |}
    | (t, Some a) =>
        if negb (String.eqb (hpaName a) arkeHpaName) then h
        else match t with
             | OtherType => h
             | Modified =>
                 let newReplicaCount := CurrentReplicas a in
                 {| currentReplicaCount := newReplicaCount;
                    sent := if (0 <? currentReplicaCount h) && (currentReplicaCount h <? newReplicaCount)
                            then sent h ++ [HealthStatus_GOAWAY] else sent h;
                    running := true |}
             end
    end.

(** Watch after watch; [None] is a watch that could not be made. *)
Fixpoint hpa_loop (arkeHpaName : string) (watches : list (option (list watch_event))) (h : hpa) : hpa :=
  match watches with
  | [] => h
  | None :: _ => {| currentReplicaCount := currentReplicaCount h; sent := sent h; running := false |}
  | Some es :: rest =>
      let h := foldl (λ h e, hpa_step arkeHpaName e h) h es in
      if running h then hpa_loop arkeHpaName rest h else h
  end.

(** What [InClusterConfig] says. *)
Inductive in_cluster := InCluster | NotInCluster | ConfigFailed.

(** The codes sent: nothing without a namespace or a configuration. *)
Definition MonitorHPA (namespaceFile : option string) (namespaceEnv : string) (config : in_cluster)
    (kubeconfig clientset : bool) (watches : list (option (list watch_event))) (arkeHpaName : string) :
    list HealthStatus_Code :=
  let namespace := match namespaceFile with Some data => data | None => namespaceEnv end in
  if String.eqb namespace "" then []
  else if match config with InCluster => true | NotInCluster => kubeconfig | ConfigFailed => false end then
    if clientset then sent (hpa_loop arkeHpaName watches hpa_init) else []
  else [].

(** ** What is promised *)

(** The replica counts of the server's own autoscaler, in order. *)
Definition counts (arkeHpaName : string) (es : list watch_event) : list Z :=
  omap (λ e, match e with
             | (Modified, Some a) => if String.eqb (hpaName a) arkeHpaName then Some (CurrentReplicas a) else None
             | _ => None
             end) es.

(** How often the count rises from a positive one, seen from [c] on. *)
Fixpoint rises (c : Z) (l : list Z) : nat :=
  match l with
  | [] => 0
  | n :: rest => (if (0 <? c) && (c <? n) then 1 else 0) + rises n rest
  end.

Lemma rises_app c l1 l2 : (rises c l1 + rises (List.last l1 c) l2)%nat = rises c (l1 ++ l2).
Proof.
  revert c. induction l1 as [|n l IH]; intros c; [done|].
  rewrite last_cons_default. cbn [app rises]. rewrite <- IH. lia.
Qed.

(** What is heard of the watches: everything up to the first event that
    carries no autoscaler, and up to the first watch that could not be made. *)
Definition carries (e : watch_event) : bool := match snd e with Some _ => true | None => false end.
Fixpoint heard_of (es : list watch_event) : list watch_event :=
  match es with [] => [] | e :: rest => if carries e then e :: heard_of rest else [] end.
Fixpoint heard (watches : list (option (list watch_event))) : list watch_event :=
  match watches with
  | Some es :: rest => heard_of es ++ (if forallb carries es then heard rest else [])
  | _ => []
  end.

Lemma hpa_stopped name es h : running h = false → foldl (λ h e, hpa_step name e h) h es = h.
Proof. intros Hh. induction es as [|e es IH]; [done|]. cbn [foldl]. unfold hpa_step at 2. by rewrite Hh. Qed.

Lemma hpa_events_spec name es h :
  running h = true →
  let h' := foldl (λ h e, hpa_step name e h) h es in
  running h' = forallb carries es ∧
  currentReplicaCount h' = List.last (counts name (heard_of es)) (currentReplicaCount h) ∧
  sent h' = sent h ++ replicate (rises (currentReplicaCount h) (counts name (heard_of es))) HealthStatus_GOAWAY.
Proof.
  revert h. induction es as [|[t [a|]] es IH]; intros h Hr; [by rewrite app_nil_r| |].
  2:{ cbn [foldl forallb carries snd andb heard_of counts omap list_omap rises replicate]. unfold hpa_step at 2 4 6.
      rewrite Hr. cbn [negb]. rewrite hpa_stopped by done. cbn [running currentReplicaCount sent]. by rewrite app_nil_r. }
  cbn [foldl forallb carries snd andb heard_of]. unfold counts. cbn [omap list_omap].
  fold (counts name (heard_of es)). assert (∃ h1, h1 = hpa_step name (t, Some a) h) as [h1 Hh1] by (by eexists).
  rewrite <- Hh1. unfold hpa_step in Hh1. rewrite Hr in Hh1. cbn [negb] in Hh1.
  destruct (String.eqb (hpaName a) name); cbn [negb] in Hh1; [|destruct t; subst h1; by apply IH].
  destruct t; [|subst h1; by apply IH].
  destruct (IH h1) as (Hr' & Hc' & Hs'); [by subst h1|]. split; [done|].
  split; [rewrite Hc', last_cons_default; by subst h1|].
  rewrite Hs'. subst h1. cbn [sent currentReplicaCount rises].
  destruct (_ && _); [|done]. by rewrite <- app_assoc.
Qed.

(** An event without an autoscaler, as an error of the watch is one, ends the
    monitor for good: whatever comes afterwards, nothing more is sent. *)
Lemma error_event_ends name h t es watches :
  running h = true → sent (hpa_loop name (Some ((t, None) :: es) :: watches) h) = sent h.
Proof.
  intros Hr. cbn [hpa_loop foldl]. unfold hpa_step at 2 4 6. rewrite Hr. cbn [negb]. by rewrite hpa_stopped.
Qed.

(** The monitor of the replicas sends one GOAWAY for every time the number of
    replicas of the server's own autoscaler rises from a positive number, across
    all watches, whatever happens to other autoscalers, and never for the first
    number it sees; after an event without an autoscaler it sends nothing. *)
Theorem scale_out_signals ns config name (watches : list (option (list watch_event))) :
  ns ≠ "" → config ≠ ConfigFailed →
  MonitorHPA (Some ns) "" config true true watches name =
    replicate (rises (-1) (counts name (heard watches))) HealthStatus_GOAWAY.
Proof.
  intros Hns Hc. unfold MonitorHPA. cbv zeta. rewrite (proj2 (String.eqb_neq _ _) Hns).
  assert (match config with InCluster => true | NotInCluster => true | ConfigFailed => false end = true) as ->
    by (by destruct config).
  enough (∀ h, running h = true →
    sent (hpa_loop name watches h) =
      sent h ++ replicate (rises (currentReplicaCount h) (counts name (heard watches))) HealthStatus_GOAWAY)
    as Hloop by (by apply (Hloop hpa_init)).
  induction watches as [|[es|] watches IH]; intros h Hr; [by rewrite app_nil_r| |by cbn; rewrite app_nil_r].
  cbn [hpa_loop heard]. destruct (hpa_events_spec name es h Hr) as (Hr' & Hc' & Hs'). rewrite Hr'.
  destruct (forallb carries es); [|by rewrite Hs', app_nil_r].
  rewrite (IH _ Hr'), Hs', Hc', <- app_assoc. f_equal. rewrite <- replicate_add. f_equal.
  unfold counts. rewrite omap_app. apply rises_app.
Qed.

(** Two replicas, then four, while another service grows. *)
Definition demo_batches : list (list watch_event) :=
  [[(OtherType, Some {| hpaName := "arke"; CurrentReplicas := 1 |});
    (Modified, Some {| hpaName := "arke"; CurrentReplicas := 2 |})];
   [(Modified, Some {| hpaName := "web"; CurrentReplicas := 9 |});
    (Modified, Some {| hpaName := "arke"; CurrentReplicas := 4 |})]].

Lemma scale_out_signals_witness :
  MonitorHPA (Some "prod") "" InCluster true true (Some <$> demo_batches) "arke" = [HealthStatus_GOAWAY].
Proof.
  exact (scale_out_signals "prod" InCluster "arke" (Some <$> demo_batches) ltac:(done) ltac:(done)).
Defined.

End Replicas.
