(* ===== verification/Announce.v ===== *)
(** * From the replicas to the clients

    The monitor of the replicas ([util/k8s.go], [Limits.Replicas]) sends codes
    on a channel; the monitor of the health channel ([server/server.go],
    [Health]) receives each and passes it to the clients that have a health
    stream. Here the two are put together, and what each stream sends is
    counted. *)

From Stdlib Require Import Ascii String.
From stdpp Require Import base gmap strings list fin_maps option.
From Stdlib Require Import ZArith Lia.
From S2P Require Import Prelude Effects GoStrings Api ConcurrentMap ClientIds Provider Server Health Limits.

Module Announce.
Import ConcurrentMap Server Health Replicas.
Open Scope Z_scope.
Open Scope list_scope.

Section announce.
Context {E : Type} `{Oracle Srv E} `{MR : MapRange} `{R : !Returns Srv E}.
Implicit Types w : world Srv E server.

(** The steps by which the monitor of the health channel deals with a code
    when [n] clients are registered: it receives the code, finds and serves
    each of them, and sees that nobody is left. *)
Definition announcement (n : nat) (code : HealthStatus_Code) : list health_event :=
  HCode code :: concat (replicate n [HNext; HSend]) ++ [HNext].

(** Every registered channel is that of a stream of its client that serves. *)
Definition all_serving (h : health) : Prop :=
  ∀ clientAddr n, Get clientAddr (healthNotifiers h) = Some n → checks h !! n = Some (clientAddr, Serving).

(** The messages that stream [n] sends to its client, and those of them that
    carry a code. *)
Definition sends_on (n : nat) (e : event Srv) : bool :=
  match projT1 e with SSendHealth m _ => (m =? n)%nat | _ => false end.
Definition announces_on (n : nat) (code : HealthStatus_Code) (e : event Srv) : bool :=
  match projT1 e with
  | SSendHealth m (Health_Status hs) => (m =? n)%nat && bool_decide (HealthCode hs = code)
  | _ => false
  end.

(** How often a stream is the one registered for one of these clients. *)
Definition times (n : nat) (h : health) (clients : list string) : Z :=
  count_if (λ a, bool_decide (Get a (healthNotifiers h) = Some n)) clients.

Lemma count_if_single {A} (f : A → bool) l x :
  NoDup l → x ∈ l → f x = true → (∀ y, y ∈ l → f y = true → y = x) → count_if f l = 1.
Proof.
  intros Hnd Hx Hf Hu. induction l as [|y l IH]; [by apply not_elem_of_nil in Hx|].
  apply list.NoDup_cons in Hnd as [Hy Hnd]. rewrite count_if_cons.
  destruct (f y) eqn:Hfy.
  - rewrite (Hu y) in Hy by (done || by left). replace (count_if f l) with 0; [done|]. symmetry.
    apply count_if_zero, list.Forall_forall. intros z Hz. apply not_true_is_false. intros Hfz.
    rewrite (Hu z) in Hz by (done || by right). done.
  - apply elem_of_cons in Hx as [->|Hx]; [congruence|]. rewrite IH; [done..|]. intros z Hz. apply Hu. by right.
Qed.

(** A registered stream is that of one client. *)
Lemma times_registered a n h :
  all_serving h → Get a (healthNotifiers h) = Some n → times n h (GetList (healthNotifiers h)) = 1.
Proof.
  intros Hs Ha. apply (count_if_single _ _ a); [apply GetList_NoDup|by apply elem_of_GetList|by apply bool_decide_eq_true_2|].
  intros b _ Hb%bool_decide_eq_true_1. apply Hs in Ha, Hb. congruence.
Qed.

Lemma times_other n h clients :
  (∀ a, Get a (healthNotifiers h) ≠ Some n) → times n h clients = 0.
Proof.
  intros Hn. apply count_if_zero, list.Forall_forall. intros a _. by apply bool_decide_eq_false_2.
Qed.

Lemma health_run_app s es1 es2 h w h1 w1 :
  health_run s es1 h w = (Ret h1, w1) → health_run s (es1 ++ es2) h w = health_run s es2 h1 w1.
Proof.
  revert h w. induction es1 as [|e es IH]; intros h w; cbn [health_run app]; [by intros [= -> ->]|].
  unfold mbind at 1, prog_bind at 1. destruct (health_turn s e h w) as [[h'|why|] w'] eqn:He; [|done|done].
  intros Hr. rewrite (bind_run _ _ _ _ _ He). by apply IH.
Qed.

(** Serving one client. *)
Lemma serve_one s code clientAddr rest h w :
  all_serving h → is_Some (Get clientAddr (healthNotifiers h)) →
  ∃ w' lg, health_run s [HNext; HSend] (set_watching (MWalk code (clientAddr :: rest)) h) w =
             (Ret (set_watching (MWalk code rest) h), w') ∧ log w' = log w ++ lg ∧
    ∀ n, count_if (announces_on n code) lg = b2z (bool_decide (Get clientAddr (healthNotifiers h) = Some n)) ∧
      count_if (sends_on n) lg = b2z (bool_decide (Get clientAddr (healthNotifiers h) = Some n)).
Proof.
  intros Hs [n Hn]. pose proof (Hs clientAddr n Hn) as Ha.
  assert (monitor_next (set_watching (MWalk code (clientAddr :: rest)) h) =
    set_watching (MSend code n rest) h) as Hnext.
  { unfold monitor_next. cbn [watching set_watching healthNotifiers]. rewrite Hn. by destruct h. }
  cbn [health_run health_turn]. rewrite Hnext, bind_ret_l. unfold monitor_send. cbn [watching set_watching checks].
  rewrite Ha. unfold MakeInternalHealthMsg. rewrite !bind_assoc.
  destruct (srv_call_returns SNow w) as (now & e1 & _ & Hc). rewrite (bind_run _ _ _ _ _ Hc), bind_ret_l.
  match goal with |- context [(((call ?c) ≫= _) ≫= _) ?w1] =>
    destruct (srv_call_returns c w1) as (r & e2 & _ & Hc2) end.
  rewrite bind_assoc, (bind_run _ _ _ _ _ Hc2), bind_ret_l. eexists _, _. split; [by destruct h|].
  cbn [log]. split; [by rewrite <- app_assoc|]. intros m. rewrite Hn. cbn [app]. rewrite !count_if_cons, !count_if_nil.
  cbn [announces_on sends_on projT1 status_of HealthCode]. rewrite (bool_decide_eq_true_2 (code = code)) by done.
  destruct (Nat.eqb_spec n m) as [->|Hne]; [by rewrite bool_decide_eq_true_2|].
  by rewrite bool_decide_eq_false_2 by congruence.
Qed.

Lemma serve_all s code clients h w :
  all_serving h → Forall (λ a, is_Some (Get a (healthNotifiers h))) clients →
  ∃ w' lg, health_run s (concat (replicate (length clients) [HNext; HSend])) (set_watching (MWalk code clients) h) w =
             (Ret (set_watching (MWalk code []) h), w') ∧ log w' = log w ++ lg ∧
    ∀ n, count_if (announces_on n code) lg = times n h clients ∧ count_if (sends_on n) lg = times n h clients.
Proof.
  intros Hs. revert w. induction clients as [|a clients IH]; intros w Hall.
  { exists w, []. by rewrite app_nil_r. }
  apply list.Forall_cons in Hall as [Ha Hall].
  destruct (serve_one s code a clients h w Hs Ha) as (w1 & lg1 & Hr1 & Hl1 & Hc1).
  destruct (IH w1 Hall) as (w2 & lg2 & Hr2 & Hl2 & Hc2).
  exists w2, (lg1 ++ lg2). cbn [length replicate concat]. rewrite (health_run_app _ _ _ _ _ _ _ Hr1).
  split; [exact Hr2|]. split; [by rewrite Hl2, Hl1, app_assoc|]. intros n. destruct (Hc1 n), (Hc2 n).
  unfold times in *. rewrite !count_if_app, count_if_cons. lia.
Qed.

(** A code is told to everybody who is registered, once. *)
Lemma announcement_run s code h w :
  all_serving h → watching h = MIdle →
  let clients := GetList (healthNotifiers h) in
  ∃ w' lg, health_run s (announcement (length clients) code) h w = (Ret h, w') ∧ log w' = log w ++ lg ∧
    ∀ n, count_if (announces_on n code) lg = times n h clients ∧ count_if (sends_on n) lg = times n h clients.
Proof.
  intros Hs Hw clients. unfold announcement.
  assert (Forall (λ a, is_Some (Get a (healthNotifiers h))) clients) as Hall.
  { apply list.Forall_forall. intros a. apply elem_of_GetList. }
  destruct (serve_all s code clients h w Hs Hall) as (w1 & lg & Hr & Hl & Hc).
  exists w1, lg. cbn [health_run health_turn]. rewrite Hw, bind_ret_l. fold clients.
  rewrite (health_run_app _ _ _ _ _ _ _ Hr). split; [|done].
  cbn [health_run health_turn]. rewrite bind_ret_l. unfold monitor_next. cbn [watching set_watching].
  destruct h as [ns cs m]. cbn in Hw. by subst m.
Qed.

(** C21: When the server is scaled out its clients are told, each of them once for
    every rise: whatever the watches of the autoscalers bring, every stream
    that is registered for a client sends that client as many requests to go
    elsewhere as the number of replicas of the server has risen from a positive
    number, seen from the first number the monitor hears of, and nothing else;
    no other stream sends anything; and afterwards the health service is as it
    was. A rise from zero, and the first number, are not announced, and what
    comes after an event that carries no autoscaler is not heard. The steps are
    those of the monitor of the health channel while all registered streams
    serve. *)
Theorem scale_out_announced s h w ns config name (watches : list (option (list watch_event))) :
  all_serving h → watching h = MIdle → ns ≠ "" → config ≠ ConfigFailed →
  let codes := MonitorHPA (Some ns) "" config true true watches name in
  let clients := GetList (healthNotifiers h) in
  let risen := Z.of_nat (rises (-1) (counts name (heard watches))) in
  ∃ w' lg, health_run s (concat (map (announcement (length clients)) codes)) h w = (Ret h, w') ∧
    log w' = log w ++ lg ∧
    (∀ clientAddr n, Get clientAddr (healthNotifiers h) = Some n →
       count_if (announces_on n HealthStatus_GOAWAY) lg = risen ∧ count_if (sends_on n) lg = risen) ∧
    (∀ n, (∀ clientAddr, Get clientAddr (healthNotifiers h) ≠ Some n) → count_if (sends_on n) lg = 0).
Proof.
  intros Hs Hw Hns Hc. cbv zeta. rewrite (scale_out_signals ns config name watches Hns Hc).
  generalize (rises (-1) (counts name (heard watches))). intros k.
  assert (∃ w' lg, health_run s (concat (map (announcement (length (GetList (healthNotifiers h))))
      (replicate k HealthStatus_GOAWAY))) h w = (Ret h, w') ∧ log w' = log w ++ lg ∧
    ∀ n, count_if (announces_on n HealthStatus_GOAWAY) lg = Z.of_nat k * times n h (GetList (healthNotifiers h)) ∧
         count_if (sends_on n) lg = Z.of_nat k * times n h (GetList (healthNotifiers h))) as (w' & lg & Hr & Hl & Hn).
  { revert w. induction k as [|k IH]; intros w; [exists w, []; by rewrite app_nil_r|].
    destruct (announcement_run s HealthStatus_GOAWAY h w Hs Hw) as (w1 & lg1 & Hr1 & Hl1 & Hc1).
    destruct (IH w1) as (w2 & lg2 & Hr2 & Hl2 & Hc2).
    exists w2, (lg1 ++ lg2). cbn [replicate map concat]. rewrite (health_run_app _ _ _ _ _ _ _ Hr1).
    split; [exact Hr2|]. split; [by rewrite Hl2, Hl1, app_assoc|]. intros n. destruct (Hc1 n), (Hc2 n).
    rewrite !count_if_app. lia. }
  exists w', lg. split; [exact Hr|]. split; [exact Hl|]. split.
  - intros a n Ha. destruct (Hn n) as [-> ->]. rewrite (times_registered a n h Hs Ha). lia.
  - intros n Hno. destruct (Hn n) as [_ ->]. rewrite (times_other n h _ Hno). lia.
Qed.
End announce.

(** One client with a health stream, and a scale-out. *)
Definition one_client : health := {|
  healthNotifiers := {[ "10.0.0.7:4711" := 0%nat ]}; checks := [("10.0.0.7:4711", Serving)]; watching := MIdle |}.

Lemma scale_out_announced_witness (O := ok_srv) (MR := default_range) :
  ∃ w' lg, health_run Metrics.initial
      (concat (map (announcement 1) (MonitorHPA (Some "prod") "" InCluster true true (Some <$> demo_batches) "arke")))
      one_client (demo_world ∅) = (Ret one_client, w') ∧
    log w' = [] ++ lg ∧ count_if (announces_on 0 HealthStatus_GOAWAY) lg = 1 ∧ count_if (sends_on 0) lg = 1.
Proof.
  assert (all_serving one_client) as H1.
  { intros a n Hn. cbn in Hn. by apply lookup_singleton_Some in Hn as [<- <-]. }
  destruct (scale_out_announced (R := ok_srv_returns) Metrics.initial one_client (demo_world ∅) "prod" InCluster
    "arke" (Some <$> demo_batches) H1 eq_refl ltac:(discriminate) ltac:(discriminate)) as (w' & lg & Hr & Hl & Hc & _).
  exists w', lg. split; [exact Hr|]. split; [exact Hl|]. exact (Hc "10.0.0.7:4711" 0%nat eq_refl).
Defined.

End Announce.
