(* ===== verification/ProcessMonitor.v ===== *)
(** * [internal/util/processMonitor_linux.go], [processMonitor_darwin.go]: measuring the process

    Every five seconds the memory of the process and the time it has used are
    put into the ring buffers of [Health.Metrics], after the limits of
    [Limits.Cgroups] have been read. The ticks of the clock, with what the
    runtime and the operating system say at each, are a list. A time is in
    nanoseconds since the zero time of the language. *)

From Stdlib Require Import Ascii String.
From stdpp Require Import base gmap strings list fin_maps option.
From Stdlib Require Import ZArith Lia SpecFloat.
From S2P Require Import Prelude Effects GoStrings Api ConcurrentMap ClientIds Provider Server Health BrokerStats Limits.

Module ProcessMonitor.
Import SafeBuffer Metrics Cgroups.
Open Scope Z_scope.
Open Scope list_scope.

Record cpuProcStat := { utime : Z; stime : Z; gatherTime : Z }.

(** [&cpuProcStat{}] *)
Definition no_stat : cpuProcStat := {| utime := 0; stime := 0; gatherTime := 0 |}.

(** [rusage] is the user and the system time in nanoseconds, unless the call
    fails. *)
Record tick := { tick_time : Z; memSys : Z; rusage : option (Z * Z) }.

Definition Millisecond : Z := 1000000.

(** Hundredths of a second; a time that is not known is zero. *)
Definition gather (t : tick) : cpuProcStat :=
  let hundredths ns := Z.quot (Z.quot ns Millisecond) 10 in
  {| utime := match rusage t with Some (u, _) => hundredths u | None => 0 end;
     stime := match rusage t with Some (_, s) => hundredths s | None => 0 end;
     gatherTime := tick_time t |}.

Section monitor.
Context `{HostFloat}.

Definition mul64 : spec_float → spec_float → spec_float := SFmul 53 1024.

(** Thousandths of a processor, between two measurements. *)
Definition millicoreUsage (lastProcStat ps : cpuProcStat) : Z :=
  let currTotalTime := int64 (utime ps + stime ps) in
  let oldTotalTime := int64 (utime lastProcStat + stime lastProcStat) in
  let totalTime := int64 (currTotalTime - oldTotalTime) in
  let seconds := Seconds (time_sub (gatherTime ps) (gatherTime lastProcStat)) in
  let cpuUsageAsADecimal := div64 (div64 (float64_of totalTime) (float64_of 100)) seconds in
  to_int64 (mul64 cpuUsageAsADecimal (float64_of 1000)).

(** One iteration of the loop. *)
Definition measure (s : metrics * cpuProcStat) (t : tick) : metrics * cpuProcStat :=
  let '(m, lastProcStat) := s in
  let ps := gather t in
  (addCPUHistory (millicoreUsage lastProcStat ps) (addMemoryHistory (memSys t) m), ps).

Definition MonitorProcessStats (ReadFile : string → option string) (NumCPU : Z) (h : host) (ticks : list tick) : host :=
  let h := readCgroupLimits ReadFile NumCPU h in
  {| sync_done := sync_done h; vars := (foldl measure (vars h, no_stat) ticks).1 |}.

(** On macOS ([processMonitor_darwin.go]) the limit is the number of processors,
    and there is none for the memory. *)
Definition MonitorProcessStats_darwin (NumCPU : Z) (m : metrics) (ticks : list tick) : metrics :=
  (foldl measure (setCPUMillicoreLimit (int64 (NumCPU * 1000)) m, no_stat) ticks).1.

(** ** What is measured *)

(** The usages of the ticks, one after the other. *)
Fixpoint usages (lastProcStat : cpuProcStat) (ticks : list tick) : list Z :=
  match ticks with
  | [] => []
  | t :: ticks => millicoreUsage lastProcStat (gather t) :: usages (gather t) ticks
  end.

Lemma usages_app l ts t ts' :
  usages l (ts ++ t :: ts') = usages l ts ++ millicoreUsage (List.last (gather <$> ts) l) (gather t) :: usages (gather t) ts'.
Proof.
  revert l. induction ts as [|u ts IH]; intros l; [done|].
  cbn [app usages fmap list_fmap]. by rewrite IH, last_cons_default.
Qed.

Lemma usages_length l ts : length (usages l ts) = length ts.
Proof. revert l. induction ts as [|t ts IH]; intros l; [done|]. cbn. by rewrite IH. Qed.

Lemma measured m l ts :
  let m' := (foldl measure (m, l) ts).1 in
  cpuMillicoreHistory m' = foldl (λ sr v, Add v sr) (cpuMillicoreHistory m) (usages l ts) ∧
  memHistory m' = foldl (λ sr v, Add v sr) (memHistory m) (memSys <$> ts) ∧
  maxMemory m' = maxMemory m ∧ cpuMillicoreLimit m' = cpuMillicoreLimit m.
Proof. revert m l. induction ts as [|t ts IH]; intros m l; [done|]. cbn [foldl]. apply IH. Qed.

(** So there the memory that is available is never known, and the process is
    unhealthy by its processor time alone. *)
Lemma darwin_memory NumCPU ts : memoryAvailability (MonitorProcessStats_darwin NumCPU initial ts) = unknown.
Proof.
  unfold MonitorProcessStats_darwin, memoryAvailability.
  destruct (measured (setCPUMillicoreLimit (int64 (NumCPU * 1000)) initial) no_stat ts) as (_ & _ & -> & _).
  by destruct (length _ =? 0)%nat.
Qed.

(** Reading the limits leaves the measurements alone. *)
Lemma limits_keep_history ReadFile NumCPU h :
  cpuMillicoreHistory (vars (readCgroupLimits ReadFile NumCPU h)) = cpuMillicoreHistory (vars h) ∧
  memHistory (vars (readCgroupLimits ReadFile NumCPU h)) = memHistory (vars h).
Proof.
  unfold readCgroupLimits. destruct (sync_done h); [done|]. cbn [vars]. unfold read_cpu, read_memory.
  repeat match goal with |- context [match ?x with _ => _ end] => destruct x end; done.
Qed.

Abbreviation history := (historySeconds / historyIntervalSeconds)%nat.

(** The buffers are the windows of the last minute. *)
Lemma measured_window ReadFile NumCPU b ts :
  let m := vars (MonitorProcessStats ReadFile NumCPU {| sync_done := b; vars := initial |} ts) in
  GetData (cpuMillicoreHistory m) = drop (length ts - history) (usages no_stat ts) ∧
  GetData (memHistory m) = drop (length ts - history) (memSys <$> ts).
Proof.
  intros m. subst m. unfold MonitorProcessStats. cbv zeta. cbn [vars].
  destruct (measured (vars (readCgroupLimits ReadFile NumCPU {| sync_done := b; vars := initial |})) no_stat ts)
    as (-> & -> & _).
  destruct (limits_keep_history ReadFile NumCPU {| sync_done := b; vars := initial |}) as [-> ->].
  cbn [vars initial cpuMillicoreHistory memHistory]. unfold GetData.
  change (NewSafeBuffer history) with (NewSafeBuffer (A := Z) 12). rewrite !adds_spec, !omap_id_app.
  by rewrite usages_length, length_fmap.
Qed.

(** Behind a first measurement, a full minute is all there is in the buffers. *)
Lemma last_minute ReadFile NumCPU b before t recent :
  length recent = history →
  let h := {| sync_done := b; vars := initial |} in
  let m := vars (MonitorProcessStats ReadFile NumCPU h (before ++ t :: recent)) in
  GetData (cpuMillicoreHistory m) = usages (gather t) recent ∧ GetData (memHistory m) = memSys <$> recent ∧
  maxMemory m = maxMemory (vars (readCgroupLimits ReadFile NumCPU h)) ∧
  cpuMillicoreLimit m = cpuMillicoreLimit (vars (readCgroupLimits ReadFile NumCPU h)).
Proof.
  intros Hlen h m. destruct (measured_window ReadFile NumCPU b (before ++ t :: recent)) as [Hc Hm].
  destruct (measured (vars (readCgroupLimits ReadFile NumCPU h)) no_stat (before ++ t :: recent))
    as (_ & _ & Hmax & Hlim).
  subst m h. rewrite Hc, Hm, length_app. cbn [length]. rewrite Hlen.
  replace (length before + S history - history)%nat with (length before + 1)%nat by lia.
  rewrite usages_app, fmap_app. cbn [fmap list_fmap].
  rewrite (cons_middle _ (usages no_stat before)), (cons_middle _ (memSys <$> before)), !app_assoc.
  split_and!; [apply drop_app_length'..|done|done]; rewrite length_app; [rewrite usages_length|rewrite length_fmap]; done.
Qed.

(** C37: The health of the process is that of the last minute: whatever happened
    before, the availability that is reported after a time depends on nothing
    but the limits, the last twelve measurements and the one before them, which
    the first of them is the difference to. *)
Theorem health_of_last_minute ReadFile NumCPU b before before' recent :
  length recent = S history →
  let report ticks :=
    GetProcessStats (vars (MonitorProcessStats ReadFile NumCPU {| sync_done := b; vars := initial |} ticks)) in
  report (before ++ recent) = report (before' ++ recent).
Proof.
  intros Hlen report. destruct recent as [|t recent]; [done|]. injection Hlen as Hlen.
  destruct (last_minute ReadFile NumCPU b before t recent Hlen) as (Hc & Hm & Hmax & Hlim).
  destruct (last_minute ReadFile NumCPU b before' t recent Hlen) as (Hc' & Hm' & Hmax' & Hlim').
  unfold report, GetProcessStats, cpuAvailability, memoryAvailability.
  by rewrite Hc, Hm, Hc', Hm', Hmax, Hlim, Hmax', Hlim'.
Qed.

End monitor.

(** ** What goes wrong *)

(** Numbers are not read, and what does not fit is the smallest integer. *)
Definition no_float : HostFloat := {| ParseFloat := λ _, None; int_oob := λ _, - 2 ^ 63 |}.

(** [n] ticks, five seconds and [cpu] nanoseconds of a process apart, from the
    [i]th second of the year 2026 on. *)
Definition year : Z := 63902908800 * 1000000000.
Definition at_second (i : Z) (cpu : option Z) : tick :=
  {| tick_time := year + i * 1000000000; memSys := 0; rusage := (λ ns, (ns, 0)) <$> cpu |}.

(** The first measurement is the difference to the zero time, which saturates:
    five seconds of a whole processor count as nothing, and the next five as what
    they are. *)
Lemma first_unmeasured (HF := no_float) :
  usages no_stat [at_second 5 (Some 5000000000); at_second 10 (Some 10000000000)] = [0; 1000].
Proof. by vm_compute. Qed.

(** When the usage cannot be read once, the process gives back at that tick all
    the time it has used, and takes it again at the next: of an idle process that
    has used an hour, a window that begins in between says that it uses sixty
    processors. *)
Lemma failure_counts_everything (HF := no_float) :
  usages no_stat [at_second 5 (Some 3600000000000); at_second 10 None; at_second 15 (Some 3600000000000);
                  at_second 20 (Some 3600000000000)] = [0; -720000; 720000; 0].
Proof. by vm_compute. Qed.

Lemma failure_unhealthy (HF := no_float) :
  let ticks := at_second 10 None :: ((λ i, at_second (15 + 5 * Z.of_nat i) (Some 3600000000000)) <$> seq 0 12) in
  IsUnhealthyUsage (GetProcessStats (setCPUMillicoreLimit 4000
    (vars (MonitorProcessStats (λ _, None) 4 {| sync_done := true; vars := initial |} ticks)))) = true.
Proof. by vm_compute. Qed.

(** ** Witness *)

(** An idle minute, after a busy one or after nothing. *)
Lemma health_of_last_minute_witness (HF := no_float) :
  let idle := (λ i, at_second (65 + 5 * Z.of_nat i) (Some 240000000000)) <$> seq 0 13 in
  let busy := (λ i, at_second (5 + 5 * Z.of_nat i) (Some (20000000000 * Z.of_nat (S i)))) <$> seq 0 12 in
  let report ticks :=
    GetProcessStats (vars (MonitorProcessStats (λ _, None) 4 {| sync_done := false; vars := initial |} ticks)) in
  report (busy ++ idle) = report ([] ++ idle).
Proof.
  exact (health_of_last_minute (λ _, None) 4 false
    ((λ i, at_second (5 + 5 * Z.of_nat i) (Some (20000000000 * Z.of_nat (S i)))) <$> seq 0 12) []
    ((λ i, at_second (65 + 5 * Z.of_nat i) (Some 240000000000)) <$> seq 0 13) eq_refl).
Defined.

End ProcessMonitor.
