(* ===== verification/LoadClient.v ===== *)
(** * [tools/anarkey/types.go]: the load client

    The data of the terminal client that puts a server under load: its
    configuration, its counters, the template of the messages, and the objects
    its goroutines share. The server, the files and the clock are asked through
    [Arke]; what JSON decodes to is the class [LoadJson]. *)

From Stdlib Require Import Ascii String.
From stdpp Require Import base gmap strings list fin_maps option.
From Stdlib Require Import ZArith Lia SpecFloat.
From S2P Require Import Prelude Effects GoStrings Api Health.

Module LoadClient.
Open Scope Z_scope.
Open Scope list_scope.

(** ** Configuration *)

Record Config := mkConfig {
  ArkeHost : string;
  ArkePort : Z;
  ArkeTLS : bool;
  BrokerHost : string;
  BrokerPort : Z;
  BrokerUsername : string;
  BrokerPassword : string;
  BrokerTLS : bool;
  BrokerProvider : string;
  BrokerTenant : string;
  NumPublisherConnections : Z;
  NumConsumerConnections : Z
}.

Inductive ConnectionType := ConnectionTypePublisher | ConnectionTypeConsumer.

#[export] Instance ConnectionType_eq_dec : EqDecision ConnectionType.
Proof. solve_decision. Defined.

Record StreamConfig := mkStreamConfig {
  NumPublisherStreams : Z;
  NumConsumerStreams : Z;
  sc_SourceType : Source_TargetType;
  sc_SourceName : string;
  sc_AddressName : string;
  Subject : string;
  sc_MessageCount : Z;
  IsContinuous : bool;
  PublishRateLimit : Z;
  MessageFile : string
}.

Definition set_ArkeHost (v : string) (c : Config) : Config :=
  let 'mkConfig _ b c d e f g h i j k l := c in mkConfig v b c d e f g h i j k l.
Definition set_ArkePort (v : Z) (c : Config) : Config :=
  let 'mkConfig a _ c d e f g h i j k l := c in mkConfig a v c d e f g h i j k l.
Definition set_ArkeTLS (v : bool) (c : Config) : Config :=
  let 'mkConfig a b _ d e f g h i j k l := c in mkConfig a b v d e f g h i j k l.
Definition set_BrokerHost (v : string) (c : Config) : Config :=
  let 'mkConfig a b c _ e f g h i j k l := c in mkConfig a b c v e f g h i j k l.
Definition set_BrokerPort (v : Z) (c : Config) : Config :=
  let 'mkConfig a b c d _ f g h i j k l := c in mkConfig a b c d v f g h i j k l.
Definition set_BrokerUsername (v : string) (c : Config) : Config :=
  let 'mkConfig a b c d e _ g h i j k l := c in mkConfig a b c d e v g h i j k l.
Definition set_BrokerPassword (v : string) (c : Config) : Config :=
  let 'mkConfig a b c d e f _ h i j k l := c in mkConfig a b c d e f v h i j k l.
Definition set_BrokerTLS (v : bool) (c : Config) : Config :=
  let 'mkConfig a b c d e f g _ i j k l := c in mkConfig a b c d e f g v i j k l.
Definition set_BrokerTenant (v : string) (c : Config) : Config :=
  let 'mkConfig a b c d e f g h i _ k l := c in mkConfig a b c d e f g h i v k l.
Definition set_NumPublisherConnections (v : Z) (c : Config) : Config :=
  let 'mkConfig a b c d e f g h i j _ l := c in mkConfig a b c d e f g h i j v l.
Definition set_NumConsumerConnections (v : Z) (c : Config) : Config :=
  let 'mkConfig a b c d e f g h i j k _ := c in mkConfig a b c d e f g h i j k v.

Definition set_NumPublisherStreams (v : Z) (c : StreamConfig) : StreamConfig :=
  let 'mkStreamConfig _ b c d e f g h i j := c in mkStreamConfig v b c d e f g h i j.
Definition set_NumConsumerStreams (v : Z) (c : StreamConfig) : StreamConfig :=
  let 'mkStreamConfig a _ c d e f g h i j := c in mkStreamConfig a v c d e f g h i j.
Definition set_PublishRateLimit (v : Z) (c : StreamConfig) : StreamConfig :=
  let 'mkStreamConfig a b c d e f g h _ j := c in mkStreamConfig a b c d e f g h v j.

(** ** The template of the messages *)

Record MessageTemplate := {
  template_Headers : gmap string string;
  template_Body : string;
  hasUUIDPlaceholder : bool;
  bodyParts : option (list string);
  headerParts : gmap string (list string);
  headersWithUUID : list string
}.

(** ** The objects

    A pointer to a connection, a publisher or a consumer is its address in the
    maps of [load]. A context is whether it is cancelled; that of a publisher is
    derived from its connection's, and that from the client's. *)

Record Publisher := mkPublisher {
  pub_ID : Z;
  pub_conn : nat;
  pub_config : StreamConfig;
  pub_stream : bool;
  pub_cancelled : bool;
  pub_stopped : bool;
  pub_completed : bool;
  pub_messageCount : Z;
  pub_messageTemplate : option MessageTemplate
}.

Record Consumer := mkConsumer {
  cons_ID : Z;
  cons_conn : nat;
  cons_config : StreamConfig;
  cons_stream : bool;
  cons_cancelled : bool;
  cons_stopped : bool
}.

Record Connection := mkConnection {
  conn_ID : Z;
  conn_Type : ConnectionType;
  conn_publishers : list nat;
  conn_consumers : list nat;
  conn_cancelled : bool
}.

Definition set_pub_stream (v : bool) (p : Publisher) : Publisher :=
  let 'mkPublisher a b c _ e f g h i := p in mkPublisher a b c v e f g h i.
Definition set_pub_cancelled (v : bool) (p : Publisher) : Publisher :=
  let 'mkPublisher a b c d _ f g h i := p in mkPublisher a b c d v f g h i.
Definition set_pub_stopped (v : bool) (p : Publisher) : Publisher :=
  let 'mkPublisher a b c d e _ g h i := p in mkPublisher a b c d e v g h i.
Definition set_pub_completed (v : bool) (p : Publisher) : Publisher :=
  let 'mkPublisher a b c d e f _ h i := p in mkPublisher a b c d e f v h i.
Definition set_pub_messageCount (v : Z) (p : Publisher) : Publisher :=
  let 'mkPublisher a b c d e f g _ i := p in mkPublisher a b c d e f g v i.
Definition set_pub_messageTemplate (v : option MessageTemplate) (p : Publisher) : Publisher :=
  let 'mkPublisher a b c d e f g h _ := p in mkPublisher a b c d e f g h v.

Definition set_cons_stream (v : bool) (c : Consumer) : Consumer :=
  let 'mkConsumer a b c _ e f := c in mkConsumer a b c v e f.
Definition set_cons_cancelled (v : bool) (c : Consumer) : Consumer :=
  let 'mkConsumer a b c d _ f := c in mkConsumer a b c d v f.
Definition set_cons_stopped (v : bool) (c : Consumer) : Consumer :=
  let 'mkConsumer a b c d e _ := c in mkConsumer a b c d e v.

Definition set_conn_publishers (v : list nat) (c : Connection) : Connection :=
  let 'mkConnection a b _ d e := c in mkConnection a b v d e.
Definition set_conn_consumers (v : list nat) (c : Connection) : Connection :=
  let 'mkConnection a b c _ e := c in mkConnection a b c v e.
Definition set_conn_cancelled (v : bool) (c : Connection) : Connection :=
  let 'mkConnection a b c d _ := c in mkConnection a b c d v.

Record Metrics := mkMetrics {
  PublishedCount : Z;
  ConsumedCount : Z;
  met_PublishRate : spec_float;
  met_ConsumeRate : spec_float;
  lastPublished : Z;
  lastConsumed : Z;
  lastUpdate : Z
}.

(** The goroutines that were started, oldest first. *)
Inductive goroutine := GPublish (p : nat) | GConsume (c : nat).

(** [manager] is the list of a [ConnectionManager]; its other fields point to
    [config] and [metrics]. *)
Record load := mkLoad {
  config : Config;
  metrics : Metrics;
  manager : option (list nat);
  connections : gmap nat Connection;
  publishers : gmap nat Publisher;
  consumers : gmap nat Consumer;
  next : nat;
  goroutines : list goroutine;
  cancelled : bool
}.

Definition set_config (v : Config) (l : load) : load :=
  let 'mkLoad _ b c d e f g h i := l in mkLoad v b c d e f g h i.
Definition set_metrics (v : Metrics) (l : load) : load :=
  let 'mkLoad a _ c d e f g h i := l in mkLoad a v c d e f g h i.
Definition set_manager (v : option (list nat)) (l : load) : load :=
  let 'mkLoad a b _ d e f g h i := l in mkLoad a b v d e f g h i.
Definition set_connections (v : gmap nat Connection) (l : load) : load :=
  let 'mkLoad a b c _ e f g h i := l in mkLoad a b c v e f g h i.
Definition set_publishers (v : gmap nat Publisher) (l : load) : load :=
  let 'mkLoad a b c d _ f g h i := l in mkLoad a b c d v f g h i.
Definition set_consumers (v : gmap nat Consumer) (l : load) : load :=
  let 'mkLoad a b c d e _ g h i := l in mkLoad a b c d e v g h i.
Definition set_next (v : nat) (l : load) : load :=
  let 'mkLoad a b c d e f _ h i := l in mkLoad a b c d e f v h i.
Definition set_goroutines (v : list goroutine) (l : load) : load :=
  let 'mkLoad a b c d e f g _ i := l in mkLoad a b c d e f g v i.
Definition set_cancelled (v : bool) (l : load) : load :=
  let 'mkLoad a b c d e f g h _ := l in mkLoad a b c d e f g h v.

(** ** The outside *)

(** The stream a publisher publishes on, the one it declares its source with,
    and the one of a consumer. *)
Inductive stream_id := SPublish (p : nat) | SDeclare (p : nat) | SConsume (c : nat).

Inductive arke_call :=
  | LReadFile (path : string)
  | LWriteFile (path data : string)
  | LNewUUID
  | LNow
  | LGrpcClient (address : string) (tls : bool)
  | LGrpcClose (c : nat)
  | LConnect (t : ConnectionType) (c : nat) (cfg : ConnectionConfiguration)
  | LDisconnect (t : ConnectionType) (c : nat)
  | LOpen (s : stream_id)
  | LSendMessage (p : nat) (m : Message)
  | LRecvResponse (p : nat)
  | LPublishOne (p : nat) (m : Message)
  | LSendConsume (s : stream_id) (m : Consume)
  | LRecvConsume (s : stream_id)
  | LCloseSend (s : stream_id).

(** A reply or an error. *)
Definition arke_reply (c : arke_call) : Type :=
  match c with
  | LReadFile _ => string + string
  | LWriteFile _ _ | LGrpcClient _ _ | LOpen _ | LSendMessage _ _ | LSendConsume _ _ => error
  | LNewUUID => string
  | LNow => Z
  | LConnect _ _ _ => ConnectResponse + string
  | LRecvResponse _ | LPublishOne _ _ => MessageResponse + string
  | LRecvConsume _ => ConsumeResponse + string
  | LGrpcClose _ | LDisconnect _ _ | LCloseSend _ => ()
  end.

Definition Arke : Interface := {| icall := arke_call; ireply := arke_reply |}.

(** [encoding/json] on the types of the client. *)
Class LoadJson := {
  UnmarshalTemplate : string → gmap string string * string + string;
  UnmarshalSaved : string → option Config * option StreamConfig + string;
  MarshalSaved : Config → StreamConfig → string
}.

Section client.
Context {E : Type} `{Oracle Arke E}.

Abbreviation lprog := (prog (world Arke E load)).

Definition call (c : arke_call) : lprog (arke_reply c) := ext (I := Arke) c.

(** Reading through a pointer. *)
Definition deref {A} (f : load → gmap nat A) (a : nat) : lprog A :=
  o ← reads (λ l, f l !! a);
  match o with Some x => mret x | None => panic "invalid memory address or nil pointer dereference" end.

Definition get_pub (p : nat) : lprog Publisher := deref publishers p.
Definition get_cons (c : nat) : lprog Consumer := deref consumers c.
Definition get_conn (c : nat) : lprog Connection := deref connections c.

Definition upd_pub (p : nat) (f : Publisher → Publisher) : lprog () :=
  writes (λ l, set_publishers (alter f p (publishers l)) l).
Definition upd_cons (c : nat) (f : Consumer → Consumer) : lprog () :=
  writes (λ l, set_consumers (alter f c (consumers l)) l).
Definition upd_conn (c : nat) (f : Connection → Connection) : lprog () :=
  writes (λ l, set_connections (alter f c (connections l)) l).

(** [&T{...}] *)
Definition alloc (put : nat → load → load) : lprog nat :=
  a ← reads next; writes (λ l, set_next (S a) (put a l));; mret a.

Definition spawn (g : goroutine) : lprog () := writes (λ l, set_goroutines (goroutines l ++ [g]) l).

(** ** Counters *)

Definition IncrementPublished : lprog () :=
  writes (λ l, let 'mkMetrics a b c d e f g := metrics l in
               set_metrics (mkMetrics (int64 (a + 1)) b c d e f g) l).
Definition IncrementConsumed : lprog () :=
  writes (λ l, let 'mkMetrics a b c d e f g := metrics l in
               set_metrics (mkMetrics a (int64 (b + 1)) c d e f g) l).

Definition GetStats (m : Metrics) : Z * Z * spec_float * spec_float :=
  (PublishedCount m, ConsumedCount m, met_PublishRate m, met_ConsumeRate m).

Definition updated (now : Z) (m : Metrics) : Metrics :=
  let elapsed := Metrics.Seconds (Metrics.time_sub now (lastUpdate m)) in
  if SFeqb elapsed Metrics.zero then m
  else
    let publishedDiff := int64 (PublishedCount m - lastPublished m) in
    let consumedDiff := int64 (ConsumedCount m - lastConsumed m) in
    mkMetrics (PublishedCount m) (ConsumedCount m)
      (Metrics.div64 (Metrics.float64_of publishedDiff) elapsed)
      (Metrics.div64 (Metrics.float64_of consumedDiff) elapsed)
      (PublishedCount m) (ConsumedCount m) now.

Definition Update : lprog () :=
  now ← call LNow; writes (λ l, set_metrics (updated now (metrics l)) l).

(** ** Files *)

Section json.
Context `{LoadJson} `{MapRange}.

Definition SaveConfig (filename : string) (c : Config) (sc : StreamConfig) : lprog error :=
  err ← call (LWriteFile filename (MarshalSaved c sc));
  match (err : error) with
  | Some e => mret (Some ("failed to write config file: " +:+ e))
  | None => mret None
  end.

Definition LoadConfig (filename : string) : lprog (option Config * option StreamConfig + string) :=
  r ← call (LReadFile filename);
  match (r : string + string) with
  | inr e => mret (inr ("failed to read config file: " +:+ e))
  | inl data =>
      match UnmarshalSaved data with
      | inl saved => mret (inl saved)
      | inr e => mret (inr ("failed to parse config JSON: " +:+ e))
      end
  end.

Definition placeholder : string := "@id@".

(** The template is parsed once. *)
Definition parse_template (headers : gmap string string) (body : string) : MessageTemplate :=
  let marked := filter (λ kv : string * string, contains placeholder kv.2 = true) headers in
  {| template_Headers := headers; template_Body := body;
     hasUUIDPlaceholder := contains placeholder body || negb (bool_decide (marked = ∅));
     bodyParts := if contains placeholder body then Some (split placeholder body) else None;
     headerParts := split placeholder <$> marked;
     headersWithUUID := (map_range marked).*1 |}.

Definition LoadMessageFromFile (filePath : string) : lprog (MessageTemplate + string) :=
  r ← call (LReadFile filePath);
  match (r : string + string) with
  | inr e => mret (inr ("failed to read message file: " +:+ e))
  | inl data =>
      match UnmarshalTemplate data with
      | inl (headers, body) => mret (inl (parse_template headers body))
      | inr e => mret (inr ("failed to parse message JSON: " +:+ e))
      end
  end.

End json.

(** The parts put together around [id]. *)
Definition assembled (mt : MessageTemplate) (id : string) : string * gmap string string :=
  (match bodyParts mt with Some parts => join id parts | None => template_Body mt end,
   map_imap (λ key value, Some (match headerParts mt !! key with
                                | Some parts => join id parts
                                | None => value
                                end)) (template_Headers mt)).

Definition GetBodyAndHeaders (mt : MessageTemplate) : lprog (string * gmap string string) :=
  if negb (hasUUIDPlaceholder mt) then mret (template_Body mt, template_Headers mt)
  else id ← call LNewUUID; mret (assembled mt id).

(** ** Contexts *)

Definition conn_done (c : nat) : lprog bool :=
  conn ← get_conn c; root ← reads cancelled; mret (conn_cancelled conn || root).
Definition pub_done (p : nat) : lprog bool :=
  pub ← get_pub p; up ← conn_done (pub_conn pub); mret (pub_cancelled pub || up).

(** ** Lemmas *)

Definition lev (c : arke_call) (o : outcome (arke_reply c)) : event Arke := existT (P := λ c, outcome (ireply Arke c)) c o.

Lemma lcall_run c (w : world Arke E load) :
  call c w = (fst (answer (I := Arke) c (env w)),
              {| st := st w; env := snd (answer (I := Arke) c (env w));
                 log := log w ++ [lev c (fst (answer (I := Arke) c (env w)))] |}).
Proof. unfold call, ext. by destruct (answer _ _). Qed.

Lemma lcall_answers c (w : world Arke E load) r e :
  answer (I := Arke) c (env w) = (Ret r, e) →
  call c w = (Ret r, {| st := st w; env := e; log := log w ++ [lev c (Ret r)] |}).
Proof. intros Ha. by rewrite lcall_run, Ha. Qed.

Lemma deref_run {A} (f : load → gmap nat A) a x w : f (st w) !! a = Some x → deref f a w = (Ret x, w).
Proof. intros Hx. unfold deref. rewrite reads_bind. by rewrite Hx. Qed.

Lemma deref_inv {A} (f : load → gmap nat A) a w :
  deref f a w = (Panic "invalid memory address or nil pointer dereference", w) ∨
  ∃ x, f (st w) !! a = Some x ∧ deref f a w = (Ret x, w).
Proof.
  destruct (f (st w) !! a) as [x|] eqn:Hx; [right; exists x; split; [done|by apply deref_run]|left].
  unfold deref. rewrite reads_bind. by rewrite Hx.
Qed.

(** Whether a publisher's context is cancelled is only looked up. *)
Lemma pub_done_quiet p (w : world Arke E load) : ∃ o, pub_done p w = (o, w).
Proof.
  unfold pub_done, conn_done, get_pub, get_conn.
  destruct (deref_inv publishers p w) as [Hp|(pub & _ & Hp)]; [rewrite (bind_stuck _ _ _ _ _ Hp); by eexists|].
  rewrite (bind_run _ _ _ _ _ Hp), bind_assoc.
  destruct (deref_inv connections (pub_conn pub) w) as [Hc|(conn & _ & Hc)];
    [rewrite (bind_stuck _ _ _ _ _ Hc)|rewrite (bind_run _ _ _ _ _ Hc)]; by eexists.
Qed.

Lemma pub_done_run p pub conn w :
  publishers (st w) !! p = Some pub → connections (st w) !! pub_conn pub = Some conn →
  pub_done p w = (Ret (pub_cancelled pub || (conn_cancelled conn || cancelled (st w))), w).
Proof.
  intros Hp Hc. unfold pub_done, conn_done, get_pub, get_conn.
  rewrite (bind_run _ _ _ _ _ (deref_run publishers p pub w Hp)), bind_assoc.
  by rewrite (bind_run _ _ _ _ _ (deref_run connections _ conn w Hc)).
Qed.

End client.

(** One call, when [H] says how it is answered. *)
Ltac answered H :=
  match type of H with
  | answer ?c ?e = _ =>
      match goal with
      | |- context [mbind _ _ ?w] =>
          unify e (env w); unfold mbind at 1, prog_bind at 1; rewrite (lcall_answers c w _ _ H)
      end
  end; cbn [st env log].

(** ** The template *)

(** A template that was parsed once and put together around an identifier is
    the text with every placeholder replaced, in the body and in each header,
    whatever the text: splitting ahead of time changes nothing, and the same
    identifier goes everywhere. Without a placeholder the text is left as it is. *)
Theorem template_replaces `{MapRange} headers body id :
  let mt := parse_template headers body in
  let replaced := (replace_all body placeholder id, (λ v, replace_all v placeholder id) <$> headers) in
  assembled mt id = replaced ∧ (hasUUIDPlaceholder mt = false → (body, headers) = replaced).
Proof.
  intros mt replaced. subst mt replaced. unfold assembled, parse_template.
  cbn [bodyParts template_Body headerParts template_Headers hasUUIDPlaceholder]. set (q := λ kv : string * string, _).
  assert (∀ v, (if contains placeholder v then join id (split placeholder v) else v) = replace_all v placeholder id)
    as Hv by (intros v; destruct (contains placeholder v) eqn:Hc; [apply join_split|symmetry; by apply replace_all_absent]).
  split.
  - f_equal; [rewrite <- Hv; by destruct (contains placeholder body)|].
    apply map_eq. intros k. rewrite map_lookup_imap, !lookup_fmap. destruct (headers !! k) as [v|] eqn:Hk; [|done].
    cbn [mbind option_bind fmap option_fmap option_map]. f_equal. rewrite <- Hv. destruct (contains placeholder v) eqn:Hc.
    + by rewrite (map_lookup_filter_Some_2 q headers k v Hk Hc).
    + rewrite map_lookup_filter_None_2; [done|]. right. intros w Hw. unfold q. cbn. congruence.
  - intros [Hb Hm]%orb_false_iff. rewrite <- Hv, Hb. f_equal. apply negb_false_iff, bool_decide_eq_true in Hm.
    apply map_eq. intros k. rewrite lookup_fmap. destruct (headers !! k) as [v|] eqn:Hk; [|done]. cbn [fmap option_fmap option_map]. f_equal.
    rewrite <- Hv. destruct (contains placeholder v) eqn:Hc; [|done]. exfalso.
    pose proof (map_lookup_filter_Some_2 q headers k v Hk Hc) as Hf. by rewrite Hm in Hf.
Qed.

(** ** Witness *)

Lemma template_replaces_witness (MR := default_range) :
  assembled (parse_template {["id" := "@id@"]} "order @id@, again @id@") "17" =
    ("order 17, again 17", {["id" := "17"]}).
Proof.
  exact (proj1 (template_replaces {["id" := "@id@"]} "order @id@, again @id@" "17")).
Defined.

End LoadClient.
