(* ===== verification/LoadPublisher.v ===== *)
(** * [tools/anarkey/publisher.go]: the publishers of the load client

    A publisher declares its source, opens a stream, or uses single calls for a
    source of type STREAM, and publishes in a goroutine of its own until it is
    stopped or has sent as many messages as it was told to. *)

From Stdlib Require Import Ascii String.
From stdpp Require Import base gmap strings list fin_maps option.
From Stdlib Require Import ZArith Lia SpecFloat.
From S2P Require Import Prelude Effects GoStrings Api LoadClient.

Module Publisher.
Import LoadClient.
Open Scope Z_scope.
Open Scope list_scope.

(** Queue sources use TOPIC addresses, streams STREAM addresses. *)
Definition address_of (config : StreamConfig) : Address :=
  mkAddress (sc_AddressName config) [Subject config]
    (if decide (sc_SourceType config = Source_STREAM) then Address_STREAM else Address_TOPIC) false None.

Definition NewPublisher (id : Z) (conn : nat) (config : StreamConfig) : Publisher :=
  mkPublisher id conn config false false false false 0 None.

(** The source a publisher declares. *)
Definition declared_source (config : StreamConfig) : Source := {|
  SourceName := sc_SourceName config; SourceAddress := Some (address_of config); AutoDelete := false;
  Options := ∅; Exclusive := false; PrefetchCount := 0; Filters := [];
  SourceType := sc_SourceType config; DeclareOnly := true; SingleActiveConsumer := false |}.

(** The message with number [n]. *)
Definition default_body (n id : Z) : string :=
  "Load test message " +:+ itoa n +:+ " from publisher " +:+ itoa id.

Definition message_of (config : StreamConfig) (body : string) (headers : gmap string string) : Message := {|
  Uuid := ""; Headers := headers; Body := list_byte_of_string body;
  MessageAddress := Some (address_of config); Persistent := true; MessageError := None;
  Confirm := false; PublishId := 0; PublisherName := "" |}.

Section publisher.
Context {E : Type} `{Oracle Arke E}.

Abbreviation lprog := (prog (world Arke E load)).

(** The first call cancels the context and closes the stream. *)
Definition Stop (p : nat) : lprog () :=
  pub ← get_pub p;
  if pub_stopped pub then mret ()
  else
    upd_pub p (set_pub_stopped true);;
    (if pub_stream pub then call (LCloseSend (SPublish p)) else mret ());;
    upd_pub p (set_pub_cancelled true).

(** The answer to a declaration. *)
Definition declare_answer (p : nat) (resp : ConsumeResponse) : lprog error :=
  match resp with
  | ConsumeResponse_DeclareOnlyResponse r =>
      if DeclareSuccess r then mret None
      else
        call (LCloseSend (SDeclare p));;
        match DeclareError r with
        | None => panic "invalid memory address or nil pointer dereference"
        | Some e => mret (Some ("declare failed: " +:+ Message_ e))
        end
  | ConsumeResponse_Error e =>
      call (LCloseSend (SDeclare p));; mret (Some ("declare error: " +:+ Message_ e))
  | _ => mret None
  end.

Definition declareSource (p : nat) : lprog error :=
  pub ← get_pub p;
  err ← call (LOpen (SDeclare p));
  match (err : error) with
  | Some e => mret (Some e)
  | None =>
      err ← call (LSendConsume (SDeclare p) (Consume_Src (declared_source (pub_config pub))));
      match (err : error) with
      | Some e => call (LCloseSend (SDeclare p));; mret (Some e)
      | None =>
          resp ← call (LRecvConsume (SDeclare p));
          match (resp : ConsumeResponse + string) with
          | inr e => call (LCloseSend (SDeclare p));; mret (Some e)
          | inl resp =>
              err ← declare_answer p resp;
              match (err : error) with
              | Some e => mret (Some e)
              | None => call (LCloseSend (SDeclare p));; mret None
              end
          end
      end
  end.

Section start.
Context `{LoadJson} `{MapRange}.

(** The template, when a file is named. *)
Definition load_template (p : nat) (file : string) : lprog error :=
  if String.eqb file "" then mret None
  else
    r ← LoadMessageFromFile file;
    match (r : MessageTemplate + string) with
    | inr e => mret (Some ("failed to load message file: " +:+ e))
    | inl template => upd_pub p (set_pub_messageTemplate (Some template));; mret None
    end.

Definition Start (p : nat) : lprog error :=
  pub ← get_pub p;
  if pub_stopped pub || pub_completed pub then mret (Some "publisher already stopped or completed")
  else
    err ← load_template p (MessageFile (pub_config pub));
    match (err : error) with
    | Some e => mret (Some e)
    | None =>
        err ← declareSource p;
        match (err : error) with
        | Some e => mret (Some ("failed to declare source: " +:+ e))
        | None =>
            err ← (if decide (sc_SourceType (pub_config pub) = Source_STREAM) then mret None
                   else
                     err ← call (LOpen (SPublish p));
                     match (err : error) with
                     | Some e => mret (Some ("failed to create publish stream: " +:+ e))
                     | None => upd_pub p (set_pub_stream true);; mret None
                     end);
            match (err : error) with
            | Some e => mret (Some e)
            | None => spawn (GPublish p);; mret None
            end
        end
    end.

End start.

(** ** Publishing *)

(** A message goes out, and its answer comes in: [false] is an error of the
    connection. What the answer says is only logged. *)
Definition exchange (p : nat) (pub : Publisher) (msg : Message) : lprog bool :=
  if pub_stream pub then
    err ← call (LSendMessage p msg);
    match (err : error) with
    | Some _ => mret false
    | None =>
        resp ← call (LRecvResponse p);
        match (resp : MessageResponse + string) with inr _ => mret false | inl _ => mret true end
    end
  else
    resp ← call (LPublishOne p msg);
    match (resp : MessageResponse + string) with inr _ => mret false | inl _ => mret true end.

Definition build_message (pub : Publisher) : lprog Message :=
  match pub_messageTemplate pub with
  | Some template =>
      r ← GetBodyAndHeaders template;
      let '(body, headers) := (r : string * gmap string string) in
      mret (message_of (pub_config pub) body headers)
  | None => mret (message_of (pub_config pub) (default_body (pub_messageCount pub) (pub_ID pub)) ∅)
  end.

(** One iteration of the loop; the result says whether it goes on. With a
    limited rate the loop waits for the ticker or the context, and when both
    are ready [tick_first] says which is taken. *)
Definition publish_turn (p : nat) (tick_first : bool) : lprog bool :=
  pub ← get_pub p;
  done ← pub_done p;
  if (if 0 <? PublishRateLimit (pub_config pub) then done && negb tick_first else done) then mret false
  else if pub_stopped pub then mret false
  else if negb (IsContinuous (pub_config pub)) && (sc_MessageCount (pub_config pub) <=? pub_messageCount pub) then
    upd_pub p (set_pub_completed true);; Stop p;; mret false
  else
    msg ← build_message pub;
    ok ← exchange p pub msg;
    if (ok : bool) then
      upd_pub p (λ pub, set_pub_messageCount (int64 (pub_messageCount pub + 1)) pub);;
      IncrementPublished;;
      mret true
    else mret false.

(** What happens to a running publisher: a turn of its loop, or between two
    turns another goroutine stops it. *)
Inductive publish_event := Turn (tick_first : bool) | Stopped.

Fixpoint publish_events (p : nat) (es : list publish_event) : lprog () :=
  match es with
  | [] => mret ()
  | Turn t :: es =>
      more ← publish_turn p t;
      if (more : bool) then publish_events p es else mret ()
  | Stopped :: es => Stop p;; publish_events p es
  end.

Definition Second : Z := 1000000000.

(** A ticker needs a positive interval. *)
Definition publish (p : nat) (es : list publish_event) : lprog () :=
  pub ← get_pub p;
  let limit := PublishRateLimit (pub_config pub) in
  (if 0 <? limit then
     if Z.quot Second limit <=? 0 then panic "non-positive interval for NewTicker" else mret ()
   else mret ());;
  publish_events p es.

(** ** What is sent *)

(** The messages of publisher [p] in a log. *)
Definition sent_by (p : nat) (c : arke_call) : option Message :=
  match c with
  | LSendMessage q m | LPublishOne q m => if (q =? p)%nat then Some m else None
  | _ => None
  end.
Definition messages (p : nat) (l : list (event Arke)) : list Message :=
  omap (λ e : event Arke, sent_by p (projT1 e)) l.

Lemma messages_app p l l' : messages p (l ++ l') = messages p l ++ messages p l'.
Proof. apply omap_app. Qed.

(** [m] runs in [w] without touching the state, and its calls send [ms]. *)
Definition only_sends {A} (p : nat) (ms : list Message) (m : lprog A) (w : world Arke E load) : Prop :=
  ∃ o e l, m w = (o, {| st := st w; env := e; log := log w ++ l |}) ∧ messages p l = ms.

Lemma build_message_sends p pub w : only_sends p [] (build_message pub) w.
Proof.
  assert (∀ A (a : A) w, only_sends p [] (mret a) w) as Hret
    by (intros A a [s e l]; exists (Ret a), e, []; by rewrite app_nil_r).
  unfold build_message. destruct (pub_messageTemplate pub) as [mt|]; [|apply Hret].
  unfold GetBodyAndHeaders. destruct (negb (hasUUIDPlaceholder mt)); [apply Hret|].
  unfold only_sends. rewrite bind_assoc. unfold mbind at 1, prog_bind at 1. rewrite lcall_run.
  destruct (answer (I := Arke) LNewUUID (env w)) as [[id|why|] e]; cbn [fst snd]; by eexists _, _, [_].
Qed.

Lemma exchange_sends p pub msg w : only_sends p [msg] (exchange p pub msg) w.
Proof.
  assert (∀ c o, sent_by p c = Some msg → messages p [lev c o] = [msg]) as H1 by (intros c o Hc; cbn; by rewrite Hc).
  unfold only_sends, exchange. destruct (pub_stream pub); unfold mbind at 1, prog_bind at 1; rewrite lcall_run.
  - destruct (answer (I := Arke) (LSendMessage p msg) (env w)) as [[[err|]|why|] e]; cbn [fst snd];
      [eexists _, _, [_]; split; [done|by apply H1; cbn; rewrite Nat.eqb_refl]| |
       eexists _, _, [_]; split; [done|by apply H1; cbn; rewrite Nat.eqb_refl]..].
    unfold mbind, prog_bind. rewrite lcall_run. cbn [env st log].
    destruct (answer (I := Arke) (LRecvResponse p) e) as [[[r|err]|why|] e']; cbn [fst snd];
      rewrite <- app_assoc; eexists _, _, (_ :: [_]); (split; [done|]); cbn; by rewrite Nat.eqb_refl.
  - destruct (answer (I := Arke) (LPublishOne p msg) (env w)) as [[[r|err]|why|] e]; cbn [fst snd];
      eexists _, _, [_]; (split; [done|]); cbn; by rewrite Nat.eqb_refl.
Qed.

Lemma emits_messages {A} p (m : lprog A) w :
  emits (λ c : icall Arke, sent_by p c = None) m → messages p (log (snd (m w))) = messages p (log w).
Proof.
  intros Hm. destruct (Hm w) as (l & -> & Hl). rewrite messages_app.
  replace (messages p l) with (@nil Message); [by rewrite app_nil_r|].
  clear -Hl. induction Hl as [|[c o] l Hc Hl IH]; [done|]. cbn in *. by rewrite Hc.
Qed.

(** Nothing but the count and the marks of publisher [p] may change. *)
Definition same_count (p : nat) (s s' : load) : Prop :=
  ∀ pub, publishers s !! p = Some pub → ∃ pub', publishers s' !! p = Some pub' ∧
    pub_config pub' = pub_config pub ∧ pub_messageCount pub' = pub_messageCount pub.

#[local] Instance same_count_refl p : Reflexive (same_count p).
Proof. intros s pub Hp. by exists pub. Qed.
#[local] Instance same_count_trans p : Transitive (same_count p).
Proof.
  intros s1 s2 s3 H1 H2 pub Hp. destruct (H1 pub Hp) as (pub2 & Hp2 & Hc2 & Hm2).
  destruct (H2 pub2 Hp2) as (pub3 & Hp3 & Hc3 & Hm3). exists pub3. split_and!; congruence.
Qed.

Lemma same_count_upd p q f l :
  (∀ pub, pub_config (f pub) = pub_config pub ∧ pub_messageCount (f pub) = pub_messageCount pub) →
  same_count p l (set_publishers (alter f q (publishers l)) l).
Proof.
  intros Hf pub Hp. destruct l. cbn in *. destruct (decide (q = p)) as [->|Hq].
  - exists (f pub). rewrite lookup_alter_eq, Hp. split; [done|]. apply Hf.
  - exists pub. by rewrite lookup_alter_ne.
Qed.

Lemma keeps_Stop p q : keeps (same_count p) (Stop q).
Proof.
  unfold Stop, get_pub, deref, upd_pub, call. keeps_solve; apply same_count_upd; intros pub; by destruct pub.
Qed.

Lemma emits_Stop p q : emits (λ c : icall Arke, sent_by p c = None) (Stop q).
Proof. unfold Stop, get_pub, deref, upd_pub, call. by emits_solve. Qed.

(** One turn: a message goes out only below the limit, and the loop goes on
    only when it has been counted. *)
Lemma publish_turn_sends p t w pub o w' :
  publishers (st w) !! p = Some pub → IsContinuous (pub_config pub) = false →
  in_int64 (sc_MessageCount (pub_config pub)) → - 2 ^ 63 <= pub_messageCount pub →
  publish_turn p t w = (o, w') →
  messages p (log w') = messages p (log w) ∧ o ≠ Ret true ∨
  pub_messageCount pub < sc_MessageCount (pub_config pub) ∧
  (∃ m, messages p (log w') = messages p (log w) ++ [m]) ∧
  (o = Ret true → ∃ pub', publishers (st w') !! p = Some pub' ∧ pub_config pub' = pub_config pub ∧
                          pub_messageCount pub' = pub_messageCount pub + 1).
Proof.
  intros Hp Hc Hlim Hcount. unfold publish_turn, get_pub.
  rewrite (bind_run _ _ _ _ _ (deref_run publishers p pub w Hp)).
  destruct (pub_done_quiet p w) as ([done|why|] & Hd);
    [rewrite (bind_run _ _ _ _ _ Hd)|unfold mbind, prog_bind; rewrite Hd; intros [= <- <-]; by left..].
  destruct (if 0 <? PublishRateLimit _ then _ else _); [intros [= <- <-]; by left|].
  destruct (pub_stopped pub); [intros [= <- <-]; by left|]. rewrite Hc. cbn [negb andb].
  destruct (sc_MessageCount _ <=? pub_messageCount pub) eqn:Hle.
  { unfold upd_pub. rewrite writes_bind. set (w1 := set_st _ w).
    pose proof (emits_messages p (Stop p) w1 (emits_Stop p p)) as Hm. unfold mbind, prog_bind.
    destruct (Stop p w1) as [[[]|why|] w2]; intros [= <- <-]; by left. }
  apply Z.leb_gt in Hle.
  destruct (build_message_sends p pub w) as ([msg|why|] & e1 & l1 & Hb & Hl1);
    [rewrite (bind_run _ _ _ _ _ Hb)|
     unfold mbind, prog_bind; rewrite Hb; intros [= <- <-]; left; cbn [log]; by rewrite messages_app, Hl1, app_nil_r..].
  set (w1 := {| st := st w; env := e1; log := log w ++ l1 |}).
  destruct (exchange_sends p pub msg w1) as (o2 & e2 & l2 & Hx & Hl2).
  assert (messages p ((log w ++ l1) ++ l2) = messages p (log w) ++ [msg]) as Hsent
    by (by rewrite !messages_app, Hl1, Hl2, app_nil_r).
  intros Hrun. right. split; [done|]. revert Hrun. unfold mbind at 1, prog_bind at 1. rewrite Hx.
  destruct o2 as [[|]|why|]; [|intros [= <- <-]; (split; [by exists msg|done])..].
  unfold upd_pub, IncrementPublished. rewrite !writes_bind. cbn [st set_st log env]. intros [= <- <-].
  split; [by exists msg|]. intros _. exists (set_pub_messageCount (int64 (pub_messageCount pub + 1)) pub).
  destruct (st w) as [? [] ? ? ps ? ? ? ?]. cbn in *. rewrite lookup_alter_eq, Hp. split; [done|].
  destruct pub. cbn in *. split; [done|]. apply int64_small. unfold in_int64 in *. lia.
Qed.

Lemma publish_events_bounded p es w pub :
  publishers (st w) !! p = Some pub → IsContinuous (pub_config pub) = false →
  in_int64 (sc_MessageCount (pub_config pub)) → - 2 ^ 63 <= pub_messageCount pub →
  ∃ l, messages p (log (snd (publish_events p es w))) = messages p (log w) ++ l ∧
       Z.of_nat (length l) <= Z.max 0 (sc_MessageCount (pub_config pub) - pub_messageCount pub).
Proof.
  revert w pub. induction es as [|[t|] es IH]; intros w pub Hp Hc Hlim Hcount.
  - exists []. rewrite app_nil_r. split; [done|cbn; lia].
  - cbn [publish_events]. destruct (publish_turn p t w) as [o w1] eqn:Hturn.
    destruct (publish_turn_sends p t w pub o w1 Hp Hc Hlim Hcount Hturn)
      as [[Hm Ho]|(Hlt & (m & Hm) & Ho)]; unfold mbind at 1, prog_bind at 1; rewrite Hturn.
    + exists []. rewrite app_nil_r, <- Hm. split; [by destruct o as [[|]|why|]|cbn; lia].
    + destruct o as [[|]|why|]; [|exists [m]; cbn [length]; (split; [done|lia])..].
      destruct (Ho eq_refl) as (pub' & Hp' & Hc' & Hcount').
      destruct (IH w1 pub' Hp' ltac:(by rewrite Hc') ltac:(by rewrite Hc') ltac:(lia)) as (l & Hl & Hlen).
      exists (m :: l). rewrite Hl, Hm, <- app_assoc. split; [done|]. cbn [length]. rewrite Hc', Hcount' in Hlen. lia.
  - cbn [publish_events]. pose proof (emits_messages p (Stop p) w (emits_Stop p p)) as Hm.
    destruct (keeps_Stop p p w pub Hp) as (pub' & Hp' & Hc' & Hcount'). unfold mbind at 1, prog_bind at 1.
    destruct (Stop p w) as [[[]|why|] w1]; cbn [snd] in Hm, Hp';
      [|exists []; rewrite app_nil_r; (split; [done|cbn; lia])..].
    destruct (IH w1 pub' Hp' ltac:(by rewrite Hc') ltac:(by rewrite Hc') ltac:(lia)) as (l & Hl & Hlen).
    exists l. by rewrite Hl, Hm, <- Hc', <- Hcount'.
Qed.

(** A publisher that is given a number of messages never sends more of them,
    whatever the server answers, whatever fails, whenever its ticker fires and
    whenever it is stopped. *)
Theorem publish_never_exceeds p es w pub :
  publishers (st w) !! p = Some pub → IsContinuous (pub_config pub) = false →
  in_int64 (sc_MessageCount (pub_config pub)) → in_int64 (pub_messageCount pub) →
  ∃ l, messages p (log (snd (publish p es w))) = messages p (log w) ++ l ∧
       Z.of_nat (length l) <= Z.max 0 (sc_MessageCount (pub_config pub) - pub_messageCount pub).
Proof.
  intros Hp Hc Hlim [Hcount _]. unfold publish, get_pub.
  rewrite (bind_run _ _ _ _ _ (deref_run publishers p pub w Hp)). cbv zeta.
  destruct (0 <? _); [|by apply publish_events_bounded].
  destruct (_ <=? 0); [|by apply publish_events_bounded]. exists []. rewrite app_nil_r. split; [done|cbn; lia].
Qed.

(** A rate above a thousand million messages a second stops the program: the
    interval of the ticker is zero. *)
Lemma rate_limit_panics p es w pub :
  publishers (st w) !! p = Some pub → Second < PublishRateLimit (pub_config pub) →
  publish p es w = (Panic "non-positive interval for NewTicker", w).
Proof.
  intros Hp Hr. unfold publish, get_pub. rewrite (bind_run _ _ _ _ _ (deref_run publishers p pub w Hp)). cbv zeta.
  unfold Second in *. rewrite (proj2 (Z.ltb_lt _ _)) by lia. by rewrite Z.quot_small by lia.
Qed.

(** ** A server that answers *)

(** No call of a publisher fails, whatever the answers say. *)
Class Answering := {
  answers_send : ∀ p m e, ∃ e', answer (I := Arke) (LSendMessage p m) e = (Ret None, e');
  answers_recv : ∀ p e, ∃ r e', answer (I := Arke) (LRecvResponse p) e = (Ret (inl r), e');
  answers_one : ∀ p m e, ∃ r e', answer (I := Arke) (LPublishOne p m) e = (Ret (inl r), e');
  answers_close : ∀ s e, ∃ e', answer (I := Arke) (LCloseSend s) e = (Ret (), e')
}.

Section answering.
Context `{!Answering}.

Lemma exchange_answered p pub msg w :
  ∃ e l, exchange p pub msg w = (Ret true, {| st := st w; env := e; log := log w ++ l |}) ∧
         messages p l = [msg].
Proof.
  destruct (exchange_sends p pub msg w) as (o & e & l & Hx & Hl). exists e, l. split; [|done].
  enough (fst (exchange p pub msg w) = Ret true) as Ho by (rewrite Hx in Ho |- *; cbn in Ho; by rewrite Ho).
  unfold exchange. destruct (pub_stream pub).
  - destruct (answers_send p msg (env w)) as (e1 & Hs). answered Hs.
    destruct (answers_recv p e1) as (r & e2 & Hr). by answered Hr.
  - destruct (answers_one p msg (env w)) as (r & e1 & Hs).
    by answered Hs.
Qed.

(** A message was sent and answered. *)
Definition counted (p : nat) (s : load) : load :=
  let s := set_publishers (alter (λ pub, set_pub_messageCount (int64 (pub_messageCount pub + 1)) pub) p (publishers s)) s in
  let 'mkMetrics a b c d e f g := metrics s in set_metrics (mkMetrics (int64 (a + 1)) b c d e f g) s.

(** The publisher's goroutine can work: nothing has stopped it. *)
Record runs (p : nat) (pub : Publisher) (s : load) : Prop := {
  runs_pub : publishers s !! p = Some pub;
  runs_conn : ∃ conn, connections s !! pub_conn pub = Some conn ∧ conn_cancelled conn = false;
  runs_root : cancelled s = false;
  runs_cancelled : pub_cancelled pub = false;
  runs_stopped : pub_stopped pub = false
}.

Lemma turn_start p t pub w : runs p pub (st w) →
  publish_turn p t w =
    (if negb (IsContinuous (pub_config pub)) && (sc_MessageCount (pub_config pub) <=? pub_messageCount pub) then
       upd_pub p (set_pub_completed true);; Stop p;; mret false
     else
       msg ← build_message pub;
       ok ← exchange p pub msg;
       if (ok : bool) then
         upd_pub p (λ pub, set_pub_messageCount (int64 (pub_messageCount pub + 1)) pub);;
         IncrementPublished;;
         mret true
       else mret false) w.
Proof.
  intros [Hp (conn & Hconn & Hc) Hroot Hcan Hstop]. unfold publish_turn, get_pub.
  rewrite (bind_run _ _ _ _ _ (deref_run publishers p pub w Hp)).
  rewrite (bind_run _ _ _ _ _ (pub_done_run p pub conn w Hp Hconn)). rewrite Hcan, Hc, Hroot, Hstop. cbn [orb andb].
  by destruct (0 <? _).
Qed.

Lemma turn_counts p t pub w :
  runs p pub (st w) → pub_messageTemplate pub = None →
  IsContinuous (pub_config pub) = true ∨ pub_messageCount pub < sc_MessageCount (pub_config pub) →
  ∃ e l, publish_turn p t w = (Ret true, {| st := counted p (st w); env := e; log := log w ++ l |}) ∧
         messages p l = [message_of (pub_config pub) (default_body (pub_messageCount pub) (pub_ID pub)) ∅].
Proof.
  intros Hr Ht Hlt. rewrite (turn_start p t pub w Hr).
  replace (negb _ && _) with false
    by (symmetry; destruct Hlt as [->|Hlt]; [done|]; apply andb_false_iff; right; by apply Z.leb_gt).
  unfold build_message. rewrite Ht, bind_ret_l. set (msg := message_of _ _ _).
  destruct (exchange_answered p pub msg w) as (e & l & Hx & Hl). exists e, l. split; [|done].
  rewrite (bind_run _ _ _ _ _ Hx). unfold upd_pub, IncrementPublished. rewrite !writes_bind. unfold counted.
  cbn [st set_st env log]. destruct (st w) as [? [] ? ? ? ? ? ? ?]. done.
Qed.

Lemma Stop_runs p pub w :
  publishers (st w) !! p = Some pub → pub_stopped pub = false →
  ∃ e l, Stop p w = (Ret (), {|
    st := set_publishers (<[p := set_pub_cancelled true (set_pub_stopped true pub)]> (publishers (st w))) (st w);
    env := e; log := log w ++ l |}).
Proof.
  intros Hp Hs. unfold Stop, get_pub. rewrite (bind_run _ _ _ _ _ (deref_run publishers p pub w Hp)), Hs.
  unfold upd_pub. rewrite writes_bind. destruct w as [s e l].
  assert (∀ ps, publishers s !! p = Some pub → ps = publishers s →
    alter (set_pub_cancelled true) p (alter (set_pub_stopped true) p ps) =
      <[p := set_pub_cancelled true (set_pub_stopped true pub)]> ps) as Halt.
  { intros ps Hq ->. rewrite (alter_at (set_pub_stopped true) p pub _ Hq).
    rewrite (alter_at _ _ (set_pub_stopped true pub)) by apply lookup_insert_eq. apply insert_insert_eq. }
  destruct (pub_stream pub).
  - destruct (answers_close (SPublish p) e) as (e1 & He).
    answered He. eexists e1, [_]. unfold writes, modify. destruct s. cbn [set_st st env log publishers set_publishers] in *. by rewrite Halt.
  - exists e, []. rewrite bind_ret_l, app_nil_r. unfold writes, modify. destruct s. cbn [set_st st env log publishers set_publishers] in *.
    by rewrite Halt.
Qed.

Lemma turn_ends p t pub w :
  runs p pub (st w) → IsContinuous (pub_config pub) = false →
  sc_MessageCount (pub_config pub) <= pub_messageCount pub →
  ∃ w', publish_turn p t w = (Ret false, w') ∧ messages p (log w') = messages p (log w) ∧
    metrics (st w') = metrics (st w) ∧
    publishers (st w') !! p = Some (set_pub_cancelled true (set_pub_stopped true (set_pub_completed true pub))).
Proof.
  intros Hr Hc Hle. rewrite (turn_start p t pub w Hr), Hc, (proj2 (Z.leb_le _ _) Hle). cbn [negb andb].
  unfold upd_pub. rewrite writes_bind. set (w1 := set_st _ w).
  set (pub1 := set_pub_completed true pub).
  assert (publishers (st w1) !! p = Some pub1) as Hp1.
  { unfold w1. destruct Hr as [Hp]. destruct w as [[] ? ?]. cbn in *. by rewrite lookup_alter_eq, Hp. }
  assert (pub_stopped pub1 = false) as Hs1 by (destruct Hr; by destruct pub).
  destruct (Stop_runs p pub1 w1 Hp1 Hs1) as (e & l & Hstop).
  pose proof (emits_messages p (Stop p) w1 (emits_Stop p p)) as Hm. rewrite Hstop in Hm.
  eexists. rewrite (bind_run _ _ _ _ _ Hstop). split; [reflexivity|]. split; [exact Hm|].
  destruct w as [[] ? ?]. split; [done|]. cbn. by rewrite lookup_insert_eq.
Qed.

(** The messages with the numbers from [a] on. *)
Definition numbered (pub : Publisher) (a n : Z) : list Message :=
  (λ i, message_of (pub_config pub) (default_body i (pub_ID pub)) ∅) <$> seqZ a n.

Lemma runs_counted p pub s :
  runs p pub s → in_int64 (pub_messageCount pub + 1) →
  runs p (set_pub_messageCount (pub_messageCount pub + 1) pub) (counted p s) ∧
  PublishedCount (metrics (counted p s)) = int64 (PublishedCount (metrics s) + 1).
Proof.
  intros [Hp Hc Hroot Hcan Hst] Hn. destruct s as [? [] ? ? ps ? ? ? ?]. cbn in *. split; [|done]. constructor; cbn.
  - rewrite lookup_alter_eq, Hp. cbn. by rewrite int64_small.
  - by destruct pub.
  - done.
  - by destruct pub.
  - by destruct pub.
Qed.

Lemma publish_events_exact p ts w pub :
  runs p pub (st w) → pub_messageTemplate pub = None → IsContinuous (pub_config pub) = false →
  in_int64 (sc_MessageCount (pub_config pub)) → 0 <= pub_messageCount pub <= sc_MessageCount (pub_config pub) →
  Z.of_nat (length ts) = sc_MessageCount (pub_config pub) - pub_messageCount pub + 1 →
  in_int64 (PublishedCount (metrics (st w))) →
  ∃ w', publish_events p (Turn <$> ts) w = (Ret (), w') ∧
    messages p (log w') = messages p (log w) ++
      numbered pub (pub_messageCount pub) (sc_MessageCount (pub_config pub) - pub_messageCount pub) ∧
    PublishedCount (metrics (st w')) =
      int64 (PublishedCount (metrics (st w)) + (sc_MessageCount (pub_config pub) - pub_messageCount pub)) ∧
    ∃ pub', publishers (st w') !! p = Some pub' ∧ pub_completed pub' = true ∧ pub_stopped pub' = true ∧
            pub_cancelled pub' = true ∧ pub_messageCount pub' = sc_MessageCount (pub_config pub).
Proof.
  revert w pub. induction ts as [|t ts IH]; intros w pub Hr Ht Hc Hlim Hn Hts; cbn [length] in Hts; [lia|].
  change (Turn <$> t :: ts) with (Turn t :: (Turn <$> ts)). cbn [publish_events].
  destruct (decide (pub_messageCount pub = sc_MessageCount (pub_config pub))) as [Heq|Hne].
  - destruct (turn_ends p t pub w Hr Hc) as (w' & Hrun & Hm & Hmet & Hp'); [lia|]. exists w'.
    rewrite (bind_run _ _ _ _ _ Hrun). split; [done|].
    rewrite <- Heq, Z.sub_diag, Z.add_0_r, Hm, Hmet. cbn [numbered fmap]. rewrite app_nil_r, int64_small by done.
    split_and!; [done..|]. eexists. split; [exact Hp'|]. by destruct pub.
  - set (pub1 := set_pub_messageCount (pub_messageCount pub + 1) pub).
    assert (pub_config pub1 = pub_config pub ∧ pub_messageTemplate pub1 = pub_messageTemplate pub ∧
            pub_messageCount pub1 = pub_messageCount pub + 1 ∧ pub_ID pub1 = pub_ID pub) as (Hc1 & Ht1 & Hn1 & Hi1)
      by (by destruct pub).
    destruct (turn_counts p t pub w Hr Ht) as (e & l & Hrun & Hl); [right; lia|].
    rewrite (bind_run _ _ _ _ _ Hrun). set (w1 := {| st := _; env := e; log := _ |}).
    destruct (runs_counted p pub (st w) Hr) as [Hr1 Hpc1]; [unfold in_int64 in *; lia|].
    destruct (IH w1 pub1) as (w' & Hrun' & Hm & Hpc & Hp'); rewrite ?Hc1, ?Ht1, ?Hn1; [done..|lia|lia| |].
    { unfold w1. cbn [st]. rewrite Hpc1. apply int64_range. }
    rewrite Hc1, Hn1 in *. exists w'. split; [exact Hrun'|]. split_and!; [| |exact Hp'].
    + rewrite Hm. unfold w1. cbn [log]. rewrite messages_app, Hl, <- app_assoc. f_equal. unfold numbered.
      rewrite (seqZ_cons (pub_messageCount pub)) by lia. rewrite Hc1, Hi1. cbn [fmap list_fmap app]. f_equal.
      f_equal. f_equal; lia.
    + rewrite Hpc. unfold w1. cbn [st]. rewrite Hpc1. unfold int64. rewrite wrap_add. f_equal. lia.
Qed.

(** C39: A publisher that is given a number of messages and nothing else, and
    that talks to a server which answers, publishes exactly these: after as many
    turns and one more it has sent the messages numbered from zero, in order, it
    is completed and stopped, and it has added their number to the count of
    published messages, whether the answers said that they were published or
    not. *)
Theorem publish_exact p ts w pub :
  runs p pub (st w) → pub_messageTemplate pub = None → IsContinuous (pub_config pub) = false →
  pub_messageCount pub = 0 → 0 <= sc_MessageCount (pub_config pub) < 2 ^ 63 →
  PublishRateLimit (pub_config pub) <= Second →
  Z.of_nat (length ts) = sc_MessageCount (pub_config pub) + 1 →
  in_int64 (PublishedCount (metrics (st w))) →
  ∃ w', publish p (Turn <$> ts) w = (Ret (), w') ∧
    messages p (log w') = messages p (log w) ++ numbered pub 0 (sc_MessageCount (pub_config pub)) ∧
    PublishedCount (metrics (st w')) = int64 (PublishedCount (metrics (st w)) + sc_MessageCount (pub_config pub)) ∧
    ∃ pub', publishers (st w') !! p = Some pub' ∧ pub_completed pub' = true ∧ pub_stopped pub' = true ∧
            pub_cancelled pub' = true.
Proof.
  intros Hr Ht Hc Hz Hn Hlim Hts Hpi.
  destruct (publish_events_exact p ts w pub Hr Ht Hc) as (w' & Hrun & Hm & Hpc & pub' & Hp' & ? & ? & ? & _);
    [unfold in_int64; lia|lia|lia|done|].
  exists w'. rewrite Hz, Z.sub_0_r in *. unfold publish, get_pub.
  rewrite (bind_run _ _ _ _ _ (deref_run publishers p pub w (runs_pub _ _ _ Hr))). cbv zeta. split.
  - destruct (0 <? _) eqn:Hpos; [|by rewrite bind_ret_l].
    assert (Z.quot Second (PublishRateLimit (pub_config pub)) <=? 0 = false) as ->; [|by rewrite bind_ret_l].
    apply Z.leb_gt. apply Z.ltb_lt in Hpos. rewrite Z.quot_div_nonneg by (unfold Second; lia).
    apply Z.div_str_pos. lia.
  - split_and!; [done..|]. by exists pub'.
Qed.

End answering.
End publisher.

(** ** Witnesses *)

(** A server that answers every message and refuses each of them. *)
Definition refusing : Oracle Arke () := λ c e,
  (match c return outcome (arke_reply c) with
   | LReadFile _ => Ret (inr "no such file")
   | LWriteFile _ _ | LGrpcClient _ _ | LOpen _ | LSendMessage _ _ | LSendConsume _ _ => Ret None
   | LNewUUID => Ret "1"
   | LNow => Ret 0
   | LConnect _ _ _ => Ret (inl {| ConnectSuccess := true; ConnectError := None |})
   | LRecvResponse _ | LPublishOne _ _ => Ret (inl {| ResponseSuccess := false; ResponseError := None |})
   | LRecvConsume _ => Ret (inl (ConsumeResponse_DeclareOnlyResponse {| DeclareSuccess := true; DeclareError := None |}))
   | LGrpcClose _ | LDisconnect _ _ | LCloseSend _ => Ret ()
   end, e).

Lemma refusing_answers : @Answering () refusing.
Proof. split; intros; repeat eexists. Qed.

Definition demo_config : StreamConfig :=
  mkStreamConfig 1 1 Source_QUEUE "orders" "shop" "new" 2 false 10 "".

(** A connection with one publisher, two messages to go. *)
Definition demo_load : load :=
  mkLoad (mkConfig "" 0 false "" 0 "" "" false "" "" 1 1)
    (mkMetrics 0 0 (S754_zero false) (S754_zero false) 0 0 0) (Some [0%nat])
    {[0%nat := mkConnection 0 ConnectionTypePublisher [1%nat] [] false]}
    {[1%nat := set_pub_stream true (Publisher.NewPublisher 0 0 demo_config)]} ∅ 2 [GPublish 1] false.
Definition demo_world : world Arke () load := {| st := demo_load; env := (); log := [] |}.

Lemma demo_runs : runs 1 (set_pub_stream true (NewPublisher 0 0 demo_config)) demo_load.
Proof. split; try done. by eexists. Qed.

(** The two messages were refused, and two were counted. *)
Lemma publish_exact_witness (O := refusing) :
  ∃ w', publish 1 (Turn <$> [true; true; true]) demo_world = (Ret (), w') ∧
    Body <$> messages 1 (log w') =
      [list_byte_of_string "Load test message 0 from publisher 0";
       list_byte_of_string "Load test message 1 from publisher 0"] ∧
    PublishedCount (metrics (st w')) = 2.
Proof.
  destruct (publish_exact (H0 := refusing_answers) 1 [true; true; true] demo_world _ demo_runs eq_refl eq_refl
              eq_refl ltac:(split; done) ltac:(done) eq_refl ltac:(split; done)) as (w' & Hrun & Hm & Hc & _).
  exists w'. split; [exact Hrun|]. rewrite Hm, Hc. by vm_compute.
Defined.

Lemma publish_never_exceeds_witness (O := refusing) :
  ∃ l, messages 1 (log (snd (publish 1 [Turn true; Stopped; Turn true] demo_world))) = [] ++ l ∧
       Z.of_nat (length l) <= 2.
Proof.
  destruct (publish_never_exceeds 1 [Turn true; Stopped; Turn true] demo_world _ (runs_pub _ _ _ demo_runs))
    as (l & Hl & Hlen); [done|by split|by split|]. exists l. by split.
Defined.

End Publisher.
