(* ===== verification/LoadConsumer.v ===== *)
(** * [tools/anarkey/consumer.go]: the consumers of the load client

    A consumer sends its source and acknowledges, in a goroutine of its own,
    every message it receives. *)

From Stdlib Require Import Ascii String.
From stdpp Require Import base gmap strings list fin_maps option.
From Stdlib Require Import ZArith Lia SpecFloat.
From S2P Require Import Prelude Effects GoStrings Api LoadClient LoadPublisher.

Module Consumer.
Import LoadClient.
Open Scope Z_scope.
Open Scope list_scope.

Definition NewConsumer (id : Z) (conn : nat) (config : StreamConfig) : Consumer :=
  mkConsumer id conn config false false false.

Definition consumed_source (config : StreamConfig) : Source := {|
  SourceName := sc_SourceName config; SourceAddress := Some (Publisher.address_of config); AutoDelete := false;
  Options := if decide (sc_SourceType config = Source_STREAM) then {["Offset" := "next"]} else ∅;
  Exclusive := false; PrefetchCount := 40; Filters := []; SourceType := sc_SourceType config;
  DeclareOnly := false; SingleActiveConsumer := false |}.

Section consumer.
Context {E : Type} `{Oracle Arke E}.

Abbreviation lprog := (prog (world Arke E load)).

Definition Stop (c : nat) : lprog () :=
  cons ← get_cons c;
  if cons_stopped cons then mret ()
  else
    upd_cons c (set_cons_stopped true);;
    (if cons_stream cons then call (LCloseSend (SConsume c)) else mret ());;
    upd_cons c (set_cons_cancelled true).

Definition Start (c : nat) : lprog error :=
  cons ← get_cons c;
  if cons_stopped cons then mret (Some "consumer already stopped")
  else
    err ← call (LOpen (SConsume c));
    match (err : error) with
    | Some e => mret (Some ("failed to create consume stream: " +:+ e))
    | None =>
        upd_cons c (set_cons_stream true);;
        err ← call (LSendConsume (SConsume c) (Consume_Src (consumed_source (cons_config cons))));
        match (err : error) with
        | Some e => mret (Some ("failed to send source: " +:+ e))
        | None => spawn (GConsume c);; mret None
        end
    end.

(** One iteration of the loop; the result says whether it goes on. *)
Definition consume_turn (c : nat) : lprog bool :=
  resp ← call (LRecvConsume (SConsume c));
  match (resp : ConsumeResponse + string) with
  | inr _ => mret false
  | inl (ConsumeResponse_Msg m) =>
      err ← call (LSendConsume (SConsume c)
                    (Consume_Ack {| AckUuid := Uuid m; AckNack := false; RequeueDelay := 0 |}));
      match (err : error) with
      | Some _ => mret false
      | None => IncrementConsumed;; mret true
      end
  | inl (ConsumeResponse_Error e) => mret (negb (IsFatal e))
  | inl _ => mret true
  end.

(** At most [n] iterations. *)
Fixpoint consume (n : nat) (c : nat) : lprog () :=
  match n with
  | O => mret ()
  | S n => more ← consume_turn c; if (more : bool) then consume n c else mret ()
  end.

(** ** What is acknowledged *)

(** The messages consumer [c] has received, and its acknowledgements. *)
Definition received (c : nat) (e : event Arke) : option string :=
  match e with
  | existT k o =>
      match k return outcome (arke_reply k) → option string with
      | LRecvConsume (SConsume d) => λ o,
          match o with
          | Ret (inl (ConsumeResponse_Msg m)) => if (d =? c)%nat then Some (Uuid m) else None
          | _ => None
          end
      | _ => λ _, None
      end o
  end.

Definition acknowledged (c : nat) (e : event Arke) : option (string * bool) :=
  match projT1 e with
  | LSendConsume (SConsume d) (Consume_Ack a) => if (d =? c)%nat then Some (AckUuid a, AckNack a) else None
  | _ => None
  end.

(** The acknowledgements that went out. *)
Definition went_out (c : nat) (e : event Arke) : bool :=
  match e with
  | existT k o =>
      match k return outcome (arke_reply k) → bool with
      | LSendConsume (SConsume d) (Consume_Ack _) => λ o, match o with Ret None => (d =? c)%nat | _ => false end
      | _ => λ _, false
      end o
  end.

(** One turn: a message is acknowledged at once, and counted when that worked. *)
Lemma consume_turn_acks c w :
  let '(_, w') := consume_turn c w in
  ∃ l, log w' = log w ++ l ∧ omap (acknowledged c) l = (λ u, (u, false)) <$> omap (received c) l ∧
       (in_int64 (ConsumedCount (metrics (st w))) →
        ConsumedCount (metrics (st w')) = int64 (ConsumedCount (metrics (st w)) + count_if (went_out c) l)).
Proof.
  assert (∀ z, in_int64 z → z = int64 (z + 0)) as Hz by (intros z ?; by rewrite Z.add_0_r, int64_small).
  unfold consume_turn, mbind at 1, prog_bind at 1. rewrite lcall_run.
  destruct (answer (I := Arke) (LRecvConsume (SConsume c)) (env w)) as [[[r|err]|why|] e]; cbn [fst snd];
    [|eexists [_]; split; [done|]; split; [done|apply Hz]..].
  destruct r as [m|r|er|r]; [|eexists [_]; split; [done|]; split; [done|apply Hz]..].
  unfold mbind at 1, prog_bind at 1. rewrite lcall_run. cbn [env st log].
  set (ack := Consume_Ack _).
  destruct (answer (I := Arke) (LSendConsume (SConsume c) ack) e) as [[[err|]|why|] e']; cbn [fst snd];
    [|unfold IncrementConsumed; rewrite writes_bind|..]; eexists [_; _]; (split; [cbn; by rewrite <- app_assoc|]);
    cbn [omap list_omap received acknowledged projT1 lev]; rewrite Nat.eqb_refl; (split; [done|]).
  - apply Hz.
  - intros _. rewrite !count_if_cons, count_if_nil. cbn [went_out lev]. rewrite Nat.eqb_refl.
    cbn [st set_st log b2z]. by destruct (st w) as [? [] ? ? ? ? ? ? ?].
  - apply Hz.
  - apply Hz.
Qed.

(** A consumer acknowledges every message it receives, each once, in the
    order of their arrival and never negatively, before it asks for the next;
    and its count grows by the acknowledgements that went out. This holds
    whatever the server sends and whatever fails. *)
Theorem consume_acks n c w :
  in_int64 (ConsumedCount (metrics (st w))) →
  let w' := snd (consume n c w) in
  ∃ l, log w' = log w ++ l ∧ omap (acknowledged c) l = (λ u, (u, false)) <$> omap (received c) l ∧
       ConsumedCount (metrics (st w')) = int64 (ConsumedCount (metrics (st w)) + count_if (went_out c) l).
Proof.
  revert w. induction n as [|n IH]; intros w Hw; cbn [consume].
  - exists []. rewrite app_nil_r. split_and!; [done..|]. by rewrite count_if_nil, Z.add_0_r, int64_small.
  - pose proof (consume_turn_acks c w) as Ht. unfold mbind, prog_bind.
    destruct (consume_turn c w) as [o w1]. destruct Ht as (l1 & Hl1 & Ha1 & Hc1). specialize (Hc1 Hw).
    destruct o as [[|]|why|]; [|exists l1; by split_and!..].
    destruct (IH w1) as (l2 & Hl2 & Ha2 & Hc2); [rewrite Hc1; apply int64_range|].
    exists (l1 ++ l2). rewrite Hl2, Hl1, app_assoc, !omap_app, fmap_app, Ha1, Ha2, Hc2, Hc1, count_if_app.
    split_and!; [done..|]. unfold int64. rewrite wrap_add. f_equal. lia.
Qed.

End consumer.

(** A server with one message, sent again and again. *)
Definition one_message : Oracle Arke () := λ c e,
  match c return outcome (arke_reply c) * () with
  | LRecvConsume _ => (Ret (inl (ConsumeResponse_Msg {|
      Uuid := "7"; Headers := ∅; Body := []; MessageAddress := None; Persistent := true; MessageError := None;
      Confirm := false; PublishId := 0; PublisherName := "" |})), e)
  | c => Publisher.refusing c e
  end.

Lemma consume_acks_witness (O := one_message) :
  let w' := snd (consume 2 1 Publisher.demo_world) in
  omap (acknowledged 1) (log w') = [("7", false); ("7", false)] ∧ ConsumedCount (metrics (st w')) = 2.
Proof.
  destruct (consume_acks 2 1 Publisher.demo_world) as (l & Hl & Ha & Hc); [by split|].
  cbn [log Publisher.demo_world app] in Hl. subst l. cbv zeta. rewrite Ha, Hc. by vm_compute.
Defined.

End Consumer.
