(* ===== verification/LoadConnections.v ===== *)
(** * [tools/anarkey/connection.go]: the connections of the load client

    The manager of the connections, and how the number of connections, of
    publishers and of consumers is changed while the load runs. These
    operations run as a whole: what the goroutines of publishers and consumers
    do meanwhile is left out. *)

From Stdlib Require Import Ascii String.
From stdpp Require Import base gmap strings list fin_maps option.
From Stdlib Require Import ZArith Lia SpecFloat.
From S2P Require Import Prelude Effects GoStrings Api LoadClient LoadPublisher LoadConsumer.

Module Connections.
Import LoadClient.
Open Scope Z_scope.
Open Scope list_scope.

Section connections.
Context {E : Type} `{Oracle Arke E} `{LoadJson} `{MapRange}.

Abbreviation lprog := (prog (world Arke E load)).

Definition nil_pointer {A} : lprog A := panic "invalid memory address or nil pointer dereference".

(** [m.connManager.connections] *)
Definition GetConnections : lprog (list nat) :=
  m ← reads manager; match (m : option (list nat)) with Some l => mret l | None => nil_pointer end.

Definition NewConnectionManager : lprog () := writes (set_manager (Some [])).

Definition cancel_conn (c : nat) : lprog () := upd_conn c (set_conn_cancelled true).

Definition createGRPCConnection : lprog error :=
  cfg ← reads config;
  err ← call (LGrpcClient (ArkeHost cfg +:+ ":" +:+ itoa (ArkePort cfg)) (ArkeTLS cfg));
  match (err : error) with
  | Some e => mret (Some ("failed to connect to arke server: " +:+ e))
  | None => mret None
  end.

(** The configuration a connection asks the server for. *)
Definition broker_config (cfg : Config) : ConnectionConfiguration := {|
  Host := BrokerHost cfg; Port := int32 (BrokerPort cfg); ProviderName := BrokerProvider cfg;
  Tenant := BrokerTenant cfg;
  Creds := Some {| Username := BrokerUsername cfg; Password := BrokerPassword cfg |};
  Tls := BrokerTLS cfg; ClientName := ""; AdminPort := 0 |}.

Definition type_word (t : ConnectionType) : string :=
  match t with ConnectionTypePublisher => "producer" | ConnectionTypeConsumer => "consumer" end.

Definition CreateConnection (t : ConnectionType) : lprog error :=
  conns ← GetConnections;
  err ← createGRPCConnection;
  match (err : error) with
  | Some e => mret (Some ("failed to create gRPC connection: " +:+ e))
  | None =>
      a ← alloc (λ a l, set_connections
            (<[a := mkConnection (Z.of_nat (length conns)) t [] [] false]> (connections l)) l);
      cfg ← reads config;
      r ← call (LConnect t a (broker_config cfg));
      match (r : ConnectResponse + string) with
      | inr e => cancel_conn a;; mret (Some ("failed to connect " +:+ type_word t +:+ ": " +:+ e))
      | inl resp =>
          if ConnectSuccess resp then
            writes (λ l, set_manager ((λ cs, cs ++ [a]) <$> manager l) l);; mret None
          else
            cancel_conn a;;
            match ConnectError resp with
            | None => nil_pointer
            | Some e => mret (Some (type_word t +:+ " connection failed: " +:+ Message_ e))
            end
      end
  end.

(** [n] connections, until one fails. *)
Fixpoint create_many (n : nat) (t : ConnectionType) : lprog error :=
  match n with
  | O => mret None
  | S n =>
      err ← CreateConnection t;
      match (err : error) with Some e => mret (Some e) | None => create_many n t end
  end.

(** [Connection.Close] *)
Definition Close (c : nat) : lprog () :=
  conn ← get_conn c;
  for_each (conn_publishers conn) Publisher.Stop;;
  for_each (conn_consumers conn) Consumer.Stop;;
  call (LDisconnect (conn_Type conn) c);;
  call (LGrpcClose c);;
  cancel_conn c.

(** [ConnectionManager.Close] *)
Definition CloseAll : lprog () := conns ← GetConnections; for_each conns Close.

Definition of_type (l : load) (t : ConnectionType) (c : nat) : bool :=
  match connections l !! c with Some conn => bool_decide (conn_Type conn = t) | None => false end.

(** The end of the list is closed; a negative number is out of range. *)
Definition ScaleConnections (count : Z) (t : ConnectionType) : lprog error :=
  conns ← GetConnections;
  l ← reads (λ l, l);
  let existingConns := filter (λ c, of_type l t c = true) conns in
  let otherConns := filter (λ c, of_type l t c = false) conns in
  let currentCount := Z.of_nat (length existingConns) in
  if currentCount <? count then create_many (Z.to_nat (count - currentCount)) t
  else if count <? currentCount then
    if count <? 0 then panic "index out of range"
    else
      for_each (drop (Z.to_nat count) existingConns) Close;;
      writes (set_manager (Some (take (Z.to_nat count) existingConns ++ otherConns)));;
      mret None
  else mret None.

(** ** Publishers *)

(** [n] publishers, numbered from [i] in the loop, until one fails. *)
Fixpoint add_publishers (n : nat) (i startID : Z) (c : nat) (config : StreamConfig) : lprog error :=
  match n with
  | O => mret None
  | S n =>
      p ← alloc (λ p l, set_publishers
            (<[p := Publisher.NewPublisher (startID + i) c config]> (publishers l)) l);
      err ← Publisher.Start p;
      match (err : error) with
      | Some e => mret (Some ("failed to start publisher " +:+ itoa i +:+ ": " +:+ e))
      | None =>
          upd_conn c (λ conn, set_conn_publishers (conn_publishers conn ++ [p]) conn);;
          add_publishers n (i + 1) startID c config
      end
  end.

Definition AddPublishers (c : nat) (config : StreamConfig) : lprog error :=
  conn ← get_conn c;
  if decide (conn_Type conn = ConnectionTypePublisher) then
    add_publishers (Z.to_nat (NumPublisherStreams config)) 0 (Z.of_nat (length (conn_publishers conn))) c config
  else mret (Some "cannot add publishers to consumer connection").

(** How many publishers have not completed, and whether one of these has
    another rate. *)
Fixpoint survey (rate : Z) (ps : list nat) : lprog (Z * bool) :=
  match ps with
  | [] => mret (0, false)
  | p :: ps =>
      pub ← get_pub p;
      r ← survey rate ps;
      let '(active, restart) := (r : Z * bool) in
      mret (if pub_completed pub then (active, restart)
            else (active + 1, restart || negb (PublishRateLimit (pub_config pub) =? rate)))
  end.

Definition stop_active (p : nat) : lprog () :=
  pub ← get_pub p; if pub_completed pub then mret () else Publisher.Stop p.

Definition ScalePublishers (c : nat) (config : StreamConfig) : lprog error :=
  conn ← get_conn c;
  r ← survey (PublishRateLimit config) (conn_publishers conn);
  let '(activeCount, needsRestart) := (r : Z * bool) in
  let totalCount := Z.of_nat (length (conn_publishers conn)) in
  let wanted := NumPublisherStreams config in
  if needsRestart && (wanted =? activeCount) then
    for_each (conn_publishers conn) stop_active;;
    upd_conn c (set_conn_publishers []);;
    AddPublishers c config
  else if activeCount <? wanted then
    AddPublishers c (set_NumPublisherStreams (wanted - activeCount) config)
  else if wanted <? totalCount then
    for_each (reverse (drop (Z.to_nat wanted) (conn_publishers conn))) Publisher.Stop;;
    (if wanted <? 0 then panic "slice bounds out of range" else mret ());;
    upd_conn c (set_conn_publishers (take (Z.to_nat wanted) (conn_publishers conn)));;
    mret None
  else mret None.

(** ** Consumers *)

Fixpoint add_consumers (n : nat) (i startID : Z) (c : nat) (config : StreamConfig) : lprog error :=
  match n with
  | O => mret None
  | S n =>
      a ← alloc (λ a l, set_consumers
            (<[a := Consumer.NewConsumer (startID + i) c config]> (consumers l)) l);
      err ← Consumer.Start a;
      match (err : error) with
      | Some e => mret (Some ("failed to start consumer " +:+ itoa i +:+ ": " +:+ e))
      | None =>
          upd_conn c (λ conn, set_conn_consumers (conn_consumers conn ++ [a]) conn);;
          add_consumers n (i + 1) startID c config
      end
  end.

Definition AddConsumers (c : nat) (config : StreamConfig) : lprog error :=
  conn ← get_conn c;
  if decide (conn_Type conn = ConnectionTypeConsumer) then
    add_consumers (Z.to_nat (NumConsumerStreams config)) 0 (Z.of_nat (length (conn_consumers conn))) c config
  else mret (Some "cannot add consumers to publisher connection").

Definition ScaleConsumers (c : nat) (config : StreamConfig) : lprog error :=
  conn ← get_conn c;
  let currentCount := Z.of_nat (length (conn_consumers conn)) in
  let wanted := NumConsumerStreams config in
  if currentCount <? wanted then
    AddConsumers c (set_NumConsumerStreams (wanted - currentCount) config)
  else if wanted <? currentCount then
    if wanted <? 0 then panic "index out of range"
    else
      for_each (drop (Z.to_nat wanted) (conn_consumers conn)) Consumer.Stop;;
      upd_conn c (set_conn_consumers (take (Z.to_nat wanted) (conn_consumers conn)));;
      mret None
  else mret None.

(** ** What is kept *)

Definition fresh (s : load) : Prop := ∀ c conn, connections s !! c = Some conn → (c < next s)%nat.

(** Connections stay where they are, keep their type and stay cancelled. *)
Definition kept (s s' : load) : Prop :=
  fresh s → fresh s' ∧
  ∀ c conn, connections s !! c = Some conn → ∃ conn', connections s' !! c = Some conn' ∧
    conn_Type conn' = conn_Type conn ∧ (conn_cancelled conn = true → conn_cancelled conn' = true).

#[local] Instance kept_refl : Reflexive kept.
Proof. intros s Hs. split; [done|]. intros c conn Hc. by exists conn. Qed.
#[local] Instance kept_trans : Transitive kept.
Proof.
  intros s1 s2 s3 H12 H23 Hs. destruct (H12 Hs) as [Hs2 Hc2]. destruct (H23 Hs2) as [Hs3 Hc3]. split; [done|].
  intros c conn Hc. destruct (Hc2 c conn Hc) as (conn2 & Hl2 & Ht2 & Hn2).
  destruct (Hc3 c conn2 Hl2) as (conn3 & Hl3 & Ht3 & Hn3). exists conn3. split_and!; [done|congruence|auto].
Qed.

Lemma kept_same s s' : connections s' = connections s → next s' = next s → kept s s'.
Proof.
  intros Hc Hn Hs. unfold fresh in *. rewrite Hc, Hn. split; [done|]. intros c conn Hl. by exists conn.
Qed.

(** A new connection. *)
Lemma kept_new conn s : kept s (set_next (S (next s)) (set_connections (<[next s := conn]> (connections s)) s)).
Proof.
  intros Hs. destruct s as [? ? ? cs ? ? n ? ?]. cbn in *. split.
  - intros d conn' Hd. cbn in *. destruct (decide (n = d)) as [<-|Hne]; [lia|].
    rewrite lookup_insert_ne in Hd by done. apply Hs in Hd. cbn in Hd. lia.
  - intros d conn' Hd. cbn in *. exists conn'. rewrite lookup_insert_ne; [done|]. intros <-. apply Hs in Hd. cbn in Hd. lia.
Qed.

(** What does not create a connection leaves the list of the manager alone too. *)
Record steady (s s' : load) : Prop := {
  steady_next : next s' = next s;
  steady_manager : manager s' = manager s;
  steady_none : ∀ c, connections s !! c = None → connections s' !! c = None;
  steady_some : ∀ c conn, connections s !! c = Some conn → ∃ conn', connections s' !! c = Some conn' ∧
    conn_Type conn' = conn_Type conn ∧ (conn_cancelled conn = true → conn_cancelled conn' = true)
}.

#[local] Instance steady_refl : Reflexive steady.
Proof. intros s. split; [done..|]. intros c conn Hc. by exists conn. Qed.
#[local] Instance steady_trans : Transitive steady.
Proof.
  intros s1 s2 s3 [Hn2 Hm2 Hx2 Hc2] [Hn3 Hm3 Hx3 Hc3]. split; [congruence..|auto|].
  intros c conn Hc. destruct (Hc2 c conn Hc) as (conn2 & Hl2 & Ht2 & Hy2).
  destruct (Hc3 c conn2 Hl2) as (conn3 & Hl3 & Ht3 & Hy3). exists conn3. split_and!; [done|congruence|auto].
Qed.

Lemma steady_kept s s' : steady s s' → kept s s'.
Proof.
  intros [Hn _ Hnone Hsome] Hf. split; [|exact Hsome]. intros c conn Hc. rewrite Hn.
  destruct (connections s !! c) as [conn0|] eqn:Hold; [by eapply Hf|]. apply Hnone in Hold. congruence.
Qed.

Lemma steady_same s s' :
  connections s' = connections s → next s' = next s → manager s' = manager s → steady s s'.
Proof. intros Hc Hn Hm. split; [done..| |]; rewrite Hc; [done|]. intros c conn Hl. by exists conn. Qed.

Lemma steady_cancel c s : steady s (set_connections (alter (set_conn_cancelled true) c (connections s)) s).
Proof.
  destruct s as [? ? ? cs ? ? n ? ?]. split; cbn; [done..| |].
  - intros d Hd. destruct (decide (c = d)) as [->|Hne]; [by rewrite lookup_alter_eq, Hd|by rewrite lookup_alter_ne].
  - intros d conn Hd. destruct (decide (c = d)) as [->|Hne].
    + exists (set_conn_cancelled true conn). rewrite lookup_alter_eq, Hd. by destruct conn.
    + exists conn. by rewrite lookup_alter_ne.
Qed.

Ltac steady_solve := keeps_solve; apply steady_same; by match goal with s : load |- _ => destruct s end.

Lemma keeps_pub_Stop p : keeps steady (Publisher.Stop p).
Proof. unfold Publisher.Stop, get_pub, deref, upd_pub, call. steady_solve. Qed.

Lemma keeps_cons_Stop c : keeps steady (Consumer.Stop c).
Proof. unfold Consumer.Stop, get_cons, deref, upd_cons, call. steady_solve. Qed.

Lemma keeps_createGRPC : keeps steady createGRPCConnection.
Proof. unfold createGRPCConnection, call. keeps_solve. Qed.

Lemma keeps_Close c : keeps steady (Close c).
Proof.
  unfold Close, get_conn, deref, call. apply keeps_bind; [exact _|keeps_solve|]. intros conn.
  apply keeps_bind; [exact _|apply keeps_for_each; [exact _..|apply keeps_pub_Stop]|]. intros _.
  apply keeps_bind; [exact _|apply keeps_for_each; [exact _..|apply keeps_cons_Stop]|]. intros _.
  unfold cancel_conn, upd_conn. keeps_solve. apply steady_cancel.
Qed.

Lemma GetConnections_run conns w : manager (st w) = Some conns → GetConnections w = (Ret conns, w).
Proof. intros Hm. unfold GetConnections. rewrite reads_bind. by rewrite Hm. Qed.

(** A connection that is created comes last in the list; nothing else changes,
    and nothing at all in the list when it is not created. *)
Lemma CreateConnection_run t w conns o w' :
  fresh (st w) → manager (st w) = Some conns → CreateConnection t w = (o, w') →
  kept (st w) (st w') ∧
  match o with
  | Ret None => ∃ a conn, manager (st w') = Some (conns ++ [a]) ∧ connections (st w) !! a = None ∧
                          connections (st w') !! a = Some conn ∧ conn_Type conn = t
  | _ => manager (st w') = Some conns
  end.
Proof.
  intros Hf Hm. unfold CreateConnection. rewrite (bind_run _ _ _ _ _ (GetConnections_run conns w Hm)).
  pose proof (keeps_createGRPC w) as Hg. unfold mbind at 1, prog_bind at 1.
  destruct (createGRPCConnection w) as [[[err|]|why|] w1]; cbn [snd] in Hg;
    pose proof (steady_kept _ _ Hg) as Hk1; pose proof (steady_manager _ _ Hg) as Hm1;
    [intros [= <- <-]; split; [exact Hk1|by rewrite Hm1]| |
     intros [= <- <-]; split; [exact Hk1|by rewrite Hm1]..].
  destruct (Hk1 Hf) as [Hf1 Hold1].
  unfold alloc. rewrite bind_assoc, reads_bind, bind_assoc, writes_bind, bind_ret_l, reads_bind.
  set (conn := mkConnection _ t [] [] false). set (a := next (st w1)). set (w2 := set_st _ w1).
  assert (kept (st w1) (st w2)) as Hk2 by apply kept_new.
  assert (manager (st w2) = Some conns ∧ connections (st w2) !! a = Some conn) as [Hm2 Ha2].
  { unfold w2, a. clear -Hm Hm1. rewrite <- Hm1 in Hm. destruct w1 as [[] ? ?]. cbn in *. by rewrite lookup_insert_eq. }
  assert (connections (st w) !! a = None) as Hnew.
  { destruct (connections (st w) !! a) as [conn0|] eqn:Ha; [|done]. destruct (Hold1 a conn0 Ha) as (conn1 & Ha1 & _).
    apply Hf1 in Ha1. unfold a in Ha1. lia. }
  destruct (Hk2 Hf1) as [Hf2 _]. clearbody w2. unfold mbind at 1, prog_bind at 1. rewrite lcall_run.
  destruct (answer (I := Arke) (LConnect t a (broker_config (config (st w2)))) (env w2)) as [[[resp|err]|why|] e];
    cbn [fst snd].
  - destruct (ConnectSuccess resp).
    + rewrite writes_bind. intros [= <- <-]. cbn [st set_st]. split.
      * etrans; [exact Hk1|]. etrans; [exact Hk2|]. apply kept_same; by destruct (st w2).
      * exists a, conn. split_and!; [| done| |done]; destruct (st w2); cbn in *; [by rewrite Hm2|done].
    + unfold cancel_conn, upd_conn. rewrite writes_bind. cbn [st set_st].
      pose proof (steady_kept _ _ (steady_cancel a (st w2))) as Hk3.
      pose proof (steady_manager _ _ (steady_cancel a (st w2))) as Hm3.
      assert (∀ w3 : world Arke E load, st w3 = set_connections (alter (set_conn_cancelled true) a (connections (st w2))) (st w2) →
              kept (st w) (st w3) ∧ manager (st w3) = Some conns) as Hend.
      { intros w3 ->. split; [|by rewrite Hm3]. etrans; [exact Hk1|]. by etrans. }
      destruct (ConnectError resp) as [er|]; intros [= <- <-]; by apply Hend.
  - unfold cancel_conn, upd_conn. rewrite writes_bind. cbn [st set_st].
    pose proof (steady_kept _ _ (steady_cancel a (st w2))) as Hk3. intros [= <- <-].
    split; [|exact (eq_trans (steady_manager _ _ (steady_cancel a (st w2))) Hm2)].
    etrans; [exact Hk1|]. etrans; [exact Hk2|exact Hk3].
  - intros [= <- <-]. split; [|done]. by etrans.
  - intros [= <- <-]. split; [|done]. by etrans.
Qed.

Lemma create_many_run n t w conns :
  fresh (st w) → manager (st w) = Some conns →
  let '(o, w') := create_many n t w in
  kept (st w) (st w') ∧ ∃ new, manager (st w') = Some (conns ++ new) ∧
    Forall (λ a, connections (st w) !! a = None ∧
                 ∃ conn, connections (st w') !! a = Some conn ∧ conn_Type conn = t) new ∧
    match o with Ret None => length new = n | _ => (length new < n)%nat end.
Proof.
  revert w conns. induction n as [|n IH]; intros w conns Hf Hm; cbn [create_many].
  { split; [by apply kept_same|]. exists []. by rewrite app_nil_r. }
  unfold mbind at 1, prog_bind at 1. destruct (CreateConnection t w) as [o w1] eqn:Hc.
  destruct (CreateConnection_run t w conns o w1 Hf Hm Hc) as [Hk1 Ho]. destruct (Hk1 Hf) as [Hf1 Hold].
  destruct o as [[err|]|why|];
    [split; [done|]; exists []; rewrite app_nil_r; split_and!; [done..|cbn; lia]| |
     split; [done|]; exists []; rewrite app_nil_r; split_and!; [done..|cbn; lia]..].
  destruct Ho as (a & conn & Hm1 & Hnone & Ha & Ht). specialize (IH w1 (conns ++ [a]) Hf1 Hm1).
  destruct (create_many n t w1) as [o w2]. destruct IH as (Hk2 & new & Hm2 & Hnew & Hlen).
  destruct (Hk2 Hf1) as [_ Hold2]. split; [by etrans|]. exists (a :: new). rewrite Hm2, <- app_assoc.
  split; [done|]. split; [|by destruct o as [[?|]|?|]; cbn [length]; lia]. constructor.
  - split; [done|]. destruct (Hold2 a conn Ha) as (conn' & Ha' & Ht' & _). exists conn'. split; [done|congruence].
  - revert Hnew. apply List.Forall_impl. intros b (Hb1 & Hb2). split; [|done].
    destruct (connections (st w) !! b) as [cb|] eqn:Hb; [|done]. destruct (Hold b cb Hb) as (? & ? & _). congruence.
Qed.

(** A connection that was closed: its context is cancelled, and its connection
    to the server has been closed. *)
Definition closed (c : nat) (w : world Arke E load) : Prop :=
  (∃ conn, connections (st w) !! c = Some conn ∧ conn_cancelled conn = true) ∧
  lev (LGrpcClose c) (Ret ()) ∈ log w.

Lemma closed_later {A} c (m : lprog A) w :
  keeps steady m → emits (λ _, True) m → closed c w → closed c (snd (m w)).
Proof.
  intros Hk He [(conn & Hc & Hx) Hl]. split.
  - destruct (steady_some _ _ (Hk w) c conn Hc) as (conn' & Hc' & _ & Hx'). exists conn'. auto.
  - destruct (He w) as (l & -> & _). set_solver.
Qed.

Lemma emits_Close c : emits (λ _ : icall Arke, True) (Close c).
Proof.
  unfold Close, cancel_conn, get_conn, deref, upd_conn, Publisher.Stop, get_pub, deref, upd_pub, Consumer.Stop,
    get_cons, deref, upd_cons, call. by emits_solve.
Qed.

Lemma Close_closes c w w' : Close c w = (Ret (), w') → closed c w'.
Proof.
  unfold Close, get_conn. intros Hrun.
  apply bind_ret_inv in Hrun as (conn & w1 & Hc & Hrun).
  destruct (deref_inv connections c w) as [Hd|(conn0 & Hl & Hd)]; [congruence|].
  rewrite Hd in Hc. injection Hc as -> <-.
  apply bind_ret_inv in Hrun as ([] & w2 & Hp & Hrun).
  assert (steady (st w) (st w2)) as Hs2
    by (pose proof (keeps_for_each steady (conn_publishers conn) _ keeps_pub_Stop w) as Hk; by rewrite Hp in Hk).
  apply bind_ret_inv in Hrun as ([] & w3 & Hq & Hrun).
  assert (steady (st w2) (st w3)) as Hs3
    by (pose proof (keeps_for_each steady (conn_consumers conn) _ keeps_cons_Stop w2) as Hk; by rewrite Hq in Hk).
  destruct (steady_some _ _ (transitivity Hs2 Hs3) c conn Hl) as (conn' & Hc' & _ & _).
  revert Hrun. unfold mbind at 1, prog_bind at 1. rewrite lcall_run.
  destruct (answer (I := Arke) (LDisconnect (conn_Type conn) c) (env w3)) as [[[]|why|] e]; [|done..]. cbn [fst snd].
  unfold mbind at 1, prog_bind at 1. rewrite lcall_run. cbn [st env log].
  destruct (answer (I := Arke) (LGrpcClose c) e) as [[[]|why|] e']; [|done..]. cbn [fst snd].
  unfold cancel_conn, upd_conn, writes, modify. intros [= <-]. split; cbn [st set_st log].
  - destruct (st w3). cbn in *. rewrite lookup_alter_eq, Hc'. by destruct conn'; eexists.
  - set_solver.
Qed.

(** The connections of a type in a list, and the others. *)
Definition mine (s : load) (t : ConnectionType) : list nat → list nat := filter (λ c, of_type s t c = true).
Definition others (s : load) (t : ConnectionType) : list nat → list nat := filter (λ c, of_type s t c = false).
Definition known (s : load) (l : list nat) : Prop := Forall (λ c, is_Some (connections s !! c)) l.

Lemma of_type_later s s' t c :
  kept s s' → fresh s → is_Some (connections s !! c) → of_type s' t c = of_type s t c.
Proof.
  intros Hk Hf [conn Hc]. destruct (Hk Hf) as [_ Hs]. destruct (Hs c conn Hc) as (conn' & Hc' & Ht & _).
  unfold of_type. by rewrite Hc, Hc', Ht.
Qed.

Lemma sorted_later s s' t l :
  kept s s' → fresh s → known s l → mine s' t l = mine s t l ∧ others s' t l = others s t l.
Proof.
  intros Hk Hf Hl. unfold mine, others.
  induction Hl as [|c l Hc Hl [IHm IHo]]; [done|]. rewrite !filter_cons, !(of_type_later s s' t c Hk Hf Hc).
  rewrite IHm, IHo. by destruct (of_type s t c).
Qed.

Lemma mine_all s t l :
  Forall (λ c, of_type s t c = true) l → mine s t l = l ∧ others s t l = [].
Proof.
  unfold mine, others. induction 1 as [|c l Hc Hl [IHm IHo]]; [done|].
  rewrite !filter_cons, !Hc, IHm, IHo. done.
Qed.

Lemma others_all s t l :
  Forall (λ c, of_type s t c = false) l → mine s t l = [] ∧ others s t l = l.
Proof.
  unfold mine, others. induction 1 as [|c l Hc Hl [IHm IHo]]; [done|].
  rewrite !filter_cons, !Hc, IHm, IHo. done.
Qed.

(** Of a list that was put together from the ones of a type and others. *)
Lemma mine_split s s' t l1 l2 :
  kept s s' → fresh s → known s l1 → known s l2 →
  Forall (λ c, of_type s t c = true) l1 → Forall (λ c, of_type s t c = false) l2 →
  mine s' t (l1 ++ l2) = l1 ∧ others s' t (l1 ++ l2) = l2.
Proof.
  intros Hk Hf Hl1 Hl2 Hall1 Hall2. destruct (sorted_later s s' t (l1 ++ l2) Hk Hf) as [-> ->]; [by apply Forall_app|].
  destruct (mine_all s t l1 Hall1) as [Hm1 Ho1]. destruct (others_all s t l2 Hall2) as [Hm2 Ho2].
  unfold mine, others in *. by rewrite !list.filter_app, Hm1, Ho1, Hm2, Ho2, app_nil_r.
Qed.

(** What scaling promises, from the connections [conns] on. *)
Definition scaled (count : Z) (t : ConnectionType) (conns : list nat) (w : world Arke E load)
    (o : outcome error) (w' : world Arke E load) : Prop :=
  ∃ conns', manager (st w') = Some conns' ∧
    others (st w') t conns' = others (st w) t conns ∧
    (o = Ret None →
      Z.of_nat (length (mine (st w') t conns')) = count ∧
      take (Z.to_nat count) (mine (st w) t conns) `prefix_of` mine (st w') t conns' ∧
      Forall (λ c, closed c w') (drop (Z.to_nat count) (mine (st w) t conns))).

Lemma scale_up count t w conns o w' :
  fresh (st w) → manager (st w) = Some conns → known (st w) conns →
  let n := Z.of_nat (length (mine (st w) t conns)) in
  n < count → create_many (Z.to_nat (count - n)) t w = (o, w') → scaled count t conns w o w'.
Proof.
  intros Hf Hm Hk n Hup Hrun. pose proof (create_many_run (Z.to_nat (count - n)) t w conns Hf Hm) as Hc.
  rewrite Hrun in Hc. destruct Hc as (Hkept & new & Hm' & Hnew & Hlen). exists (conns ++ new). split; [done|].
  destruct (sorted_later (st w) (st w') t conns Hkept Hf Hk) as [Hmine Hothers].
  assert (Forall (λ c, of_type (st w') t c = true) new) as Hall.
  { revert Hnew. apply List.Forall_impl. intros a (_ & conn & Ha & Ht). unfold of_type. rewrite Ha.
    by apply bool_decide_eq_true. }
  destruct (mine_all (st w') t new Hall) as [Hmn Hon].
  unfold mine, others in *. rewrite !list.filter_app, Hmine, Hothers, Hmn, Hon, app_nil_r. split; [done|]. intros ->.
  rewrite length_app, take_ge, drop_ge by (unfold n in *; lia). split; [unfold n in *; lia|].
  split; [by eexists|constructor].
Qed.

Lemma scale_down count t w conns o w' :
  fresh (st w) → manager (st w) = Some conns → known (st w) conns →
  0 <= count < Z.of_nat (length (mine (st w) t conns)) →
  (for_each (drop (Z.to_nat count) (mine (st w) t conns)) Close;;
   writes (set_manager (Some (take (Z.to_nat count) (mine (st w) t conns) ++ others (st w) t conns)));;
   mret None) w = (o, w') →
  scaled count t conns w o w'.
Proof.
  intros Hf Hm Hk Hdown. set (gone := drop (Z.to_nat count) (mine (st w) t conns)).
  assert (keeps steady (for_each gone Close)) as Hsteady by (apply keeps_for_each; [exact _..|apply keeps_Close]).
  specialize (Hsteady w). unfold mbind at 1, prog_bind at 1.
  destruct (for_each gone Close w) as [[[]|why|] w1] eqn:Hclose; cbn [snd] in Hsteady;
    [|intros [= <- <-]; exists conns; rewrite (steady_manager _ _ Hsteady), Hm;
      split; [done|]; split; [|done]; by apply sorted_later; [apply steady_kept| |]..].
  rewrite writes_bind. intros [= <- <-]. unfold scaled. cbn [st set_st].
  assert (kept (st w) (set_manager (Some (take (Z.to_nat count) (mine (st w) t conns) ++ others (st w) t conns)) (st w1)))
    as Hkept by (etrans; [by apply steady_kept|]; apply kept_same; by destruct (st w1)).
  set (stay := take (Z.to_nat count) (mine (st w) t conns)) in *.
  assert (known (st w) (mine (st w) t conns) ∧ known (st w) (others (st w) t conns)) as [Hk1 Hk2]
    by (split; apply list.Forall_forall; intros c [_ Hc]%list_elem_of_filter;
        by apply (proj1 (list.Forall_forall _ _) Hk)).
  destruct (mine_split (st w) _ t stay (others (st w) t conns) Hkept Hf) as [Hmine Hothers];
    [by apply Forall_take|done|apply Forall_take, list.Forall_forall; by intros c [Hc _]%list_elem_of_filter|
     apply list.Forall_forall; by intros c [Hc _]%list_elem_of_filter|].
  exists (stay ++ others (st w) t conns). split; [by destruct (st w1)|]. rewrite Hmine, Hothers. split; [done|].
  intros _. split; [unfold stay; rewrite length_take; lia|]. split; [done|].
  apply (for_each_post closed gone Close w w1) in Hclose;
    [|intros ? ? ?; apply Close_closes|
     intros c d v v' Hc Hd; pose proof (closed_later c (Close d) v (keeps_Close d) (emits_Close d) Hc) as Hcl;
     by rewrite Hd in Hcl].
  revert Hclose. apply List.Forall_impl. intros c [(conn & Hc & Hx) Hl]. split; [|done].
  exists conn. cbn [st set_st]. by destruct (st w1).
Qed.

(** Scaling the connections of a type: when it succeeds there are as many of
    them as asked for, the surplus taken from the end of the list has been
    closed, and those that stay are the first ones, joined by new ones only
    where there were too few. Whether it succeeds or not, the connections of the
    other type are the same as before, in the same order. *)
Theorem scale_connections_exact count t w conns o w' :
  fresh (st w) → manager (st w) = Some conns → known (st w) conns → 0 <= count →
  ScaleConnections count t w = (o, w') →
  ∃ conns', manager (st w') = Some conns' ∧
    others (st w') t conns' = others (st w) t conns ∧
    (o = Ret None →
      Z.of_nat (length (mine (st w') t conns')) = count ∧
      take (Z.to_nat count) (mine (st w) t conns) `prefix_of` mine (st w') t conns' ∧
      Forall (λ c, closed c w') (drop (Z.to_nat count) (mine (st w) t conns))).
Proof.
  intros Hf Hm Hk Hpos. unfold ScaleConnections.
  rewrite (bind_run _ _ _ _ _ (GetConnections_run conns w Hm)), reads_bind.
  fold (mine (st w) t conns) (others (st w) t conns). set (n := Z.of_nat (length (mine (st w) t conns))).
  destruct (n <? count) eqn:Hup; [|destruct (count <? n) eqn:Hdown].
  - apply Z.ltb_lt in Hup. by apply scale_up.
  - apply Z.ltb_lt in Hdown. rewrite (proj2 (Z.ltb_ge _ _) Hpos). by apply scale_down.
  - apply Z.ltb_ge in Hup, Hdown. intros [= <- <-]. exists conns. split; [done|]. split; [done|]. intros _.
    rewrite take_ge, drop_ge by (unfold n in *; lia). split; [unfold n in *; lia|]. by split.
Qed.

(** ** Scaling publishers *)

(** A connection keeps its type and its publishers. *)
Definition same_publishers (c : nat) (s s' : load) : Prop :=
  ∀ conn, connections s !! c = Some conn → ∃ conn', connections s' !! c = Some conn' ∧
    conn_Type conn' = conn_Type conn ∧ conn_publishers conn' = conn_publishers conn.

#[local] Instance same_publishers_refl c : Reflexive (same_publishers c).
Proof. intros s conn Hc. by exists conn. Qed.
#[local] Instance same_publishers_trans c : Transitive (same_publishers c).
Proof.
  intros s1 s2 s3 H12 H23 conn Hc. destruct (H12 conn Hc) as (conn2 & Hc2 & Ht2 & Hp2).
  destruct (H23 conn2 Hc2) as (conn3 & Hc3 & Ht3 & Hp3). exists conn3. split_and!; congruence.
Qed.

Lemma same_publishers_eq c s s' : connections s' = connections s → same_publishers c s s'.
Proof. intros Hc conn Hl. exists conn. by rewrite Hc. Qed.

Ltac publishers_solve :=
  keeps_solve; apply same_publishers_eq; by match goal with s : load |- _ => destruct s end.

(** A connection that was just changed. *)
Lemma conn_changed c f conn s :
  connections s !! c = Some conn → connections (set_connections (alter f c (connections s)) s) !! c = Some (f conn).
Proof. intros Hc. destruct s. cbn in *. by rewrite lookup_alter_eq, Hc. Qed.

Lemma keeps_Stop_publishers c p : keeps (same_publishers c) (Publisher.Stop p).
Proof. unfold Publisher.Stop, get_pub, deref, upd_pub, call. publishers_solve. Qed.

Lemma keeps_Start_publishers c p : keeps (same_publishers c) (Publisher.Start p).
Proof.
  unfold Publisher.Start, Publisher.load_template, LoadMessageFromFile, Publisher.declareSource,
    Publisher.declare_answer, get_pub, deref, upd_pub, spawn, call. publishers_solve.
Qed.

(** Publishers that are all started come last in the list. *)
Lemma add_publishers_run n i k c cfg w w' conn :
  connections (st w) !! c = Some conn → add_publishers n i k c cfg w = (Ret None, w') →
  ∃ conn' new, connections (st w') !! c = Some conn' ∧
    conn_publishers conn' = conn_publishers conn ++ new ∧ length new = n.
Proof.
  revert i w conn. induction n as [|n IH]; intros i w conn Hc; cbn [add_publishers].
  { intros [= <-]. exists conn, []. by rewrite app_nil_r. }
  unfold alloc. rewrite bind_assoc, reads_bind, bind_assoc, writes_bind, bind_ret_l.
  set (p := next (st w)). set (w1 := set_st _ w).
  assert (connections (st w1) !! c = Some conn) as Hc1 by (unfold w1; by destruct w as [[] ? ?]).
  intros Hrun. apply bind_ret_inv in Hrun as (err & w2 & Hs & Hrun).
  destruct (keeps_Start_publishers c p w1 conn Hc1) as (conn2 & Hc2 & Ht2 & Hp2). rewrite Hs in Hc2. cbn [snd] in Hc2.
  destruct err as [err|]; [done|]. unfold upd_conn in Hrun. rewrite writes_bind in Hrun.
  destruct (IH _ (set_st _ w2) _ (conn_changed c _ conn2 (st w2) Hc2) Hrun) as (conn' & new & Hc' & Hp' & Hlen). exists conn', (p :: new).
  rewrite Hp'. destruct conn2. cbn [set_conn_publishers conn_publishers] in *.
  rewrite Hp2, <- app_assoc. split_and!; [done..|cbn; lia].
Qed.

Lemma AddPublishers_run c cfg w w' conn :
  connections (st w) !! c = Some conn → AddPublishers c cfg w = (Ret None, w') →
  ∃ conn' new, connections (st w') !! c = Some conn' ∧
    conn_publishers conn' = conn_publishers conn ++ new ∧ length new = Z.to_nat (NumPublisherStreams cfg).
Proof.
  intros Hc. unfold AddPublishers, get_conn.
  rewrite (bind_run _ _ _ _ _ (deref_run connections c conn w Hc)).
  destruct (decide _); [by apply add_publishers_run|done].
Qed.

(** The survey looks, and counts. *)
Lemma survey_run rate ps w :
  Forall (λ p, ∃ pub, publishers (st w) !! p = Some pub ∧ pub_completed pub = false) ps →
  ∃ restart, survey rate ps w = (Ret (Z.of_nat (length ps), restart), w).
Proof.
  induction 1 as [|p ps (pub & Hp & Hdone) Hps (restart & IH)]; [by exists false|]. cbn [survey].
  unfold get_pub. rewrite (bind_run _ _ _ _ _ (deref_run publishers p pub w Hp)).
  rewrite (bind_run _ _ _ _ _ IH), Hdone. cbn [length]. rewrite Nat2Z.inj_succ. by eexists.
Qed.

Lemma keeps_stop_loop c (body : nat → lprog ()) l :
  (∀ p, keeps (same_publishers c) (body p)) → keeps (same_publishers c) (for_each l body).
Proof. apply keeps_for_each; exact _. Qed.

(** Scaling the publishers of a connection of which none has completed:
    when it succeeds the connection has as many publishers as asked for. They
    are all new when the rate has changed and the number has not, and otherwise
    the first ones of before, joined by new ones where there were too few. *)
Theorem scale_publishers_exact c cfg w w' conn :
  connections (st w) !! c = Some conn → 0 <= NumPublisherStreams cfg →
  Forall (λ p, ∃ pub, publishers (st w) !! p = Some pub ∧ pub_completed pub = false) (conn_publishers conn) →
  ScalePublishers c cfg w = (Ret None, w') →
  ∃ conn', connections (st w') !! c = Some conn' ∧
    Z.of_nat (length (conn_publishers conn')) = NumPublisherStreams cfg ∧
    (take (Z.to_nat (NumPublisherStreams cfg)) (conn_publishers conn) `prefix_of` conn_publishers conn' ∨
     Z.of_nat (length (conn_publishers conn)) = NumPublisherStreams cfg).
Proof.
  intros Hc Hpos Hps. unfold ScalePublishers, get_conn.
  rewrite (bind_run _ _ _ _ _ (deref_run connections c conn w Hc)).
  destruct (survey_run (PublishRateLimit cfg) _ _ Hps) as (restart & Hs). rewrite (bind_run _ _ _ _ _ Hs). clear Hs.
  set (n := Z.of_nat (length (conn_publishers conn))). set (k := NumPublisherStreams cfg) in *.
  destruct (restart && (k =? n)) eqn:Hr; [|destruct (n <? k) eqn:Hup; [|destruct (k <? n) eqn:Hdown]].
  - apply andb_prop in Hr as [_ Heq%Z.eqb_eq]. intros Hrun. apply bind_ret_inv in Hrun as ([] & w1 & Hstop & Hrun).
    assert (keeps (same_publishers c) (for_each (conn_publishers conn) stop_active)) as Hk.
    { apply keeps_stop_loop. intros p. unfold stop_active, get_pub, deref.
      apply keeps_bind; [exact _|keeps_solve|]. intros pub. destruct (pub_completed pub);
        [apply keeps_ret; exact _|apply keeps_Stop_publishers]. }
    destruct (Hk w conn Hc) as (conn1 & Hc1 & _ & _). rewrite Hstop in Hc1. cbn [snd] in Hc1.
    unfold upd_conn in Hrun. rewrite writes_bind in Hrun.
    destruct (AddPublishers_run c cfg (set_st _ w1) w' _ (conn_changed c _ conn1 (st w1) Hc1) Hrun) as (conn' & new & Hc' & Hp' & Hlen).
    exists conn'. split; [done|]. rewrite Hp'. destruct conn1. cbn [set_conn_publishers conn_publishers app].
    rewrite Hlen. fold k. split; [lia|]. by right.
  - apply Z.ltb_lt in Hup. intros Hrun.
    destruct (AddPublishers_run c _ w w' conn Hc Hrun) as (conn' & new & Hc' & Hp' & Hlen).
    exists conn'. split; [done|]. rewrite Hp', length_app, Hlen.
    assert (NumPublisherStreams (set_NumPublisherStreams (k - n) cfg) = k - n) as -> by (by destruct cfg).
    split; [unfold n in *; lia|]. left. rewrite take_ge by (unfold n in *; lia). by eexists.
  - apply Z.ltb_lt in Hdown. intros Hrun. apply bind_ret_inv in Hrun as ([] & w1 & Hstop & Hrun).
    destruct (keeps_stop_loop c _ (reverse (drop (Z.to_nat k) (conn_publishers conn))) (keeps_Stop_publishers c) w conn Hc)
      as (conn1 & Hc1 & _ & _). rewrite Hstop in Hc1. cbn [snd] in Hc1.
    rewrite (proj2 (Z.ltb_ge _ _) Hpos), bind_ret_l in Hrun. unfold upd_conn in Hrun. rewrite writes_bind in Hrun.
    injection Hrun as <-. exists (set_conn_publishers (take (Z.to_nat k) (conn_publishers conn)) conn1).
    split; [exact (conn_changed c _ conn1 (st w1) Hc1)|].
    destruct conn1. cbn [set_conn_publishers conn_publishers].
    split; [rewrite length_take; unfold n in *; lia|]. by left.
  - apply Z.ltb_ge in Hup, Hdown. intros [= <-]. exists conn. split; [done|].
    assert (n = k) by lia. split; [done|]. by right.
Qed.

(** A connection that could not be made is not closed: the connection to the
    server stays open. *)
Lemma create_never_closes t : emits (λ c : icall Arke, ∀ a, c ≠ LGrpcClose a) (CreateConnection t).
Proof.
  unfold CreateConnection, GetConnections, createGRPCConnection, alloc, cancel_conn, upd_conn, nil_pointer, call.
  by emits_solve.
Qed.

End connections.

(** ** Witnesses *)

Definition no_json : LoadJson := {|
  UnmarshalTemplate _ := inr "unexpected end of JSON input";
  UnmarshalSaved _ := inr "unexpected end of JSON input";
  MarshalSaved _ _ := "{}" |}.

(** Three connections, the second of a consumer; the first one has two
    publishers, the first of them completed. *)
Definition demo_connections : load :=
  let conn t ps := mkConnection 0 t ps [] false in
  let pub := set_pub_stream true (Publisher.NewPublisher 0 0 Publisher.demo_config) in
  set_next 9 (set_publishers {[3%nat := set_pub_completed true (set_pub_stopped true pub); 4%nat := pub]}
    (set_connections {[0%nat := conn ConnectionTypePublisher [3; 4]%nat; 1%nat := conn ConnectionTypeConsumer [];
                       2%nat := conn ConnectionTypePublisher []]}
       (set_manager (Some [0; 1; 2]%nat) Publisher.demo_load))).
Definition demo_world : world Arke () load := {| st := demo_connections; env := (); log := [] |}.

Lemma demo_fresh : fresh demo_connections.
Proof.
  intros c conn Hc. cbn in *. repeat (apply lookup_insert_Some in Hc as [[<- _]|[_ Hc]]; [lia|]).
  apply lookup_singleton_Some in Hc as [<- _]. lia.
Qed.

(** One of the two publisher connections goes; the consumer's stays. *)
Lemma scale_connections_exact_witness (O := Publisher.refusing) (J := no_json) (MR := default_range) :
  let '(o, w') := ScaleConnections 1 ConnectionTypePublisher demo_world in
  o = Ret None ∧ Z.of_nat (length (mine (st w') ConnectionTypePublisher (default [] (manager (st w'))))) = 1 ∧
  closed 2 w'.
Proof.
  destruct (ScaleConnections 1 ConnectionTypePublisher demo_world) as [o w'] eqn:Hrun.
  destruct (scale_connections_exact 1 ConnectionTypePublisher demo_world [0; 1; 2]%nat o w' demo_fresh eq_refl
              ltac:(by repeat constructor) ltac:(lia) Hrun) as (conns' & Hm & _ & Ho).
  assert (o = Ret None) as Hok by (vm_compute in Hrun; injection Hrun as <- _; reflexivity).
  destruct (Ho Hok) as (Hlen & _ & Hgone). split; [exact Hok|]. rewrite Hm. split; [exact Hlen|].
  apply Forall_inv in Hgone. exact Hgone.
Defined.

Definition one_publisher : StreamConfig := set_NumPublisherStreams 1 Publisher.demo_config.
Definition three_publishers : StreamConfig := set_NumPublisherStreams 3 Publisher.demo_config.

(** Three publishers where there were none. *)
Lemma scale_publishers_exact_witness (O := Publisher.refusing) (J := no_json) (MR := default_range) :
  let '(o, w') := ScalePublishers 2 three_publishers demo_world in
  o = Ret None ∧ ∃ conn', connections (st w') !! 2%nat = Some conn' ∧ length (conn_publishers conn') = 3%nat.
Proof.
  destruct (ScalePublishers 2 three_publishers demo_world) as [o w'] eqn:Hrun.
  assert (o = Ret None) as Hok by (vm_compute in Hrun; injection Hrun as <- _; reflexivity). split; [exact Hok|].
  subst o. destruct (scale_publishers_exact 2 three_publishers demo_world w' _ eq_refl ltac:(cbn; lia)
                       ltac:(constructor) Hrun) as (conn' & Hc & Hlen & _).
  exists conn'. split; [exact Hc|]. cbn in Hlen. lia.
Defined.

(** With a completed publisher in the list the surplus is not that one: asked
    for one publisher where one is running and one has completed, scaling stops
    the one that runs and keeps the other. *)
Lemma scale_stops_running (O := Publisher.refusing) (J := no_json) (MR := default_range) :
  let '(o, w') := ScalePublishers 0 one_publisher demo_world in
  o = Ret None ∧
  (∃ conn, connections (st w') !! 0%nat = Some conn ∧ conn_publishers conn = [3%nat]) ∧
  pub_stopped <$> (publishers (st demo_world) !! 4%nat) = Some false ∧
  pub_stopped <$> (publishers (st w') !! 4%nat) = Some true.
Proof. vm_compute. split_and!; [done| |done..]. by eexists. Qed.

End Connections.
