(* ===== verification/LoadTui.v ===== *)
(** * [tools/anarkey/tui.go]: the user interface of the load client

    The state machine behind the screens: keys move a cursor, edit fields and
    lead from screen to screen to the running load, which can then be changed.
    Messages are handled one at a time; starting the load is a command that runs
    later. *)

From Stdlib Require Import Ascii String.
From stdpp Require Import base gmap strings list fin_maps option.
From Stdlib Require Import ZArith Lia SpecFloat.
From S2P Require Import Prelude Effects GoStrings Api LoadClient LoadPublisher LoadConsumer LoadConnections.

Module Tui.
Import LoadClient Connections.
Open Scope Z_scope.
Open Scope list_scope.

(** ** The model *)

Inductive Screen := ScreenArkeConfig | ScreenBrokerConfig | ScreenConnectionConfig | ScreenStreamConfig | ScreenRunning.

#[export] Instance Screen_eq_dec : EqDecision Screen.
Proof. solve_decision. Defined.

(** [inner] is what the model points to: [config], [metrics], [connManager] and
    its context. *)
Record Model := mkModel {
  screen : Screen;
  streamConfig : StreamConfig;
  cursor : Z;
  editing : bool;
  inputs : gmap string string;
  err : error;
  width : Z;
  height : Z;
  inner : load
}.

Definition set_screen (v : Screen) (m : Model) : Model :=
  let 'mkModel _ b c d e f g h i := m in mkModel v b c d e f g h i.
Definition set_streamConfig (v : StreamConfig) (m : Model) : Model :=
  let 'mkModel a _ c d e f g h i := m in mkModel a v c d e f g h i.
Definition set_cursor (v : Z) (m : Model) : Model :=
  let 'mkModel a b _ d e f g h i := m in mkModel a b v d e f g h i.
Definition set_editing (v : bool) (m : Model) : Model :=
  let 'mkModel a b c _ e f g h i := m in mkModel a b c v e f g h i.
Definition set_inputs (v : gmap string string) (m : Model) : Model :=
  let 'mkModel a b c d _ f g h i := m in mkModel a b c d v f g h i.
Definition set_err (v : error) (m : Model) : Model :=
  let 'mkModel a b c d e _ g h i := m in mkModel a b c d e v g h i.
Definition set_width (v : Z) (m : Model) : Model :=
  let 'mkModel a b c d e f _ h i := m in mkModel a b c d e f v h i.
Definition set_height (v : Z) (m : Model) : Model :=
  let 'mkModel a b c d e f g _ i := m in mkModel a b c d e f g v i.
Definition set_inner (v : load) (m : Model) : Model :=
  let 'mkModel a b c d e f g h _ := m in mkModel a b c d e f g h v.

Inductive msg :=
  | KeyMsg (s : string)
  | WindowSizeMsg (w h : Z)
  | TickMsg
  | ErrMsg (e : string).

Inductive cmd := NoCmd | Tick | Quit | StartLoad.

(** ** Fields *)

Definition arke_fields : list string := ["arke_host"; "arke_port"; "arke_tls"].
Definition broker_fields : list string :=
  ["broker_host"; "broker_port"; "broker_username"; "broker_password"; "broker_tls"; "broker_tenant"].
Definition connection_fields : list string := ["num_publisher_connections"; "num_consumer_connections"].
Definition stream_fields : list string :=
  ["num_publisher_streams"; "num_consumer_streams"; "source_type"; "source_name"; "address_name"; "subject";
   "message_count"; "publish_rate_limit"; "message_file"; "save_config_file"].
Definition running_fields : list string :=
  ["runtime_publisher_connections"; "runtime_consumer_connections"; "runtime_publisher_streams";
   "runtime_consumer_streams"; "runtime_publish_rate_limit"].

Definition fields_of (s : Screen) : list string :=
  match s with
  | ScreenArkeConfig => arke_fields
  | ScreenBrokerConfig => broker_fields
  | ScreenConnectionConfig => connection_fields
  | ScreenStreamConfig => stream_fields
  | ScreenRunning => running_fields
  end.

Definition getMaxCursor (m : Model) : Z :=
  match screen m with
  | ScreenArkeConfig => 3
  | ScreenBrokerConfig => 6
  | ScreenConnectionConfig => 2
  | ScreenStreamConfig => 10
  | ScreenRunning => 4
  end.

(** A negative cursor would be out of range. *)
Definition getCurrentField (m : Model) : string :=
  default "" (fields_of (screen m) !! Z.to_nat (cursor m)).

(** ** Input *)

Definition getInput (m : Model) (key defaultVal : string) : string :=
  match inputs m !! key with
  | Some val => if String.eqb val "" then defaultVal else val
  | None => defaultVal
  end.

(** [fmt.Sscanf(val, "%d", &result)] with [result] zero before: spaces, a sign,
    digits, and an error leaves the zero. *)
Fixpoint skip_space (s : string) : option string :=
  match s with
  | EmptyString => Some EmptyString
  | String a s' => if code a =? 10 then None else if is_space a then skip_space s' else Some s
  end.
Fixpoint take_digits (s : string) : string :=
  match s with
  | EmptyString => EmptyString
  | String a s' => if is_digit a then String a (take_digits s') else EmptyString
  end.
Definition signed_digits (s : string) : string :=
  match s with
  | String a s' => if Ascii.eqb a "+" || Ascii.eqb a "-" then String a (take_digits s') else take_digits s
  | EmptyString => EmptyString
  end.
Definition scan_int (val : string) : Z :=
  match skip_space val with
  | Some s => default 0 (parse_int 64 (signed_digits s))
  | None => 0
  end.

Definition getInputInt (m : Model) (key : string) (defaultVal : Z) : Z :=
  match inputs m !! key with
  | Some val =>
      if String.eqb val "" then defaultVal
      else let result := scan_int val in if 0 <=? result then result else defaultVal
  | None => defaultVal
  end.

Lemma take_digits_all s : all_bytes is_digit s = true → take_digits s = s.
Proof. induction s as [|a s IH]; [done|]. cbn. intros [-> Hs]%andb_prop. by rewrite IH. Qed.

(** A number that is written out is scanned. *)
Lemma scan_itoa z : in_int64 z → scan_int (itoa z) = z.
Proof.
  intros Hz. pose proof itoa_nonneg_digits as Hall.
  assert (signed_digits (itoa z) = itoa z ∧ skip_space (itoa z) = Some (itoa z)) as [Hd Hs].
  { unfold itoa. destruct (z <? 0) eqn:Hneg.
    - apply Z.ltb_lt in Hneg. cbn. by rewrite take_digits_all by (apply Hall; lia).
    - apply Z.ltb_ge in Hneg. destruct (digits_fuel_head (S (Z.to_nat (Z.log2 z))) z) as (a & s & Ha & Hda); [lia..|].
      specialize (Hall z Hneg). unfold itoa_nonneg in *. rewrite Ha in *.
      assert (is_space a = false ∧ (code a =? 10) = false ∧ (Ascii.eqb a "+" || Ascii.eqb a "-") = false) as (H1 & H2 & H3).
      { clear -Hda. destruct a as [[] [] [] [] [] [] [] []]; vm_compute in Hda; try discriminate Hda; by split_and!. }
      unfold signed_digits, skip_space. rewrite H1, H2, H3. split; [by apply take_digits_all|done]. }
  unfold scan_int. rewrite Hs, Hd. by rewrite (atoi_itoa z Hz : parse_int 64 (itoa z) = Some z).
Qed.

(** A text that starts like no number is scanned as zero. *)
Definition word_head (a : ascii) : bool := negb (numeral_head a) && negb (is_space a).

Lemma scan_word a s : word_head a = true → scan_int (String a s) = 0.
Proof.
  unfold word_head, numeral_head. intros [Hn Hs]%andb_prop. apply negb_true_iff in Hn, Hs.
  apply orb_false_iff in Hn as [[Hd Hplus]%orb_false_iff Hminus].
  assert ((code a =? 10) = false) as Hnl
    by (clear -Hs; destruct a as [[] [] [] [] [] [] [] []]; vm_compute in Hs; try discriminate Hs; done).
  unfold scan_int, skip_space. rewrite Hnl, Hs. unfold signed_digits. rewrite Hplus, Hminus. cbn. by rewrite Hd.
Qed.

(** How a number that was entered is read, in every field that takes one: a
    number that fits is itself, one below zero and an empty field stand for the
    default, and a text that is no number is zero, whatever the default. *)
Theorem number_entered m key d :
  (inputs m !! key = None ∨ inputs m !! key = Some "" → getInputInt m key d = d) ∧
  (∀ z, in_int64 z → inputs m !! key = Some (itoa z) → getInputInt m key d = if 0 <=? z then z else d) ∧
  (∀ a s, word_head a = true → inputs m !! key = Some (String a s) → getInputInt m key d = 0).
Proof.
  unfold getInputInt. split_and!.
  - by intros [-> | ->].
  - intros z Hz ->. rewrite scan_itoa by done. cbv zeta.
    assert (String.eqb (itoa z) "" = false) as ->; [|done].
    apply String.eqb_neq. intros Hi. pose proof (atoi_itoa z Hz) as Ha. by rewrite Hi in Ha.
  - intros a s Ha ->. cbv zeta. by rewrite scan_word.
Qed.

Definition set_input (key val : string) (m : Model) : Model := set_inputs (<[key := val]> (inputs m)) m.
Definition input (m : Model) (key : string) : string := default "" (inputs m !! key).

(** ** Validation *)

Definition with_config (f : Config → Config) (m : Model) : Model :=
  set_inner (set_config (f (config (inner m))) (inner m)) m.

Definition validateArkeConfig (m : Model) : Model :=
  with_config (λ c, set_ArkeTLS (String.eqb (getInput m "arke_tls" "false") "true")
    (set_ArkePort (getInputInt m "arke_port" 50051) (set_ArkeHost (getInput m "arke_host" "localhost") c))) m.

Definition validateBrokerConfig (m : Model) : Model :=
  with_config (λ c, set_BrokerTenant (getInput m "broker_tenant" "")
    (set_BrokerTLS (String.eqb (getInput m "broker_tls" "false") "true")
    (set_BrokerPassword (getInput m "broker_password" "guest")
    (set_BrokerUsername (getInput m "broker_username" "guest")
    (set_BrokerPort (getInputInt m "broker_port" 5672) (set_BrokerHost (getInput m "broker_host" "localhost") c)))))) m.

Definition validateConnectionConfig (m : Model) : Model :=
  with_config (λ c, set_NumConsumerConnections (getInputInt m "num_consumer_connections" 1)
    (set_NumPublisherConnections (getInputInt m "num_publisher_connections" 1) c)) m.

(** The stream configuration that is entered. *)
Definition entered_stream_config (m : Model) : StreamConfig :=
  let msgCount := getInputInt m "message_count" 10000 in
  mkStreamConfig (getInputInt m "num_publisher_streams" 1) (getInputInt m "num_consumer_streams" 1)
    (if String.eqb (getInput m "source_type" "queue") "stream" then Source_STREAM else Source_QUEUE)
    (getInput m "source_name" "test-source") (getInput m "address_name" "test-address")
    (getInput m "subject" "test.routing.key") msgCount (msgCount =? 0)
    (getInputInt m "publish_rate_limit" 0) (getInput m "message_file" "").

Section tui.
Context {E : Type} `{Oracle Arke E} `{LoadJson} `{MapRange}.

Abbreviation tprog := (prog (world Arke E Model)).

(** A program of the load client, run on what the model points to. *)
Definition on_load {A} (p : prog (world Arke E load) A) : tprog A := λ w,
  let '(o, w') := p {| st := inner (st w); env := env w; log := log w |} in
  (o, {| st := set_inner (st w') (st w); env := env w'; log := log w' |}).

Definition update (f : Model → Model) : tprog () := writes f.

Definition validateStreamConfig : tprog bool :=
  update (λ m, set_streamConfig (entered_stream_config m) m);;
  m ← reads (λ m, m);
  let saveFile := getInput m "save_config_file" "" in
  if String.eqb saveFile "" then mret true
  else
    e ← on_load (SaveConfig saveFile (config (inner m)) (streamConfig m));
    match (e : error) with
    | Some e => update (set_err (Some ("failed to save config: " +:+ e)));; mret false
    | None => mret true
    end.

(** ** Starting the load *)

(** What the publishers of a load that is started from the screens get: their
    rate is not in it. *)
Definition started_publishers (sc : StreamConfig) : StreamConfig :=
  mkStreamConfig (NumPublisherStreams sc) 0 (sc_SourceType sc) (sc_SourceName sc) (sc_AddressName sc) (Subject sc)
    (sc_MessageCount sc) (IsContinuous sc) 0 (MessageFile sc).

(** The same with the rate. *)
Definition publisher_config (n : Z) (sc : StreamConfig) : StreamConfig :=
  mkStreamConfig n 0 (sc_SourceType sc) (sc_SourceName sc) (sc_AddressName sc) (Subject sc)
    (sc_MessageCount sc) (IsContinuous sc) (PublishRateLimit sc) (MessageFile sc).

Definition consumer_config (n : Z) (sc : StreamConfig) : StreamConfig :=
  mkStreamConfig 0 n (sc_SourceType sc) (sc_SourceName sc) (sc_AddressName sc) (Subject sc) 0 false 0 "".

(** The streams of one connection. *)
Definition add_streams (pubs cons : StreamConfig) (sc : StreamConfig) (c : nat) : prog (world Arke E load) error :=
  conn ← get_conn c;
  match conn_Type conn with
  | ConnectionTypePublisher => if 0 <? NumPublisherStreams sc then AddPublishers c pubs else mret None
  | ConnectionTypeConsumer => if 0 <? NumConsumerStreams sc then AddConsumers c cons else mret None
  end.

(** Connections of both types and their streams, until one fails. *)
Definition start (sc : StreamConfig) : prog (world Arke E load) error :=
  NewConnectionManager;;
  cfg ← reads config;
  e ← create_many (Z.to_nat (NumPublisherConnections cfg)) ConnectionTypePublisher;
  match (e : error) with
  | Some e => mret (Some e)
  | None =>
      e ← create_many (Z.to_nat (NumConsumerConnections cfg)) ConnectionTypeConsumer;
      match (e : error) with
      | Some e => mret (Some e)
      | None =>
          conns ← GetConnections;
          for_range conns (add_streams (started_publishers sc) (consumer_config (NumConsumerStreams sc) sc) sc)
      end
  end.

(** The message it ends with: an error, or the first tick. *)
Definition startLoad : tprog msg :=
  m ← reads (λ m, m);
  e ← on_load (start (streamConfig m));
  match (e : error) with
  | Some e => mret (ErrMsg e)
  | None =>
      update (λ m, set_editing false (set_cursor 0 (set_screen ScreenRunning m)));;
      mret TickMsg
  end.

(** ** Changing a running load *)

Definition note (e : error) : tprog () :=
  match e with Some _ => update (set_err e) | None => mret () end.

(** Streams for the connections of a type that have none. *)
Definition fill (t : ConnectionType) (add : nat → prog (world Arke E load) error) : tprog () :=
  conns ← on_load GetConnections;
  for_each conns (λ c,
    conn ← on_load (get_conn c);
    if decide (conn_Type conn = t) then
      let streams := match t with
                     | ConnectionTypePublisher => length (conn_publishers conn)
                     | ConnectionTypeConsumer => length (conn_consumers conn)
                     end in
      if (streams =? 0)%nat then e ← on_load (add c); note e else mret ()
    else mret ()).

(** The same for every connection of a type. *)
Definition scale_all (t : ConnectionType) (scale : nat → prog (world Arke E load) error) : tprog () :=
  conns ← on_load GetConnections;
  for_each conns (λ c,
    conn ← on_load (get_conn c);
    if decide (conn_Type conn = t) then e ← on_load (scale c); note e else mret ()).

(** A new number of connections. *)
Definition change_connections (key : string) (t : ConnectionType) (old : Config → Z)
    (put : Z → Config → Config) (streams : StreamConfig → Z) (add : StreamConfig → nat → prog (world Arke E load) error) :
    tprog () :=
  m ← reads (λ m, m);
  let oldCount := old (config (inner m)) in
  let numConns := getInputInt m key oldCount in
  if numConns =? oldCount then mret ()
  else
    update (with_config (put numConns));;
    e ← on_load (ScaleConnections numConns t);
    match (e : error) with
    | Some _ => note e
    | None =>
        if (oldCount <? numConns) && (0 <? streams (streamConfig m)) then fill t (add (streamConfig m)) else mret ()
    end;;
    update (set_input key "").

Definition handleRunningCommand : tprog cmd :=
  m ← reads (λ m, m);
  let field := getCurrentField m in
  (if String.eqb field "runtime_publisher_connections" then
     change_connections field ConnectionTypePublisher NumPublisherConnections set_NumPublisherConnections
       NumPublisherStreams (λ sc c, AddPublishers c (publisher_config (NumPublisherStreams sc) sc))
   else if String.eqb field "runtime_consumer_connections" then
     change_connections field ConnectionTypeConsumer NumConsumerConnections set_NumConsumerConnections
       NumConsumerStreams (λ sc c, AddConsumers c (consumer_config (NumConsumerStreams sc) sc))
   else if String.eqb field "runtime_publisher_streams" then
     let n := getInputInt m field (NumPublisherStreams (streamConfig m)) in
     if n =? NumPublisherStreams (streamConfig m) then mret ()
     else
       update (λ m, set_streamConfig (set_NumPublisherStreams n (streamConfig m)) m);;
       scale_all ConnectionTypePublisher (λ c, ScalePublishers c (publisher_config n (streamConfig m)));;
       update (set_input field "")
   else if String.eqb field "runtime_consumer_streams" then
     let n := getInputInt m field (NumConsumerStreams (streamConfig m)) in
     if n =? NumConsumerStreams (streamConfig m) then mret ()
     else
       update (λ m, set_streamConfig (set_NumConsumerStreams n (streamConfig m)) m);;
       scale_all ConnectionTypeConsumer (λ c, ScaleConsumers c (consumer_config n (streamConfig m)));;
       update (set_input field "")
   else if String.eqb field "runtime_publish_rate_limit" then
     let rateLimit := getInputInt m field (PublishRateLimit (streamConfig m)) in
     if rateLimit =? PublishRateLimit (streamConfig m) then mret ()
     else
       let sc := set_PublishRateLimit rateLimit (streamConfig m) in
       update (set_streamConfig sc);;
       scale_all ConnectionTypePublisher (λ c, ScalePublishers c (publisher_config (NumPublisherStreams sc) sc));;
       update (set_input field "")
   else mret ());;
  mret NoCmd.

(** ** Keys *)

(** The cursor stands on the button that leads on. *)
Definition on_button (m : Model) : bool := cursor m =? getMaxCursor m.
Definition toggle_editing (m : Model) : Model := set_editing (negb (editing m)) m.
Definition go_to (s : Screen) (m : Model) : Model := set_editing false (set_cursor 0 (set_screen s m)).

Definition handleEnter : tprog cmd :=
  m ← reads (λ m, m);
  match screen m with
  | ScreenArkeConfig =>
      update (if on_button m then λ m, go_to ScreenBrokerConfig (validateArkeConfig m) else toggle_editing);; mret NoCmd
  | ScreenBrokerConfig =>
      update (if on_button m then λ m, go_to ScreenConnectionConfig (validateBrokerConfig m) else toggle_editing);;
      mret NoCmd
  | ScreenConnectionConfig =>
      update (if on_button m then λ m, go_to ScreenStreamConfig (validateConnectionConfig m) else toggle_editing);;
      mret NoCmd
  | ScreenStreamConfig =>
      if on_button m then
        ok ← validateStreamConfig;
        if (ok : bool) then update (set_editing false);; mret StartLoad else mret NoCmd
      else update toggle_editing;; mret NoCmd
  | ScreenRunning =>
      if editing m then update (set_editing false);; handleRunningCommand
      else update (set_editing true);; mret NoCmd
  end.

Definition handleBackspace (m : Model) : Model :=
  let field := getCurrentField m in
  if negb (editing m) || String.eqb field "" then m
  else
    let current := input m field in
    if (String.length current =? 0)%nat then m
    else set_input field (substring 0 (String.length current - 1) current) m.

Definition handleTextInput (s : string) (m : Model) : Model :=
  let field := getCurrentField m in
  if editing m && (String.length s =? 1)%nat && negb (String.eqb field "") then
    set_input field (input m field +:+ s) m
  else m.

(** The keys that need nothing but the model. *)
Definition plain_key (s : string) (m : Model) : Model :=
  if String.eqb s "up" then
    if negb (editing m) && (0 <? cursor m) then set_cursor (cursor m - 1) m else m
  else if String.eqb s "down" then
    if negb (editing m) && (cursor m <? getMaxCursor m) then set_cursor (cursor m + 1) m else m
  else if String.eqb s "tab" then
    if negb (editing m) && match screen m with ScreenRunning => false | _ => true end
    then set_cursor (getMaxCursor m) m else m
  else if String.eqb s "backspace" then handleBackspace m
  else if String.eqb s "esc" then (if editing m then set_editing false m else m)
  else handleTextInput s m.

Definition handleKeyPress (s : string) : tprog cmd :=
  if String.eqb s "ctrl+c" then
    m ← reads (λ m, m);
    (match manager (inner m) with Some _ => on_load CloseAll | None => mret () end);;
    on_load (writes (set_cancelled true));;
    mret Quit
  else if String.eqb s "enter" then handleEnter
  else update (plain_key s);; mret NoCmd.

Definition Update (m : msg) : tprog cmd :=
  match m with
  | KeyMsg s => handleKeyPress s
  | WindowSizeMsg w h => update (λ m, set_height h (set_width w m));; mret NoCmd
  | TickMsg =>
      m ← reads (λ m, m);
      match screen m with
      | ScreenRunning => on_load LoadClient.Update;; mret Tick
      | _ => mret NoCmd
      end
  | ErrMsg e => update (set_err (Some e));; mret NoCmd
  end.

(** ** The runtime *)

(** A message comes in, or a start that was asked for is carried out, and its
    message is handled. *)
Inductive event := Deliver (m : msg) | RunStart.

Fixpoint run (es : list event) (pending : nat) : tprog () :=
  match es with
  | [] => mret ()
  | Deliver m :: es =>
      c ← Update m;
      match c with
      | Quit => mret ()
      | StartLoad => run es (S pending)
      | _ => run es pending
      end
  | RunStart :: es =>
      match pending with
      | O => run es O
      | S pending => m ← startLoad; Update m;; run es pending
      end
  end.

(** ** The first model *)

Definition Init (m : Model) : cmd := match screen m with ScreenRunning => Tick | _ => NoCmd end.

Definition default_config : Config := mkConfig "" 0 false "" 0 "" "" false "amqp091" "" 1 1.
Definition default_stream_config : StreamConfig := mkStreamConfig 1 1 Source_QUEUE "" "" "" 10000 false 0 "".

Definition no_metrics (now : Z) : Metrics := mkMetrics 0 0 (S754_zero false) (S754_zero false) 0 0 now.

Definition NewModel (now : Z) : Model :=
  mkModel ScreenArkeConfig default_stream_config 0 false ∅ None 0 0
    (mkLoad default_config (no_metrics now) None ∅ ∅ ∅ 0 [] false).

(** A number of connections; the last error is kept, and the others are tried. *)
Fixpoint create_all (n : nat) (t : ConnectionType) : tprog () :=
  match n with
  | O => mret ()
  | S n => e ← on_load (CreateConnection t); note e;; create_all n t
  end.

Definition NewModelWithConfig (c : Config) (sc : StreamConfig) (now : Z) : tprog () :=
  update (λ _, mkModel ScreenRunning sc 0 false ∅ None 0 0 (mkLoad c (no_metrics now) (Some []) ∅ ∅ ∅ 0 [] false));;
  create_all (Z.to_nat (NumPublisherConnections c)) ConnectionTypePublisher;;
  create_all (Z.to_nat (NumConsumerConnections c)) ConnectionTypeConsumer;;
  conns ← on_load GetConnections;
  for_each conns (λ c,
    e ← on_load (add_streams (publisher_config (NumPublisherStreams sc) sc)
                   (consumer_config (NumConsumerStreams sc) sc) sc c);
    note e).

(** ** What the load keeps *)

Create HintDb loads discriminated.
#[local] Hint Constants Opaque : loads.

(** A manager that was made stays. *)
Definition managed (s s' : load) : Prop := is_Some (manager s) → is_Some (manager s').

#[local] Instance managed_refl : Reflexive managed.
Proof. by intros s. Qed.
#[local] Instance managed_trans : Transitive managed.
Proof. intros s1 s2 s3 H12 H23 Hs. by apply H23, H12. Qed.

(** A relation that holds of every update of the objects a load has. *)
Ltac managed_solve :=
  repeat first [solve [eauto 2 with loads] | keeps_step | progress cbv zeta]; try match goal with
  | |- managed ?s _ => by destruct s as [? ? [] ? ? ? ? ? ?]; first [done|intros [? [=]]|intros _; eexists]
  end.

Lemma managed_pub_Stop p : keeps (E := E) managed (Publisher.Stop p).
Proof. unfold Publisher.Stop, get_pub, deref, upd_pub, call. managed_solve. Qed.
Lemma managed_cons_Stop c : keeps (E := E) managed (Consumer.Stop c).
Proof. unfold Consumer.Stop, get_cons, deref, upd_cons, call. managed_solve. Qed.
Lemma managed_pub_Start p : keeps (E := E) managed (Publisher.Start p).
Proof.
  unfold Publisher.Start, Publisher.load_template, LoadMessageFromFile, Publisher.declareSource,
    Publisher.declare_answer, get_pub, deref, upd_pub, spawn, call. managed_solve.
Qed.
Lemma managed_cons_Start c : keeps (E := E) managed (Consumer.Start c).
Proof. unfold Consumer.Start, get_cons, deref, upd_cons, spawn, call. managed_solve. Qed.
Lemma managed_Create t : keeps (E := E) managed (CreateConnection t).
Proof.
  unfold CreateConnection, GetConnections, createGRPCConnection, alloc, cancel_conn, upd_conn, nil_pointer, call.
  managed_solve.
Qed.
#[local] Hint Resolve managed_pub_Stop managed_cons_Stop managed_pub_Start managed_cons_Start managed_Create : loads.

Lemma managed_Close c : keeps (E := E) managed (Close c).
Proof. unfold Close, get_conn, deref, call, cancel_conn, upd_conn. managed_solve. Qed.
Lemma managed_create_many n t : keeps (E := E) managed (create_many n t).
Proof. induction n as [|n IH]; cbn [create_many]; managed_solve. Qed.
Lemma managed_GetConnections : keeps (E := E) managed GetConnections.
Proof. unfold GetConnections, nil_pointer. managed_solve. Qed.
Lemma managed_get_conn c : keeps (E := E) managed (get_conn c).
Proof. unfold get_conn, deref. managed_solve. Qed.
#[local] Hint Resolve managed_Close managed_create_many managed_GetConnections managed_get_conn : loads.

Lemma managed_CloseAll : keeps (E := E) managed CloseAll.
Proof. unfold CloseAll. managed_solve. Qed.
Lemma managed_ScaleConnections n t : keeps (E := E) managed (ScaleConnections n t).
Proof. unfold ScaleConnections. managed_solve. Qed.
Lemma managed_add_publishers n i k c cfg : keeps (E := E) managed (add_publishers n i k c cfg).
Proof. revert i. induction n as [|n IH]; intros i; cbn [add_publishers]; unfold alloc, upd_conn; managed_solve. Qed.
Lemma managed_add_consumers n i k c cfg : keeps (E := E) managed (add_consumers n i k c cfg).
Proof. revert i. induction n as [|n IH]; intros i; cbn [add_consumers]; unfold alloc, upd_conn; managed_solve. Qed.
#[local] Hint Resolve managed_CloseAll managed_ScaleConnections managed_add_publishers managed_add_consumers : loads.

Lemma managed_AddPublishers c cfg : keeps (E := E) managed (AddPublishers c cfg).
Proof. unfold AddPublishers. managed_solve. Qed.
Lemma managed_AddConsumers c cfg : keeps (E := E) managed (AddConsumers c cfg).
Proof. unfold AddConsumers. managed_solve. Qed.
Lemma managed_survey rate ps : keeps (E := E) managed (survey rate ps).
Proof. induction ps as [|p ps IH]; cbn [survey]; unfold get_pub, deref; managed_solve. Qed.
#[local] Hint Resolve managed_AddPublishers managed_AddConsumers managed_survey : loads.

Lemma managed_ScalePublishers c cfg : keeps (E := E) managed (ScalePublishers c cfg).
Proof. unfold ScalePublishers, stop_active, get_pub, deref, upd_conn. managed_solve. Qed.
Lemma managed_ScaleConsumers c cfg : keeps (E := E) managed (ScaleConsumers c cfg).
Proof. unfold ScaleConsumers, upd_conn. managed_solve. Qed.
Lemma managed_add_streams p q sc c : keeps (E := E) managed (add_streams p q sc c).
Proof. unfold add_streams. managed_solve. Qed.
Lemma managed_start sc : keeps (E := E) managed (start sc).
Proof. unfold start, NewConnectionManager. managed_solve. all: apply managed_add_streams. Qed.
#[local] Hint Resolve managed_ScalePublishers managed_ScaleConsumers managed_add_streams managed_start : loads.

(** ** A model that can be shown *)

(** The cursor is on a field or on the button of its screen, a field that is
    edited is there, and a load that runs has its connections. *)
Record shown (m : Model) : Prop := {
  shown_cursor : 0 <= cursor m <= getMaxCursor m;
  shown_editing : editing m = true → getCurrentField m ≠ "";
  shown_running : screen m = ScreenRunning → is_Some (manager (inner m))
}.

(** A program that changes what the model points to. *)
Lemma on_load_shown {A} (p : prog (world Arke E load) A) :
  keeps managed p → keeps (stable shown) (on_load p).
Proof.
  intros Hp w. unfold on_load. specialize (Hp {| st := inner (st w); env := env w; log := log w |}).
  destruct (p _) as [o w']. cbn in *. intros [Hc He Hr]. destruct (st w). cbn in *. split; [done..|].
  intros Hs. cbn in *. by apply Hp, Hr.
Qed.

(** An update that leaves cursor, screen and editing alone, or stops editing. *)
Lemma update_shown (f : Model → Model) :
  (∀ m, screen (f m) = screen m ∧ cursor (f m) = cursor m ∧ (editing (f m) = true → editing m = true) ∧
        manager (inner (f m)) = manager (inner m)) →
  ∀ m, stable shown m (f m).
Proof.
  intros Hf m [Hc He Hr]. destruct (Hf m) as (Hs & Hcur & Hed & Hm).
  unfold getMaxCursor, getCurrentField in *. split; rewrite ?Hm; unfold getMaxCursor, getCurrentField; rewrite ?Hs, ?Hcur; auto.
Qed.

(** Below the button there is a field; on the running screen everywhere. *)
Lemma field_there m : 0 <= cursor m <= getMaxCursor m → screen m = ScreenRunning ∨ on_button m = false →
  getCurrentField m ≠ "".
Proof.
  intros Hc Hb. unfold getCurrentField.
  assert (Forall (λ f, f ≠ "") (fields_of (screen m))) as Hall by (destruct (screen m); by repeat constructor).
  assert (Z.to_nat (cursor m) < length (fields_of (screen m)))%nat as Hlt.
  { unfold on_button, getMaxCursor in *. destruct Hb as [Hs|Hb].
    - rewrite Hs in *. cbn. lia.
    - apply Z.eqb_neq in Hb. destruct (screen m); cbn; lia. }
  apply lookup_lt_is_Some_2 in Hlt as [f Hf]. rewrite Hf. cbn. by apply (Forall_lookup_1 _ _ _ _ Hall Hf).
Qed.

Lemma shown_stopped m : 0 <= cursor m <= getMaxCursor m → (screen m = ScreenRunning → is_Some (manager (inner m))) →
  editing m = false → shown m.
Proof. intros Hc Hr He. split; [done| |done]. by rewrite He. Qed.

(** Moving and editing while nothing is edited. *)
Lemma move_shown c m : 0 <= c <= getMaxCursor m → editing m = false → shown m → shown (set_cursor c m).
Proof. intros Hc He [_ _ Hr]. destruct m. by apply shown_stopped. Qed.

Lemma edit_shown b m : (b = true → screen m = ScreenRunning ∨ on_button m = false) →
  shown m → shown (set_editing b m).
Proof.
  intros Hb [Hc _ Hr]. destruct b; [|destruct m; by apply shown_stopped].
  split; [by destruct m| |by destruct m]. intros _. specialize (Hb eq_refl).
  pose proof (field_there m Hc Hb) as Hf. by destruct m.
Qed.

Lemma set_input_shown key val m : shown m → shown (set_input key val m).
Proof. apply (update_shown (set_input key val)). intros []. by split_and!. Qed.

Lemma max_cursor_nonneg m : 0 <= getMaxCursor m.
Proof. unfold getMaxCursor. destruct (screen m); lia. Qed.

Lemma plain_key_shown s m : shown m → shown (plain_key s m).
Proof.
  intros Hm. pose proof (shown_cursor m Hm) as Hc. unfold plain_key.
  destruct (String.eqb s "up").
  { destruct (negb (editing m)) eqn:He; [|done]. apply negb_true_iff in He. destruct (0 <? cursor m) eqn:Hlt; [|done].
    apply Z.ltb_lt in Hlt. apply move_shown; [lia|done..]. }
  destruct (String.eqb s "down").
  { destruct (negb (editing m)) eqn:He; [|done]. apply negb_true_iff in He. destruct (cursor m <? _) eqn:Hlt; [|done].
    apply Z.ltb_lt in Hlt. apply move_shown; [lia|done..]. }
  destruct (String.eqb s "tab").
  { destruct (negb (editing m) && _) eqn:He; [|done]. apply andb_prop in He as [He%negb_true_iff _].
    apply move_shown; [|done..]. split; [apply max_cursor_nonneg|lia]. }
  destruct (String.eqb s "backspace").
  { unfold handleBackspace. destruct (negb (editing m) || _); [done|]. destruct (_ =? 0)%nat; [done|].
    by apply set_input_shown. }
  destruct (String.eqb s "esc"); [destruct (editing m); [by apply edit_shown|done]|].
  unfold handleTextInput. destruct (editing m && _ && _); [by apply set_input_shown|done].
Qed.

(** A screen before the load, from its first field on. *)
Lemma go_to_shown s m : s ≠ ScreenRunning → shown (go_to s m).
Proof. intros Hs. destruct m. apply shown_stopped; [|done|done]. cbn. split; [done|]. by destruct s. Qed.

(** Handlers that only change what the model points to, the inputs and the
    error. *)
Lemma shown_update f : (∀ m, stable shown m (f m)) → keeps (E := E) (stable shown) (update f).
Proof. intros Hf. apply keeps_writes. exact Hf. Qed.

Lemma shown_update_plain f :
  (∀ m, screen (f m) = screen m ∧ cursor (f m) = cursor m ∧ (editing (f m) = true → editing m = true) ∧
        manager (inner (f m)) = manager (inner m)) →
  keeps (E := E) (stable shown) (update f).
Proof. intros Hf. by apply shown_update, update_shown. Qed.

Ltac shown_solve :=
  repeat first [apply on_load_shown; solve [eauto 2 with loads] | solve [eauto 4 with loads] | keeps_step
               | progress cbv zeta];
  try (apply shown_update_plain; intros [? ? ? ? ? ? ? ? []]; cbn; by split_and!).

Lemma shown_note e : keeps (E := E) (stable shown) (note e).
Proof. unfold note. shown_solve. Qed.
#[local] Hint Resolve shown_note : loads.

Lemma shown_fill t add : (∀ c, keeps managed (add c)) → keeps (E := E) (stable shown) (fill t add).
Proof. intros Hadd. unfold fill. shown_solve. Qed.
Lemma shown_scale_all t scale : (∀ c, keeps managed (scale c)) → keeps (E := E) (stable shown) (scale_all t scale).
Proof. intros Hscale. unfold scale_all. shown_solve. Qed.
#[local] Hint Resolve shown_fill shown_scale_all : loads.

Lemma shown_change key t old put streams add : (∀ sc c, keeps managed (add sc c)) →
  keeps (E := E) (stable shown) (change_connections key t old put streams add).
Proof. intros Hadd. unfold change_connections. shown_solve. Qed.
#[local] Hint Resolve shown_change : loads.

Lemma shown_running_command : keeps (E := E) (stable shown) handleRunningCommand.
Proof. unfold handleRunningCommand. shown_solve. Qed.

#[local] Hint Resolve shown_running_command : loads.

Lemma managed_SaveConfig f c sc : keeps (E := E) managed (SaveConfig f c sc).
Proof. unfold SaveConfig, call. managed_solve. Qed.
Lemma managed_Update : keeps (E := E) managed LoadClient.Update.
Proof. unfold LoadClient.Update, call. managed_solve. Qed.
Lemma managed_cancel : keeps (I := Arke) (E := E) managed (writes (set_cancelled true)).
Proof. managed_solve. Qed.
#[local] Hint Resolve managed_SaveConfig managed_Update managed_cancel : loads.

Lemma shown_validateStream : keeps (E := E) (stable shown) validateStreamConfig.
Proof. unfold validateStreamConfig. shown_solve. Qed.
#[local] Hint Resolve shown_validateStream : loads.

Lemma shown_bind_ret {A} (c : A) (p : tprog ()) w :
  keeps (stable shown) p → shown (st w) → shown (st (snd ((p;; mret c) w))).
Proof.
  intros Hp Hw. pose proof (keeps_bind (stable shown) p (λ _, mret c) Hp (λ _, keeps_ret (stable shown) c) w) as Hk.
  by apply Hk.
Qed.

(** What enter does before the load runs: off the button a field is edited or
    left, on the button [next] is done. *)
Lemma enter_shown w f : screen (st w) ≠ ScreenRunning → (∀ m, shown (f m)) → shown (st w) →
  shown (st (snd ((update (if on_button (st w) then f else toggle_editing);; mret NoCmd) w))).
Proof.
  intros Hs Hf Hw. unfold update. rewrite writes_bind. cbn. destruct (on_button (st w)) eqn:Hb; [apply Hf|].
  apply edit_shown; [by right|done].
Qed.

Lemma shown_handleEnter : keeps (E := E) (stable shown) handleEnter.
Proof.
  intros w Hw. unfold handleEnter. rewrite reads_bind. destruct (screen (st w)) eqn:Hs.
  - apply enter_shown; [by rewrite Hs| |done]. intros m. by apply go_to_shown.
  - apply enter_shown; [by rewrite Hs| |done]. intros m. by apply go_to_shown.
  - apply enter_shown; [by rewrite Hs| |done]. intros m. by apply go_to_shown.
  - destruct (on_button (st w)) eqn:Hb.
    + apply (keeps_bind (stable shown)); [apply shown_validateStream| |exact Hw].
      intros [|]; shown_solve.
    + unfold update. rewrite writes_bind. apply edit_shown; [by right|done].
  - destruct (editing (st w)) eqn:He.
    + apply (keeps_bind (stable shown)); [shown_solve|intros _; apply shown_running_command|exact Hw].
    + unfold update. rewrite writes_bind. apply edit_shown; [by left|done].
Qed.

#[local] Hint Resolve shown_handleEnter : loads.

Lemma shown_handleKeyPress s : keeps (E := E) (stable shown) (handleKeyPress s).
Proof.
  unfold handleKeyPress. destruct (String.eqb s "ctrl+c"); [shown_solve|].
  destruct (String.eqb s "enter"); [apply shown_handleEnter|].
  apply keeps_bind; [exact _|apply shown_update; intros m; exact (plain_key_shown s m)|intros _; apply keeps_ret; exact _].
Qed.
#[local] Hint Resolve shown_handleKeyPress : loads.

Lemma shown_Update m : keeps (E := E) (stable shown) (Update m).
Proof. unfold Update. shown_solve. Qed.

(** A load that is started successfully has a manager. *)
Lemma start_manages sc w w' : start sc w = (Ret None, w') → is_Some (manager (st w')).
Proof.
  unfold start. unfold NewConnectionManager. rewrite writes_bind. set (w1 := set_st _ w).
  assert (is_Some (manager (st w1))) as Hm1 by (unfold w1; destruct w as [[] ? ?]; by eexists).
  intros Hrun. set (p := (cfg ← reads config; _)) in Hrun.
  assert (keeps managed p) as Hk by (unfold p; managed_solve; apply managed_add_streams).
  pose proof (Hk w1 Hm1) as Hm. by rewrite Hrun in Hm.
Qed.

Lemma shown_startLoad : keeps (E := E) (stable shown) startLoad.
Proof.
  intros w Hw. unfold startLoad. rewrite reads_bind.
  pose proof (on_load_shown (start (streamConfig (st w))) (managed_start _) w Hw) as Hk.
  unfold mbind, prog_bind. unfold on_load in *.
  destruct (start (streamConfig (st w)) _) as [[[e|]|why|] w1] eqn:Hs; [exact Hk| |exact Hk..].
  apply start_manages in Hs. destruct (st w). cbn in *. apply shown_stopped; cbn; [lia|done|done].
Qed.

#[local] Hint Resolve shown_Update shown_startLoad : loads.

Lemma shown_run es pending : keeps (E := E) (stable shown) (run es pending).
Proof.
  revert pending. induction es as [|[m|] es IH]; intros pending; cbn [run]; shown_solve.
Qed.

(** C40: The user interface is never in a state that cannot be shown or edited,
    whatever keys are pressed and messages come in, whenever a load that was
    asked for is started, and whatever the server answers: the cursor is on a
    field or the button of its screen, what is edited is a field of the screen,
    and the running screen has connections to show. *)
Theorem always_shown es pending now w :
  st w = NewModel now → shown (st (snd (run es pending w))).
Proof.
  intros Hw. assert (shown (st w)) as Hs by (rewrite Hw; by apply shown_stopped).
  by apply shown_run.
Qed.

(** ** The rate of a load that is started from the screens *)

(** No publisher has a rate. *)
Definition unlimited (s : load) : Prop :=
  ∀ p pub, publishers s !! p = Some pub → PublishRateLimit (pub_config pub) = 0.

Lemma unlimited_same s s' : publishers s' = publishers s → stable unlimited s s'.
Proof. intros Hp Hs p pub. rewrite Hp. apply Hs. Qed.

Lemma unlimited_alter f p s : (∀ pub, pub_config (f pub) = pub_config pub) →
  stable unlimited s (set_publishers (alter f p (publishers s)) s).
Proof.
  intros Hf Hs q pub Hq. destruct s. cbn in *. apply lookup_alter_Some in Hq as [(-> & pub0 & Hq & ->)|[_ Hq]];
    [rewrite Hf|]; by eapply Hs.
Qed.

Ltac unlimited_solve :=
  repeat first [solve [eauto 2 with loads] | keeps_step | progress cbv zeta];
  try (apply unlimited_alter; by intros []);
  try (apply unlimited_same; by match goal with s : load |- _ => destruct s end).

Lemma unlimited_pub_Stop p : keeps (E := E) (stable unlimited) (Publisher.Stop p).
Proof. unfold Publisher.Stop, get_pub, deref, upd_pub, call. unlimited_solve. Qed.
Lemma unlimited_pub_Start p : keeps (E := E) (stable unlimited) (Publisher.Start p).
Proof.
  unfold Publisher.Start, Publisher.load_template, LoadMessageFromFile, Publisher.declareSource,
    Publisher.declare_answer, get_pub, deref, upd_pub, spawn, call. unlimited_solve.
Qed.
Lemma unlimited_cons_Start c : keeps (E := E) (stable unlimited) (Consumer.Start c).
Proof. unfold Consumer.Start, get_cons, deref, upd_cons, spawn, call. unlimited_solve. Qed.
Lemma unlimited_Create t : keeps (E := E) (stable unlimited) (CreateConnection t).
Proof.
  unfold CreateConnection, GetConnections, createGRPCConnection, alloc, cancel_conn, upd_conn, nil_pointer, call.
  unlimited_solve.
Qed.
#[local] Hint Resolve unlimited_pub_Stop unlimited_pub_Start unlimited_cons_Start unlimited_Create : loads.

Lemma unlimited_create_many n t : keeps (E := E) (stable unlimited) (create_many n t).
Proof. induction n as [|n IH]; cbn [create_many]; unlimited_solve. Qed.
Lemma unlimited_GetConnections : keeps (E := E) (stable unlimited) GetConnections.
Proof. unfold GetConnections, nil_pointer. unlimited_solve. Qed.
Lemma unlimited_get_conn c : keeps (E := E) (stable unlimited) (get_conn c).
Proof. unfold get_conn, deref. unlimited_solve. Qed.
Lemma unlimited_add_consumers n i k c cfg : keeps (E := E) (stable unlimited) (add_consumers n i k c cfg).
Proof. revert i. induction n as [|n IH]; intros i; cbn [add_consumers]; unfold alloc, upd_conn; unlimited_solve. Qed.
Lemma unlimited_add_publishers n i k c cfg : PublishRateLimit cfg = 0 →
  keeps (E := E) (stable unlimited) (add_publishers n i k c cfg).
Proof.
  intros Hr. revert i. induction n as [|n IH]; intros i; cbn [add_publishers]; unfold alloc, upd_conn; unlimited_solve.
  match goal with s : load |- _ => destruct s end. intros Hs p pub Hp. cbn in *. apply lookup_insert_Some in Hp as [[_ <-]|[_ Hp]]; [done|by eapply Hs].
Qed.
#[local] Hint Resolve unlimited_create_many unlimited_GetConnections unlimited_get_conn unlimited_add_consumers
  unlimited_add_publishers : loads.

Lemma unlimited_start sc : keeps (E := E) (stable unlimited) (start sc).
Proof. unfold start, NewConnectionManager, add_streams, AddPublishers, AddConsumers. unlimited_solve. Qed.

(** A load that is started from the screens has publishers without a rate,
    whatever rate was entered: it is left out of what they are given. *)
Lemma start_ignores_rate now (w : world Arke E Model) :
  inner (st w) = inner (NewModel now) → unlimited (inner (st (snd (startLoad w)))).
Proof.
  intros Hw. unfold startLoad. rewrite reads_bind. unfold mbind, prog_bind, on_load.
  pose proof (unlimited_start (streamConfig (st w)) {| st := inner (st w); env := env w; log := log w |}) as Hk.
  cbn [st] in Hk. assert (unlimited (inner (st w))) as Hs by (rewrite Hw; by intros p pub Hp).
  specialize (Hk Hs). destruct (start _ _) as [[[e|]|why|] w1]; cbn in *; by destruct (st w).
Qed.

(** ** Typing *)

Definition plain (s : string) : Prop := s ≠ "ctrl+c" ∧ s ≠ "enter".

(** Keys that need only the model. *)
Lemma run_plain keys pending w : Forall plain keys →
  run ((λ s, Deliver (KeyMsg s)) <$> keys) pending w = (Ret (), set_st (foldl (λ m s, plain_key s m) (st w) keys) w).
Proof.
  intros Hk. revert w. induction Hk as [|s keys [Hc He] Hk IH]; intros w; [by destruct w|].
  cbn [fmap list_fmap run foldl]. unfold Update, handleKeyPress.
  rewrite (proj2 (String.eqb_neq _ _) Hc), (proj2 (String.eqb_neq _ _) He).
  rewrite bind_assoc. unfold update. rewrite writes_bind, bind_ret_l. by rewrite IH.
Qed.

Fixpoint chars (s : string) : list string :=
  match s with EmptyString => [] | String a s' => String a "" :: chars s' end.

Lemma substring_app s t : substring 0 (String.length s) (s +:+ t) = s.
Proof. induction s as [|a s IH]; [by destruct t|]. cbn. by rewrite IH. Qed.

(** What a plain key does to a field that is edited. *)
Definition types (m : Model) (val : string) : Model := set_input (getCurrentField m) val m.

Lemma types_field m val : getCurrentField (types m val) = getCurrentField m ∧ editing (types m val) = editing m ∧
  input (types m val) (getCurrentField m) = val.
Proof. destruct m. unfold types, input. cbn. split_and!; [done..|]. by rewrite lookup_insert_eq. Qed.

Lemma types_types m v1 v2 : types (types m v1) v2 = types m v2.
Proof.
  unfold types at 1. rewrite (proj1 (types_field m v1)). unfold types, set_input. destruct m. cbn.
  by rewrite insert_insert_eq.
Qed.

Lemma char_key m a : editing m = true → getCurrentField m ≠ "" →
  plain_key (String a "") m = types m (input m (getCurrentField m) +:+ String a "").
Proof.
  intros He Hf. unfold plain_key. rewrite !(proj2 (String.eqb_neq (String a "") _)) by done.
  unfold handleTextInput. by rewrite He, (proj2 (String.eqb_neq _ _) Hf).
Qed.

Lemma backspace_key m v a : editing m = true → getCurrentField m ≠ "" →
  plain_key "backspace" (types m (v +:+ String a "")) = types m v.
Proof.
  intros He Hf. destruct (types_field m (v +:+ String a "")) as (Hf' & He' & Hi).
  change (plain_key "backspace" ?m) with (handleBackspace m). unfold handleBackspace.
  rewrite He', He, Hf', Hi, (proj2 (String.eqb_neq _ _) Hf), str_length_app. cbn [negb orb String.length].
  rewrite Nat.add_comm. cbn [Nat.add Nat.eqb Nat.sub]. rewrite Nat.sub_0_r, substring_app.
  rewrite <- Hf' at 1. apply (types_types m (v +:+ String a "") v).
Qed.

Lemma type_chars m v s : editing m = true → getCurrentField m ≠ "" →
  foldl (λ m k, plain_key k m) (types m v) (chars s) = types m (v +:+ s).
Proof.
  intros He Hf. revert v. induction s as [|a s IH]; intros v; cbn [chars foldl]; [by rewrite str_app_nil_r|].
  destruct (types_field m v) as (Hf' & He' & Hi). rewrite char_key by (by rewrite ?He', ?Hf').
  rewrite Hf', Hi, types_types, IH, str_app_assoc. done.
Qed.

Lemma delete_chars m v s : editing m = true → getCurrentField m ≠ "" →
  foldl (λ m k, plain_key k m) (types m (v +:+ s)) (replicate (String.length s) "backspace") = types m v.
Proof.
  intros He Hf. revert v. induction s as [|a s IH]; intros v; cbn [String.length]; [by rewrite str_app_nil_r|].
  rewrite replicate_S_end, foldl_app. rewrite <- (str_app_assoc v (String a "") s : _ = v +:+ String a s), IH. cbn [foldl].
  by apply backspace_key.
Qed.

(** Typing a text into a field that is edited appends it, character by
    character and whatever the characters are, and as many backspaces take it
    off again: the field is what it was, and nothing else has changed. *)
Theorem typing_roundtrip s val pending m (w : world Arke E Model) :
  editing m = true → getCurrentField m ≠ "" → st w = types m val →
  let press := (λ k, Deliver (KeyMsg k)) in
  run (press <$> chars s) pending w = (Ret (), set_st (types m (val +:+ s)) w) ∧
  run (press <$> chars s ++ replicate (String.length s) "backspace") pending w = (Ret (), w).
Proof.
  intros He Hf Hw press.
  assert (Forall plain (chars s)) as Hc by (clear; induction s; constructor; [by split|done]).
  assert (Forall plain (replicate (String.length s) "backspace")) as Hb by (apply Forall_replicate; by split).
  unfold press. rewrite !run_plain by (try apply Forall_app; done).
  rewrite foldl_app, Hw, type_chars, delete_chars by done. split; [done|]. rewrite <- Hw. by destruct w.
Qed.

End tui.

(** ** Witnesses *)

(** Through all the screens to a running load with one publisher and one
    consumer. *)
Definition to_running : list event :=
  (λ k, Deliver (KeyMsg k)) <$> ["tab"; "enter"; "tab"; "enter"; "tab"; "enter"; "tab"; "enter"].

Lemma always_shown_witness (O := Publisher.refusing) (J := no_json) (MR := default_range) :
  let w := snd (run (to_running ++ [RunStart]) 0 {| st := NewModel 0; env := (); log := [] |}) in
  screen (st w) = ScreenRunning ∧ shown (st w) ∧
  map_fold (λ _ pub n, (n + 1)%nat) 0%nat (publishers (inner (st w))) = 1%nat.
Proof.
  pose proof (always_shown (to_running ++ [RunStart]) 0 0 {| st := NewModel 0; env := (); log := [] |} eq_refl) as Hs.
  cbv zeta. split; [vm_compute; reflexivity|]. split; [exact Hs|vm_compute; reflexivity].
Defined.

Definition demo_model : Model := types (set_editing true (NewModel 0)) "a".

Lemma typing_roundtrip_witness (O := Publisher.refusing) (J := no_json) (MR := default_range) :
  run ((λ k, Deliver (KeyMsg k)) <$> ["b"; "backspace"]) 0 {| st := demo_model; env := (); log := [] |} =
    (Ret (), {| st := demo_model; env := (); log := [] |}).
Proof.
  exact (proj2 (typing_roundtrip "b" "a" 0 (set_editing true (NewModel 0)) {| st := demo_model; env := (); log := [] |}
    eq_refl ltac:(done) eq_refl)).
Defined.

(** A port that is a word. *)
Lemma number_entered_witness :
  getInputInt (set_input "arke_port" "default" (NewModel 0)) "arke_port" 50051 = 0.
Proof. apply (proj2 (proj2 (number_entered (set_input "arke_port" "default" (NewModel 0)) "arke_port" 50051)) "d"%char "efault" eq_refl eq_refl). Defined.

End Tui.
