(* ===== verification/LoadMain.v ===== *)
(** * [tools/anarkey/main.go], [logger.go]: the load client's program

    The log file and the configuration it starts with; from there on the events
    of [LoadTui]. Making a directory and opening a file are given by their
    errors. *)

From Stdlib Require Import Ascii String.
From stdpp Require Import base gmap strings list fin_maps option.
From Stdlib Require Import ZArith Lia SpecFloat.
From S2P Require Import Prelude Effects GoStrings Api LoadClient LoadPublisher LoadConsumer LoadConnections LoadTui.

Module LoadMain.
Import LoadClient Connections Tui.
Open Scope Z_scope.

Definition logsDir : string := "logs".

(** The error; without one there is a logger. *)
Definition InitLogger (MkdirAll OpenFile : error) : error :=
  match MkdirAll with
  | Some e => Some ("failed to create logs directory: " +:+ e)
  | None => match OpenFile with Some e => Some ("failed to open log file: " +:+ e) | None => None end
  end.

Section main.
Context {E : Type} `{Oracle Arke E} `{LoadJson} `{MapRange}.
Abbreviation tprog := (prog (world Arke E Model)).

Definition nil_pointer {A} : tprog A := panic "invalid memory address or nil pointer dereference".

(** The model to begin with; [false] ends the program with an error. A load from
    a file begins with messages to the log, then its configurations are read. *)
Definition prepare (configFile : string) (logger : bool) (now : Z) : tprog bool :=
  if String.eqb configFile "" then update (λ _, NewModel now);; mret true
  else
    r ← on_load (LoadConfig configFile);
    match (r : option Config * option StreamConfig + string) with
    | inr _ => mret false
    | inl (Some config, Some streamConfig) =>
        if logger then NewModelWithConfig config streamConfig now;; mret true else nil_pointer
    | inl _ => nil_pointer
    end.

(** A log that cannot be written is only a warning. The library of the terminal
    delivers what happens; the tick that [Init] asks for is one of its events. *)
Definition main (configFile : string) (MkdirAll OpenFile : error) (now : Z) (es : list event) : tprog bool :=
  let logger := match InitLogger MkdirAll OpenFile with None => true | Some _ => false end in
  ready ← prepare configFile logger now;
  if (ready : bool) then run es 0;; mret true else mret false.

(** ** Properties *)

Lemma shown_create_all n t : keeps (E := E) (stable shown) (create_all n t).
Proof.
  induction n as [|n IH]; cbn [create_all]; [apply keeps_ret; exact _|].
  apply keeps_bind; [exact _|apply on_load_shown, managed_Create|]. intros e.
  apply keeps_bind; [exact _|apply shown_note|done].
Qed.

Lemma shown_NewModelWithConfig c sc now w : shown (st (snd (NewModelWithConfig c sc now w))).
Proof.
  unfold NewModelWithConfig, update. rewrite writes_bind. set (w1 := set_st _ w).
  assert (shown (st w1)) as Hw1 by (unfold w1; apply shown_stopped; cbn; [lia|by eexists|done]).
  match goal with |- shown (st (snd (?p w1))) => enough (keeps (E := E) (stable shown) p) as Hk by exact (Hk w1 Hw1) end.
  apply keeps_bind; [exact _|apply shown_create_all|intros _].
  apply keeps_bind; [exact _|apply shown_create_all|intros _].
  apply keeps_bind; [exact _|apply on_load_shown, managed_GetConnections|intros conns].
  apply keeps_for_each; [exact _..|]. intros x.
  apply keeps_bind; [exact _|apply on_load_shown, managed_add_streams|intros e; apply shown_note].
Qed.

(** The program as a whole: once it has got as far as its first screen, from the
    forms or from a file, the user interface can always be shown. *)
Lemma main_shown configFile MkdirAll OpenFile now es w :
  let logger := match InitLogger MkdirAll OpenFile with None => true | Some _ => false end in
  fst (prepare configFile logger now w) = Ret true →
  shown (st (snd (main configFile MkdirAll OpenFile now es w))).
Proof.
  intros logger Hready. assert (shown (st (snd (prepare configFile logger now w)))) as Hs.
  { clearbody logger. revert Hready. unfold prepare. destruct (String.eqb configFile "").
    { intros _. change (shown (NewModel now)). by apply shown_stopped. }
    unfold mbind, prog_bind. destruct (on_load (LoadConfig configFile) w) as [[[[[c|] [sc|]]|e]|why|] w1]; try done.
    destruct logger; [|done]. intros _.
    pose proof (shown_NewModelWithConfig c sc now w1) as Hn.
    by destruct (NewModelWithConfig c sc now w1) as [[[]|?|] w2]. }
  unfold main. fold logger. unfold mbind at 1, prog_bind at 1.
  destruct (prepare configFile logger now w) as [[[]|?|] w1]; try done. cbn in Hs.
  pose proof (shown_run es 0 w1 Hs) as Hr. unfold mbind, prog_bind. by destruct (run es 0 w1) as [[[]|?|] w2].
Qed.

(** Without its log the program does not go on: with a file it panics at its
    first message. *)
Lemma log_needed configFile MkdirAll OpenFile now es w c sc w1 :
  configFile ≠ "" → on_load (LoadConfig configFile) w = (Ret (inl (Some c, Some sc)), w1) →
  InitLogger MkdirAll OpenFile ≠ None →
  fst (main configFile MkdirAll OpenFile now es w) = Panic "invalid memory address or nil pointer dereference".
Proof.
  intros Hf Hload Hlog. unfold main, prepare. destruct (InitLogger MkdirAll OpenFile); [|done].
  rewrite (proj2 (String.eqb_neq _ _) Hf), bind_assoc. by rewrite (bind_run _ _ _ _ _ Hload).
Qed.

(** A file without one of the two configurations, as [{}] is one, is read without
    an error and panics the program. *)
Lemma incomplete_config configFile MkdirAll OpenFile now es w c sc w1 :
  configFile ≠ "" → on_load (LoadConfig configFile) w = (Ret (inl (c, sc)), w1) → c = None ∨ sc = None →
  fst (main configFile MkdirAll OpenFile now es w) = Panic "invalid memory address or nil pointer dereference".
Proof.
  intros Hf Hload Hn. unfold main, prepare.
  rewrite (proj2 (String.eqb_neq _ _) Hf), bind_assoc. rewrite (bind_run _ _ _ _ _ Hload).
  destruct c, sc; [|done..]. by destruct Hn.
Qed.

End main.
End LoadMain.
