(* ===== verification/LoadView.v ===== *)
(** * [tools/anarkey/tui.go]: what the load client shows

    The screens as text. The styles belong to a library and are the class
    [Styles]. *)

From Stdlib Require Import Ascii String.
From stdpp Require Import base gmap strings list fin_maps option.
From Stdlib Require Import ZArith Lia SpecFloat.
From S2P Require Import Prelude Effects GoStrings Api LoadClient LoadPublisher LoadConsumer LoadConnections LoadTui.

Module View.
Import LoadClient Connections Tui.
Open Scope Z_scope.
Open Scope list_scope.

Inductive style :=
  | titleStyle | headerStyle | cursorStyle | labelStyle | valueStyle | metricLabelStyle | metricValueStyle
  | errorStyle | subtleStyle.

Class Styles := Render : style → string → string.

(** ** Forms *)

Record form_field := { key : string; prompt : string; defaultVal : string }.

Definition fld (k p d : string) : form_field := {| key := k; prompt := p; defaultVal := d |}.

Definition arke_form : list form_field := [
  fld "arke_host" "Arke hostname" "localhost";
  fld "arke_port" "Arke port" "50051";
  fld "arke_tls" "TLS (true/false)" "false"].

Definition broker_form : list form_field := [
  fld "broker_host" "Broker hostname" "localhost";
  fld "broker_port" "Broker port" "5672";
  fld "broker_username" "Username" "guest";
  fld "broker_password" "Password" "guest";
  fld "broker_tls" "TLS (true/false)" "false";
  fld "broker_tenant" "Tenant (optional)" ""].

Definition connection_form : list form_field := [
  fld "num_publisher_connections" "Number of publisher connections" "1";
  fld "num_consumer_connections" "Number of consumer connections" "1"].

Definition stream_form : list form_field := [
  fld "num_publisher_streams" "Number of publisher streams per connection" "1";
  fld "num_consumer_streams" "Number of consumer streams per connection" "1";
  fld "source_type" "Source type (queue/stream)" "queue";
  fld "source_name" "Source name" "test-source";
  fld "address_name" "Address name" "test-address";
  fld "subject" "Routing key/subject" "test.routing.key";
  fld "message_count" "Messages per stream (0=continuous)" "10000";
  fld "publish_rate_limit" "Messages/sec per stream (0=unlimited)" "0";
  fld "message_file" "JSON message file (optional)" "";
  fld "save_config_file" "Save config to file (optional)" ""].

(** ** Numbers *)

Fixpoint repeat_str (n : nat) (s : string) : string :=
  match n with O => "" | S n => s +:+ repeat_str n s end.

(** [%.2f]: the exact value, rounded to the nearest hundredth, ties to even. *)
Definition hundredths (m : positive) (e : Z) : Z :=
  if 0 <=? e then Z.pos m * 2 ^ e * 100
  else
    let d := 2 ^ (- e) in
    let q := (Z.pos m * 100) / d in
    let r := (Z.pos m * 100) mod d in
    if (d <? 2 * r) || ((2 * r =? d) && Z.odd q) then q + 1 else q.
Definition show_fixed2 (x : spec_float) : string :=
  let sign (s : bool) := if s then "-" else "" in
  match x with
  | S754_zero s => sign s +:+ "0.00"
  | S754_infinity s => if s then "-Inf" else "+Inf"
  | S754_nan => "NaN"
  | S754_finite s m e =>
      let n := hundredths m e in
      sign s +:+ itoa (n / 100) +:+ "." +:+ itoa (n mod 100 / 10) +:+ itoa (n mod 10)
  end.

Section view.
Context `{Styles}.

Definition newline : string := String (of_code 10) "".

(** One line of a form; the value is styled as given. *)
Definition pointer (m : Model) (i : Z) : string :=
  if cursor m =? i then Render cursorStyle (if editing m then "✎ " else "❯ ") else "  ".

Definition form_line (m : Model) (i : Z) (f : form_field) (value : string) : string :=
  pointer m i +:+ Render labelStyle (prompt f +:+ ":") +:+ " " +:+ Render valueStyle value +:+ newline.

Fixpoint form_lines (m : Model) (i : Z) (value : form_field → string) (fs : list form_field) : string :=
  match fs with
  | [] => ""
  | f :: fs => form_line m i f (value f) +:+ form_lines m (i + 1) value fs
  end.

Definition plain_value (m : Model) (f : form_field) : string := getInput m (key f) (defaultVal f).

(** The password is not shown. *)
Definition masked_value (m : Model) (f : form_field) : string :=
  let value := plain_value m f in
  if String.eqb (key f) "broker_password" && negb (String.eqb value "") then repeat_str (String.length value) "•"
  else value.

Definition button (m : Model) (n : Z) (label : string) : string :=
  (if cursor m =? n then Render cursorStyle "❯ " +:+ Render valueStyle label
   else "  " +:+ Render labelStyle label) +:+ newline.

Definition error_line (m : Model) : string :=
  match err m with
  | Some e => newline +:+ Render errorStyle ("Error: " +:+ e) +:+ newline
  | None => ""
  end.

Definition render_form (m : Model) (title : string) (fs : list form_field) (value : form_field → string)
    (label help : string) : string :=
  Render titleStyle title +:+ newline +:+ newline +:+
  form_lines m 0 value fs +:+
  newline +:+ button m (Z.of_nat (length fs)) label +:+
  error_line m +:+
  newline +:+ Render subtleStyle help +:+ newline.

Definition continue_help : string :=
  "↑/↓: Navigate • Tab: Jump to Continue • Enter: Edit/Select • Esc: Cancel edit • Ctrl+C: Quit".

Definition renderArkeConfig (m : Model) : string :=
  render_form m "⚡ Arke Load Tool - Arke Server" arke_form (plain_value m) "[Continue]" continue_help.
Definition renderBrokerConfig (m : Model) : string :=
  render_form m "🔌 Arke Load Tool - Broker Config" broker_form (masked_value m) "[Continue]" continue_help.
Definition renderConnectionConfig (m : Model) : string :=
  render_form m "🔗 Arke Load Tool - Connection Config" connection_form (plain_value m) "[Continue]" continue_help.
Definition renderStreamConfig (m : Model) : string :=
  render_form m "📊 Arke Load Tool - Stream Config" stream_form (plain_value m) "[Start Load Test]"
    "↑/↓: Navigate • Tab: Jump to Start • Enter: Edit/Start • Esc: Cancel edit • Ctrl+C: Quit".

(** ** The running load *)

Definition count_of (l : load) (conns : list nat) (publishers : bool) : Z :=
  count_if (λ c, Bool.eqb (of_type l ConnectionTypePublisher c) publishers) conns.

Definition running_form (m : Model) (publisherConns consumerConns : Z) : list form_field := [
  fld "runtime_publisher_connections" "Publisher connections" (itoa publisherConns);
  fld "runtime_consumer_connections" "Consumer connections" (itoa consumerConns);
  fld "runtime_publisher_streams" "Publisher streams/conn" (itoa (NumPublisherStreams (streamConfig m)));
  fld "runtime_consumer_streams" "Consumer streams/conn" (itoa (NumConsumerStreams (streamConfig m)));
  fld "runtime_publish_rate_limit" "Msgs/sec per stream (0=unlimited)" (itoa (PublishRateLimit (streamConfig m)))].

(** A number of connections with their streams, and a counter with its rate. *)
Definition connection_line (label : string) (n streams : Z) : string :=
  Render metricLabelStyle label +:+ " " +:+ Render metricValueStyle (itoa n) +:+ " " +:+
  Render valueStyle ("(Streams per: " +:+ itoa streams +:+ ")") +:+ newline.
Definition metric_line (label : string) (n : Z) (rate : spec_float) : string :=
  Render metricLabelStyle label +:+ Render metricValueStyle (itoa n +:+ " messages") +:+ " " +:+
  Render valueStyle ("(" +:+ show_fixed2 rate +:+ " msg/s)") +:+ newline.

(** Without a manager the list of its connections cannot be read. *)
Definition renderRunning (m : Model) : option string :=
  let '(pub, con, pubRate, conRate) := GetStats (metrics (inner m)) in
  match manager (inner m) with
  | None => None
  | Some conns =>
      let publisherConns := count_of (inner m) conns true in
      let consumerConns := count_of (inner m) conns false in
      Some (
        Render titleStyle "🚀 Arke Load Tool - Running" +:+ newline +:+ newline +:+
        connection_line "Publisher Connections:" publisherConns (NumPublisherStreams (streamConfig m)) +:+
        connection_line "Consumer Connections: " consumerConns (NumConsumerStreams (streamConfig m)) +:+ newline +:+
        Render headerStyle "📈 Metrics" +:+ newline +:+ repeat_str 40 "─" +:+ newline +:+
        metric_line "Published: " pub pubRate +:+
        metric_line "Consumed:  " con conRate +:+ newline +:+
        Render headerStyle "⚙️  Runtime Controls" +:+ newline +:+ repeat_str 40 "─" +:+ newline +:+
        form_lines m 0 (plain_value m) (running_form m publisherConns consumerConns) +:+
        error_line m +:+
        newline +:+ Render subtleStyle "↑/↓: Navigate • Enter: Edit/Apply • Esc: Cancel edit • Ctrl+C: Quit" +:+ newline)
  end.

Definition View (m : Model) : option string :=
  match screen m with
  | ScreenArkeConfig => Some (renderArkeConfig m)
  | ScreenBrokerConfig => Some (renderBrokerConfig m)
  | ScreenConnectionConfig => Some (renderConnectionConfig m)
  | ScreenStreamConfig => Some (renderStreamConfig m)
  | ScreenRunning => renderRunning m
  end.

(** ** Properties *)

(** A model that can be shown is shown. *)
Lemma shown_view m : shown m → is_Some (View m).
Proof.
  intros [_ _ Hr]. unfold View, renderRunning. destruct (screen m); [by eexists..|].
  destruct (Hr eq_refl) as [conns ->]. destruct (GetStats _) as [[[? ?] ?] ?]. by eexists.
Qed.

Lemma form_lines_ext m m' i v v' fs :
  cursor m' = cursor m → editing m' = editing m → Forall (λ f, v f = v' f) fs →
  form_lines m i v fs = form_lines m' i v' fs.
Proof.
  intros Hc He Hv. revert i. induction Hv as [|f fs Hf Hfs IH]; intros i; [done|]. cbn [form_lines].
  rewrite Hf, (IH (i + 1)). unfold form_line, pointer. by rewrite Hc, He.
Qed.

Lemma getInput_other m k val k' d : k' ≠ k → getInput (set_input k val m) k' d = getInput m k' d.
Proof. intros Hk. destruct m. unfold getInput. cbn. by rewrite lookup_insert_ne by done. Qed.

(** Another password of the same length. *)
Lemma masked_ext m p q f : String.length p = String.length q →
  masked_value (set_input "broker_password" p m) f = masked_value (set_input "broker_password" q m) f.
Proof.
  intros Hpq. unfold masked_value, plain_value. destruct (String.eqb_spec (key f) "broker_password") as [Hk|Hk].
  - destruct m. unfold getInput. cbn. rewrite Hk, !lookup_insert_eq.
    destruct p as [|a p], q as [|b q]; cbn [String.length] in *; [done|lia..|]. cbn [String.eqb negb andb String.length].
    by injection Hpq as ->.
  - by rewrite !getInput_other by done.
Qed.

(** Nothing that is shown, on any screen, tells more of the password than
    its length. *)
Theorem password_hidden m p q : String.length p = String.length q →
  View (set_input "broker_password" p m) = View (set_input "broker_password" q m).
Proof.
  intros Hpq.
  assert (∀ f, key f ≠ "broker_password" →
    plain_value (set_input "broker_password" p m) f = plain_value (set_input "broker_password" q m) f) as Hplain
    by (intros f Hf; unfold plain_value; by rewrite !getInput_other).
  pose proof (λ f, masked_ext m p q f Hpq) as Hmask.
  assert (∀ title fs label help v, Forall (λ f, v (set_input "broker_password" p m) f = v (set_input "broker_password" q m) f) fs →
    render_form (set_input "broker_password" p m) title fs (v (set_input "broker_password" p m)) label help =
    render_form (set_input "broker_password" q m) title fs (v (set_input "broker_password" q m)) label help) as Hform.
  { intros title fs label help v Hv. unfold render_form.
    rewrite (form_lines_ext _ (set_input "broker_password" q m) 0 _ _ fs) by (by destruct m || exact Hv).
    unfold button, error_line. by destruct m. }
  unfold View. assert (screen (set_input "broker_password" p m) = screen m ∧ screen (set_input "broker_password" q m) = screen m)
    as [-> ->] by (by destruct m). destruct (screen m).
  - unfold renderArkeConfig. rewrite (Hform _ _ _ _ plain_value); [done|]. repeat constructor; by apply Hplain.
  - unfold renderBrokerConfig. rewrite (Hform _ _ _ _ masked_value); [done|]. apply list.Forall_true; by apply Hmask.
  - unfold renderConnectionConfig. rewrite (Hform _ _ _ _ plain_value); [done|]. repeat constructor; by apply Hplain.
  - unfold renderStreamConfig. rewrite (Hform _ _ _ _ plain_value); [done|]. repeat constructor; by apply Hplain.
  - unfold renderRunning.
    assert (∀ a b, form_lines (set_input "broker_password" p m) 0 (plain_value (set_input "broker_password" p m)) (running_form m a b) =
                   form_lines (set_input "broker_password" q m) 0 (plain_value (set_input "broker_password" q m)) (running_form m a b)) as Hlines.
    { intros a b. apply form_lines_ext; [by destruct m..|]. repeat constructor; by apply Hplain. }
    destruct m. cbn in *. destruct (manager _); [|done]. by rewrite Hlines.
Qed.

(** ** What is shown is what is used *)

(** The value a form shows for a field, and the number it stands for. *)
Definition shown_as (m : Model) (fs : list form_field) (k : string) : string :=
  match filter (λ f, key f = k) fs with f :: _ => plain_value m f | [] => "" end.
Definition number (d : Z) (v : string) : Z := let n := scan_int v in if 0 <=? n then n else d.

Lemma getInputInt_number m k d : in_int64 d → getInputInt m k d = number d (getInput m k (itoa d)).
Proof.
  intros Hd. unfold getInputInt, getInput, number.
  assert ((if 0 <=? scan_int (itoa d) then scan_int (itoa d) else d) = d) as Hdef
    by (rewrite scan_itoa by done; by destruct (0 <=? d)).
  destruct (inputs m !! k) as [v|]; [|done]. by destruct (String.eqb v "").
Qed.

(** The configuration a load is started with is the one the forms show,
    field by field, whether a field was filled in or its default is shown: the
    defaults of the screens are those of the program. A number is what the text
    shown for it stands for, and a negative one the default. *)
Theorem entered_as_shown m :
  let c := config (inner (validateConnectionConfig (validateBrokerConfig (validateArkeConfig m)))) in
  let sc := entered_stream_config m in
  let arke := shown_as m arke_form in
  let broker := shown_as m broker_form in
  let conns := shown_as m connection_form in
  let streams := shown_as m stream_form in
  (ArkeHost c = arke "arke_host" ∧ ArkePort c = number 50051 (arke "arke_port") ∧
   ArkeTLS c = String.eqb (arke "arke_tls") "true") ∧
  (BrokerHost c = broker "broker_host" ∧ BrokerPort c = number 5672 (broker "broker_port") ∧
   BrokerUsername c = broker "broker_username" ∧ BrokerPassword c = broker "broker_password" ∧
   BrokerTLS c = String.eqb (broker "broker_tls") "true" ∧ BrokerTenant c = broker "broker_tenant") ∧
  (NumPublisherConnections c = number 1 (conns "num_publisher_connections") ∧
   NumConsumerConnections c = number 1 (conns "num_consumer_connections")) ∧
  (NumPublisherStreams sc = number 1 (streams "num_publisher_streams") ∧
   NumConsumerStreams sc = number 1 (streams "num_consumer_streams") ∧
   sc_SourceType sc = (if String.eqb (streams "source_type") "stream" then Source_STREAM else Source_QUEUE) ∧
   sc_SourceName sc = streams "source_name" ∧ sc_AddressName sc = streams "address_name" ∧
   Subject sc = streams "subject" ∧ sc_MessageCount sc = number 10000 (streams "message_count") ∧
   IsContinuous sc = (number 10000 (streams "message_count") =? 0) ∧
   PublishRateLimit sc = number 0 (streams "publish_rate_limit") ∧ MessageFile sc = streams "message_file").
Proof.
  assert (∀ m' k d, inputs m' = inputs m → in_int64 d → getInputInt m' k d = number d (getInput m k (itoa d))) as Hn.
  { intros m' k d Hi Hd. rewrite getInputInt_number by done. unfold getInput. by rewrite Hi. }
  destruct m as [? ? ? ? ins ? ? ? [[]]]. cbv zeta. unfold entered_stream_config.
  split_and!; cbn -[getInputInt getInput number String.eqb]; rewrite ?Hn by done; reflexivity.
Qed.

End view.

(** ** Witnesses *)

Definition no_style : Styles := λ _ s, s.

Lemma password_hidden_witness (S := no_style) :
  View (set_input "broker_password" "secret" (set_screen ScreenBrokerConfig (NewModel 0))) =
  View (set_input "broker_password" "sesame" (set_screen ScreenBrokerConfig (NewModel 0))).
Proof. exact (password_hidden (set_screen ScreenBrokerConfig (NewModel 0)) "secret" "sesame" eq_refl). Defined.

End View.
