(* ===== verification/Translations.v ===== *)
(** * [i18n/]: the texts of log messages

    The locale of the process, the properties file that goes with it, and the
    substitution of arguments. The tags of languages belong to a library and are
    the class [Tags]; the embedded files and the environment are functions, and
    arguments are given as they print. *)

From Stdlib Require Import Ascii String.
From stdpp Require Import base gmap strings list fin_maps option.
From Stdlib Require Import ZArith Lia.
From S2P Require Import Prelude GoStrings Flags ArkeServer.

Module Translations.
Import Flags.
Open Scope list_scope.

(** Language, script and region, as the library infers them. *)
Class Tags := {
  parse_tag : string → option (string * string * string);
  english : string * string * string
}.

(** ** The locale ([oslocale.go], [oslocale_unix.go]) *)

Definition defaultLanguage : string := "en".
Definition CouldNotDetectPackageErrorMessage : string := "could not detect language".
Definition EnvLcAll : string := "LC_ALL".
Definition EnvLang : string := "LANG".

Definition splitLocale (locale : string) : string * string :=
  let formattedLocale := default "" (head (split_byte "." locale)) in
  let formattedLocale := replace_all formattedLocale "-" "_" in
  let pieces := split_byte "_" formattedLocale in
  (default "" (head pieces), default "" (pieces !! 1)).

Section locale.
Context `{Tags} (Getenv : string → string).

Definition getLangFromEnv : string :=
  let locale := Getenv EnvLcAll in if String.eqb locale "" then Getenv EnvLang else locale.

Definition getUnixLocale : string * error :=
  let unixLocale := getLangFromEnv in
  (unixLocale, if String.eqb unixLocale "" then Some CouldNotDetectPackageErrorMessage else None).

Definition DetectIETF : string :=
  match getUnixLocale with
  | (_, Some _) => ""
  | (unixLocale, None) =>
      let '(language, territory) := splitLocale unixLocale in
      let locale := if String.eqb territory "" then language else join "-" [language; territory] in
      match parse_tag locale with Some _ => locale | None => "" end
  end.

(** [SystemLocale], the last value of the flag or else what was detected. *)
Definition InitializeSystemLocale (args : list string) : string :=
  let locale := DetectIETF in
  let locale := if String.eqb locale "" then defaultLanguage else locale in
  List.last ((parse_args ["locale"] [] args).1.*2) locale.

(** ** The properties file ([message_loader.go]) *)

Definition embedPropDir : string := "resources".
Definition messageFilePrefix : string := "GoLogMessages".

Definition property_file (prefix suffix : string) : string :=
  embedPropDir +:+ "/" +:+ prefix +:+ suffix +:+ ".properties".

Definition getLocaleFileNames (filePrefix locale : string) : list string :=
  let '(lang, script, region) := default english (parse_tag locale) in
  let defaultFile := property_file filePrefix "" in
  if String.eqb lang "zh" then
    (if String.eqb script "Hans" || String.eqb region "SG" || (String.eqb script "" && String.eqb region "") then
       [property_file filePrefix "_zh-Hans"]
     else if String.eqb script "Hant" || String.eqb region "TW" || String.eqb region "HK" || String.eqb region "MO" then
       [property_file filePrefix "_zh-Hant"]
     else []) ++ [defaultFile]
  else
    [property_file filePrefix ("_" +:+ lang +:+ "_" +:+ region); property_file filePrefix ("_" +:+ lang); defaultFile].

(** The first of the files that is there. *)
Fixpoint first_file (ReadFile : string → option string) (paths : list string) : string :=
  match paths with
  | [] => ""
  | p :: paths => match ReadFile p with Some contents => contents | None => first_file ReadFile paths end
  end.

Definition L10n (ReadFile : string → option string) (args : list string) : string :=
  first_file ReadFile (getLocaleFileNames messageFilePrefix (InitializeSystemLocale args)).

End locale.

(** [bufio.Scanner]: the lines, without their end; what follows a line that
    fills the buffer is not read, which is an error. *)
Definition newline : ascii := of_code 10.
Definition drop_cr (l : string) : string :=
  if has_suffix (String (of_code 13) "") l then substring 0 (String.length l - 1) l else l.
Fixpoint scanned (lines : list string) : list string * bool :=
  match lines with
  | [] | [""%string] => ([], true)
  | l :: lines =>
      if (65536 <=? Z.of_nat (String.length l))%Z then ([], false)
      else let '(ls, ok) := scanned lines in (drop_cr l :: ls, ok)
  end.
Definition scan_lines (data : string) : list string * bool := scanned (split_byte newline data).

(** One line: a comment, an entry, or something else that is left out. *)
Definition property_line (line : string) (messages : gmap string string) : gmap string string :=
  let line := trim_space line in
  if String.eqb line "" || has_prefix "#" line then messages
  else
    match cut_byte "=" line with
    | Some (key, value) => <[trim_space key := trim_space value]> messages
    | None => messages
    end.

(** The messages, and whether all of the file was read. *)
Definition newPropertiesBundle (data : string) : gmap string string * bool :=
  let '(lines, ok) := scan_lines data in (foldl (λ m l, property_line l m) ∅ lines, ok).

(** ** Translating *)

Definition placeholder (i : nat) : string := "{" +:+ itoa (Z.of_nat i) +:+ "}".

Fixpoint substitute (i : nat) (args : list string) (msg : string) : string :=
  match args with
  | [] => msg
  | arg :: args => substitute (S i) args (replace_all msg (placeholder i) arg)
  end.

Definition T (messages : gmap string string) (messageID : string) (args : list string) : string :=
  substitute 0 args (default messageID (messages !! messageID)).

(** ** Properties *)

(** A template: texts and the places of arguments. *)
Inductive token := Lit (s : string) | Arg (i : nat).

Definition show_token (t : token) : string := match t with Lit s => s | Arg i => placeholder i end.
Fixpoint template (ts : list token) : string :=
  match ts with [] => "" | t :: ts => show_token t +:+ template ts end.

(** All arguments at once. *)
Definition fill (args : list string) (t : token) : token :=
  match t with
  | Lit s => Lit s
  | Arg i => match args !! i with Some a => Lit a | None => Arg i end
  end.

Definition no_brace (s : string) : bool := all_bytes (λ a, negb (Ascii.eqb a "{")) s.
Definition plain_token (t : token) : Prop := match t with Lit s => no_brace s = true | Arg _ => True end.

Lemma replace_no_brace fuel old new s t :
  no_brace s = true → (String.length s < fuel)%nat →
  replace_fuel fuel (String "{" old) new (s +:+ t) None =
    s +:+ replace_fuel (fuel - String.length s) (String "{" old) new t None.
Proof.
  revert fuel. induction s as [|a s IH]; intros fuel; [by rewrite Nat.sub_0_r|].
  cbn [no_brace all_bytes String.length]. intros [Ha Hs]%andb_prop Hf. destruct fuel as [|fuel]; [lia|].
  cbn [replace_fuel String.append has_prefix]. apply negb_true_iff in Ha. rewrite Ascii.eqb_sym, Ha. cbn [andb].
  by rewrite (IH fuel) by (done || lia).
Qed.

Lemma digits_no_brace s : all_bytes is_digit s = true → no_brace s = true ∧ any_byte (Ascii.eqb "}") s = false.
Proof.
  induction s as [|a s IH]; [done|]. unfold no_brace in *. cbn [all_bytes any_byte]. intros [Ha Hs]%andb_prop. destruct (IH Hs) as [-> ->].
  rewrite andb_true_r, orb_false_r. split; [apply negb_true_iff|]; apply Ascii.eqb_neq; intros Heq; subst a;
    by vm_compute in Ha.
Qed.

Lemma placeholder_eq i : placeholder i = String "{" (itoa_nonneg (Z.of_nat i) +:+ "}").
Proof. unfold placeholder, itoa. by rewrite (proj2 (Z.ltb_ge _ _)) by lia. Qed.

Lemma placeholder_digits i :
  no_brace (itoa_nonneg (Z.of_nat i)) = true ∧ any_byte (Ascii.eqb "}") (itoa_nonneg (Z.of_nat i)) = false.
Proof. apply digits_no_brace, itoa_nonneg_digits. lia. Qed.

Lemma placeholder_prefix i j t : has_prefix (placeholder i) (placeholder j +:+ t) = true → i = j.
Proof.
  rewrite has_prefix_spec. intros [u Hu]. rewrite !placeholder_eq in Hu. cbn [String.append] in Hu.
  injection Hu as Hu. rewrite !str_app_assoc in Hu. cbn [String.append] in Hu.
  destruct (placeholder_digits i) as [_ Hi]. destruct (placeholder_digits j) as [_ Hj].
  destruct (str_split_unique "}" _ _ _ _ Hj Hi Hu) as [Heq _].
  apply itoa_nonneg_inj in Heq; lia.
Qed.

(** Replacing one argument in a template. *)
Definition fill_one (i : nat) (arg : string) (t : token) : token :=
  match t with Arg j => if decide (i = j) then Lit arg else Arg j | t => t end.

Lemma replace_template fuel i arg ts :
  Forall plain_token ts → (String.length (template ts) < fuel)%nat →
  replace_fuel fuel (placeholder i) arg (template ts) None = template (fill_one i arg <$> ts).
Proof.
  intros Hts. revert fuel. induction Hts as [|t ts Ht Hts IH]; intros fuel Hf.
  { destruct fuel as [|fuel]; [cbn in Hf; lia|]. rewrite placeholder_eq. done. }
  cbn [template fmap list_fmap] in *. rewrite str_length_app in Hf. destruct t as [s|j]; cbn [show_token] in *.
  - rewrite placeholder_eq, replace_no_brace, <- placeholder_eq by (done || lia). cbn [fill_one show_token].
    rewrite IH by lia. done.
  - destruct fuel as [|fuel]; [lia|]. cbn [replace_fuel fill_one]. destruct (decide (i = j)) as [<-|Hij].
    + rewrite has_prefix_app, drop_str_app. cbn [show_token]. rewrite IH; [done|].
      rewrite placeholder_eq in Hf. cbn [String.length] in Hf. lia.
    + destruct (has_prefix (placeholder i) (placeholder j +:+ template ts)) eqn:Hp;
        [by apply placeholder_prefix in Hp|].
      rewrite (placeholder_eq j) in *. cbn [String.append show_token].
      rewrite !str_app_assoc. cbn [String.length] in Hf. rewrite str_length_app in Hf. cbn [String.length] in Hf.
      rewrite placeholder_eq. destruct (placeholder_digits j) as [Hj _].
      rewrite replace_no_brace by (done || lia).
      rewrite (replace_no_brace _ _ _ "}") by (done || (cbn [String.length]; lia)).
      rewrite <- placeholder_eq, IH by (cbn [String.length]; lia). by rewrite (placeholder_eq j), <- !str_app_assoc.
Qed.

(** The places from [i] on. *)
Definition fill_from (i : nat) (args : list string) (t : token) : token :=
  match t with
  | Arg j => if decide (i <= j)%nat then match args !! (j - i)%nat with Some a => Lit a | None => Arg j end else Arg j
  | t => t
  end.

Lemma fill_from_cons i arg args t : fill_from (S i) args (fill_one i arg t) = fill_from i (arg :: args) t.
Proof.
  destruct t as [s|j]; [done|]. cbn. destruct (decide (i = j)) as [->|Hij].
  - rewrite Nat.sub_diag. cbn. destruct (decide (j <= j)%nat); [done|lia].
  - cbn. destruct (decide (S i <= j)%nat), (decide (i <= j)%nat); try lia; [|done].
    replace (j - i)%nat with (S (j - S i)) by lia. done.
Qed.

Lemma substitute_from i args ts :
  Forall plain_token ts → Forall (λ a, no_brace a = true) args →
  substitute i args (template ts) = template (fill_from i args <$> ts).
Proof.
  intros Hts Hargs. revert i ts Hts. induction Hargs as [|arg args Ha Hargs IH]; intros i ts Hts; cbn [substitute].
  - f_equal. clear. induction ts as [|t ts IH]; [done|]. cbn. rewrite <- IH. f_equal. destruct t as [s|j]; [done|].
    cbn. by destruct (decide (i <= j)%nat).
  - unfold replace_all. rewrite replace_template by (done || lia). rewrite IH.
    + rewrite <- list_fmap_compose. f_equal. apply list_fmap_ext. intros k t _. apply fill_from_cons.
    + apply Forall_fmap. revert Hts. apply List.Forall_impl. intros [s|j]; [done|]. cbn. by destruct (decide (i = j)).
Qed.

(** Translating puts the arguments in their places: for a message that is
    made of texts and places, filling in one argument after the other is the
    same as filling in all at once, as long as no text and no argument has a
    brace; places without an argument stay, and arguments without a place are
    dropped. A message that is not known is its own text. *)
Theorem substitutes messages messageID args ts :
  default messageID (messages !! messageID) = template ts →
  Forall plain_token ts → Forall (λ a, no_brace a = true) args →
  T messages messageID args = template (fill args <$> ts).
Proof.
  intros Hm Hts Hargs. unfold T. rewrite Hm, substitute_from by done. f_equal. apply list_fmap_ext.
  intros k [s|j] _; [done|]. cbn. by rewrite Nat.sub_0_r.
Qed.

(** An argument with a brace is not put in its place and left alone: what it
    says is replaced in turn. *)
Lemma substitutes_again : T ∅ "user {0} failed: {1}" ["{1}"; "secret"] = "user secret failed: secret".
Proof. by vm_compute. Qed.

(** The locale of the flag is read from the arguments only when they begin with
    it. *)
Lemma locale_flag `{Tags} Getenv args :
  InitializeSystemLocale Getenv args ≠ InitializeSystemLocale Getenv [] →
  ∃ s rest name v, args = s :: rest ∧ flag_of s = Some (inl name) ∧ flag_parts name = ("locale", v).
Proof.
  unfold InitializeSystemLocale, parse_args. destruct args as [|s rest]; [done|]. cbn [length parse_flags].
  intros Hne. exists s, rest. destruct (flag_of s) as [[name|[]]|] eqn:Hs; [|by destruct Hne..].
  exists name. destruct (flag_parts name) as [n v] eqn:Hn. exists v. split_and!; [done..|]. f_equal.
  cbn [existsb] in Hne. destruct (String.eqb_spec n "locale") as [->|]; [done|].
  cbn [orb] in Hne. by destruct (String.eqb n "help" || String.eqb n "h"), Hne.
Qed.

(** No command line both sets the locale and starts the server: the parser of
    the server ([cmd/serve.go]) does not know the flag. *)
Lemma locale_flag_fatal `{Tags} Getenv args :
  InitializeSystemLocale Getenv args ≠ InitializeSystemLocale Getenv [] → (ArkeServer.serve_flags args).2 = Failed.
Proof.
  intros Hne. destruct (locale_flag Getenv args Hne) as (s & rest & name & v & -> & Hs & Hn).
  unfold ArkeServer.serve_flags, parse_args. cbn [length parse_flags]. by rewrite Hs, Hn.
Qed.

(** ** Witnesses *)

Lemma substitutes_witness :
  T {["greeting" := "hello {0}, {1}"]} "greeting" ["world"; "goodbye"] = "hello world, goodbye".
Proof.
  exact (substitutes {["greeting" := "hello {0}, {1}"]} "greeting" ["world"; "goodbye"]
    [Lit "hello "; Arg 0; Lit ", "; Arg 1] eq_refl ltac:(by repeat constructor) ltac:(by repeat constructor)).
Defined.

End Translations.
