(* ===== verification/Messages.v ===== *)
(** * [i18n/messages.go] and its properties file

    The keys of the messages, and the text of the file that translates them into
    English, line by line. *)

From Stdlib Require Import Ascii String.
From stdpp Require Import base gmap strings list fin_maps option.
From Stdlib Require Import ZArith Lia.
From S2P Require Import Prelude GoStrings Translations.

Module Messages.
Import Translations.
Open Scope list_scope.

Definition BundleID : string := "arke-log-icu".

Definition key (suffix : string) : string := BundleID +:+ suffix.

Definition InvalidRateParameters : string := key ".warn.invalidRateParameters.log".
Definition HPAScaled : string := key ".info.hpaScaled.log".

(** All keys, in the order of the file. *)
Definition messageIDs : list string := [
  key ".error.generic.log";
  key ".error.cpuprofile.log";
  key ".error.memprofile.log";
  key ".error.netlisten.log";
  key ".error.failedserve.log";
  key ".error.ack.log";
  key ".error.client.ack.log";
  key ".error.nack.log";
  key ".error.client.nack.log";
  key ".error.brokerconnect.log";
  key ".error.client.brokerconnect.log";
  key ".error.exchangedeclare.log";
  key ".error.client.exchangedeclare.log";
  key ".error.queuedeclare.log";
  key ".error.client.queuedeclare.log";
  key ".error.queuebind.log";
  key ".error.client.queuebind.log";
  key ".error.noclientuuid.log";
  key ".error.clientsubscribe.log";
  key ".error.publish.log";
  key ".error.client.publish.log";
  key ".error.subscribe.log";
  key ".error.client.subscribe.log";
  key ".error.streamsend.log";
  key ".error.clientnoprovider.log";
  key ".error.metricsserve.log";
  key ".error.parsing.port.log";
  key ".error.addresstype.log";
  key ".info.starting.log";
  key ".info.clientconnected.log";
  key ".info.exchangedeclare.log";
  key ".info.binding.log";
  key ".info.clientsubscribe.log";
  key ".info.clientdisconnect.log";
  key ".info.clientdetailsgone.log";
  key ".info.clientconnect.log";
  key ".info.clientconnected.broker.log";
  key ".info.unsupportedsourceoption.log";
  key ".info.client.unsupportedsourceoption.log";
  key ".debug.clientpublished.log";
  key ".debug.acknomessage.log";
  key ".debug.ackmessage.log";
  key ".debug.nacknomessage.log";
  key ".debug.nackmessage.log";
  key ".debug.retrynomessage.log";
  key ".debug.retrymessage.log";
  key ".info.subscribefailbutclientexists.log";
  key ".info.exchangebind.log";
  key ".error.streamsubscribemax.log";
  key ".error.consumerecvchan.log";
  key ".error.clientfailedidentifier.log";
  key ".info.rfrule.log";
  key ".info.rulelist.log";
  key ".error.ruleadd.log";
  key ".error.ruledel.log";
  key ".info.scaled.log";
  key ".debug.healthnotify.log";
  key ".debug.ensurechannelerror.log";
  key ".info.subscribefatal.log";
  key ".info.failedinittelemetryexporter.log";
  key ".error.tls.log";
  key ".error.otel.shutdown.log";
  key ".error.otel.init.log";
  key ".info.ratelimiterInitialized2.log";
  key ".warn.rateLimiterNoClientIdentifer.log";
  key ".warn.rateLimitExceeded2.log";
  key ".warn.couldNotCreateRateLimiter.log";
  key ".warn.couldNotCreateRateLimiterFromEnv.log";
  InvalidRateParameters;
  key ".warn.invalidBucketSize.log";
  key ".warn.invalidMaxAge.log";
  key ".warn.invalidRefillInterval.log";
  HPAScaled
].

Definition dquote : string := String (of_code 34) "".

(** [resources/GoLogMessages.properties] *)
Definition property_lines : list string := [
  "# DO NOT EDIT";
  "# Generated by " +:+ dquote +:+ "i18n-proppy" +:+ dquote +:+ "";
  "# bundle id: arke-log-icu";
  "# source file: /arke/i18n/i18n_messages_log.go";
  "arke-log-icu.error.generic.log=Encounted an error: {0}";
  "arke-log-icu.error.cpuprofile.log=Error creating CPU profile: {0}";
  "arke-log-icu.error.memprofile.log=Error creating memory profile: {0}";
  "arke-log-icu.error.netlisten.log=Error listening on port: {0}";
  "arke-log-icu.error.failedserve.log=Error starting server: {0}";
  "arke-log-icu.error.ack.log=Error acking message: {0}";
  "arke-log-icu.error.client.ack.log=Client {1} error acking message: {0}";
  "arke-log-icu.error.nack.log=Error nacking message: {0}";
  "arke-log-icu.error.client.nack.log=Client {1} error nacking message: {0}";
  "arke-log-icu.error.brokerconnect.log=Error connecting to the broker: {0}";
  "arke-log-icu.error.client.brokerconnect.log=Client {1} error connecting to the broker: {0}";
  "arke-log-icu.error.exchangedeclare.log=Error creating exchange: {0}";
  "arke-log-icu.error.client.exchangedeclare.log=Client {1} error creating exchange: {0}";
  "arke-log-icu.error.queuedeclare.log=Error from queue create: {0}";
  "arke-log-icu.error.client.queuedeclare.log=Client {1} error from queue create: {0}";
  "arke-log-icu.error.queuebind.log=Error from bind: {0}";
  "arke-log-icu.error.client.queuebind.log=Client {1} error from bind: {0}";
  "arke-log-icu.error.noclientuuid.log=Could not retrieve client UUID: {0}";
  "arke-log-icu.error.clientsubscribe.log=Error subscribing client {0} queue {1}: {2}";
  "arke-log-icu.error.publish.log=Failed to publish a message: {0}";
  "arke-log-icu.error.client.publish.log=Client {1} failed to publish a message: {0}";
  "arke-log-icu.error.subscribe.log=Error in subscribe: {0}";
  "arke-log-icu.error.client.subscribe.log=Client {1} error in subscribe: {0}";
  "arke-log-icu.error.streamsend.log=Error sending on stream for {1}: {0}";
  "arke-log-icu.error.clientnoprovider.log=Could not find connection information for {0}";
  "arke-log-icu.error.metricsserve.log=Could not serve metrics handler: {0}";
  "arke-log-icu.error.parsing.port.log=Error parsing PORT environment variable: {0}";
  "arke-log-icu.error.addresstype.log={0} is not a valid address type";
  "arke-log-icu.info.starting.log=Serving on port {0}";
  "arke-log-icu.info.clientconnected.log={0} is connected";
  "arke-log-icu.info.exchangedeclare.log=Declaring exchange {0}";
  "arke-log-icu.info.binding.log=Binding to Queue/Key/Exchange: {0}/{1}/{2}";
  "arke-log-icu.info.clientsubscribe.log=Client {0} subscribed to {1}";
  "arke-log-icu.info.clientdisconnect.log=Client {0} disconnected";
  "arke-log-icu.info.clientdetailsgone.log=Broker details for {0} no longer exist. Client initiated disconnect.";
  "arke-log-icu.info.clientconnect.log=Client {0} connecting to broker {1}";
  "arke-log-icu.info.clientconnected.broker.log=Client {0} connected to broker";
  "arke-log-icu.info.unsupportedsourceoption.log=Unsupported source option: {0}";
  "arke-log-icu.info.client.unsupportedsourceoption.log=Client {1} unsupported source option: {0}";
  "arke-log-icu.debug.clientpublished.log=Client {0} published a message";
  "arke-log-icu.debug.acknomessage.log=Client {0} attempted to ack unknown message {1}";
  "arke-log-icu.debug.ackmessage.log=Client {0} acked message {1}";
  "arke-log-icu.debug.nacknomessage.log=Client {0} attempted to nack unknown message {1}";
  "arke-log-icu.debug.nackmessage.log=Client {0} nacked message {1}";
  "arke-log-icu.debug.retrynomessage.log=Client {0} attempted to retry unknown message {1}";
  "arke-log-icu.debug.retrymessage.log=Client {0} retried message {1} with delay {2}";
  "arke-log-icu.info.subscribefailbutclientexists.log=Client {0} failed subscribe with: {1}";
  "arke-log-icu.info.exchangebind.log=Binding exchange {0} to {1} with key {2}";
  "arke-log-icu.error.streamsubscribemax.log=Client {0} has reached {1} max subscribes on a single stream. Stopping Consume RPC.";
  "arke-log-icu.error.consumerecvchan.log=Client {0} Consume stream received an error: {1}";
  "arke-log-icu.error.clientfailedidentifier.log=Error determining client identifier from context for {0}: {1}";
  "arke-log-icu.info.rfrule.log=Routing key and filter rule exists. Not adding to subscription {0} for {1}";
  "arke-log-icu.info.rulelist.log=Error listing rules on subscription {0} for {1}: {2}";
  "arke-log-icu.error.ruleadd.log=Error adding rule on subscription {0} for {1}: {2} with error {3}";
  "arke-log-icu.error.ruledel.log=Error deleting rule on subscription {0} for {1}: {2} with error {3}";
  "arke-log-icu.info.scaled.log={0} HPA scaled up from {1} to {2}. Asking clients to GOAWAY";
  "arke-log-icu.debug.healthnotify.log=Health notification code {0} sent to {1}";
  "arke-log-icu.debug.ensurechannelerror.log=Error ensuring channel on connection for {0}: {1}";
  "arke-log-icu.info.subscribefatal.log=Client {0} received a fatal error from provider Subscribe. Closing stream. {1}";
  "arke-log-icu.info.failedinittelemetryexporter.log=Failed to initialize telemetry exporter: {0}";
  "arke-log-icu.error.tls.log=Could not load TLS cert and key: {0}";
  "arke-log-icu.error.otel.shutdown.log=Error shutting down OTEL tracer provider: {0}";
  "arke-log-icu.error.otel.init.log=Error initializing OTEL tracer provider: {0}";
  "arke-log-icu.info.ratelimiterInitialized2.log=Rate limiter has been initialized with bucket size {0}, refillInterval {1}, maxAgeStaleClient {2}";
  "arke-log-icu.warn.rateLimiterNoClientIdentifer.log=Rate limiter could not get client identifier";
  "arke-log-icu.warn.rateLimitExceeded2.log=Rate limit exceeded with clientIdentifier {0}, maxEventRateLimit {1}, maxEventRateBurst {2}, availableTokens {3}, rateLimitEnforced {4}";
  "arke-log-icu.warn.couldNotCreateRateLimiter.log=Could not create rate limiter: {0}";
  "arke-log-icu.warn.couldNotCreateRateLimiterFromEnv.log=Could not initialize rate limiter with env vars: {0}";
  "arke-log-icu.warn.invalidRateLimitParameters.log=Invalid rate limit parameters";
  "arke-log-icu.warn.invalidBucketSize.log=Invalid bucket size, rate limiting will be disabled: {0}";
  "arke-log-icu.warn.invalidMaxAge.log=Invalid max age for stale clients, rate limiting will be disabled: {0}";
  "arke-log-icu.warn.invalidRefillInterval.log=Invalid refill interval, rate limiting will be disabled: {0}";
  ""
].

Definition properties : string := join (String newline "") property_lines.

Definition bundle : gmap string string := (newPropertiesBundle properties).1.

(** The whole file is read. *)
Lemma properties_read : (newPropertiesBundle properties).2 = true.
Proof. by vm_compute. Qed.

(** Keys that no line of the file translates. *)
Definition untranslated : list string := filter (λ k, bundle !! k = None) messageIDs.

(** All keys are different, and all but two have a text. *)
Lemma keys_different : NoDup messageIDs.
Proof. apply (bool_decide_unpack _). by vm_compute. Qed.

Lemma untranslated_keys : untranslated = [InvalidRateParameters; HPAScaled].
Proof. by vm_compute. Qed.

(** The warning that the parameters of the rate limiter are wrong is logged as
    its key, without the reason. *)
Lemma rate_warning args : Forall (λ a, no_brace a = true) args →
  T bundle InvalidRateParameters args = "arke-log-icu.warn.invalidRateParameters.log".
Proof.
  intros Hargs. unfold T.
  assert (default InvalidRateParameters (bundle !! InvalidRateParameters) = template [Lit InvalidRateParameters]) as ->
    by (by vm_compute).
  rewrite substitute_from; [by vm_compute| |done]. constructor; [by vm_compute|constructor].
Qed.

End Messages.
