(* ===== verification/Logging.v ===== *)
(** * [internal/util/zerolog.go], [logger.go], [file_logger.go]: the logger

    The logger of the process, which is made once, and its methods, which
    translate a message before it is written. What the logging library does with
    an event, and which words it takes for a level, is its own: [ParseLevel] is
    a parameter and events are recorded. Files are numbers. *)

From Stdlib Require Import Ascii String.
From stdpp Require Import base gmap strings list fin_maps option.
From Stdlib Require Import ZArith Lia.
From S2P Require Import Prelude GoStrings Translations.

Module Logging.
Open Scope list_scope.

Inductive Level := TraceLevel | DebugLevel | InfoLevel | WarnLevel | ErrorLevel | FatalLevel | OtherLevel (n : Z).

(** Of the library, which levels there are words for. *)
Class Zerolog := { ParseLevel : string → option Level }.

(** A [zerolog.Logger]: the file it writes to, whether as text for a terminal,
    and its level. *)
Record zlogger_of := { file : nat; console : bool; level : Level }.

(** A translating logger; its translations are those of the process. *)
Record ArkeLogger := { logger : option zlogger_of }.

(** The variables of the package. *)
Record loggers := mkLoggers {
  Logger : option ArkeLogger;
  loggerSyncOnce : bool;
  zlogger : option zlogger_of;
  zloggerSyncOnce : bool;
  events : list (zlogger_of * Level * string);
  closed : list nat
}.

Definition emit (z : zlogger_of) (l : Level) (msg : string) : prog loggers () :=
  modify (λ s, mkLoggers (Logger s) (loggerSyncOnce s) (zlogger s) (zloggerSyncOnce s) (events s ++ [(z, l, msg)]) (closed s)).

Definition EnvLogFormat : string := "ARKE_LOG_FORMAT".
Definition EnvLogLevel : string := "ARKE_LOG_LEVEL".

Section logging.
Context `{Zerolog} (Getenv : string → string) (messages : gmap string string).

(** The level, and a complaint. *)
Definition loadAndParseLevel : Level * error :=
  let envLevel := to_lower (Getenv EnvLogLevel) in
  if String.eqb envLevel "" then (InfoLevel, None)
  else
    match ParseLevel envLevel with
    | None => (InfoLevel, Some ("invalid log level, defaulting to INFO: " +:+ envLevel))
    | Some level => (level, None)
    end.

Definition createFileLogger (file : nat) : prog loggers (option zlogger_of) :=
  done ← gets zloggerSyncOnce;
  (if (done : bool) then mret ()
   else
     let '(level, err) := loadAndParseLevel in
     let l := {| file := file; console := String.eqb (Getenv EnvLogFormat) "term"; level := level |} in
     (match (err : error) with Some e => emit l WarnLevel e | None => mret () end);;
     modify (λ s, mkLoggers (Logger s) (loggerSyncOnce s) (Some l) true (events s) (closed s)));;
  gets zlogger.

Definition NewArkeFileLogger (file : nat) : prog loggers (option ArkeLogger) :=
  done ← gets loggerSyncOnce;
  (if (done : bool) then mret ()
   else
     zl ← createFileLogger file;
     modify (λ s, mkLoggers (Some {| logger := zl |}) true (zlogger s) (zloggerSyncOnce s) (events s) (closed s)));;
  gets Logger.

(** [os.Stderr] *)
Definition LogOutputFile : nat := 2.

Definition NewArkeLogger : prog loggers (option ArkeLogger) := NewArkeFileLogger LogOutputFile.

Definition ResetLogger : prog loggers () :=
  modify (λ s, mkLoggers None false None false (events s) (closed s)).

Definition write (l : ArkeLogger) (lv : Level) (msg : string) : prog loggers () :=
  match logger l with
  | Some z => emit z lv msg
  | None => panic "invalid memory address or nil pointer dereference"
  end.

(** [Info], [Warn], [Debug], [Trace], [Error] and [Fatal], of their level; the
    last one ends the program. *)
Definition log (l : ArkeLogger) (lv : Level) (messageID : string) (args : list string) : prog loggers () :=
  write l lv (Translations.T messages messageID args).

(** [Debugf] and [Tracef], of a text that is already formatted. *)
Definition logf (l : ArkeLogger) (lv : Level) (text : string) : prog loggers () := write l lv text.

(** A logger on a new pipe [r], [w], and what undoes it. *)
Definition GetTestLoggerWithCleanup (r w : nat) : prog loggers (option ArkeLogger * prog loggers ()) :=
  ResetLogger;;
  l ← NewArkeFileLogger w;
  mret (l,
    modify (λ s, mkLoggers (Logger s) (loggerSyncOnce s) (zlogger s) (zloggerSyncOnce s) (events s) (closed s ++ [w; r]));;
    NewArkeFileLogger LogOutputFile;;
    mret ()).

(** ** Properties *)

(** The logger is made once: whatever file is asked for later, the first one is
    returned. *)
Lemma logger_made_once file file' s :
  let s' := snd (NewArkeFileLogger file s) in
  NewArkeFileLogger file' s' = (Ret (Logger s'), s').
Proof.
  intros s'. enough (loggerSyncOnce s' = true) as Hd.
  { unfold NewArkeFileLogger at 1. unfold gets, mbind, prog_bind. by rewrite Hd. }
  subst s'. unfold NewArkeFileLogger, createFileLogger, gets, modify, mbind, prog_bind, mret, prog_ret, emit.
  destruct (loggerSyncOnce s) eqn:Hl; cbn; [done|]. destruct (zloggerSyncOnce s); cbn; [done|].
  destruct loadAndParseLevel as [lv [e|]]; done.
Qed.

(** A level that is not known is complained about at once, and is the default. *)
Lemma unknown_level file s :
  zloggerSyncOnce s = false → to_lower (Getenv EnvLogLevel) ≠ "" → ParseLevel (to_lower (Getenv EnvLogLevel)) = None →
  ∃ z s', createFileLogger file s = (Ret (Some z), s') ∧ level z = InfoLevel ∧ Logging.file z = file ∧
    events s' = events s ++ [(z, WarnLevel, "invalid log level, defaulting to INFO: " +:+ to_lower (Getenv EnvLogLevel))].
Proof.
  intros Hs Hne Hp. unfold createFileLogger, gets, mbind, prog_bind. rewrite Hs. unfold loadAndParseLevel. cbv zeta.
  rewrite (proj2 (String.eqb_neq _ _) Hne), Hp. by do 2 eexists.
Qed.

(** What is undone is not the logger: afterwards it is still the one of the test,
    on the pipe that is closed. *)
Lemma cleanup_keeps_logger r w s :
  ∃ l cleanup s1 s2, GetTestLoggerWithCleanup r w s = (Ret (Some l, cleanup), s1) ∧ cleanup s1 = (Ret (), s2) ∧
    Logger s2 = Some l ∧ file <$> logger l = Some w ∧ w ∈ closed s2.
Proof.
  unfold GetTestLoggerWithCleanup, ResetLogger, NewArkeFileLogger, createFileLogger, gets, modify, mbind, prog_bind, mret, prog_ret, emit.
  cbn. destruct loadAndParseLevel as [lv [e|]]; cbn; do 4 eexists; split_and!; try done; cbn; set_solver.
Qed.

End logging.
End Logging.
